(* ===== verification/_CoqProject ===== *)
-Q . S2P
Prelude.v
GoText.v
GoTime.v
Timestamp.v
Sha256.v
Json.v
JsonFacts.v
JsonParse.v
JsonTyped.v
JsonRaw.v
SeqLog.v
Db.v
Yaml.v
Ledger.v
Lease.v
Queue.v
Logs.v
Coordination.v
Service.v
Billing.v
Crm.v
Ticketing.v
Messaging.v
Registry.v
Manifest.v
Compiler.v
World.v
WorldFacts.v
Authz.v
AuthzPolicy.v
Chaos.v
ChaosPolicy.v
Dispatch.v
Interrupt.v
Messages.v
Transcript.v
Runner.v
Worker.v
DispatchFacts.v
System.v
RunnerFacts.v
Termination.v
Protocol.v
WorkerFacts.v
Local.v
Gate.v
Checkpoint.v
Rand.v
Runs.v
Regexp.v
Eval.v
EvalFacts.v
Tables.v
Assertion.v
AssertionFacts.v
Reconstruct.v
Fork.v
ForkFacts.v
Enforced.v
ForkCompare.v
Replay.v
ReplayFacts.v
Isolation.v
Counterfactual.v
CounterfactualFacts.v
