(* ===== verification/Prelude.v ===== *)
(** * Twinwright: a verification library

    Twinwright runs an agent against simulated company services, its twins, and
    records everything the agent did, so that a run can be resumed after a crash,
    audited, replayed, forked and judged.  This library models the program below
    its command line and proves what it promises.  Every definition is executable
    and translated from the Go source under src/internal; the examples of each
    file are evaluated by the kernel.

    ** How the program works, and where each part is modelled

    The state is one SQL database.  [Db] has a finite map per table, keyed by its
    primary key, and a clock.  A statement is a function of that state, a
    transaction ([Tx], [DbTx]) a function that ends in a value and a new state or
    in an error, [atomically] its commit or rollback, and [DbIO] a sequence of
    transactions of one process.

    - Text, time and encodings: [GoText] (strings, strconv), [GoTime] and
      [Timestamp] (time, store/timestamp.go), [Sha256], [Json], [JsonFacts],
      [JsonParse], [JsonTyped], [JsonRaw] (encoding/json, byte for byte, numbers
      included), [Yaml] (trees of nodes), [Rand] (math/rand/v2's PCG), [Regexp].
    - The store (internal/store): [Ledger] appends numbered events and saves
      turns; [Lease] has leases, fences and the guarded writes; [Queue] the
      queue of runs and the workers' table; [Logs] and [SeqLog] what the two
      append-only logs keep; [Runs] seeds worlds and creates runs.
      [Coordination] has every store operation as a step of a transition system.
    - The twins: [Service] has what the services share, [Billing], [Crm],
      [Ticketing] and [Messaging] one function per behavior and the dispatch on
      its name, [Registry] the table of built-in behaviors.
    - Interfaces (internal/compiler): [Manifest] and [Compiler] compile a
      document to a manifest and check one, [World] and [WorldFacts] do so for
      worlds of several services.
    - Policies: [Authz] decides and [AuthzPolicy] parses authorization policies;
      [Chaos] decides and [ChaosPolicy] parses rules that inject faults.
    - Tool calls (internal/dispatch): [Dispatch] is the one transaction of a
      call, from its fence to its saved result; [DispatchFacts] what it does.
    - The runner (internal/agent): [Messages], [Transcript] and [Interrupt] are
      the conversation as it is stored, [Runner] the loop over model turns and
      calls, [RunnerFacts] and [Termination] what it does.  [Protocol] states as
      a relation on the run's own rows which step is allowed when, and that the
      loop follows it.  A provider is an arbitrary function.
    - Workers (internal/worker): [Worker], [WorkerFacts] and [Local].
    - [System] composes store and calls: a step is any of them by anyone.
    - After a run: [Eval] and [EvalFacts] judge worlds and runs, [Tables],
      [Assertion] and [AssertionFacts] check assertion files, [Gate] compares two
      benchmark reports, [Checkpoint] lists the points a run can be forked at
      and [Reconstruct] executes a recorded prefix again.
    - Forks and what is built on them: [Fork] (fork/fork.go, observation.go,
      replay.go) continues a run from a checkpoint in a world of its own,
      [ForkFacts] says what it leaves alone and what it copies, [Enforced] that a
      run's configuration and policies stay, [ForkCompare]
      (fork/compare.go) compares it with its parent.  [Replay] and [ReplayFacts]
      (replay/replay.go) execute a recording again and compare.  [Isolation] is
      what an execution leaves alone; [Counterfactual] (counterfactual/*.go) and
      [CounterfactualFacts] plan, fork, execute and rank interventions.

    ** What is proved

    - Coordination: a superseded fence never writes
      ([superseded_worker_is_out]), fences grow, a claim takes the run that waited
      longest, and every claim is accounted for ([claim_accounted]).
    - Calls: exactly once under retries and crashes ([tool_call_exactly_once]),
      all or nothing, every effect recorded ([no_unrecorded_effect]), and
      authorization, chaos and validation as their documents say.
    - Invariants: balanced books, legal statuses, well-formed leases and queue and
      gapless ledgers in every reachable database ([system_invariants]; with
      seeding, creation and forks [program_sound]).
    - Executions follow their protocol: what is dispatched, recorded and ended,
      and when, is decided by the run's rows alone ([execution_follows_protocol]).
      They end ([execution_terminates]), resume ([model_request_resumed]) and are
      sequences of steps of the system, so the theorems on steps hold during them.
    - Documents: what the parsers accept, what is stored of it and that it reads
      back; compilation does not depend on the order of a map, nor a policy and
      its digest on the order of its lists ([parsed_policy_meaning]); and the
      policies a run was created with are the ones every later decision loads
      ([created_run_enforces]).
    - Judgements: evaluators, assertions, analyses and the gate answer what a
      declarative reading of the ledger and the tables says.
    - History: a checkpoint's digest commits to its prefix, the scan lists
      exactly the boundaries, and a reconstruction is a real execution that says
      what the recording says ([reconstruction_sound]).
    - Forks: a fork and an execution leave every other world and run as it was
      ([fork_isolated], [execution_isolated]), a comparison lists exactly the
      differences ([compare_exact]), a replay is verified exactly when it agrees
      with the recording ([replay_verdict_exact]) and compares a real execution
      ([replayed_store_sound]).
    - Counterfactuals: only failing root runs are analysed, one variable at a
      time ([analysis_prepared]), the report says what happened
      ([analysis_report]) and nothing there was is changed ([analysis_intact]).

    ** Bounds and fuel

    Integers of the program are [Z] with [wrap64] where Go's int64 can overflow
    and range checks where SQL or JSON refuse; floats are IEEE binary64
    ([spec_float]).  Parsers of text take the length of what is left as fuel and
    never run out.  Three loops end only with enough fuel, and a theorem gives
    it: the random draw ([seeding_total]), [Execute] ([execution_terminates]) and
    a worker's loop ([serve_stops]).

    ** What is not modelled, and why

    - Outside code is a parameter: the YAML decoder ([YamlNodes], [WorldYaml],
      [SpecYaml]), the driver's binding of odd SQL arguments ([SqlBind]), random
      bytes, providers and clocks.
    - Opening databases, migrations and the PostgreSQL dialect (store/migrate.go,
      store/postgres.go, pgsql): SQL text for a driver.  Databases from before the
      current schema, which lack tables, are therefore not covered, nor is the
      UNIQUE constraint on event ids, which numbered ids never violate.
    - HTTP providers, cassettes, child processes and containers (agent/*.go beside
      the runner, container): they are instances of the provider parameter.
    - Drivers over the modelled parts (bench, shadow, crashmatrix, cmd) and
      observers (trace, metrics, perf, redact): they compose or print.
    - Replays of databases from before policies had tables.  In a counterfactual
      analysis: a cancelled context, other writers meanwhile, and a YAML alias
      inside its own anchor, which is no value of the type of bodies.
    - encoding/json matches the keys of a struct without regard to case; here
      they are matched exactly, as the program writes them.  strings.ToLower is
      modelled as far as the patterns it is matched against can see. *)

From stdpp Require Export prelude strings gmap list fin_maps sorting.
From Stdlib Require Export ZArith Lia.

#[global] Set Default Goal Selector "!".

Declare Scope tx_scope.
Delimit Scope tx_scope with tx.

(** ** Results *)

(** A Go function that ends in [(T, error)] returns one of the two. *)
Inductive res (E A : Type) : Type :=
| Ok (a : A)
| Err (e : E).
Arguments Ok {E A} a.
Arguments Err {E A} e.

Definition is_ok {E A} (r : res E A) : bool :=
  match r with Ok _ => true | Err _ => false end.

(** ** Transactions *)

(** [Tx S E A] is the body of a [*sql.Tx]: it reads and writes the database
    state [S] and either returns a value with the new state or an error.  The
    state reached at an error is not observable, because every caller of a
    failing body rolls the transaction back. *)
Definition Tx (S E A : Type) : Type := S -> res E (A * S).

(** [IO S E A] is code outside a transaction: what it committed before an
    error stays committed. *)
Definition IO (S E A : Type) : Type := S -> res E A * S.

Section Monads.
Context {S E : Type}.

Definition tret {A} (a : A) : Tx S E A := fun s => Ok (a, s).
Definition tfail {A} (e : E) : Tx S E A := fun _ => Err e.
Definition tbind {A B} (m : Tx S E A) (k : A -> Tx S E B) : Tx S E B :=
fun s => match m s with
 | Ok (a, s') => k a s'
 | Err e => Err e
 end.
(** [treads f] is a query: it returns [f] of the current state. *)
Definition treads {A} (f : S -> A) : Tx S E A := fun s => Ok (f s, s).
(** [tmodify f] is a statement that always succeeds. *)
Definition tmodify (f : S -> S) : Tx S E unit := fun s => Ok (tt, f s).
(** [tlift r] returns a pure result inside a transaction. *)
Definition tlift {A} (r : res E A) : Tx S E A :=
fun s => match r with Ok a => Ok (a, s) | Err e => Err e end.
(** [tassert b e] is [if !b { return e }]. *)
Definition tassert (b : bool) (e : E) : Tx S E unit :=
if b then tret tt else tfail e.
(** [tsome o e] reads a row: [e] when there is none. *)
Definition tsome {A} (o : option A) (e : E) : Tx S E A :=
match o with Some a => tret a | None => tfail e end.
Fixpoint tfor {A} (l : list A) (f : A -> Tx S E unit) : Tx S E unit :=
match l with
| [] => tret tt
| x :: l' => tbind (f x) (fun _ => tfor l' f)
end.
Fixpoint tfold {A B} (f : B -> A -> Tx S E B) (b : B) (l : list A) : Tx S E B :=
match l with
| [] => tret b
| x :: l' => tbind (f b x) (fun b' => tfold f b' l')
end.

Definition ioret {A} (a : A) : IO S E A := fun s => (Ok a, s).
Definition iofail {A} (e : E) : IO S E A := fun s => (Err e, s).
Definition iobind {A B} (m : IO S E A) (k : A -> IO S E B) : IO S E B :=
fun s => match m s with
 | (Ok a, s') => k a s'
 | (Err e, s') => (Err e, s')
 end.
(** [iotry m k] inspects the error of [m] instead of returning it. *)
Definition iotry {A B} (m : IO S E A) (k : res E A -> IO S E B) : IO S E B :=
fun s => let '(r, s') := m s in k r s'.
Definition ioreads {A} (f : S -> A) : IO S E A := fun s => (Ok (f s), s).
Definition iolift {A} (r : res E A) : IO S E A := fun s => (r, s).

(** [BeginTx; body; Commit] with [defer tx.Rollback()]: an error anywhere in
the body leaves the database as it was. *)
Definition atomically {A} (m : Tx S E A) : IO S E A :=
fun s => match m s with
 | Ok (a, s') => (Ok a, s')
 | Err e => (Err e, s)
 end.
End Monads.

Notation "'let*' x := c1 'in' c2" := (tbind c1 (fun x => c2))
  (at level 10, x name, c1 at level 100, c2 at level 200,
   format "'[v' 'let*'  x  :=  c1  'in' '/' c2 ']'") : tx_scope.
Notation "'let*' ' p := c1 'in' c2" := (tbind c1 (fun p => c2))
  (at level 10, p strict pattern, c1 at level 100, c2 at level 200,
   format "'[v' 'let*'  ' p  :=  c1  'in' '/' c2 ']'") : tx_scope.
Notation "c1 ;;; c2" := (tbind c1 (fun _ => c2))
  (at level 100, c2 at level 200, right associativity) : tx_scope.
Notation "'io*' x := c1 'in' c2" := (iobind c1 (fun x => c2))
  (at level 10, x name, c1 at level 100, c2 at level 200,
   format "'[v' 'io*'  x  :=  c1  'in' '/' c2 ']'") : tx_scope.
Notation "'io*' ' p := c1 'in' c2" := (iobind c1 (fun p => c2))
  (at level 10, p strict pattern, c1 at level 100, c2 at level 200,
   format "'[v' 'io*'  ' p  :=  c1  'in' '/' c2 ']'") : tx_scope.

(** *** Inversion of successful transactions *)

Section MonadLemmas.
Context {S E : Type}.

Lemma tbind_ok {A B} (m : Tx S E A) (k : A -> Tx S E B) s r :
tbind m k s = Ok r <-> exists a s', m s = Ok (a, s') /\ k a s' = Ok r.
Proof.
unfold tbind. destruct (m s) as [[a s']|e]; split.
- eauto.
- by intros (? & ? & [= <- <-] & ?).
- done.
- by intros (? & ? & ? & ?).
Qed.

Lemma tbind_assoc {A B C} (m : Tx S E A) (k : A -> Tx S E B) (h : B -> Tx S E C) s :
tbind (tbind m k) h s = tbind m (fun a => tbind (k a) h) s.
Proof. unfold tbind. by destruct (m s) as [[]|]. Qed.

Lemma tbind_ret {A B} (a : A) (k : A -> Tx S E B) s : tbind (tret a) k s = k a s.
Proof. reflexivity. Qed.

Lemma tfold_cons {A B} (f : B -> A -> Tx S E B) b x l s :
tfold f b (x :: l) s = match f b x s with Ok (b', s') => tfold f b' l s' | Err e => Err e end.
Proof. reflexivity. Qed.

Lemma tassert_ok b (e : E) (s : S) r :
tassert b e s = Ok r <-> b = true /\ r = (tt, s).
Proof. unfold tassert, tret, tfail. destruct b; naive_solver. Qed.

Lemma tsome_ok {A} (o : option A) (e : E) (s : S) a s' :
tsome o e s = Ok (a, s') <-> o = Some a /\ s' = s.
Proof. unfold tsome, tret, tfail. destruct o; naive_solver. Qed.

Lemma tlift_ok {A} (r : res E A) (s : S) a s' :
tlift r s = Ok (a, s') <-> r = Ok a /\ s' = s.
Proof. unfold tlift. destruct r; naive_solver. Qed.

Lemma iobind_eq {A B} (m : IO S E A) (k : A -> IO S E B) s a s' :
m s = (Ok a, s') -> iobind m k s = k a s'.
Proof. unfold iobind. by intros ->. Qed.

(** A committed body is the transaction; a failed one leaves no trace. *)
Lemma atomically_ok {A} (m : Tx S E A) s a s' :
atomically m s = (Ok a, s') <-> m s = Ok (a, s').
Proof. unfold atomically. destruct (m s) as [[]|]; naive_solver. Qed.

Lemma atomically_err {A} (m : Tx S E A) s e s' :
atomically m s = (Err e, s') <-> m s = Err e /\ s' = s.
Proof. unfold atomically. destruct (m s) as [[]|]; naive_solver. Qed.
End MonadLemmas.

Lemma Ok_pair {S E A} (a b : A) (s s' : S) : @Ok E _ (a, s) = Ok (b, s') <-> a = b /\ s = s'.
Proof. split; [by intros [= -> ->]|by intros [-> ->]]. Qed.

(** [tx_inv] takes every successful transaction in the context apart. *)
Ltac tx_inv_step :=
  match goal with
  | H : tbind _ _ _ = Ok _ |- _ =>
      let a := fresh "a" in let s := fresh "s" in
      apply tbind_ok in H as (a & s & ? & H);
      match type of a with prod _ _ => destruct a | unit => destruct a | _ => idtac end; simpl in H
  | H : tret _ _ = Ok _ |- _ => unfold tret in H; injection H; clear H; intros; subst
  | H : treads _ _ = Ok _ |- _ => unfold treads in H; injection H; clear H; intros; subst
  | H : tmodify _ _ = Ok _ |- _ => unfold tmodify in H; injection H; clear H; intros; subst
  | H : tfail _ _ = Ok _ |- _ => discriminate H
  | H : tassert _ _ _ = Ok _ |- _ => apply tassert_ok in H as [? H]; simplify_eq
  | H : tsome _ _ _ = Ok _ |- _ => apply tsome_ok in H as [? ?]; simplify_eq
  | H : tlift _ _ = Ok _ |- _ => apply tlift_ok in H as [? ?]; simplify_eq
  | H : Ok _ = Ok _ |- _ => injection H; clear H; intros; subst
  | H : Err _ = Ok _ |- _ => discriminate H
  end.
Ltac tx_inv := repeat tx_inv_step; simplify_eq/=.

(** [tx_cases] also splits the conditionals and matches it meets. *)
Ltac tx_case_step :=
  match goal with
  | H : (if ?b then _ else _) _ = Ok _ |- _ => destruct b eqn:?
  | H : (match ?x with _ => _ end) _ = Ok _ |- _ => destruct x eqn:?
  | H : (match ?x with _ => _ end) = Ok _ |- _ => destruct x eqn:?
  end.
Ltac tx_cases := repeat (first [progress tx_inv | tx_case_step]); simplify_eq/=.

(** ** Pure results *)

Section Results.
Context {E : Type}.
Definition rbind {A B} (m : res E A) (k : A -> res E B) : res E B := match m with Ok a => k a | Err e => Err e end.
(** [if !b { return e }] *)
Definition rassert (b : bool) (e : E) : res E unit := if b then Ok tt else Err e.
Definition rsome {A} (o : option A) (e : E) : res E A := match o with Some a => Ok a | None => Err e end.
(** A loop that returns the first error, one that also carries a state, and
one that builds a list. *)
Fixpoint rfor {A} (l : list A) (f : A -> res E unit) : res E unit :=
match l with [] => Ok tt | x :: l' => rbind (f x) (fun _ => rfor l' f) end.
Fixpoint rfold {A B} (f : B -> A -> res E B) (b : B) (l : list A) : res E B :=
match l with [] => Ok b | x :: l' => rbind (f b x) (fun b' => rfold f b' l') end.
Fixpoint rmap {A B} (f : A -> res E B) (l : list A) : res E (list B) :=
match l with [] => Ok [] | x :: l' => rbind (f x) (fun y => rbind (rmap f l') (fun ys => Ok (y :: ys))) end.
Definition rwrap {E' A} (w : E -> E') (m : res E A) : res E' A := match m with Ok a => Ok a | Err e => Err (w e) end.

Lemma rbind_ok {A B} (m : res E A) (k : A -> res E B) b : rbind m k = Ok b <-> exists a, m = Ok a /\ k a = Ok b.
Proof. unfold rbind. destruct m; naive_solver. Qed.
Lemma rassert_ok b (e : E) u : rassert b e = Ok u <-> b = true.
Proof. unfold rassert. destruct b, u; naive_solver. Qed.
Lemma rassert_bind {B} b (e : E) (k : res E B) r : rbind (rassert b e) (fun _ => k) = Ok r <-> b = true /\ k = Ok r.
Proof. rewrite rbind_ok. setoid_rewrite rassert_ok. split; [by intros (_ & ?)|by intros ?; exists tt]. Qed.
Lemma rbind_unit {B} (m : res E unit) (k : res E B) r : rbind m (fun _ => k) = Ok r <-> m = Ok tt /\ k = Ok r.
Proof. rewrite rbind_ok. split; [by intros ([] & ?)|by intros ?; exists tt]. Qed.
Lemma Ok_inj {A} (a b : A) : @Ok E A a = Ok b <-> b = a.
Proof. naive_solver. Qed.
Lemma rsome_ok {A} (o : option A) (e : E) a : rsome o e = Ok a <-> o = Some a.
Proof. unfold rsome. destruct o; naive_solver. Qed.
Lemma rwrap_ok {E' A} (w : E -> E') (m : res E A) a : rwrap w m = Ok a <-> m = Ok a.
Proof. unfold rwrap. destruct m; naive_solver. Qed.
Lemma rfor_ok {A} (l : list A) (f : A -> res E unit) u : rfor l f = Ok u <-> Forall (fun x => f x = Ok tt) l.
Proof.
destruct u. induction l as [|x l IH]; cbn; [by split|]. rewrite rbind_ok, Forall_cons, <- IH.
split; [by intros ([] & Hx & Hl)|intros [Hx Hl]; by exists tt].
Qed.
Lemma rmap_ok {A B} (f : A -> res E B) l l' : rmap f l = Ok l' <-> Forall2 (fun x y => f x = Ok y) l l'.
Proof.
revert l'. induction l as [|x l IH]; intros l'; cbn; [split; [by intros [= <-]|by intros ->%Forall2_nil_inv_l]|].
rewrite rbind_ok. setoid_rewrite rbind_ok. setoid_rewrite IH. split.
- intros (y & Hy & ys & Hys & [= <-]). by constructor.
- intros (y & ys & Hy & Hys & ->)%Forall2_cons_inv_l. eauto.
Qed.
Lemma rmap_out {A B} (f : A -> res E B) (good : A -> Prop) (out : A -> B) :
(forall x y, f x = Ok y <-> good x /\ y = out x) -> forall l l', rmap f l = Ok l' <-> Forall good l /\ l' = map out l.
Proof.
intros Hf l l'. rewrite rmap_ok. split.
- induction 1 as [|x y l l' [Hg ->]%Hf _ [IH ->]]; cbn; [done|]. split; [by constructor|done].
- intros [Hg ->]. induction Hg as [|x l Hx _ IH]; cbn; constructor; [by apply Hf|done].
Qed.
(** An invariant of the state and of the elements still to come. *)
Lemma rfold_inv {A B} (f : B -> A -> res E B) (P : list A -> B -> Prop) l0 b0 b1 :
P l0 b0 -> (forall b x l b', P (x :: l) b -> f b x = Ok b' -> P l b') -> rfold f b0 l0 = Ok b1 -> P [] b1.
Proof.
intros H0 Hstep. revert b0 H0. induction l0 as [|x l IH]; cbn; intros b0 H0; [by intros [= <-]|].
intros (b & Hb & Hl)%rbind_ok. eauto.
Qed.
Lemma rfold_app {A B} (f : B -> A -> res E B) b l1 l2 : rfold f b (l1 ++ l2) = rbind (rfold f b l1) (fun b' => rfold f b' l2).
Proof. revert b. induction l1 as [|x l1 IH]; intros b; cbn; [done|]. destruct (f b x); cbn; [apply IH|done]. Qed.
(** A loop that collects what it has seen and refuses a key it met before:
it accepts exactly the lists of good elements with distinct keys. *)
Definition new_keys {B K} (key : B -> K) (seen new : list B) : Prop :=
NoDup (map key new) /\ forall b, b ∈ new -> key b ∉ map key seen.
Lemma new_keys_nil {B K} (key : B -> K) new : new_keys key [] new <-> NoDup (map key new).
Proof. split; [by intros []|]. intros Hnd. split; [done|]. intros b _ Hin. by apply elem_of_nil in Hin. Qed.
Lemma new_keys_empty {B K} (key : B -> K) seen : new_keys key seen [].
Proof. split; [constructor|]. by intros b Hb%elem_of_nil. Qed.
Lemma new_keys_cons {B K} (key : B -> K) seen b new : new_keys key seen (b :: new) <-> key b ∉ map key seen /\ new_keys key (seen ++ [b]) new.
Proof.
unfold new_keys. cbn [map]. rewrite NoDup_cons. setoid_rewrite elem_of_cons. setoid_rewrite map_app. setoid_rewrite elem_of_app. cbn [map].
setoid_rewrite list_elem_of_singleton. split.
- intros [[Hn Hnd] Hf]. split_and!; [by apply Hf; left|done|]. intros o Ho [Hin|Heq]; [by apply (Hf o); [right|]|].
apply Hn. rewrite <- Heq. by apply list_elem_of_fmap_2.
- intros (Hn & Hnd & Hf). split; [split; [|done]|].
+ intros (o & Ho & Hin)%list_elem_of_fmap. apply (Hf o Hin). by right.
+ intros o [->|Ho]; [done|]. intros Hin. apply (Hf o Ho). by left.
Qed.
Lemma new_keys_app {B K} (key : B -> K) seen new1 new2 :
new_keys key seen (new1 ++ new2) <-> new_keys key seen new1 /\ new_keys key (seen ++ new1) new2.
Proof.
revert seen. induction new1 as [|b new1 IH]; intros seen; cbn [app].
- rewrite app_nil_r. split; [|by intros []]. intros Hn. split; [|done]. apply new_keys_empty.
- rewrite !new_keys_cons, IH, <- app_assoc. cbn [app]. tauto.
Qed.
Lemma rfold_seen {A B K} (f : list B -> A -> res E (list B)) (good : A -> Prop) (out : A -> B) (key : B -> K) :
(forall seen x seen', f seen x = Ok seen' <-> good x /\ key (out x) ∉ map key seen /\ seen' = seen ++ [out x]) ->
forall l seen seen', rfold f seen l = Ok seen' <-> Forall good l /\ new_keys key seen (map out l) /\ seen' = seen ++ map out l.
Proof.
intros Hf l. induction l as [|x l IH]; intros seen seen'; cbn [rfold map].
- rewrite app_nil_r. split; [intros [= <-]; split_and!; [done|apply new_keys_empty|done]|by intros (_ & _ & ->)].
- rewrite rbind_ok, Forall_cons, new_keys_cons. setoid_rewrite Hf. split.
+ intros (s1 & (Hg & Hn & ->) & (Hl & Hd & ->)%IH). by rewrite <- app_assoc.
+ intros ([Hg Hl] & [Hn Hd] & ->). exists (seen ++ [out x]). split; [done|]. apply IH. by rewrite <- app_assoc.
Qed.
End Results.

Notation "'try*' x := c1 'in' c2" := (rbind c1 (fun x => c2))
  (at level 10, x name, c1 at level 100, c2 at level 200,
   format "'[v' 'try*'  x  :=  c1  'in' '/' c2 ']'") : tx_scope.
Notation "'try*' ' p := c1 'in' c2" := (rbind c1 (fun p => c2))
  (at level 10, p strict pattern, c1 at level 100, c2 at level 200,
   format "'[v' 'try*'  ' p  :=  c1  'in' '/' c2 ']'") : tx_scope.

(** [res_inv] takes every successful result in the context apart. *)
Ltac res_inv_step :=
  match goal with
  | H : rbind _ _ = Ok _ |- _ =>
      let a := fresh "a" in apply rbind_ok in H as (a & ? & H);
      match type of a with unit => destruct a | prod _ _ => destruct a | _ => idtac end; simpl in H
  | H : rassert _ _ = Ok _ |- _ => apply rassert_ok in H
  | H : rsome _ _ = Ok _ |- _ => apply rsome_ok in H
  | H : rwrap _ _ = Ok _ |- _ => apply rwrap_ok in H
  | H : rfor _ _ = Ok _ |- _ => apply rfor_ok in H
  | H : Ok _ = Ok _ |- _ => injection H; clear H; intros; subst
  | H : Err _ = Ok _ |- _ => discriminate H
  end.
Ltac res_inv := repeat res_inv_step.

(** ** What a transaction may change *)

(** [respects R m]: every successful run of [m] moves the state along [R].
    With [R s s'] taken as [f s' = f s] it is a frame condition, and with
    [I s -> I s'] an invariant. *)
Definition respects {S E A} (R : S -> S -> Prop) (m : Tx S E A) : Prop :=
  forall s a s', m s = Ok (a, s') -> R s s'.

Section Respects.
Context {S E : Type} (R : S -> S -> Prop) `{!PreOrder R}.

Lemma respects_ret {A} (a : A) : respects R (tret (E:=E) a).
Proof. intros s ? s' ?. tx_inv. reflexivity. Qed.
Lemma respects_fail {A} (e : E) : respects R (tfail (A:=A) e).
Proof. by intros s ? s' ?. Qed.
Lemma respects_reads {A} (f : S -> A) : respects R (treads (E:=E) f).
Proof. intros s ? s' ?. tx_inv. reflexivity. Qed.
Lemma respects_lift {A} (r : res E A) : respects R (tlift (S:=S) r).
Proof. intros s ? s' ?. tx_inv. reflexivity. Qed.
Lemma respects_assert b (e : E) : respects R (tassert (S:=S) b e).
Proof. intros s ? s' ?. tx_inv. reflexivity. Qed.
Lemma respects_some {A} (o : option A) (e : E) : respects R (tsome (S:=S) o e).
Proof. intros s ? s' ?. tx_inv. reflexivity. Qed.
Lemma respects_modify (f : S -> S) :
(forall s, R s (f s)) -> respects R (tmodify (E:=E) f).
Proof. intros Hf s ? s' ?. tx_inv. apply Hf. Qed.
Lemma respects_bind {A B} (m : Tx S E A) (k : A -> Tx S E B) :
respects R m -> (forall a, respects R (k a)) -> respects R (tbind m k).
Proof.
intros Hm Hk s b s' (a & s1 & H1 & H2)%tbind_ok.
etransitivity; [eapply Hm | eapply Hk]; done.
Qed.
Lemma respects_for {A} (l : list A) (f : A -> Tx S E unit) :
(forall x, respects R (f x)) -> respects R (tfor l f).
Proof.
intros Hf. induction l; simpl; [apply respects_ret|].
apply respects_bind; auto.
Qed.
Lemma respects_fold {A B} (f : B -> A -> Tx S E B) b (l : list A) :
(forall b x, respects R (f b x)) -> respects R (tfold f b l).
Proof.
intros Hf. revert b. induction l; intros b; simpl; [apply respects_ret|].
apply respects_bind; auto.
Qed.

(** A whole transaction moves along [R] whether it commits or rolls back. *)
Lemma atomically_respects {A} (m : Tx S E A) s r s' :
respects R m -> atomically m s = (r, s') -> R s s'.
Proof.
intros Hm. destruct r as [a|e].
- intros H%atomically_ok. by eapply Hm.
- intros [_ ->]%atomically_err. reflexivity.
Qed.
End Respects.

Create HintDb tx discriminated.
#[export] Hint Resolve respects_ret respects_fail respects_reads respects_lift
  respects_assert respects_some respects_bind respects_for respects_fold : tx.

(** [respects_tac] walks a transaction body and leaves the statements that
    write. *)
Ltac respects_step :=
  match goal with
  | |- respects _ (tbind _ _) => apply respects_bind; [| |intros]
  | |- respects _ (tret _) => apply respects_ret
  | |- respects _ (tfail _) => apply respects_fail
  | |- respects _ (treads _) => apply respects_reads
  | |- respects _ (tlift _) => apply respects_lift
  | |- respects _ (tassert _ _) => apply respects_assert
  | |- respects _ (tsome _ _) => apply respects_some
  | |- respects _ (tfor _ _) => apply respects_for; [|intros]
  | |- respects _ (tfold _ _ _) => apply respects_fold; [|intros]
  | |- respects _ (if ?b then _ else _) => destruct b eqn:?
  | |- respects _ (let '(_, _) := ?x in _) => destruct x
  | |- respects _ (match ?x with _ => _ end) => destruct x
  | |- PreOrder _ => apply _
  end.
Ltac respects_tac := repeat (respects_step; cbn beta zeta); auto with tx.

(** Frames: [m] does not touch the part of the state [f] projects. *)
Definition same {S X} (f : S -> X) (s s' : S) : Prop := f s' = f s.
#[export] Instance same_preorder {S X} (f : S -> X) : PreOrder (same f).
Proof. split; unfold same; [done|]. intros ? ? ? ? ?. congruence. Qed.

(** Invariants. *)
Definition keeps {S} (I : S -> Prop) (s s' : S) : Prop := I s -> I s'.
#[export] Instance keeps_preorder {S} (I : S -> Prop) : PreOrder (keeps I).
Proof. split; unfold keeps; [by intros ??|]. intros ? ? ? ? ?. auto. Qed.

(** ** Lists *)

Lemma NoDup_omap_inj_in {A B} (f : A -> option B) (l : list A) :
  (forall x1 x2 y, x1 ∈ l -> x2 ∈ l -> f x1 = Some y -> f x2 = Some y -> x1 = x2) -> NoDup l -> NoDup (omap f l).
Proof.
  intros Hinj Hl. induction Hl as [|x l Hx Hnd IH]; cbn; [constructor|].
  assert (NoDup (omap f l)) as Hl by (apply IH; intros; eapply Hinj; try (by right); done).
  destruct (f x) as [y|] eqn:Hf; [|done]. constructor; [|done].
  intros (x' & Hx' & Hf')%list_elem_of_omap. rewrite (Hinj x x' y) in Hx; [done|left|by right|done|done].
Qed.
Lemma NoDup_omap_inj {A B} (f : A -> option B) (l : list A) :
  (forall x1 x2 y, f x1 = Some y -> f x2 = Some y -> x1 = x2) -> NoDup l -> NoDup (omap f l).
Proof. intros Hinj. apply NoDup_omap_inj_in. eauto. Qed.

Lemma NoDup_map_inj {A B} (f : A -> B) (l : list A) x y :
  NoDup (map f l) -> x ∈ l -> y ∈ l -> f x = f y -> x = y.
Proof.
  induction l as [|z l IH]; cbn; [intros _ Hx; by apply elem_of_nil in Hx|].
  intros [Hz Hnd]%NoDup_cons [->|Hx]%elem_of_cons [->|Hy]%elem_of_cons Hf; [done| | |by apply IH].
  - exfalso. apply Hz. rewrite Hf. by apply list_elem_of_fmap_2.
  - exfalso. apply Hz. rewrite <- Hf. by apply list_elem_of_fmap_2.
Qed.

Lemma map_prefix {A B} (f : A -> B) l1 l2 : l1 `prefix_of` l2 -> map f l1 `prefix_of` map f l2.
Proof. intros [k ->]. rewrite map_app. by apply prefix_app_r. Qed.

(** ** Maps *)

(** A property of every row of a concrete table, by evaluation. *)
Lemma map_check `{Countable K} {V} (m : gmap K V) (P : K -> V -> bool) :
  forallb (fun kv => P kv.1 kv.2) (map_to_list m) = true -> forall k v, m !! k = Some v -> P k v = true.
Proof.
  intros Hall k v Hk%elem_of_map_to_list. rewrite forallb_forall in Hall.
  apply (Hall (k, v)). by apply list_elem_of_In.
Qed.

(** ** Arithmetic *)

Lemma mod_mod_divide (a n k : Z) : (0 < n -> 0 < k -> (a mod (n * k)) mod n = a mod n)%Z.
Proof. intros. rewrite Z.rem_mul_r by lia. rewrite Z.add_mod, Z.mul_comm, Z.mod_mul, Z.add_0_r, !Z.mod_mod by lia. done. Qed.

(** ** Step relations *)

(** States reachable from [init] through [step]. *)
Inductive reachable {S} (init : S -> Prop) (step : S -> S -> Prop) : S -> Prop :=
| reachable_init s : init s -> reachable init step s
| reachable_step s s' : reachable init step s -> step s s' -> reachable init step s'.

Lemma reachable_invariant {S} (init : S -> Prop) (step : S -> S -> Prop) (I : S -> Prop) :
  (forall s, init s -> I s) ->
  (forall s s', I s -> step s s' -> I s') ->
  forall s, reachable init step s -> I s.
Proof. intros Hi Hs s. induction 1; eauto. Qed.
