(* ===== verification/GoText.v ===== *)
(** * Text as the program uses it

    Go strings are byte strings.  This file holds what the modelled packages
    take from [strings], [sort], [strconv] and [encoding/hex], and the text
    comparison of SQL: byte-wise order, [instr] and the ASCII [lower] of
    SQLite.  It also holds fixed-width decimals and the lemma that their text
    order is their numeric order, on which the lease timestamps rely. *)

From Stdlib Require Import Ascii.
From stdpp Require Export pretty.
From S2P Require Export Prelude.
Open Scope Z_scope.

(** ** Bytes *)

Definition byte_of (c : ascii) : N := N_of_ascii c.
Definition bytes_of (s : string) : list Z := map (fun c => Z.of_N (N_of_ascii c)) (String.list_ascii_of_string s).
Definition of_bytes (l : list Z) : string := String.string_of_list_ascii (map (fun z => ascii_of_N (Z.to_N z)) l).

Definition str_eqb (a b : string) : bool := bool_decide (a = b).
Definition str_ltb (a b : string) : bool := String.ltb a b.
Definition str_leb (a b : string) : bool := String.leb a b.

Lemma str_eqb_true a b : str_eqb a b = true <-> a = b.
Proof. unfold str_eqb. by rewrite bool_decide_eq_true. Qed.
Lemma str_eqb_false a b : str_eqb a b = false <-> a <> b.
Proof. unfold str_eqb. by rewrite bool_decide_eq_false. Qed.
Lemma str_eqb_refl a : str_eqb a a = true.
Proof. by apply str_eqb_true. Qed.

Lemma str_leb_refl a : str_leb a a = true.
Proof.
  unfold str_leb, String.leb. destruct (a ?= a)%string eqn:Hc; try done.
  exfalso. pose proof (String.compare_antisym a a) as Ha. rewrite Hc in Ha. done.
Qed.

(** [str_ltb] is a strict order. *)
Lemma ltb_le x y : str_ltb x y = true -> String.le x y /\ x <> y.
Proof.
unfold str_ltb, String.ltb, String.le, String.leb. intros H. destruct (String.compare x y) eqn:E; [done| |done]. split; [done|]. intros ->.
pose proof (String.compare_antisym y y) as Ha. by rewrite E in Ha.
Qed.
Lemma ltb_neither x y : str_ltb x y = false -> str_ltb y x = false -> x = y.
Proof.
unfold str_ltb, String.ltb. intros H1 H2. pose proof (String.compare_antisym x y) as Ha. apply String.compare_eq_iff.
by destruct (String.compare x y), (String.compare y x).
Qed.
Lemma str_ltb_trans a b c : str_ltb a b = true -> str_ltb b c = true -> str_ltb a c = true.
Proof.
intros H1 H2. destruct (str_ltb a c) eqn:E; [done|]. exfalso. apply ltb_le in H1 as [L1 N1], H2 as [L2 N2].
destruct (str_ltb c a) eqn:E'.
- apply ltb_le in E' as [L3 N3]. apply N1. apply (anti_symm String.le); [done|]. by etransitivity.
- pose proof (ltb_neither _ _ E E') as ->. apply N1. by apply (anti_symm String.le).
Qed.
Lemma str_ltb_irrefl a : str_ltb a a = false.
Proof. destruct (str_ltb a a) eqn:E; [|done]. by apply ltb_le in E as [_ []]. Qed.

(** [bool_inv] turns boolean tests in the context into propositions. *)
Ltac bool_inv_step :=
  match goal with
  | H : negb _ = true |- _ => apply negb_true_iff in H
  | H : negb _ = false |- _ => apply negb_false_iff in H
  | H : _ && _ = true |- _ => apply andb_true_iff in H as [? ?]
  | H : _ || _ = false |- _ => apply orb_false_iff in H as [? ?]
  | H : str_eqb _ _ = true |- _ => apply str_eqb_true in H
  | H : str_eqb _ _ = false |- _ => apply str_eqb_false in H
  | H : (_ =? _) = true |- _ => apply Z.eqb_eq in H
  | H : (_ =? _) = false |- _ => apply Z.eqb_neq in H
  | H : (_ <? _) = true |- _ => apply Z.ltb_lt in H
  | H : (_ <? _) = false |- _ => apply Z.ltb_ge in H
  | H : (_ <=? _) = true |- _ => apply Z.leb_le in H
  | H : (_ <=? _) = false |- _ => apply Z.leb_gt in H
  | H : bool_decide _ = true |- _ => apply bool_decide_eq_true in H
  | H : bool_decide _ = false |- _ => apply bool_decide_eq_false in H
  end.
Ltac bool_inv := repeat bool_inv_step.

(** [contains(list, value)], and the membership tests on string sets. *)
Definition contains (l : list string) (v : string) : bool := existsb (str_eqb v) l.

Lemma contains_spec l v : contains l v = true <-> v ∈ l.
Proof.
  unfold contains. rewrite existsb_exists. split.
  - intros (x & Hx%list_elem_of_In & ->%str_eqb_true). done.
  - intros Hv%list_elem_of_In. exists v. by rewrite str_eqb_refl.
Qed.

Lemma not_contains l v : negb (contains l v) = true <-> v ∉ l.
Proof. rewrite negb_true_iff, <- contains_spec. by destruct (contains l v). Qed.

(** ** strings.TrimSpace *)

(** The UTF-8 encodings of the runes [unicode.IsSpace] accepts. *)
Definition space_encodings : list (list Z) :=
  [[9]; [10]; [11]; [12]; [13]; [32]; [194; 133]; [194; 160]; [225; 154; 128];
   [226; 128; 128]; [226; 128; 129]; [226; 128; 130]; [226; 128; 131];
   [226; 128; 132]; [226; 128; 133]; [226; 128; 134]; [226; 128; 135];
   [226; 128; 136]; [226; 128; 137]; [226; 128; 138]; [226; 128; 168];
   [226; 128; 169]; [226; 128; 175]; [226; 129; 159]; [227; 128; 128]].

Fixpoint strip_prefix (p l : list Z) : option (list Z) :=
  match p, l with
  | [], _ => Some l
  | x :: p', y :: l' => if x =? y then strip_prefix p' l' else None
  | _ :: _, [] => None
  end.

Fixpoint strip_any (ps : list (list Z)) (l : list Z) : option (list Z) :=
  match ps with
  | [] => None
  | p :: ps' => match strip_prefix p l with Some r => Some r | None => strip_any ps' l end
  end.

(** Each round removes at least one byte, so the length is enough fuel. *)
Fixpoint trim_left (ps : list (list Z)) (fuel : nat) (l : list Z) : list Z :=
  match fuel with
  | O => l
  | S fuel' => match strip_any ps l with
               | Some r => trim_left ps fuel' r
               | None => l
               end
  end.

Definition trim_space (s : string) : string :=
  let l := bytes_of s in
  let l1 := trim_left space_encodings (length l) l in
  let l2 := reverse (trim_left (map reverse space_encodings) (length l1) (reverse l1)) in
  of_bytes l2.

(** ** SQL text functions *)

Definition lower_byte (z : Z) : Z := if (65 <=? z) && (z <=? 90) then z + 32 else z.
Definition sql_lower (s : string) : string := of_bytes (map lower_byte (bytes_of s)).

Fixpoint has_prefix (p l : list Z) : bool :=
  match p, l with
  | [], _ => true
  | x :: p', y :: l' => (x =? y) && has_prefix p' l'
  | _ :: _, [] => false
  end.
Fixpoint has_infix (p l : list Z) : bool :=
  has_prefix p l || match l with [] => false | _ :: l' => has_infix p l' end.
(** [instr(s, p) > 0] *)
Definition sql_instr_pos (s p : string) : bool := has_infix (bytes_of p) (bytes_of s).

(** ** Decimal text *)

Definition digit (z : Z) : ascii := ascii_of_N (Z.to_N (48 + z)).
(** [pad_acc w n tail] is [n] in [w] decimal digits, with leading zeros, in
    front of [tail]. *)
Fixpoint pad_acc (w : nat) (n : Z) (tail : string) : string :=
  match w with
  | O => tail
  | S w' => pad_acc w' (n / 10) (String (digit (n mod 10)) tail)
  end.

(** [strconv.Itoa], and [%d]. *)
Definition itoa (z : Z) : string := pretty z.

(** *** Fixed-width decimals sort as numbers *)

Lemma ascii_compare_digit a b :
  0 <= a < 10 -> 0 <= b < 10 -> Ascii.compare (digit a) (digit b) = (a ?= b).
Proof.
  intros Ha Hb. unfold Ascii.compare, digit.
  rewrite !N_ascii_embedding by lia.
  rewrite <- N2Z.inj_compare, !Z2N.id by lia.
  destruct (Z.compare_spec a b); destruct (Z.compare_spec (48 + a) (48 + b)); lia || done.
Qed.

Lemma compare_cons c d s t :
  String.compare (String c s) (String d t) =
  match Ascii.compare c d with Eq => String.compare s t | r => r end.
Proof. done. Qed.

Lemma compare_same_char c s t :
  String.compare (String c s) (String c t) = String.compare s t.
Proof. rewrite compare_cons. unfold Ascii.compare. by rewrite N.compare_refl. Qed.

Lemma compare_pad w a b s t :
  0 <= a < 10 ^ Z.of_nat w -> 0 <= b < 10 ^ Z.of_nat w ->
  String.compare (pad_acc w a s) (pad_acc w b t) =
  match a ?= b with Eq => String.compare s t | r => r end.
Proof.
  revert a b s t. induction w as [|w IH]; intros a b s t Ha Hb.
  - change (10 ^ Z.of_nat 0) with 1 in *.
    replace a with 0 by lia. replace b with 0 by lia. done.
  - rewrite Nat2Z.inj_succ, Z.pow_succ_r in Ha, Hb by lia.
    cbn [pad_acc].
    rewrite IH by (split; [apply Z.div_pos; lia | apply Z.div_lt_upper_bound; lia]).
    rewrite compare_cons, ascii_compare_digit by (apply Z.mod_pos_bound; lia).
    pose proof (Z.div_mod a 10). pose proof (Z.div_mod b 10).
    pose proof (Z.mod_pos_bound a 10). pose proof (Z.mod_pos_bound b 10).
    destruct (Z.compare_spec (a / 10) (b / 10)); destruct (Z.compare_spec a b);
      destruct (Z.compare_spec (a mod 10) (b mod 10)); lia || done.
Qed.

(** *** Reading digits back *)

Definition digit_val (c : ascii) : option Z :=
  let z := Z.of_N (N_of_ascii c) in
  if (48 <=? z) && (z <=? 57) then Some (z - 48) else None.

Lemma digit_val_digit a : 0 <= a < 10 -> digit_val (digit a) = Some a.
Proof.
  intros Ha. unfold digit_val, digit. rewrite N_ascii_embedding by lia.
  rewrite Z2N.id by lia.
  destruct (Z.leb_spec 48 (48 + a)); [|lia].
  destruct (Z.leb_spec (48 + a) 57); [|lia]. cbn. f_equal. lia.
Qed.

(** ** Sorting *)

(** [sort.Strings] and [ORDER BY] on a text column with its binary order. *)
Definition sort_strings (l : list string) : list string := merge_sort String.le l.

Lemma sort_strings_permutation l l' : l ≡ₚ l' -> sort_strings l = sort_strings l'.
Proof.
  intros Hp. apply (StronglySorted_unique String.le); try apply _; try (apply StronglySorted_merge_sort; apply _).
  unfold sort_strings. by rewrite !merge_sort_Permutation.
Qed.

(** [sort_on key] sorts rows by a text key; rows with equal keys keep the
    order they came in only up to the merge sort used. *)
Definition key_le {A} (key : A -> string) (x y : A) : Prop := String.le (key x) (key y).
#[export] Instance key_le_dec {A} (key : A -> string) : RelDecision (key_le key).
Proof. intros x y. unfold key_le. apply _. Defined.
#[export] Instance key_le_trans {A} (key : A -> string) : Transitive (key_le key).
Proof. intros x y z. unfold key_le. apply transitivity. Qed.
#[export] Instance key_le_total {A} (key : A -> string) : Total (key_le key).
Proof. intros x y. unfold key_le. apply total, _. Qed.
Definition sort_on {A} (key : A -> string) (l : list A) : list A := merge_sort (key_le key) l.

Lemma sort_on_permutation {A} (key : A -> string) l : sort_on key l ≡ₚ l.
Proof. apply merge_sort_Permutation. Qed.
Lemma sort_on_sorted {A} (key : A -> string) l : StronglySorted (key_le key) (sort_on key l).
Proof. apply StronglySorted_merge_sort; apply _. Qed.
Lemma sort_on_elem {A} (key : A -> string) l x : x ∈ sort_on key l <-> x ∈ l.
Proof. by rewrite sort_on_permutation. Qed.

(** With distinct keys there is one sorted order. *)
Lemma sort_on_unique {A} (key : A -> string) l l' : NoDup (map key l) -> l ≡ₚ l' -> sort_on key l = sort_on key l'.
Proof.
  intros Hnd Hp. apply (StronglySorted_unique_strong (key_le key)); [|apply sort_on_sorted..|].
  - intros x y Hx Hy Hxy Hyx. rewrite sort_on_elem in Hx, Hy. rewrite <- Hp in Hy. apply (NoDup_map_inj key l); [done..|].
    by apply (anti_symm String.le).
  - by rewrite !sort_on_permutation.
Qed.

(** Two keys: [ORDER BY k1, k2]. *)
Definition lex_le {A} (k1 k2 : A -> string) (x y : A) : Prop :=
  (k1 x <> k1 y /\ String.le (k1 x) (k1 y)) \/ (k1 x = k1 y /\ String.le (k2 x) (k2 y)).
#[export] Instance lex_le_dec {A} (k1 k2 : A -> string) : RelDecision (lex_le k1 k2).
Proof. intros x y. unfold lex_le. apply _. Defined.
#[export] Instance lex_le_total {A} (k1 k2 : A -> string) : Total (lex_le k1 k2).
Proof.
  intros x y. unfold lex_le. destruct (decide (k1 x = k1 y)) as [->|Hne].
  - destruct (total String.le (k2 x) (k2 y)); tauto.
  - destruct (total String.le (k1 x) (k1 y)); [left|right]; left; split; congruence || done.
Qed.
#[export] Instance lex_le_trans {A} (k1 k2 : A -> string) : Transitive (lex_le k1 k2).
Proof.
  intros x y z. unfold lex_le. intros [[Hne1 H1]|[He1 H1]] [[Hne2 H2]|[He2 H2]].
  - left. split; [|by etransitivity]. intros Heq. rewrite <- Heq in H2. by apply Hne1, (anti_symm String.le).
  - left. by rewrite <- He2.
  - left. by rewrite He1.
  - right. split; [congruence|by etransitivity].
Qed.
Definition sort_on2 {A} (k1 k2 : A -> string) (l : list A) : list A := merge_sort (lex_le k1 k2) l.

(** ** strings.Split with a one-byte separator *)

Fixpoint split_bytes (sep : Z) (l : list Z) : list (list Z) :=
  match l with
  | [] => [[]]
  | c :: l' =>
      if c =? sep then [] :: split_bytes sep l'
      else match split_bytes sep l' with
           | part :: parts => (c :: part) :: parts
           | [] => [[c]]
           end
  end.
Definition split_on (sep : Z) (s : string) : list string := map of_bytes (split_bytes sep (bytes_of s)).

Example split_on_ex : split_on 46 "a.bc." = ["a"; "bc"; ""].
Proof. reflexivity. Qed.
