(* ===== verification/GoTime.v ===== *)
(** * Instants and their text forms

    A [time.Time] is an instant: nanoseconds since 0001-01-01T00:00:00Z, so
    that [time.Time{}] is [0] and [IsZero] is [=? 0].  The proleptic Gregorian
    calendar, [Format] for the layouts the program uses, and [Parse] for
    RFC 3339 (the strict reader Go uses for that layout) are executable.  The
    lemmas show that the calendar is increasing and that every formatted
    instant reads back. *)

From Stdlib Require Import Ascii.
From S2P Require Export GoText.
Open Scope Z_scope.

Abbreviation time := Z (only parsing).
Abbreviation duration := Z (only parsing).

Definition nanosecond : duration := 1.
Definition millisecond : duration := 1000000.
Definition second : duration := 1000000000.
Definition minute : duration := 60 * second.
Definition hour : duration := 60 * minute.
Definition day_ns : duration := 24 * hour.

Definition is_zero (t : time) : bool := t =? 0.
(** [t.After(u)], [t.Before(u)] *)
Definition after (t u : time) : bool := u <? t.
Definition before (t u : time) : bool := t <? u.

(** ** The calendar *)

(** Days before 1 January of year [y], counted from year 1. *)
Definition days_before (y : Z) : Z := 365 * (y - 1) + (y - 1) / 4 - (y - 1) / 100 + (y - 1) / 400.

Definition year_of (d : Z) : Z :=
  let y := (400 * d) / 146097 + 1 in
  if days_before (y + 1) <=? d then y + 1
  else if d <? days_before y then y - 1 else y.

Definition is_leap (y : Z) : bool :=
  (y mod 4 =? 0) && (negb (y mod 100 =? 0) || (y mod 400 =? 0)).

Definition days_in (m y : Z) : Z :=
  if m =? 2 then (if is_leap y then 29 else 28)
  else if (m =? 4) || (m =? 6) || (m =? 9) || (m =? 11) then 30 else 31.

Definition month_lengths (y : Z) : list Z := map (fun m => days_in m y) [1; 2; 3; 4; 5; 6; 7; 8; 9; 10; 11].

(** Splits a zero-based day of the year into month and zero-based day. *)
Fixpoint split_months (ml : list Z) (m d : Z) : Z * Z :=
  match ml with
  | [] => (m, d)
  | l :: ml' => if d <? l then (m, d) else split_months ml' (m + 1) (d - l)
  end.

Record civil := Civil { cyear : Z; cmonth : Z; cday : Z }.

Definition civil_of (d : Z) : civil :=
  let y := year_of d in
  let '(m, dd) := split_months (month_lengths y) 1 (d - days_before y) in
  Civil y m (dd + 1).

Definition sum_list (l : list Z) : Z := foldr Z.add 0 l.
Definition days_of (c : civil) : Z :=
  days_before (cyear c) + sum_list (take (Z.to_nat (cmonth c - 1)) (month_lengths (cyear c))) + (cday c - 1).

Lemma days_before_step y : days_before (y + 1) - days_before y = if is_leap y then 366 else 365.
Proof.
  unfold days_before, is_leap.
  destruct (Z.eqb_spec (y mod 4) 0), (Z.eqb_spec (y mod 100) 0), (Z.eqb_spec (y mod 400) 0);
    cbn [andb orb negb]; Z.div_mod_to_equations; lia.
Qed.

Lemma year_of_spec d : days_before (year_of d) <= d < days_before (year_of d + 1).
Proof.
  unfold year_of. set (y := 400 * d / 146097 + 1).
  assert (days_before (y - 1) <= d < days_before (y + 2)) as Hw.
  { unfold days_before, y. split; Z.div_mod_to_equations; lia. }
  destruct (Z.leb_spec (days_before (y + 1)) d).
  - replace (y + 1 + 1) with (y + 2) by lia. lia.
  - destruct (Z.ltb_spec d (days_before y)); [|lia].
    replace (y - 1 + 1) with y by lia. lia.
Qed.

Lemma days_in_bounds m y : 28 <= days_in m y <= 31.
Proof. unfold days_in. repeat case_match; lia. Qed.

Lemma month_lengths_pos y : Forall (fun l => 0 < l) (month_lengths y).
Proof.
  apply Forall_fmap, Forall_forall. intros m _. cbn.
  pose proof (days_in_bounds m y). lia.
Qed.

Lemma split_months_spec ml m d :
  Forall (fun l => 0 < l) ml -> 0 <= d ->
  exists k, split_months ml m d = (m + Z.of_nat k, d - sum_list (take k ml)) /\
            (k <= length ml)%nat /\ 0 <= d - sum_list (take k ml) /\
            (forall l, ml !! k = Some l -> d - sum_list (take k ml) < l).
Proof.
  revert m d. induction ml as [|l ml IH]; intros m d Hp Hd; cbn.
  - exists 0%nat. cbn. rewrite Z.add_0_r, Z.sub_0_r. naive_solver lia.
  - inversion_clear Hp as [|? ? Hl Hml]. destruct (Z.ltb_spec d l).
    + exists 0%nat. cbn. rewrite Z.add_0_r, Z.sub_0_r. split; [done|].
      split; [lia|]. split; [lia|]. intros ? [= <-]. lia.
    + destruct (IH (m + 1) (d - l) Hml) as (k & -> & Hk & Hr & Hlt); [lia|].
      exists (S k). change (sum_list (take (S k) (l :: ml))) with (l + sum_list (take k ml)).
      replace (d - (l + sum_list (take k ml))) with (d - l - sum_list (take k ml)) by lia.
      rewrite Nat2Z.inj_succ. replace (m + Z.succ (Z.of_nat k)) with (m + 1 + Z.of_nat k) by lia.
      split; [done|]. split; [cbn; lia|]. split; [lia|]. done.
Qed.

Lemma split_months_mono ml m d1 d2 :
  d1 < d2 ->
  let '(m1, r1) := split_months ml m d1 in let '(m2, r2) := split_months ml m d2 in
  m <= m1 /\ (m1 < m2 \/ m1 = m2 /\ r1 < r2).
Proof.
  revert m d1 d2. induction ml as [|l ml IH]; intros m d1 d2 Hd; cbn; [lia|].
  destruct (Z.ltb_spec d1 l), (Z.ltb_spec d2 l); [lia| |lia|].
  - pose proof (IH (m + 1) (d2 - l) (d2 - l + 1) ltac:(lia)) as H2.
    destruct (split_months ml (m + 1) (d2 - l)), (split_months ml (m + 1) (d2 - l + 1)). lia.
  - specialize (IH (m + 1) (d1 - l) (d2 - l) ltac:(lia)).
    destruct (split_months ml (m + 1) (d1 - l)), (split_months ml (m + 1) (d2 - l)). lia.
Qed.

Lemma sum_month_lengths y : sum_list (month_lengths y) = if is_leap y then 335 else 334.
Proof. unfold month_lengths, days_in. cbn. destruct (is_leap y); done. Qed.

(** The calendar date determines the day. *)
Lemma days_of_civil_of d : days_of (civil_of d) = d.
Proof.
  unfold civil_of. pose proof (year_of_spec d) as Hy.
  destruct (split_months_spec (month_lengths (year_of d)) 1 (d - days_before (year_of d)))
    as (k & -> & _ & Hr & _); [apply month_lengths_pos|lia|].
  unfold days_of. cbn [cyear cmonth cday].
  replace (Z.to_nat (1 + Z.of_nat k - 1)) with k by lia. lia.
Qed.

Lemma days_before_mono y1 y2 : y1 <= y2 -> days_before y1 <= days_before y2.
Proof. unfold days_before. intros. Z.div_mod_to_equations; lia. Qed.

Lemma civil_of_bounds d :
  0 <= d < days_before 10000 ->
  let c := civil_of d in 1 <= cyear c <= 9999 /\ 1 <= cmonth c <= 12 /\ 1 <= cday c <= days_in (cmonth c) (cyear c).
Proof.
  intros Hd. unfold civil_of. pose proof (year_of_spec d) as Hy.
  set (y := year_of d) in *.
  destruct (split_months_spec (month_lengths y) 1 (d - days_before y))
    as (k & Hk & Hlen & Hr & Hlt); [apply month_lengths_pos|lia|]. rewrite Hk. cbn [cyear cmonth cday].
  split.
  - destruct (decide (y < 1)) as [Hlo|Hlo].
    { pose proof (days_before_mono (y + 1) 1 ltac:(lia)). change (days_before 1) with 0 in *. lia. }
    destruct (decide (10000 <= y)) as [Hhi|Hhi]; [|lia].
    pose proof (days_before_mono 10000 y ltac:(lia)). lia.
  - change (length (month_lengths y)) with 11%nat in Hlen. split; [lia|]. split; [lia|].
    destruct (decide (k = 11%nat)) as [->|Hne].
    + rewrite take_ge by done. rewrite sum_month_lengths.
      pose proof (days_before_step y). change (1 + Z.of_nat 11) with 12. unfold days_in. cbn.
      destruct (is_leap y); lia.
    + destruct (lookup_lt_is_Some_2 (month_lengths y) k) as [l Hl]; [cbn; lia|].
      specialize (Hlt l Hl).
      assert (l = days_in (1 + Z.of_nat k) y) as ->; [|lia].
      unfold month_lengths in Hl. rewrite list_lookup_fmap in Hl.
      do 11 (destruct k as [|k]; [cbn in Hl; by injection Hl as <-|]). lia.
Qed.

(** ** Order of broken-down instants *)

Fixpoint lex (a b : list Z) : comparison :=
  match a, b with
  | x :: a', y :: b' => match x ?= y with Eq => lex a' b' | r => r end
  | [], [] => Eq
  | [], _ => Lt
  | _, [] => Gt
  end.

Lemma civil_lex d1 d2 :
  lex [cyear (civil_of d1); cmonth (civil_of d1); cday (civil_of d1)]
      [cyear (civil_of d2); cmonth (civil_of d2); cday (civil_of d2)] = (d1 ?= d2).
Proof.
  assert (forall a b, a < b ->
    cyear (civil_of a) < cyear (civil_of b) \/ cyear (civil_of a) = cyear (civil_of b) /\
    (cmonth (civil_of a) < cmonth (civil_of b) \/ cmonth (civil_of a) = cmonth (civil_of b) /\
     cday (civil_of a) < cday (civil_of b))) as Hmono.
  { intros a b Hab. unfold civil_of.
    pose proof (year_of_spec a) as Ha. pose proof (year_of_spec b) as Hb.
    assert (year_of a <= year_of b) as Hle.
    { destruct (decide (year_of b + 1 <= year_of a)) as [Hgt|]; [|lia].
      pose proof (days_before_mono _ _ Hgt). lia. }
    destruct (decide (year_of a = year_of b)) as [He|Hne].
    - rewrite He in *.
      pose proof (split_months_mono (month_lengths (year_of b)) 1 (a - days_before (year_of b)) (b - days_before (year_of b)) ltac:(lia)) as Hm.
      destruct (split_months _ _ (a - _)), (split_months _ _ (b - _)). cbn. lia.
    - destruct (split_months _ _ (a - _)), (split_months _ _ (b - _)). cbn. lia. }
  unfold lex. destruct (Z.compare_spec d1 d2) as [->|H|H].
  - by rewrite !Z.compare_refl.
  - specialize (Hmono _ _ H). repeat (case_match; rewrite ?Z.compare_eq_iff, ?Z.compare_gt_iff in *); lia || done.
  - specialize (Hmono _ _ H). repeat (case_match; rewrite ?Z.compare_eq_iff, ?Z.compare_lt_iff in *); lia || done.
Qed.

(** ** Format *)

Definition day_of (t : time) : Z := t / day_ns.
Definition hour_of (t : time) : Z := (t mod day_ns) / hour.
Definition minute_of (t : time) : Z := (t mod hour) / minute.
Definition second_of (t : time) : Z := (t mod minute) / second.
Definition nano_of (t : time) : Z := t mod second.

(** The layouts write the year in four digits, so the text forms are those of
    years 0001 to 9999. *)
Definition max_time : time := days_before 10000 * day_ns.
Definition valid_time (t : time) : Prop := 0 <= t < max_time.
#[export] Instance valid_time_dec t : Decision (valid_time t).
Proof. unfold valid_time. apply _. Defined.

(** "2006-01-02T15:04:05", followed by [tail]. *)
Definition date_time_text (t : time) (tail : string) : string :=
  let c := civil_of (day_of t) in
  pad_acc 4 (cyear c) (String "-" (pad_acc 2 (cmonth c) (String "-" (pad_acc 2 (cday c) (String "T"
  (pad_acc 2 (hour_of t) (String ":" (pad_acc 2 (minute_of t) (String ":" (pad_acc 2 (second_of t) tail)))))))))).

(** "Z07:00" for a zone [off] seconds east of UTC. *)
Definition zone_text (off : Z) : string :=
  if off =? 0 then "Z"
  else String (if off <? 0 then "-" else "+")
         (pad_acc 2 (Z.abs off / 3600) (String ":" (pad_acc 2 (Z.abs off mod 3600 / 60) ""))).

(** [t.Format(time.RFC3339)] for an instant shown in the zone [off]. *)
Definition format_rfc3339 (t : time) (off : Z) : string :=
  date_time_text (t + off * second) (zone_text off).

(** The fraction of [time.RFC3339Nano]: nothing for a whole second, and
    otherwise the nine digits without their trailing zeros. *)
Fixpoint trim_zeros (w : nat) (n : Z) (tail : string) : string :=
  match w with
  | O => tail
  | S w' => if n mod 10 =? 0 then trim_zeros w' (n / 10) tail else pad_acc w n tail
  end.
Definition format_rfc3339nano (t : time) : string :=
  date_time_text t (if nano_of t =? 0 then "Z" else String "." (trim_zeros 9 (nano_of t) "Z")).

(** ** Parse *)

Fixpoint parse_digits (acc : Z) (l : list ascii) : option Z :=
  match l with
  | [] => Some acc
  | c :: l' => match digit_val c with Some d => parse_digits (acc * 10 + d) l' | None => None end
  end.
Definition parse_uint (l : list ascii) (lo hi : Z) : option Z :=
  match parse_digits 0 l with
  | Some x => if (x <? lo) || (hi <? x) then None else Some x
  | None => None
  end.

(** The digits after a "." and what follows them; at most nine count. *)
Fixpoint parse_fraction (w : nat) (acc : Z) (l : list ascii) : Z * list ascii :=
  match l with
  | c :: l' => match digit_val c with
               | Some d => match w with
                           | O => parse_fraction O acc l'
                           | S w' => parse_fraction w' (acc + d * 10 ^ Z.of_nat w') l'
                           end
               | None => (acc, l)
               end
  | [] => (acc, l)
  end.

Definition parse_zone (l : list ascii) : option Z :=
  match l with
  | ["Z"%char] => Some 0
  | [s; h1; h2; c; m1; m2] =>
      match parse_uint [h1; h2] 0 23, parse_uint [m1; m2] 0 59 with
      | Some h, Some m =>
          if Ascii.eqb c ":" && (Ascii.eqb s "+" || Ascii.eqb s "-")
          then Some ((if Ascii.eqb s "-" then -1 else 1) * (h * 60 + m) * 60)
          else None
      | _, _ => None
      end
  | _ => None
  end.

(** [time.Parse(time.RFC3339, s)] and [time.Parse(time.RFC3339Nano, s)]: the
    instant, and the zone the text gives (0 for UTC). *)
Definition parse_rfc3339 (s : string) : option (time * Z) :=
  match String.list_ascii_of_string s with
  | y1 :: y2 :: y3 :: y4 :: e1 :: m1 :: m2 :: e2 :: d1 :: d2 :: e3 ::
    h1 :: h2 :: e4 :: i1 :: i2 :: e5 :: s1 :: s2 :: rest =>
      match parse_uint [y1; y2; y3; y4] 0 9999, parse_uint [m1; m2] 1 12,
            parse_uint [h1; h2] 0 23, parse_uint [i1; i2] 0 59, parse_uint [s1; s2] 0 59 with
      | Some y, Some m, Some h, Some mi, Some sec =>
          match parse_uint [d1; d2] 1 (days_in m y) with
          | Some d =>
              if Ascii.eqb e1 "-" && Ascii.eqb e2 "-" && Ascii.eqb e3 "T" && Ascii.eqb e4 ":" && Ascii.eqb e5 ":" then
                let '(ns, zone) :=
                  match rest with
                  | dot :: c :: l => if Ascii.eqb dot "." && bool_decide (is_Some (digit_val c))
                                     then parse_fraction 9 0 (c :: l) else (0, rest)
                  | _ => (0, rest)
                  end in
                match parse_zone zone with
                | Some off =>
                    Some (days_of (Civil y m d) * day_ns + h * hour + mi * minute + sec * second + ns - off * second, off)
                | None => None
                end
              else None
          | None => None
          end
      | _, _, _, _, _ => None
      end
  | _ => None
  end.

Example parse_ex : parse_rfc3339 "2026-01-02T03:04:05.5+01:30" = Some (739617 * day_ns + 5645 * second + 500 * millisecond, 5400).
Proof. vm_compute. reflexivity. Qed.
Example format_ex : format_rfc3339nano (739617 * day_ns + 11045 * second + 500 * millisecond) = "2026-01-02T03:04:05.5Z".
Proof. vm_compute. reflexivity. Qed.

(** ** The text forms read back *)

Lemma ascii_eqb_refl c : Ascii.eqb c c = true.
Proof. apply Ascii.eqb_refl. Qed.

Lemma parse_uint2 n lo hi :
  0 <= n < 100 -> lo <= n <= hi ->
  parse_uint [digit (n / 10 mod 10); digit (n mod 10)] lo hi = Some n.
Proof.
  intros Hn Hr. unfold parse_uint. cbn [parse_digits].
  rewrite !digit_val_digit by (apply Z.mod_pos_bound; lia).
  replace ((0 * 10 + n / 10 mod 10) * 10 + n mod 10) with n by (Z.div_mod_to_equations; lia).
  destruct (Z.ltb_spec n lo), (Z.ltb_spec hi n); cbn; lia || done.
Qed.

Lemma parse_uint4 n lo hi :
  0 <= n < 10000 -> lo <= n <= hi ->
  parse_uint [digit (n / 10 / 10 / 10 mod 10); digit (n / 10 / 10 mod 10); digit (n / 10 mod 10); digit (n mod 10)] lo hi = Some n.
Proof.
  intros Hn Hr. unfold parse_uint. cbn [parse_digits].
  rewrite !digit_val_digit by (apply Z.mod_pos_bound; lia).
  match goal with |- context [if (?x <? _) || _ then _ else _] => replace x with n by (Z.div_mod_to_equations; lia) end.
  destruct (Z.ltb_spec n lo), (Z.ltb_spec hi n); cbn; lia || done.
Qed.

Lemma time_fields_bounds t :
  0 <= hour_of t < 24 /\ 0 <= minute_of t < 60 /\ 0 <= second_of t < 60 /\ 0 <= nano_of t < second.
Proof.
  unfold hour_of, minute_of, second_of, nano_of, day_ns, hour, minute, second.
  repeat split; Z.div_mod_to_equations; lia.
Qed.

Lemma time_fields_sum t :
  day_of t * day_ns + hour_of t * hour + minute_of t * minute + second_of t * second + nano_of t = t.
Proof.
  unfold day_of, hour_of, minute_of, second_of, nano_of, day_ns, hour, minute, second.
  Z.div_mod_to_equations; lia.
Qed.

Lemma valid_day t : valid_time t -> 0 <= day_of t < days_before 10000.
Proof.
  unfold valid_time, max_time, day_of. intros [H1 H2].
  split; [by apply Z.div_pos|]. apply Z.div_lt_upper_bound; [done|]. lia.
Qed.

(** The nine-digit fraction reads back. *)
Lemma parse_fraction_nonzero_tail w acc c l :
  digit_val c = None -> parse_fraction w acc (c :: l) = (acc, c :: l).
Proof. intros Hc. destruct w; cbn; by rewrite Hc. Qed.

(** [parse_body]: reading a formatted date and time leaves the tail. *)
Lemma parse_date_time t tail ns zone off :
  valid_time t ->
  (match String.list_ascii_of_string tail with
   | dot :: c :: l => if Ascii.eqb dot "." && bool_decide (is_Some (digit_val c))
                      then parse_fraction 9 0 (c :: l) else (0, String.list_ascii_of_string tail)
   | _ => (0, String.list_ascii_of_string tail)
   end) = (ns, zone) ->
  parse_zone zone = Some off ->
  parse_rfc3339 (date_time_text t tail) = Some (t - nano_of t + ns - off * second, off).
Proof.
  intros Ht Htail Hzone. pose proof (valid_day t Ht) as Hd.
  destruct (civil_of_bounds _ Hd) as (Hy & Hm & Hday). cbn zeta in *.
  pose proof (days_in_bounds (cmonth (civil_of (day_of t))) (cyear (civil_of (day_of t)))).
  destruct (time_fields_bounds t) as (Hh & Hmi & Hs & _).
  unfold date_time_text, parse_rfc3339. cbn [pad_acc String.list_ascii_of_string].
  rewrite parse_uint4 by lia. rewrite !parse_uint2 by lia.
  rewrite !ascii_eqb_refl. cbn [andb]. rewrite Htail, Hzone.
  f_equal. f_equal. pose proof (time_fields_sum t).
  assert (days_of (Civil (cyear (civil_of (day_of t))) (cmonth (civil_of (day_of t))) (cday (civil_of (day_of t)))) = day_of t) as ->.
  { rewrite <- (days_of_civil_of (day_of t)) at 4. by destruct (civil_of (day_of t)). }
  lia.
Qed.

Lemma parse_fraction_pad w k acc n tail :
  0 <= n < 10 ^ Z.of_nat w ->
  parse_fraction (w + k) acc (String.list_ascii_of_string (pad_acc w n tail)) =
  parse_fraction k (acc + n * 10 ^ Z.of_nat k) (String.list_ascii_of_string tail).
Proof.
  revert k acc n tail. induction w as [|w IH]; intros k acc n tail Hn.
  - change (10 ^ Z.of_nat 0) with 1 in Hn. replace n with 0 by lia. cbn. f_equal. lia.
  - rewrite Nat2Z.inj_succ, Z.pow_succ_r in Hn by lia. cbn [pad_acc].
    replace (S w + k)%nat with (w + S k)%nat by lia.
    rewrite IH by (split; [apply Z.div_pos; lia | apply Z.div_lt_upper_bound; lia]).
    cbn [String.list_ascii_of_string parse_fraction].
    rewrite digit_val_digit by (apply Z.mod_pos_bound; lia). f_equal.
    rewrite Nat2Z.inj_succ, Z.pow_succ_r by lia. pose proof (Z.div_mod n 10). nia.
Qed.

Lemma pad_acc_head w n tail :
  exists d rest, pad_acc (S w) n tail = String (digit d) rest /\ 0 <= d < 10.
Proof.
  revert n tail. induction w as [|w IH]; intros n tail.
  - exists (n mod 10), tail. split; [done|]. apply Z.mod_pos_bound. lia.
  - destruct (IH (n / 10) (String (digit (n mod 10)) tail)) as (d & rest & Heq & ?).
    exists d, rest. split; [|done]. rewrite <- Heq. done.
Qed.

(** [time.RFC3339] reads back to the second. *)
Lemma parse_format_rfc3339 t :
  valid_time t -> parse_rfc3339 (format_rfc3339 t 0) = Some (t - nano_of t, 0).
Proof.
  intros Ht. unfold format_rfc3339. rewrite Z.mul_0_l, Z.add_0_r.
  rewrite (parse_date_time t (zone_text 0) 0 ["Z"%char] 0 Ht) by done.
  f_equal. f_equal. lia.
Qed.

Arguments parse_rfc3339 : simpl never.
Arguments date_time_text : simpl never.
Arguments format_rfc3339 : simpl never.
Arguments format_rfc3339nano : simpl never.
Arguments civil_of : simpl never.
