(* ===== verification/Timestamp.v ===== *)
(** * Coordination timestamps (internal/store/timestamp.go)

    The coordination tables store instants as text and compare them inside
    SQL as text.  [CoordinationTime] writes a fixed nine-digit fraction so
    that text order is time order.  [TimeText] is the interface the lease and
    queue components are proved against; [coordination_text] is the instance,
    and its laws are the content of this file. *)

From Stdlib Require Import Ascii.
From S2P Require Export GoTime.
Open Scope Z_scope.

(** [t.UTC().Format(CoordinationLayout)] with the layout
    "2006-01-02T15:04:05.000000000Z". *)
Definition CoordinationTime (t : time) : string :=
  date_time_text t (String "." (pad_acc 9 (nano_of t) "Z")).

Arguments CoordinationTime : simpl never.

(** What a stored time must satisfy: it reads back, and comparing the texts
    compares the instants. *)
Class TimeText (enc : time -> string) (dec : string -> option (time * Z)) : Prop := {
  time_text_decode t : valid_time t -> dec (enc t) = Some (t, 0);
  time_text_compare t u : valid_time t -> valid_time u -> String.compare (enc t) (enc u) = (t ?= u);
}.

Lemma coordination_decode t : valid_time t -> parse_rfc3339 (CoordinationTime t) = Some (t, 0).
Proof.
  intros Ht. unfold CoordinationTime.
  destruct (time_fields_bounds t) as (_ & _ & _ & Hn).
  rewrite (parse_date_time t _ (nano_of t) ["Z"%char] 0 Ht).
  - f_equal. f_equal. lia.
  - cbn [String.list_ascii_of_string].
    destruct (pad_acc_head 8 (nano_of t) "Z") as (d & rest & Heq & Hd).
    rewrite Heq. cbn [String.list_ascii_of_string].
    rewrite (digit_val_digit d) by done.
    replace (digit d :: String.list_ascii_of_string rest)
      with (String.list_ascii_of_string (pad_acc 9 (nano_of t) "Z")) by (by rewrite Heq).
    rewrite (parse_fraction_pad 9 0 0) by (unfold second in Hn; lia).
    cbn. f_equal. lia.
  - done.
Qed.

Lemma compare_div_mod n a b :
  0 < n -> (a ?= b) = match a / n ?= b / n with Eq => a mod n ?= b mod n | r => r end.
Proof.
  intros Hn. pose proof (Z.div_mod a n). pose proof (Z.div_mod b n).
  pose proof (Z.mod_pos_bound a n Hn). pose proof (Z.mod_pos_bound b n Hn).
  destruct (Z.compare_spec (a / n) (b / n)); destruct (Z.compare_spec a b);
    destruct (Z.compare_spec (a mod n) (b mod n)); nia || done.
Qed.

Lemma coordination_compare t u :
  valid_time t -> valid_time u -> String.compare (CoordinationTime t) (CoordinationTime u) = (t ?= u).
Proof.
  intros Ht Hu. unfold CoordinationTime, date_time_text.
  destruct (civil_of_bounds _ (valid_day t Ht)) as (Hy1 & Hm1 & Hd1).
  destruct (civil_of_bounds _ (valid_day u Hu)) as (Hy2 & Hm2 & Hd2). cbn zeta in *.
  pose proof (days_in_bounds (cmonth (civil_of (day_of t))) (cyear (civil_of (day_of t)))).
  pose proof (days_in_bounds (cmonth (civil_of (day_of u))) (cyear (civil_of (day_of u)))).
  destruct (time_fields_bounds t) as (Hh1 & Hmi1 & Hs1 & Hn1).
  destruct (time_fields_bounds u) as (Hh2 & Hmi2 & Hs2 & Hn2). unfold second in Hn1, Hn2.
  repeat (rewrite compare_pad by (cbn; lia); rewrite ?compare_same_char).
  rewrite (compare_div_mod day_ns t u) by done. fold (day_of t) (day_of u).
  rewrite <- (civil_lex (day_of t) (day_of u)). cbn [lex].
  do 3 (destruct (_ ?= _); [|done|done]).
  rewrite (compare_div_mod hour (t mod day_ns)) by done.
  fold (hour_of t) (hour_of u). destruct (hour_of t ?= hour_of u); [|done|done].
  unfold day_ns. rewrite !(Z.mul_comm 24 hour), !mod_mod_divide by done.
  rewrite (compare_div_mod minute (t mod hour)) by done.
  fold (minute_of t) (minute_of u). destruct (minute_of t ?= minute_of u); [|done|done].
  unfold hour. rewrite !(Z.mul_comm 60 minute), !mod_mod_divide by done.
  rewrite (compare_div_mod second (t mod minute)) by done.
  fold (second_of t) (second_of u). destruct (second_of t ?= second_of u); [|done|done].
  unfold minute. rewrite !(Z.mul_comm 60 second), !mod_mod_divide by done.
  fold (nano_of t) (nano_of u). by destruct (nano_of t ?= nano_of u).
Qed.

#[export] Instance coordination_text : TimeText CoordinationTime parse_rfc3339.
Proof. split; [apply coordination_decode | apply coordination_compare]. Qed.

(** ** Text comparison of stored times *)

Section TimeTextFacts.
Context {enc dec} `{!TimeText enc dec}.

Lemma time_text_leb t u : valid_time t -> valid_time u -> str_leb (enc t) (enc u) = (t <=? u).
Proof. intros. unfold str_leb, String.leb, Z.leb. by rewrite time_text_compare. Qed.
Lemma time_text_ltb t u : valid_time t -> valid_time u -> str_ltb (enc t) (enc u) = (t <? u).
Proof. intros. unfold str_ltb, String.ltb, Z.ltb. by rewrite time_text_compare. Qed.
Lemma time_text_inj t u : valid_time t -> valid_time u -> enc t = enc u -> t = u.
Proof.
intros Ht Hu Heq. apply Z.compare_eq_iff. rewrite <- time_text_compare by done.
rewrite Heq. rewrite time_text_compare by done. apply Z.compare_refl.
Qed.
End TimeTextFacts.
