(* ===== verification/Json.v ===== *)
(** * Go values and encoding/json

    [goval] is a dynamically typed Go value ([any]) as the program's handlers
    build and read them.  [marshal] is [json.Marshal] and [unmarshal] is
    [json.Unmarshal] into an [any]: numbers decode to float64, map keys are
    written in sorted order, strings are escaped the way the encoder's default
    HTML-safe mode does.  A float64 is a [spec_float]; arithmetic on it is
    IEEE 754 binary64. *)

From Stdlib Require Import Ascii SpecFloat.
From S2P Require Export GoText.
Open Scope Z_scope.

(** ** Values *)

Inductive goval : Type :=
| VNil
| VBool (b : bool)
| VInt (z : Z)                              (** int and int64 *)
| VFloat (f : spec_float)                   (** float64 *)
| VNumber (lit : string)                    (** json.Number *)
| VString (s : string)
| VSlice (l : list goval)                   (** []any, []map[string]any, ... *)
| VMap (m : list (string * goval))          (** map[string]any; keys are distinct *)
| VStruct (fields : list (string * goval))  (** a struct, in field order *)
| VRaw (text : string).                     (** json.RawMessage *)

(** [m[key]], the zero value of [any] when absent. *)
Fixpoint alookup {A} (m : list (string * A)) (k : string) : option A :=
  match m with
  | [] => None
  | (k', v) :: m' => if str_eqb k k' then Some v else alookup m' k
  end.
Definition arg (args : list (string * goval)) (k : string) : goval := default VNil (alookup args k).
(** [v, ok := args[key].(string)] *)
Definition as_string (v : goval) : option string := match v with VString s => Some s | _ => None end.

(** ** int64 and float64 *)

Definition int64_min : Z := - 2 ^ 63.
Definition int64_max : Z := 2 ^ 63 - 1.
Definition in_int64 (z : Z) : Prop := int64_min <= z <= int64_max.
Definition wrap64 (z : Z) : Z := (z + 2 ^ 63) mod 2 ^ 64 - 2 ^ 63.

Lemma wrap64_id z : in_int64 z -> wrap64 z = z.
Proof.
  unfold in_int64, wrap64, int64_min, int64_max. intros.
  rewrite Z.mod_small by lia. lia.
Qed.
Lemma wrap64_bounds z : in_int64 (wrap64 z).
Proof.
  unfold in_int64, wrap64, int64_min, int64_max.
  pose proof (Z.mod_pos_bound (z + 2 ^ 63) (2 ^ 64) eq_refl). lia.
Qed.

Definition float_of_int (z : Z) : spec_float := binary_normalize 53 1024 z 0 false.

(** [int64(f)] truncates; out of range it is what amd64's conversion gives. *)
Definition int_of_float (f : spec_float) : Z :=
  match f with
  | S754_zero _ => 0
  | S754_finite s m e =>
      let a := if 0 <=? e then Z.pos m * 2 ^ e else Z.pos m / 2 ^ (- e) in
      let z := if s then - a else a in
      if (int64_min <=? z) && (z <=? int64_max) then z else int64_min
  | _ => int64_min
  end.
(** [f == float64(int64(f))] *)
Definition float_is_int (f : spec_float) : bool := SFeqb f (float_of_int (int_of_float f)).

(** The float64 nearest to [±m * 10^k]; none when it overflows, where
    [strconv.ParseFloat] reports a range error. *)
Definition float_of_dec (neg : bool) (m : positive) (k : Z) : option spec_float :=
  let digits := Z.log2 (Z.pos m) in
  if 1100 <? digits / 4 + k then None
  else
    let f := if 0 <=? k then binary_normalize 53 1024 (if neg then Z.neg m * 10 ^ k else Z.pos m * 10 ^ k) 0 neg
             else if k <? - digits - 400 then S754_zero neg
             else SFdiv 53 1024 (S754_finite neg m 0) (S754_finite false (Z.to_pos (10 ^ (- k))) 0) in
    match f with
    | S754_infinity _ | S754_nan => None
    | _ => Some f
    end.

(** *** Shortest decimal that reads back *)

Definition spec_float_eqb (a b : spec_float) : bool :=
  match a, b with
  | S754_zero s, S754_zero t => Bool.eqb s t
  | S754_finite s m e, S754_finite t n k => Bool.eqb s t && Pos.eqb m n && Z.eqb e k
  | _, _ => false
  end.

Definition reads_as (d q : Z) (f : spec_float) : bool :=
  match d with
  | Z.pos p => match float_of_dec false p q with Some g => spec_float_eqb g f | None => false end
  | _ => false
  end.

(** Rounding up may carry into a power of ten. *)
Fixpoint strip_zeros (fuel : nat) (d q : Z) : Z * Z :=
  match fuel with
  | O => (d, q)
  | S fuel' => if d mod 10 =? 0 then strip_zeros fuel' (d / 10) (q + 1) else (d, q)
  end.

(** Decimal digits [d] and exponent [q] with [d * 10^q] nearest to [n / m]
    using as few digits as possible.  Seventeen always suffice for a float64,
    so the search does not fail. *)
Fixpoint shortest (fuel : nat) (p : Z) (n m k : Z) (f : spec_float) : option (Z * Z) :=
  match fuel with
  | O => None
  | S fuel' =>
      let q := k - p in
      let num := if q <? 0 then n * 10 ^ (- q) else n in
      let den := if q <? 0 then m else m * 10 ^ q in
      let lo := num / den in
      let r2 := 2 * (num mod den) in
      let near := if (den <? r2) || ((r2 =? den) && Z.odd lo) then lo + 1 else lo in
      let far := if near =? lo then lo + 1 else lo in
      let c1 := strip_zeros 18 near q in
      let c2 := strip_zeros 18 far q in
      if reads_as c1.1 c1.2 f then Some c1
      else if reads_as c2.1 c2.2 f then Some c2
      else shortest fuel' (p + 1) n m k f
  end.

(** The least [k] at or above the estimate with [n / m < 10^k]. *)
Fixpoint dec_exponent (fuel : nat) (k n m : Z) : Z :=
  match fuel with
  | O => k
  | S fuel' =>
      let below := if 0 <=? k then n <? m * 10 ^ k else n * 10 ^ (- k) <? m in
      if below then k else dec_exponent fuel' (k + 1) n m
  end.

Definition zeros (n : Z) : string := of_bytes (replicate (Z.to_nat n) 48).

(** The digits [d * 10^q] in the encoder's two layouts: positional between
    1e-6 and 1e21, scientific outside. *)
Definition layout (n d digits q : Z) : string :=
  let text := itoa digits in
  let len := Z.of_nat (String.length text) in
  let point := len + q in  (* value = 0.text * 10^point *)
  if (n * 1000000 <? d) || (d * 10 ^ 21 <=? n) then
    let mant := match text with
                | String c "" => String c ""
                | String c rest => String c ("." +:+ rest)
                | "" => ""
                end in
    let ex := point - 1 in
    mant +:+ "e" +:+ (if ex <? 0 then "-" else "+") +:+ itoa (Z.abs ex)
  else if 0 <=? q then text +:+ zeros q
  else if 0 <? point then String.substring 0 (Z.to_nat point) text +:+ "." +:+
                          String.substring (Z.to_nat point) (Z.to_nat (- q)) text
  else "0." +:+ zeros (- point) +:+ text.

Definition format_finite (m : positive) (e : Z) : option string :=
  let f := S754_finite false m e in
  let n := if 0 <=? e then Z.pos m * 2 ^ e else Z.pos m in
  let d := if 0 <=? e then 1 else 2 ^ (- e) in
  let est := (Z.log2 n - Z.log2 d - 1) * 30103 / 100000 - 1 in
  let k := dec_exponent 8 est n d in
  match shortest 17 1 n d k f with Some (digits, q) => Some (layout n d digits q) | None => None end.

(** [json.Marshal] of a float64: an error for NaN and the infinities. *)
Definition format_float (f : spec_float) : option string :=
  match f with
  | S754_zero s => Some (if s then "-0" else "0")
  | S754_finite s m e =>
      match format_finite m e with Some t => Some ((if s then "-" else "") +:+ t) | None => None end
  | _ => None
  end.

(** ** Strings *)

Definition cont (b lo hi : Z) : bool := (lo <=? b) && (b <=? hi).

(** The length of the UTF-8 sequence at the head of [l]; 0 when it is not
    valid, where [utf8.DecodeRune] reports [RuneError] of width 1. *)
Definition rune_len (l : list Z) : nat :=
  match l with
  | [] => 0
  | b0 :: l1 =>
      if b0 <? 128 then 1%nat
      else match l1 with
      | [] => 0%nat
      | b1 :: l2 =>
          if cont b0 194 223 then (if cont b1 128 191 then 2%nat else 0%nat)
          else match l2 with
          | [] => 0%nat
          | b2 :: l3 =>
              if cont b0 224 239 then
                if cont b1 (if b0 =? 224 then 160 else 128) (if b0 =? 237 then 159 else 191) && cont b2 128 191
                then 3%nat else 0%nat
              else match l3 with
              | [] => 0%nat
              | b3 :: _ =>
                  if cont b0 240 244 && cont b1 (if b0 =? 240 then 144 else 128) (if b0 =? 244 then 143 else 191)
                     && cont b2 128 191 && cont b3 128 191
                  then 4%nat else 0%nat
              end
          end
      end
  end.

Definition hex_byte (z : Z) : Z := if z <? 10 then 48 + z else 87 + z.
Definition u00 (b : Z) : list Z := [92; 117; 48; 48; hex_byte (b / 16); hex_byte (b mod 16)].

(** The escape of one ASCII byte. *)
Definition escape_byte (b : Z) : list Z :=
  if (b =? 34) || (b =? 92) then [92; b]
  else if b =? 8 then [92; 98]
  else if b =? 12 then [92; 102]
  else if b =? 10 then [92; 110]
  else if b =? 13 then [92; 114]
  else if b =? 9 then [92; 116]
  else if (b <? 32) || (b =? 60) || (b =? 62) || (b =? 38) then u00 b
  else [b].

(** Each round consumes at least one byte. *)
Fixpoint escape (fuel : nat) (l : list Z) : list Z :=
  match fuel with
  | O => []
  | S fuel' =>
      match l with
      | [] => []
      | b :: l' =>
          match rune_len l with
          | O => [92; 117; 102; 102; 102; 100] ++ escape fuel' l'
          | 1%nat => escape_byte b ++ escape fuel' l'
          | n =>
              if bool_decide (take n l = [226; 128; 168]) then [92; 117; 50; 48; 50; 56] ++ escape fuel' (drop n l)
              else if bool_decide (take n l = [226; 128; 169]) then [92; 117; 50; 48; 50; 57] ++ escape fuel' (drop n l)
              else take n l ++ escape fuel' (drop n l)
          end
      end
  end.

Definition quote_bytes (s : string) : list Z := let l := bytes_of s in 34 :: escape (length l) l ++ [34].
Definition quote (s : string) : string := of_bytes (quote_bytes s).

(** ** Numbers *)

Fixpoint take_digits (l : list Z) : list Z * list Z :=
  match l with
  | b :: l' => if cont b 48 57 then let '(ds, r) := take_digits l' in (b :: ds, r) else ([], l)
  | [] => ([], [])
  end.
Definition digits_value (l : list Z) : Z := foldl (fun acc b => acc * 10 + (b - 48)) 0 l.

Definition eat (c : Z) (l : list Z) : option (list Z) :=
  match l with b :: l' => if b =? c then Some l' else None | [] => None end.
(** A leading "-", and in an exponent also "+". *)
Definition parse_sign (l : list Z) : bool * list Z := match eat 45 l with Some l' => (true, l') | None => (false, l) end.
Definition parse_signs (l : list Z) : bool * list Z := match eat 43 l with Some l' => (false, l') | None => parse_sign l end.
Definition parse_fraction (l : list Z) : option (list Z * list Z) :=
  match eat 46 l with
  | Some l' => let '(fp, r) := take_digits l' in if bool_decide (fp = []) then None else Some (fp, r)
  | None => Some ([], l)
  end.
Definition parse_exponent (l : list Z) : option (Z * list Z) :=
  match l with
  | e :: l' =>
      if (e =? 101) || (e =? 69) then
        let '(neg, l1) := parse_signs l' in
        let '(ep, r) := take_digits l1 in
        if bool_decide (ep = []) then None else Some ((if neg then -1 else 1) * digits_value ep, r)
      else Some (0, l)
  | [] => Some (0, [])
  end.

(** A JSON number literal: its sign, digits, decimal exponent, and the rest. *)
Definition parse_number (l : list Z) : option ((bool * Z * Z) * list Z) :=
  let '(neg, l1) := parse_sign l in
  let '(ip, l2) := take_digits l1 in
  match ip with
  | [] => None
  | d0 :: more =>
      if (d0 =? 48) && negb (bool_decide (more = [])) then None
      else
        match parse_fraction l2 with
        | None => None
        | Some (fp, l3) =>
            match parse_exponent l3 with
            | None => None
            | Some (e, r) => Some ((neg, digits_value (ip ++ fp), e - Z.of_nat (length fp)), r)
            end
        end
  end.

(** A whole number literal, as [json.Number] is checked when encoded. *)
Definition number_literal_ok (lit : string) : bool :=
  match parse_number (bytes_of lit) with Some (_, []) => true | _ => false end.

(** ** json.Unmarshal into an [any] *)

Definition is_space_byte (b : Z) : bool := (b =? 32) || (b =? 9) || (b =? 10) || (b =? 13).
Definition opt_all {A} (l : list (option A)) : option (list A) :=
  foldr (fun o acc => match o, acc with Some x, Some xs => Some (x :: xs) | _, _ => None end) (Some []) l.

Fixpoint skip_ws (l : list Z) : list Z :=
  match l with
  | b :: l' => if is_space_byte b then skip_ws l' else l
  | [] => []
  end.

Definition hex_val (b : Z) : option Z :=
  if cont b 48 57 then Some (b - 48)
  else if cont b 97 102 then Some (b - 87)
  else if cont b 65 70 then Some (b - 55) else None.
Definition hex4 (l : list Z) : option (Z * list Z) :=
  match l with
  | a :: b :: c :: d :: l' =>
      match hex_val a, hex_val b, hex_val c, hex_val d with
      | Some x, Some y, Some z, Some w => Some (x * 4096 + y * 256 + z * 16 + w, l')
      | _, _, _, _ => None
      end
  | _ => None
  end.

(** [utf8.AppendRune] *)
Definition encode_rune (r : Z) : list Z :=
  if r <? 128 then [r]
  else if r <? 2048 then [192 + r / 64; 128 + r mod 64]
  else if r <? 65536 then
    if cont r 55296 57343 then [239; 191; 189]
    else [224 + r / 4096; 128 + r / 64 mod 64; 128 + r mod 64]
  else [240 + r / 262144; 128 + r / 4096 mod 64; 128 + r / 64 mod 64; 128 + r mod 64].

Definition simple_escape (b : Z) : option Z :=
  if (b =? 34) || (b =? 92) || (b =? 47) then Some b
  else if b =? 98 then Some 8
  else if b =? 102 then Some 12
  else if b =? 110 then Some 10
  else if b =? 114 then Some 13
  else if b =? 116 then Some 9 else None.

(** The rune of a [\u] escape whose digits were [r]: a surrogate pair is one
    rune, a lone surrogate U+FFFD. *)
Definition unescape_u (r : Z) (l : list Z) : Z * list Z :=
  if cont r 55296 57343 then
    match l with
    | 92 :: 117 :: l1 =>
        match hex4 l1 with
        | Some (r2, l2) =>
            if (r <? 56320) && cont r2 56320 57343
            then ((r - 55296) * 1024 + (r2 - 56320) + 65536, l2) else (65533, l)
        | None => (65533, l)
        end
    | _ => (65533, l)
    end
  else (r, l).

(** The body of a string literal, from just after the opening quote. *)
Fixpoint parse_string (fuel : nat) (l : list Z) : option (list Z * list Z) :=
  match fuel with
  | O => None
  | S fuel' =>
      let next pre rest := match parse_string fuel' rest with
                           | Some (s, r) => Some (pre ++ s, r) | None => None end in
      match l with
      | [] => None
      | b :: l1 =>
          if b =? 34 then Some ([], l1)
          else if b =? 92 then
            match l1 with
            | [] => None
            | c :: l2 =>
                if c =? 117 then
                  match hex4 l2 with
                  | Some (r, l3) => let '(rune, l4) := unescape_u r l3 in next (encode_rune rune) l4
                  | None => None
                  end
                else match simple_escape c with
                     | Some x => next [x] l2
                     | None => None
                     end
            end
          else if b <? 32 then None
          else match rune_len l with
               | O => next [239; 191; 189] l1
               | n => next (take n l) (drop n l)
               end
      end
  end.

Definition number_value (n : bool * Z * Z) : option goval :=
  let '(neg, m, k) := n in
  match m with
  | Z.pos p => match float_of_dec neg p k with Some f => Some (VFloat f) | None => None end
  | _ => Some (VFloat (S754_zero neg))
  end.

(** The literal read by [parse_number], from the text before and after it. *)
Definition number_literal (before after : list Z) : goval :=
  VNumber (of_bytes (take (length before - length after) before)).

(** A repeated key keeps the last value. *)
Definition map_set {A} (m : list (string * A)) (k : string) (v : A) : list (string * A) :=
  List.filter (fun kv => negb (str_eqb k (fst kv))) m ++ [(k, v)].

(** [parse_value], with the element and member loops; every call consumes a
    byte or descends a level, so twice the length is enough fuel. *)
Fixpoint parse_value (fuel : nat) (l0 : list Z) : option (goval * list Z) :=
  match fuel with
  | O => None
  | S fuel' =>
      match skip_ws l0 with
      | [] => None
      | b :: l =>
          if b =? 34 then
            match parse_string (S (length l)) l with
            | Some (s, r) => Some (VString (of_bytes s), r)
            | None => None
            end
          else if b =? 91 then
            match eat 93 (skip_ws l) with
            | Some r => Some (VSlice [], r)
            | None => parse_elements fuel' l []
            end
          else if b =? 123 then
            match eat 125 (skip_ws l) with
            | Some r => Some (VMap [], r)
            | None => parse_members fuel' l []
            end
          else match strip_prefix [116; 114; 117; 101] (b :: l) with
          | Some r => Some (VBool true, r)
          | None => match strip_prefix [102; 97; 108; 115; 101] (b :: l) with
          | Some r => Some (VBool false, r)
          | None => match strip_prefix [110; 117; 108; 108] (b :: l) with
          | Some r => Some (VNil, r)
          | None =>
              match parse_number (b :: l) with
              | Some (_, r) => Some (number_literal (b :: l) r, r)
              | None => None
              end
          end end end
      end
  end
with parse_elements (fuel : nat) (l : list Z) (acc : list goval) : option (goval * list Z) :=
  match fuel with
  | O => None
  | S fuel' =>
      match parse_value fuel' l with
      | None => None
      | Some (v, r) =>
          match skip_ws r with
          | 44 :: r' => parse_elements fuel' r' (acc ++ [v])
          | 93 :: r' => Some (VSlice (acc ++ [v]), r')
          | _ => None
          end
      end
  end
with parse_members (fuel : nat) (l : list Z) (acc : list (string * goval)) : option (goval * list Z) :=
  match fuel with
  | O => None
  | S fuel' =>
      match skip_ws l with
      | 34 :: l1 =>
          match parse_string (S (length l1)) l1 with
          | None => None
          | Some (k, l2) =>
              match skip_ws l2 with
              | 58 :: l3 =>
                  match parse_value fuel' l3 with
                  | None => None
                  | Some (v, r) =>
                      let acc' := map_set acc (of_bytes k) v in
                      match skip_ws r with
                      | 44 :: r' => parse_members fuel' r' acc'
                      | 125 :: r' => Some (VMap acc', r')
                      | _ => None
                      end
                  end
              | _ => None
              end
          end
      | _ => None
      end
  end.

(** Decoding into an [any] with [Decoder.UseNumber], the whole text. *)
Definition unmarshal_number (s : string) : option goval :=
  let l := bytes_of s in
  match parse_value (2 * length l + 2) l with
  | Some (v, r) => match skip_ws r with [] => Some v | _ => None end
  | None => None
  end.

(** Numbers as float64; a literal out of its range is an error. *)
Fixpoint to_floats (v : goval) : option goval :=
  match v with
  | VNumber lit => match parse_number (bytes_of lit) with Some (n, []) => number_value n | _ => None end
  | VSlice l => match opt_all (map to_floats l) with Some l' => Some (VSlice l') | None => None end
  | VMap m =>
      match opt_all (map (fun kv => match to_floats (snd kv) with Some x => Some (fst kv, x) | None => None end) m) with
      | Some m' => Some (VMap m')
      | None => None
      end
  | v => Some v
  end.

(** [json.Unmarshal] into an [any] *)
Definition unmarshal (s : string) : option goval :=
  match unmarshal_number s with Some v => to_floats v | None => None end.

(** [json.Valid] *)
Definition json_valid (s : string) : bool := bool_decide (is_Some (unmarshal_number s)).

(** ** json.Marshal *)

Definition join_with (sep : string) (l : list string) : string :=
  match l with
  | [] => ""
  | x :: l' => foldl (fun acc y => acc +:+ sep +:+ y) x l'
  end.

(** [json.Compact] with HTML escaping, as the encoder applies it to a
    RawMessage: white space outside strings goes, "<", ">" and "&" are
    escaped. *)
Fixpoint compact (instr esc : bool) (l : list Z) : list Z :=
  match l with
  | [] => []
  | b :: l' =>
      if instr then
        (if (b =? 60) || (b =? 62) || (b =? 38) then u00 b else [b]) ++
        (if esc then compact true false l'
         else compact (negb (b =? 34)) (b =? 92) l')
      else if is_space_byte b then compact false false l'
      else b :: compact (b =? 34) false l'
  end.

(** The encoder also escapes U+2028 and U+2029. *)
Fixpoint escape_separators (l : list Z) : list Z :=
  match l with
  | b1 :: ((b2 :: (b3 :: l3)) as l1) =>
      if (b1 =? 226) && (b2 =? 128) && ((b3 =? 168) || (b3 =? 169)) then [92; 117; 50; 48; 50; b3 - 112] ++ escape_separators l3
      else b1 :: escape_separators l1
  | b :: l1 => b :: escape_separators l1
  | [] => []
  end.

Definition member_text (kv : string * string) : string := quote (fst kv) +:+ ":" +:+ snd kv.

Fixpoint marshal (v : goval) : option string :=
  match v with
  | VNil => Some "null"
  | VBool b => Some (if b then "true" else "false")
  | VInt z => Some (itoa z)
  | VFloat f => format_float f
  | VNumber lit => let lit := if str_eqb lit "" then "0" else lit in if number_literal_ok lit then Some lit else None
  | VString s => Some (quote s)
  | VSlice l =>
      match opt_all (map marshal l) with
      | Some ts => Some ("[" +:+ join_with "," ts +:+ "]")
      | None => None
      end
  | VMap m =>
      match opt_all (map (fun kv => match marshal (snd kv) with Some t => Some (fst kv, t) | None => None end) m) with
      | Some ms => Some ("{" +:+ join_with "," (map member_text (sort_on fst ms)) +:+ "}")
      | None => None
      end
  | VStruct fs =>
      match opt_all (map (fun kv => match marshal (snd kv) with Some t => Some (fst kv, t) | None => None end) fs) with
      | Some ms => Some ("{" +:+ join_with "," (map member_text ms) +:+ "}")
      | None => None
      end
  | VRaw t => if json_valid t then Some (of_bytes (escape_separators (compact false false (bytes_of t)))) else None
  end.

(** ** Raw texts

    What a [json.RawMessage] field receives: the text of a value, without the
    white space around it. *)

Definition raw_value (l0 : list Z) : option (string * list Z) :=
  let l := skip_ws l0 in
  match parse_value (2 * length l + 2) l with
  | Some (_, r) => Some (of_bytes (take (length l - length r) l), r)
  | None => None
  end.
Fixpoint raw_elements (fuel : nat) (l : list Z) : option (list string) :=
  match fuel with
  | O => None
  | S fuel' =>
      match raw_value l with
      | None => None
      | Some (t, r) =>
          match skip_ws r with
          | [] => None
          | b :: r' => if b =? 44 then cons t <$> raw_elements fuel' r' else Some [t]
          end
      end
  end.
Fixpoint raw_members (fuel : nat) (l : list Z) : option (list (string * string)) :=
  match fuel with
  | O => None
  | S fuel' =>
      match raw_value l with
      | None => None
      | Some (k, r) =>
          match unmarshal_number k, eat 58 (skip_ws r) with
          | Some (VString key), Some r1 =>
              match raw_value r1 with
              | None => None
              | Some (t, r2) =>
                  match skip_ws r2 with
                  | [] => None
                  | b :: r3 => if b =? 44 then cons (key, t) <$> raw_members fuel' r3 else Some [(key, t)]
                  end
              end
          | _, _ => None
          end
      end
  end.
(** The texts of the elements of an array, and of the members of an object;
    [None] for any other valid text. *)
Definition raw_list (s : string) : option (list string) :=
  match eat 91 (skip_ws (bytes_of s)) with
  | Some l => match eat 93 (skip_ws l) with Some _ => Some [] | None => raw_elements (length l) l end
  | None => None
  end.
Definition raw_object (s : string) : option (list (string * string)) :=
  match eat 123 (skip_ws (bytes_of s)) with
  | Some l => match eat 125 (skip_ws l) with Some _ => Some [] | None => raw_members (length l) l end
  | None => None
  end.

(** ** Integers *)

(** [strconv.ParseInt(s, 10, 64)] and whether it succeeded: out of range it is
    the nearest bound, and 0 for text that is not a number. *)
Definition parse_int64 (s : string) : Z * bool :=
  let '(neg, ds) := match bytes_of s with
                    | 45 :: ds => (true, ds)
                    | 43 :: ds => (false, ds)
                    | ds => (false, ds)
                    end in
  match ds with
  | [] => (0, false)
  | _ =>
      if forallb (fun d => (48 <=? d) && (d <=? 57)) ds then
        let n := fold_left (fun acc d => acc * 10 + (d - 48)) ds 0 in
        let z := if neg then - n else n in
        if z <? int64_min then (int64_min, false) else if int64_max <? z then (int64_max, false) else (z, true)
      else (0, false)
  end.

(** ** Decoding into Go types

    [json.Unmarshal] into a struct, from what [unmarshal_number] reads.  A
    field that is absent or null keeps its zero value.  Names are matched
    exactly, as the program's own encoder writes them (encoding/json also
    accepts other capitalisations). *)

Definition decode_text (v : goval) : option string :=
  match v with VString s => Some s | VNil => Some "" | _ => None end.
Definition decode_int (v : goval) : option Z :=
  match v with
  | VNumber lit => match parse_int64 lit with (z, true) => Some z | _ => None end
  | VNil => Some 0
  | _ => None
  end.
Definition decode_bool (v : goval) : option bool :=
  match v with VBool b => Some b | VNil => Some false | _ => None end.
Definition decode_list {A} (dec : goval -> option A) (v : goval) : option (list A) :=
  match v with VSlice l => opt_all (map dec l) | VNil => Some [] | _ => None end.
Definition decode_map {A} (dec : goval -> option A) (v : goval) : option (list (string * A)) :=
  match v with
  | VMap m => opt_all (map (fun kv => match dec kv.2 with Some x => Some (kv.1, x) | None => None end) m)
  | VNil => Some []
  | _ => None
  end.
(** A [map[string]any] *)
Definition decode_any_map : goval -> option (list (string * goval)) := decode_map to_floats.
Definition field {A} (v : goval) (key : string) (dec : goval -> option A) (zero : A) : option A :=
  match v with
  | VMap m => match alookup m key with
              | None | Some VNil => Some zero
              | Some x => dec x
              end
  | VNil => Some zero
  | _ => None
  end.
(** A pointer field: nil when absent or null. *)
Definition pointer_field {A} (v : goval) (key : string) (dec : goval -> option A) : option (option A) :=
  field v key (fun x => Some <$> dec x) None.

Arguments unmarshal : simpl never.
Arguments unmarshal_number : simpl never.
Arguments quote : simpl never.
Arguments format_float : simpl never.
Arguments marshal : simpl never.
