(* ===== verification/JsonFacts.v ===== *)
(** * The JSON round trip

    What the encoder writes the decoder reads back: [unmarshal_number] of the
    text of a value is the value, with its integers as literals, its struct
    fields as members and its map members in key order.  Keys must be distinct
    and valid UTF-8, as they are in everything the program stores; in a string
    a byte that is not part of a rune becomes U+FFFD. *)

From Stdlib Require Import Ascii SpecFloat.
From S2P Require Export Json.
Open Scope Z_scope.

(** ** Bytes *)

Lemma bytes_of_app a b : bytes_of (a +:+ b) = bytes_of a ++ bytes_of b.
Proof.
  unfold bytes_of. induction a as [|c a IH]; [done|].
  change (String c a +:+ b) with (String c (a +:+ b)). cbn. by rewrite IH.
Qed.
Definition is_byte (z : Z) : Prop := 0 <= z < 256.
Lemma bytes_of_of_bytes l : Forall is_byte l -> bytes_of (of_bytes l) = l.
Proof.
  unfold bytes_of, of_bytes. rewrite String.list_ascii_of_string_of_list_ascii.
  induction 1 as [|z l Hz Hl IH]; [done|]. cbn. rewrite IH, N_ascii_embedding by (unfold is_byte in Hz; lia).
  f_equal. unfold is_byte in Hz. lia.
Qed.
Lemma of_bytes_bytes_of s : of_bytes (bytes_of s) = s.
Proof.
  unfold bytes_of, of_bytes. rewrite map_map. rewrite <- (String.string_of_list_ascii_of_string s) at 2. f_equal.
  induction (String.list_ascii_of_string s) as [|c l IH]; [done|]. cbn. by rewrite IH, N2Z.id, ascii_N_embedding.
Qed.
Lemma bytes_of_bytes s : Forall is_byte (bytes_of s).
Proof.
  unfold bytes_of. induction (String.list_ascii_of_string s) as [|c l IH]; [constructor|]. constructor; [|exact IH].
  pose proof (N_ascii_bounded c). unfold is_byte. lia.
Qed.
Lemma bytes_of_cons c s : bytes_of (String c s) = Z.of_N (N_of_ascii c) :: bytes_of s.
Proof. done. Qed.
Lemma bytes_of_length s : length (bytes_of s) = String.length s.
Proof. unfold bytes_of. rewrite length_map. induction s; cbn; congruence. Qed.

(** ** Strings *)

(** Valid UTF-8, rune by rune. *)
Inductive utf8 : list Z -> Prop :=
| utf8_nil : utf8 []
| utf8_rune n l : rune_len l = S n -> utf8 (drop (S n) l) -> utf8 l.

(** A rune's length depends on its own bytes only. *)
Lemma rune_len_app l r n : rune_len l = S n -> rune_len (take (S n) l ++ r) = S n /\ (S n <= length l)%nat.
Proof.
  intros Hn. unfold rune_len in Hn. destruct l as [|b0 [|b1 [|b2 [|b3 l]]]]; try discriminate Hn;
    repeat match type of Hn with context [if ?b then _ else _] => destruct b eqn:?; cbv iota in Hn end; try discriminate Hn;
    injection Hn as <-; (split; [|cbn; lia]); unfold rune_len; cbn [take app];
    repeat match goal with H : ?x = _ |- context [?x] => rewrite H; cbv iota end; reflexivity.
Qed.

(** One step of the string parser. *)
Definition prepend (pre : list Z) (o : option (list Z * list Z)) : option (list Z * list Z) :=
  match o with Some (s, r) => Some (pre ++ s, r) | None => None end.

Lemma byte_cases (P : Z -> Prop) :
  Forall P (map Z.of_nat (seq 0 128)) -> forall b, 0 <= b < 128 -> P b.
Proof.
  intros Hall b Hb. rewrite Forall_forall in Hall. apply Hall. apply list_elem_of_In, in_map_iff.
  exists (Z.to_nat b). rewrite in_seq. lia.
Qed.

Lemma parse_escape_byte b f X : 0 <= b < 128 -> parse_string (S f) (escape_byte b ++ X) = prepend [b] (parse_string f X).
Proof.
  revert b. apply (byte_cases (fun b => parse_string (S f) (escape_byte b ++ X) = prepend [b] (parse_string f X))).
  cbn [map seq]. repeat constructor.
Qed.

Lemma parse_rune k l f X :
  rune_len l = S k -> (1 <= k)%nat -> parse_string (S f) (take (S k) l ++ X) = prepend (take (S k) l) (parse_string f X).
Proof.
  intros Hk Hk1. destruct (rune_len_app l X k Hk) as [Happ Hlen]. destruct l as [|b l]; [done|].
  assert (128 <= b) as Hb. { unfold rune_len in Hk. destruct (b <? 128) eqn:Hb; [injection Hk; lia|]. by bool_inv. }
  cbn [take app] in Happ |- *. cbn [parse_string].
  assert (b =? 34 = false) as -> by (apply Z.eqb_neq; lia). assert (b =? 92 = false) as -> by (apply Z.eqb_neq; lia).
  assert (b <? 32 = false) as -> by (apply Z.ltb_ge; lia). rewrite Happ.
  assert (take (S k) (b :: take k l ++ X) = b :: take k l) as ->.
  { cbn. f_equal. rewrite take_app_le, take_take, Nat.min_id; [done|]. rewrite length_take. cbn in Hlen. lia. }
  assert (drop (S k) (b :: take k l ++ X) = X) as ->; [|done].
  cbn. rewrite drop_app_ge by (rewrite length_take; lia). rewrite length_take. cbn in Hlen.
  rewrite Nat.min_l by lia. by rewrite Nat.sub_diag.
Qed.

Lemma escape_step n b l : escape (S n) (b :: l) =
  match rune_len (b :: l) with
  | O => [92; 117; 102; 102; 102; 100] ++ escape n l
  | 1%nat => escape_byte b ++ escape n l
  | k => if bool_decide (take k (b :: l) = [226; 128; 168]) then [92; 117; 50; 48; 50; 56] ++ escape n (drop k (b :: l))
         else if bool_decide (take k (b :: l) = [226; 128; 169]) then [92; 117; 50; 48; 50; 57] ++ escape n (drop k (b :: l))
         else take k (b :: l) ++ escape n (drop k (b :: l))
  end.
Proof. reflexivity. Qed.

Lemma rune_len_one b l : 0 <= b -> rune_len (b :: l) = 1%nat -> b < 128.
Proof.
  intros Hb Hk. destruct (Z.ltb_spec b 128); [done|]. exfalso. revert Hk. unfold rune_len.
  assert (b <? 128 = false) as -> by (by apply Z.ltb_ge). by repeat case_match.
Qed.

(** Text with each byte that is not part of a rune replaced by U+FFFD. *)
Fixpoint sanitize (fuel : nat) (l : list Z) : list Z :=
  match fuel with
  | O => []
  | S fuel' =>
      match l with
      | [] => []
      | b :: l' =>
          match rune_len l with
          | O => [239; 191; 189] ++ sanitize fuel' l'
          | n => take n l ++ sanitize fuel' (drop n l)
          end
      end
  end.
Lemma sanitize_utf8 l : utf8 l -> forall n, (length l <= n)%nat -> sanitize n l = l.
Proof.
  induction 1 as [|k l Hk Hu IH]; intros n Hn; [by destruct n|]. destruct n as [|n]; [by destruct l; [|cbn in Hn; lia]|].
  destruct l as [|b l]; [done|]. cbn [sanitize]. rewrite Hk, IH; [apply take_drop|]. rewrite length_drop. cbn in Hn |- *. lia.
Qed.

(** An escaped string parses as its sanitized form, in front of anything. *)
Lemma parse_escape_any n : forall l f rest,
  Forall is_byte l -> (length l <= n)%nat -> (length (escape n l) < f)%nat ->
  parse_string f (escape n l ++ 34 :: rest) = Some (sanitize n l, rest).
Proof.
  induction n as [|n IH]; intros l f rest Hbytes Hn Hf.
  { destruct l, f; cbn in *; try lia; done. }
  destruct l as [|b l]; [by destruct f; [cbn in Hf; lia|]|].
  pose proof Hbytes as Hb0. apply Forall_cons_1 in Hb0 as [Hb Hl]. rewrite escape_step in Hf |- *. cbn [sanitize].
  destruct (rune_len (b :: l)) as [|k] eqn:Hk; [|destruct k as [|k]].
  - rewrite length_app in Hf. cbn [length] in Hf, Hn. destruct f as [|f]; [lia|]. rewrite <- app_assoc.
    change (parse_string (S f) ([92; 117; 102; 102; 102; 100] ++ escape n l ++ 34 :: rest))
      with (prepend [239; 191; 189] (parse_string f (escape n l ++ 34 :: rest))).
    by rewrite IH by (done || lia).
  - rewrite length_app in Hf. destruct f as [|f]; [lia|]. rewrite <- app_assoc, parse_escape_byte.
    + change (drop 1 (b :: l)) with l in *. rewrite IH; [done|done|cbn [length] in Hn; lia|].
      assert (1 <= length (escape_byte b))%nat; [|lia]. unfold escape_byte. repeat case_match; cbn; lia.
    + split; [apply Hb|]. eapply rune_len_one; [apply Hb|exact Hk].
  - assert (Forall is_byte (drop (S (S k)) (b :: l))) as Hbd by (by apply Forall_drop).
    assert (length (drop (S (S k)) (b :: l)) <= n)%nat as Hnd by (rewrite length_drop; cbn in Hn |- *; lia).
    destruct (rune_len_app (b :: l) [] (S k) Hk) as [_ Hlen].
    cbv match beta zeta in Hf |- *. revert Hf. destruct (bool_decide (take (S (S k)) (b :: l) = [226; 128; 168])) eqn:H1;
      [|destruct (bool_decide (take (S (S k)) (b :: l) = [226; 128; 169])) eqn:H2]; intros Hf; bool_inv.
    + rewrite length_app in Hf. cbn [length] in Hf. destruct f as [|f]; [lia|]. rewrite <- app_assoc.
      change (parse_string (S f) ([92; 117; 50; 48; 50; 56] ++ escape n (drop (S (S k)) (b :: l)) ++ 34 :: rest))
        with (prepend [226; 128; 168] (parse_string f (escape n (drop (S (S k)) (b :: l)) ++ 34 :: rest))).
      rewrite IH by (done || lia). cbn [prepend]. by rewrite <- H1.
    + rewrite length_app in Hf. cbn [length] in Hf. destruct f as [|f]; [lia|]. rewrite <- app_assoc.
      change (parse_string (S f) ([92; 117; 50; 48; 50; 57] ++ escape n (drop (S (S k)) (b :: l)) ++ 34 :: rest))
        with (prepend [226; 128; 169] (parse_string f (escape n (drop (S (S k)) (b :: l)) ++ 34 :: rest))).
      rewrite IH by (done || lia). cbn [prepend]. by rewrite <- H2.
    + rewrite length_app, length_take in Hf. destruct f as [|f]; [lia|]. rewrite <- app_assoc, parse_rune by (done || lia).
      rewrite IH by (done || cbn in *; lia). done.
Qed.

Lemma parse_escape l : utf8 l -> Forall is_byte l -> forall n f rest,
  (length l <= n)%nat -> (length (escape n l) < f)%nat -> parse_string f (escape n l ++ 34 :: rest) = Some (l, rest).
Proof. intros Hu Hb n f rest Hn Hf. rewrite parse_escape_any by done. by rewrite sanitize_utf8. Qed.

(** Quoted text, and what the value parser makes of it. *)
Definition utf8_text (s : string) : Prop := utf8 (bytes_of s).
Definition sanitize_text (s : string) : string := of_bytes (sanitize (length (bytes_of s)) (bytes_of s)).
Lemma sanitize_text_id s : utf8_text s -> sanitize_text s = s.
Proof. intros Hu. unfold sanitize_text. rewrite sanitize_utf8 by done. apply of_bytes_bytes_of. Qed.

Lemma escape_byte_bytes b : is_byte b -> Forall is_byte (escape_byte b).
Proof.
  unfold is_byte, escape_byte, u00, hex_byte. intros Hb.
  pose proof (Z.mod_pos_bound b 16 eq_refl). assert (0 <= b / 16 < 16).
  { split; [apply Z.div_pos; lia|apply Z.div_lt_upper_bound; lia]. }
  repeat case_match; repeat constructor; unfold is_byte; lia.
Qed.

Lemma escape_bytes n l : Forall is_byte l -> Forall is_byte (escape n l).
Proof.
  revert l. induction n as [|n IH]; intros l Hl; [constructor|]. destruct l as [|b l]; [constructor|].
  rewrite escape_step. pose proof Hl as [Hb Hl']%Forall_cons_1.
  cbv zeta. repeat case_match; apply Forall_app; split;
    first [by apply escape_byte_bytes | by apply IH | by apply IH, Forall_drop | by apply Forall_take
          | repeat constructor; unfold is_byte; lia].
Qed.

Lemma bytes_of_quote s : bytes_of (quote s) = 34 :: escape (length (bytes_of s)) (bytes_of s) ++ [34].
Proof.
  unfold quote, quote_bytes. apply bytes_of_of_bytes. apply Forall_cons. split; [unfold is_byte; lia|].
  apply Forall_app. split; [apply escape_bytes, bytes_of_bytes|]. repeat constructor; unfold is_byte; lia.
Qed.

(** ** Numbers *)

(** What may follow a number literal. *)
Definition is_digit (b : Z) : bool := cont b 48 57.
Definition delim (rest : list Z) : Prop :=
  match rest with [] => True | b :: _ => is_digit b = false /\ b <> 46 /\ b <> 101 /\ b <> 69 end.

Lemma take_digits_app l rest : delim rest -> take_digits (l ++ rest) = ((take_digits l).1, (take_digits l).2 ++ rest).
Proof.
  intros Hd. induction l as [|b l IH]; cbn.
  - destruct rest as [|b rest]; [done|]. destruct Hd as [Hb _]. cbn. unfold is_digit in Hb. by rewrite Hb.
  - destruct (cont b 48 57); [|done]. rewrite IH. by destruct (take_digits l).
Qed.

Lemma eat_app c l rest : l <> [] -> eat c (l ++ rest) = (fun l' => l' ++ rest) <$> eat c l.
Proof. destruct l as [|b l]; [done|]. intros _. cbn. by destruct (b =? c). Qed.

Lemma parse_sign_app l rest : l <> [] -> parse_sign (l ++ rest) = ((parse_sign l).1, (parse_sign l).2 ++ rest).
Proof. intros Hl. unfold parse_sign. rewrite eat_app by done. by destruct (eat 45 l). Qed.
Lemma parse_signs_app l rest : l <> [] -> parse_signs (l ++ rest) = ((parse_signs l).1, (parse_signs l).2 ++ rest).
Proof. intros Hl. unfold parse_signs. rewrite eat_app by done. destruct (eat 43 l); [done|]. by apply parse_sign_app. Qed.

Lemma parse_fraction_app l rest fp r : delim rest -> parse_fraction l = Some (fp, r) -> parse_fraction (l ++ rest) = Some (fp, r ++ rest).
Proof.
  intros Hd. unfold parse_fraction. destruct l as [|b l].
  - intros [= <- <-]. cbn [app]. destruct rest as [|b rest]; [done|]. destruct Hd as (_ & Hb & _). cbn.
    by apply Z.eqb_neq in Hb as ->.
  - rewrite eat_app by done. destruct (eat 46 (b :: l)) as [l'|]; cbn [fmap option_fmap option_map]; [|by intros [= <- <-]].
    rewrite take_digits_app by done. destruct (take_digits l') as [ds r']; cbn. case_bool_decide; [done|]. by intros [= <- <-].
Qed.

Lemma parse_exponent_app l rest e r : delim rest -> parse_exponent l = Some (e, r) -> parse_exponent (l ++ rest) = Some (e, r ++ rest).
Proof.
  intros Hd. unfold parse_exponent. destruct l as [|b l].
  - intros [= <- <-]. cbn [app]. destruct rest as [|b rest]; [done|]. destruct Hd as (_ & _ & H1 & H2).
    apply Z.eqb_neq in H1 as ->. by apply Z.eqb_neq in H2 as ->.
  - cbn [app]. destruct (_ || _); [|by intros [= <- <-]]. destruct l as [|b' l]; [done|].
    rewrite (parse_signs_app (b' :: l)) by done. destruct (parse_signs (b' :: l)) as [neg l1]; cbn [fst snd].
    rewrite take_digits_app by done. destruct (take_digits l1) as [ds r']; cbn [fst snd].
    case_bool_decide; [done|]. by intros [= <- <-].
Qed.

(** A literal parses the same in front of a delimiter. *)
Lemma parse_number_app l rest v r : delim rest -> parse_number l = Some (v, r) -> parse_number (l ++ rest) = Some (v, r ++ rest).
Proof.
  intros Hd. unfold parse_number. destruct l as [|b l]; [done|]. rewrite parse_sign_app by done.
  destruct (parse_sign (b :: l)) as [neg l1]; cbn [fst snd]. rewrite take_digits_app by done.
  destruct (take_digits l1) as [[|d0 more] l2]; cbn [fst snd]; [done|]. destruct (_ && _); [done|].
  destruct (parse_fraction l2) as [[fp l3]|] eqn:Hf; [|done]. rewrite (parse_fraction_app _ rest _ _ Hd Hf).
  destruct (parse_exponent l3) as [[e l4]|] eqn:He; [|done]. rewrite (parse_exponent_app _ rest _ _ Hd He). by intros [= <- <-].
Qed.

(** A literal starts with a digit or "-". *)
Lemma parse_number_head l v r : parse_number l = Some (v, r) -> exists b l', l = b :: l' /\ (b = 45 \/ is_digit b = true).
Proof.
  unfold parse_number. destruct l as [|b l]; [done|]. intros Hp. exists b, l. split; [done|].
  unfold parse_sign in Hp. cbn [eat] in Hp. destruct (Z.eqb_spec b 45) as [->|Hb]; [by left|right].
  cbn [take_digits] in Hp. unfold is_digit. by destruct (cont b 48 57).
Qed.

(** Decimal digits of a number. *)
Definition all_digits (l : list Z) : Prop := Forall (fun b => is_digit b = true) l.

Lemma take_digits_all l rest : all_digits l -> delim rest -> take_digits (l ++ rest) = (l, rest).
Proof.
  intros Hl Hd. rewrite take_digits_app by done. assert (take_digits l = (l, [])) as ->; [|done].
  induction Hl as [|b l Hb Hl IH]; [done|]. cbn. unfold is_digit in Hb. by rewrite Hb, IH.
Qed.

Lemma digits_value_app a b : digits_value (a ++ b) = foldl (fun acc d => acc * 10 + (d - 48)) (digits_value a) b.
Proof. unfold digits_value. by rewrite foldl_app. Qed.

Lemma pretty_N_char_digit x : (x < 10)%N -> Z.of_N (N_of_ascii (pretty_N_char x)) = 48 + Z.of_N x.
Proof.
  intros Hx. assert (x = 0 \/ x = 1 \/ x = 2 \/ x = 3 \/ x = 4 \/ x = 5 \/ x = 6 \/ x = 7 \/ x = 8 \/ x = 9)%N as Hin by lia.
  decompose [or] Hin; subst; reflexivity.
Qed.

Lemma pretty_go_bytes n s : exists ds, bytes_of (pretty_N_go n s) = ds ++ bytes_of s /\ all_digits ds /\ digits_value ds = Z.of_N n /\
  (n <> 0%N -> exists d ds', ds = d :: ds' /\ d <> 48) /\ (n = 0%N -> ds = []).
Proof.
  revert s. induction (N.lt_wf_0 n) as [n _ IH]; intros s. destruct (decide (n = 0%N)) as [->|Hn].
  { exists []. split_and!; [done|constructor|done|done|done]. }
  rewrite pretty_N_go_step by lia. assert (n `div` 10 < n)%N as Hlt by (apply N.div_lt; lia).
  destruct (IH _ Hlt (String (pretty_N_char (n `mod` 10)) s)) as (ds & Hb & Hd & Hv & Hne & Hz).
  assert (n `mod` 10 < 10)%N as Hm by (by apply N.mod_lt). assert (0 <= Z.of_N (n `mod` 10)%N < 10) as HmZ
    by (split; [apply N2Z.is_nonneg|by apply (N2Z.inj_lt _ 10)]).
  exists (ds ++ [48 + Z.of_N (n `mod` 10)]). rewrite Hb, bytes_of_cons, pretty_N_char_digit by done. split_and!.
  - by rewrite <- app_assoc.
  - apply Forall_app. split; [done|]. repeat constructor. unfold is_digit, cont.
    apply andb_true_iff. rewrite !Z.leb_le. lia.
  - rewrite digits_value_app, Hv. cbn. pose proof (N.div_mod n 10 ltac:(done)) as Hdm. apply (f_equal Z.of_N) in Hdm.
    rewrite N2Z.inj_add, N2Z.inj_mul in Hdm. lia.
  - intros _. destruct (decide (n `div` 10 = 0)%N) as [H0|H0].
    + rewrite (Hz H0). eexists _, _. split; [reflexivity|]. pose proof (N.div_mod n 10 ltac:(lia)) as Hdm. lia.
    + destruct (Hne H0) as (d & ds' & -> & Hd0). by exists d, (ds' ++ [48 + Z.of_N (n `mod` 10)]).
  - done.
Qed.

(** [itoa] as digits: no leading zero, and the digits are the number. *)
Lemma itoa_digits n : 0 <= n -> exists ds, bytes_of (itoa n) = ds /\ all_digits ds /\ digits_value ds = n /\
  exists d ds', ds = d :: ds' /\ (d = 48 -> ds' = [] /\ n = 0).
Proof.
  intros Hn. destruct n as [|p|p]; [|clear Hn|lia].
  { exists [48]. split_and!; [done|by repeat constructor|done|]. by exists 48, []. }
  destruct (pretty_go_bytes (N.pos p) "") as (ds & Hb & Hd & Hv & Hne & _).
  exists ds. rewrite app_nil_r in Hb. split_and!; [|done|by rewrite Hv|].
  - rewrite <- Hb. done.
  - destruct Hne as (d & ds' & -> & Hd0); [done|]. by exists d, ds'.
Qed.
Lemma itoa_neg p : itoa (Z.neg p) = "-" +:+ itoa (Z.pos p).
Proof. done. Qed.

(** *** Literals by their parts *)

Definition fraction_text (fp : list Z) : list Z := match fp with [] => [] | _ => 46 :: fp end.
Definition exponent_text (e : option (bool * list Z)) : list Z :=
  match e with None => [] | Some (neg, ep) => 101 :: (if neg then 45 else 43) :: ep end.
Definition exponent_value (e : option (bool * list Z)) : Z :=
  match e with None => 0 | Some (neg, ep) => (if neg then -1 else 1) * digits_value ep end.

Lemma digit_not_sign b : is_digit b = true -> b <> 45 /\ b <> 43 /\ b <> 46.
Proof. unfold is_digit, cont. intros [? ?]%andb_true_iff. bool_inv. lia. Qed.

Lemma parse_sign_digits l : all_digits l -> l <> [] -> forall rest, parse_sign (l ++ rest) = (false, l ++ rest).
Proof.
  intros Hl Hne rest. destruct Hl as [|b l Hb Hl]; [done|]. cbn. destruct (digit_not_sign _ Hb) as (H & _).
  unfold parse_sign. cbn [eat]. by apply Z.eqb_neq in H as ->.
Qed.

Lemma parse_parts (neg : bool) ip fp e :
  all_digits ip -> (exists d ds, ip = d :: ds /\ (d = 48 -> ds = [])) -> all_digits fp ->
  (forall s ep, e = Some (s, ep) -> all_digits ep /\ ep <> []) ->
  parse_number ((if neg then [45] else []) ++ ip ++ fraction_text fp ++ exponent_text e) =
  Some ((neg, digits_value (ip ++ fp), exponent_value e - Z.of_nat (length fp)), []).
Proof.
  intros Hip (d & ds & Hd & Hzero) Hfp He.
  assert (parse_exponent (exponent_text e) = Some (exponent_value e, [])) as Hexp.
  { destruct e as [[s ep]|]; [|done]. destruct (He s ep eq_refl) as [Hep Hne]. cbn.
    assert (parse_signs ((if s then 45 else 43) :: ep) = (s, ep)) as ->.
    { destruct s; cbn; [|done]. done. }
    rewrite <- (app_nil_r ep) at 1. rewrite take_digits_all by done. by rewrite bool_decide_false. }
  assert (take_digits (ip ++ fraction_text fp ++ exponent_text e) = (ip, fraction_text fp ++ exponent_text e)) as Htd.
  { destruct fp as [|f0 fp].
    - cbn [fraction_text app]. destruct e as [[s ep]|]; [|by apply take_digits_all].
      clear -Hip. induction Hip as [|b l Hb Hl IH]; [done|]. cbn in *. unfold is_digit in Hb. by rewrite Hb, IH.
    - clear -Hip. induction Hip as [|b l Hb Hl IH]; [done|]. cbn in *. unfold is_digit in Hb. by rewrite Hb, IH. }
  assert (parse_fraction (fraction_text fp ++ exponent_text e) = Some (fp, exponent_text e)) as Hfr.
  { destruct fp as [|f0 fp]; cbn [fraction_text app].
    - unfold parse_fraction. by destruct e as [[s ep]|].
    - unfold parse_fraction. cbn [eat]. rewrite Z.eqb_refl.
      assert (take_digits (f0 :: fp ++ exponent_text e) = (f0 :: fp, exponent_text e)) as ->; [|done].
      change (take_digits ((f0 :: fp) ++ exponent_text e) = (f0 :: fp, exponent_text e)).
      clear -Hfp. induction Hfp as [|b l Hb Hl IH]; [by destruct e as [[s ep]|]|]. cbn in *. unfold is_digit in Hb. by rewrite Hb, IH. }
  unfold parse_number.
  assert (parse_sign ((if neg then [45] else []) ++ ip ++ fraction_text fp ++ exponent_text e) =
          (neg, ip ++ fraction_text fp ++ exponent_text e)) as ->.
  { destruct neg; [done|]. cbn [app]. apply parse_sign_digits; [done|by subst]. }
  rewrite Htd. subst ip. rewrite Hfr, Hexp. destruct (Z.eqb_spec d 48) as [->|Hd48]; [|done].
  by rewrite Hzero by done.
Qed.

(** *** Integers *)

Lemma itoa_literal z : parse_number (bytes_of (itoa z)) = Some ((z <? 0, Z.abs z, 0), []).
Proof.
  assert (forall n, 0 <= n -> exists ds, bytes_of (itoa n) = ds /\ all_digits ds /\ digits_value ds = n /\
    exists d ds', ds = d :: ds' /\ (d = 48 -> ds' = [])) as Hn.
  { intros n Hn. destruct (itoa_digits n Hn) as (ds & H1 & H2 & H3 & d & ds' & H4 & H5). exists ds. split_and!; [done..|].
    exists d, ds'. split; [done|]. intros Hd. by apply H5. }
  destruct (Z.ltb_spec z 0) as [Hz|Hz].
  - destruct z as [|p|p]; try lia. rewrite itoa_neg, bytes_of_app. destruct (Hn (Z.pos p) ltac:(lia)) as (ds & -> & Hd & Hv & Hne).
    pose proof (parse_parts true ds [] None Hd Hne ltac:(constructor) ltac:(done)) as Hp. cbn [fraction_text exponent_text app] in Hp.
    rewrite !app_nil_r in Hp. change (bytes_of "-") with [45]. cbn [app]. rewrite Hp, Hv. done.
  - destruct (Hn z Hz) as (ds & -> & Hd & Hv & Hne).
    pose proof (parse_parts false ds [] None Hd Hne ltac:(constructor) ltac:(done)) as Hp. cbn [fraction_text exponent_text app] in Hp.
    rewrite !app_nil_r in Hp. rewrite Hp, Hv. by rewrite Z.abs_eq by lia.
Qed.

Lemma fold_left_foldl {A B} (f : A -> B -> A) l a : fold_left f l a = foldl f a l.
Proof. revert a. induction l; intros; [done|]. cbn. auto. Qed.

(** [strconv.ParseInt] undoes [strconv.Itoa] within int64. *)
Lemma parse_int64_itoa z : in_int64 z -> parse_int64 (itoa z) = (z, true).
Proof.
  intros Hz. unfold in_int64 in Hz.
  assert (forall ds, all_digits ds -> forallb (fun d => (48 <=? d) && (d <=? 57)) ds = true) as Hall.
  { intros ds. induction 1 as [|d ds Hd Hds IH]; [done|]. cbn. rewrite IH. unfold is_digit, cont in Hd. by rewrite Hd. }
  unfold parse_int64. destruct (Z.leb_spec 0 z) as [H0|H0].
  - destruct (itoa_digits z H0) as (ds & -> & Hd & Hv & d & ds' & -> & _).
    assert (fold_left (fun acc d0 => acc * 10 + (d0 - 48)) (d :: ds') 0 = z) as Hf by (by rewrite fold_left_foldl).
    assert (is_digit d = true) as Hdd by (by apply Forall_cons_1 in Hd as [? _]). destruct (digit_not_sign _ Hdd) as (Hn1 & Hn2 & _).
    assert ((match d :: ds' with 45 :: ds0 => (true, ds0) | 43 :: ds0 => (false, ds0) | ds0 => (false, ds0) end) = (false, d :: ds')) as ->.
    { clear -Hn1 Hn2. destruct d as [|p|p]; [done| |done]. do 6 (destruct p as [p|p|]; try done). }
    rewrite (Hall _ Hd), Hf. destruct (Z.ltb_spec z int64_min); [lia|]. by destruct (Z.ltb_spec int64_max z); [lia|].
  - destruct z as [|p|p]; try lia. rewrite itoa_neg, bytes_of_app. change (bytes_of "-") with [45]. cbn [app].
    destruct (itoa_digits (Z.pos p) ltac:(lia)) as (ds & -> & Hd & Hv & d & ds' & -> & _). rewrite (Hall _ Hd).
    assert (fold_left (fun acc d0 => acc * 10 + (d0 - 48)) (d :: ds') 0 = Z.pos p) as -> by (by rewrite fold_left_foldl).
    change (- Z.pos p) with (Z.neg p). destruct (Z.ltb_spec (Z.neg p) int64_min); [lia|]. by destruct (Z.ltb_spec int64_max (Z.neg p)); [lia|].
Qed.

(** *** Floats *)

Lemma reads_as_ok d q f : reads_as d q f = true -> exists p, d = Z.pos p /\ float_of_dec false p q = Some f.
Proof.
  unfold reads_as. destruct d as [|p|p]; try done. destruct (float_of_dec false p q) as [g|] eqn:Hg; [|done].
  intros He. exists p. split; [done|]. rewrite Hg. f_equal. destruct g as [s| | |s m e], f as [t| | |t n k]; try done; cbn in He.
  - by apply Bool.eqb_prop in He as ->.
  - apply andb_true_iff in He as [[H1 H2]%andb_true_iff H3]. apply Bool.eqb_prop in H1 as ->.
    apply Pos.eqb_eq in H2 as ->. by apply Z.eqb_eq in H3 as ->.
Qed.

Lemma bytes_of_substring a n s : bytes_of (String.substring a n s) = take n (drop a (bytes_of s)).
Proof.
  revert a n. induction s as [|c s IH]; intros a n.
  - destruct a, n; done.
  - destruct a as [|a]; [destruct n as [|n]|]; [done| |].
    + cbn [String.substring]. rewrite !bytes_of_cons. cbn [drop take]. f_equal. rewrite IH. done.
    + cbn [String.substring]. rewrite IH, bytes_of_cons. done.
Qed.
Lemma bytes_of_zeros n : bytes_of (zeros n) = replicate (Z.to_nat n) 48.
Proof. unfold zeros. apply bytes_of_of_bytes. apply Forall_replicate. unfold is_byte. lia. Qed.
Lemma zeros_digits n : all_digits (replicate n 48).
Proof. by apply Forall_replicate. Qed.
Lemma digits_value_zeros n : digits_value (replicate n 48) = 0.
Proof. induction n as [|n IH]; [done|]. unfold digits_value in *. cbn. exact IH. Qed.
Lemma digits_value_pad ds n : digits_value (ds ++ replicate n 48) = digits_value ds * 10 ^ Z.of_nat n.
Proof.
  rewrite digits_value_app. generalize (digits_value ds). induction n as [|n IH]; intros v; cbn [replicate foldl]; [lia|].
  rewrite IH, Nat2Z.inj_succ, Z.pow_succ_r by lia. lia.
Qed.
Lemma digits_value_lead n ds : digits_value (replicate n 48 ++ ds) = digits_value ds.
Proof. by rewrite digits_value_app, digits_value_zeros. Qed.

(** The encoder's layouts are literals of the same digits. *)
Lemma layout_literal n d digits q : 0 < digits ->
  exists m k, parse_number (bytes_of (layout n d digits q)) = Some ((false, m, k), []) /\
    ((m = digits /\ k = q) \/ (0 <= q /\ m = digits * 10 ^ q /\ k = 0)).
Proof.
  intros Hpos. destruct (itoa_digits digits ltac:(lia)) as (ds & Hb & Hd & Hv & d0 & ds' & Hds & Hz).
  rewrite Hds in Hb, Hd, Hv. clear Hds ds. set (ds := d0 :: ds') in *.
  assert (d0 <> 48) as Hd0. { intros ->. destruct (Hz eq_refl) as [_ ?]. lia. }
  assert (Z.of_nat (String.length (itoa digits)) = Z.of_nat (length ds)) as Hlen by (by rewrite <- Hb, bytes_of_length).
  assert (all_digits [48]) as H48 by by repeat constructor.
  unfold layout. destruct (_ || _); [|destruct (Z.leb_spec 0 q) as [Hq|Hq]; [|destruct (Z.ltb_spec 0 (Z.of_nat (String.length (itoa digits)) + q)) as [Hp|Hp]]].
  - (* scientific *)
    set (ex := Z.of_nat (String.length (itoa digits)) + q - 1).
    destruct (itoa_digits (Z.abs ex) ltac:(lia)) as (es & Heb & Hed & Hev & e0 & es' & Hes & _).
    assert (bytes_of (match itoa digits with String c "" => String c "" | String c rest => String c ("." +:+ rest) | "" => "" end) =
            [d0] ++ fraction_text ds') as Hmant.
    { subst ds. clear -Hb. destruct (itoa digits) as [|c [|c2 r]]; [done|cbn in Hb; by injection Hb as <- <-|].
      rewrite bytes_of_cons in Hb. injection Hb as <- <-. rewrite bytes_of_cons, bytes_of_app, bytes_of_cons. done. }
    exists digits, q. split; [|by left]. rewrite !bytes_of_app, Hmant, Heb.
    assert (all_digits [d0] /\ all_digits ds') as [Hd1 Hd2] by (unfold all_digits, ds in Hd; apply Forall_cons_1 in Hd as [? ?]; split; [by repeat constructor|done]).
    pose proof (parse_parts false [d0] ds' (Some (ex <? 0, es)) Hd1 (ex_intro _ d0 (ex_intro _ [] (conj eq_refl (fun _ => eq_refl)))) Hd2) as Hp.
    cbn [app] in Hp. assert (parse_number ([d0] ++ fraction_text ds' ++ exponent_text (Some (ex <? 0, es))) =
      Some (false, digits_value ([d0] ++ ds'), exponent_value (Some (ex <? 0, es)) - Z.of_nat (length ds'), [])) as Hp'.
    { apply Hp. intros s ep [= <- <-]. split; [done|by rewrite Hes]. }
    assert (([d0] ++ fraction_text ds') ++ bytes_of "e" ++ bytes_of (if ex <? 0 then "-" else "+") ++ es =
            [d0] ++ fraction_text ds' ++ exponent_text (Some (ex <? 0, es))) as ->.
    { rewrite <- app_assoc. do 2 f_equal. by destruct (ex <? 0). }
    rewrite Hp'. f_equal. f_equal. f_equal.
    + f_equal. by rewrite <- Hv.
    + cbn. rewrite Hev. subst ex. rewrite Hlen. subst ds. cbn [length]. destruct (Z.ltb_spec (Z.of_nat (S (length ds')) + q - 1) 0); lia.
  - (* trailing zeros *)
    exists (digits * 10 ^ q), 0. split; [|by right]. rewrite bytes_of_app, Hb, bytes_of_zeros.
    assert (all_digits (ds ++ replicate (Z.to_nat q) 48)) as Hall by (by apply Forall_app; split; [|apply zeros_digits]).
    pose proof (parse_parts false (ds ++ replicate (Z.to_nat q) 48) [] None Hall) as Hp. cbn [fraction_text exponent_text app] in Hp.
    rewrite !app_nil_r in Hp. rewrite Hp; [|by subst ds; exists d0, (ds' ++ replicate (Z.to_nat q) 48)|constructor|done].
    rewrite digits_value_pad, Hv, Z2Nat.id by done. done.
  - (* point inside *)
    exists digits, q. split; [|by left]. rewrite Hlen in *. set (p := Z.to_nat (Z.of_nat (length ds) + q)).
    rewrite !bytes_of_app, !bytes_of_substring, Hb. change (bytes_of ".") with [46].
    assert (take (Z.to_nat (- q)) (drop p ds) = drop p ds) as -> by (apply take_ge; rewrite length_drop; unfold p; lia).
    rewrite drop_0. assert (all_digits (take p ds) /\ all_digits (drop p ds)) as [H1 H2] by (split; [by apply Forall_take|by apply Forall_drop]).
    assert (exists p', p = S p') as [p' Hp'] by (exists (pred p); unfold p; lia).
    pose proof (parse_parts false (take p ds) (drop p ds) None H1) as Hpp. cbn [exponent_text app] in Hpp. rewrite app_nil_r in Hpp.
    assert (drop p ds <> []) as Hne. { intros Hnil%(f_equal length). rewrite length_drop in Hnil. change (length []) with 0%nat in Hnil. unfold p in Hnil. lia. }
    assert (fraction_text (drop p ds) = [46] ++ drop p ds) as Hft by (by destruct (drop p ds)). rewrite Hft in Hpp.
    rewrite Hpp; [|rewrite Hp'; subst ds; by exists d0, (take p' ds')|done|done].
    rewrite take_drop, Hv. cbn [exponent_value]. f_equal. f_equal. f_equal. rewrite length_drop. subst p. lia.
  - (* leading zeros *)
    exists digits, q. split; [|by left]. rewrite Hlen in *. rewrite !bytes_of_app, bytes_of_zeros, Hb. change (bytes_of "0.") with [48; 46].
    set (zs := replicate (Z.to_nat (- (Z.of_nat (length ds) + q))) 48).
    assert (all_digits (zs ++ ds)) as Hall by (apply Forall_app; split; [apply zeros_digits|done]).
    pose proof (parse_parts false [48] (zs ++ ds) None H48 (ex_intro _ 48 (ex_intro _ [] (conj eq_refl (fun _ => eq_refl)))) Hall ltac:(done)) as Hpp.
    cbn [exponent_text app] in Hpp. rewrite app_nil_r in Hpp.
    assert (fraction_text (zs ++ ds) = 46 :: zs ++ ds) as Hft by (subst ds; by destruct zs). rewrite Hft in Hpp.
    cbn [app]. rewrite Hpp. f_equal. f_equal. f_equal.
    + f_equal. change (48 :: zs ++ ds) with (replicate 1 48 ++ zs ++ ds). unfold zs. by rewrite digits_value_lead, digits_value_lead.
    + cbn. rewrite length_app. unfold zs. rewrite length_replicate. lia.
Qed.

Lemma log2_pow10 q : 1 <= q -> Z.log2 (10 ^ q) <= 4 * q - 1.
Proof.
  intros Hq. assert (Z.log2 (10 ^ q) < 4 * q); [|lia]. apply Z.log2_lt_pow2; [apply Z.pow_pos_nonneg; lia|].
  rewrite Z.pow_mul_r by lia. apply Z.pow_lt_mono_l; lia.
Qed.

(** Writing the zeros of a positive exponent out changes nothing. *)
Lemma float_of_dec_scale neg p q f : 0 <= q -> float_of_dec neg p q = Some f ->
  exists p', Z.pos p * 10 ^ q = Z.pos p' /\ float_of_dec neg p' 0 = Some f.
Proof.
  intros Hq Hf. assert (0 < Z.pos p * 10 ^ q) as Hpos by (apply Z.mul_pos_pos; [lia|apply Z.pow_pos_nonneg; lia]).
  destruct (Z.pos p * 10 ^ q) as [|p'|p'] eqn:Hp'; try lia. exists p'. split; [done|]. revert Hf. unfold float_of_dec.
  destruct (Z.ltb_spec 1100 (Z.log2 (Z.pos p) / 4 + q)) as [|Hle]; [done|].
  assert (Z.log2 (Z.pos p') / 4 + 0 <= 1100) as Hle'.
  { destruct (decide (q = 0)) as [->|Hq0].
    - rewrite Z.pow_0_r, Z.mul_1_r in Hp'. rewrite <- Hp'. lia.
    - rewrite <- Hp'. pose proof (Z.log2_mul_above (Z.pos p) (10 ^ q) ltac:(lia) ltac:(apply Z.pow_nonneg; lia)) as Hl.
      pose proof (log2_pow10 q ltac:(lia)) as H10.
      assert (Z.log2 (Z.pos p * 10 ^ q) / 4 <= (Z.log2 (Z.pos p) + q * 4) / 4) as Hd by (apply Z.div_le_mono; lia).
      rewrite Z.div_add in Hd by lia. lia. }
  destruct (Z.ltb_spec 1100 (Z.log2 (Z.pos p') / 4 + 0)); [lia|].
  destruct (Z.leb_spec 0 q); [|lia]. cbn [Z.leb Z.compare]. rewrite Z.pow_0_r, Z.mul_1_r.
  assert ((if neg then Z.neg p * 10 ^ q else Z.pos p * 10 ^ q) = (if neg then Z.neg p' else Z.pos p')) as ->; [|destruct neg; rewrite ?Z.mul_1_r; done].
  destruct neg; [|done]. change (Z.neg p) with (- Z.pos p). rewrite Z.mul_opp_l, Hp'. done.
Qed.

(** The sign of a decimal is the sign of its float. *)
Lemma round_aux_opp s m e l : binary_round_aux 53 1024 (negb s) m e l = SFopp (binary_round_aux 53 1024 s m e l).
Proof.
  unfold binary_round_aux. destruct (shr_fexp 53 1024 m e l) as [mrs' e']. destruct (shr_fexp 53 1024 _ e' _) as [mrs'' e''].
  destruct (shr_m mrs''); try done. by destruct (_ <=? _).
Qed.
Lemma normalize_neg p : binary_normalize 53 1024 (Z.neg p) 0 true = SFopp (binary_normalize 53 1024 (Z.pos p) 0 false).
Proof.
  cbn [binary_normalize]. unfold binary_round. destruct (shl_align _ _ _) as [mz ez]. apply (round_aux_opp false).
Qed.
Lemma float_of_dec_neg p k : float_of_dec true p k = SFopp <$> float_of_dec false p k.
Proof.
  unfold float_of_dec. destruct (1100 <? _); [done|].
  assert (forall f, match SFopp f with S754_infinity _ | S754_nan => None | _ => Some (SFopp f) end =
    SFopp <$> match f with S754_infinity _ | S754_nan => None | _ => Some f end) as Hopp by (by intros []).
  destruct (0 <=? k).
  - assert (0 < Z.pos p * 10 ^ k \/ Z.pos p * 10 ^ k = 0) as [Hpos|Hz] by (pose proof (Z.pow_nonneg 10 k); nia).
    + destruct (Z.pos p * 10 ^ k) as [|p'|p'] eqn:Hp'; try lia. change (Z.neg p) with (- Z.pos p). rewrite Z.mul_opp_l, Hp'.
      change (- Z.pos p') with (Z.neg p'). rewrite normalize_neg. apply Hopp.
    + change (Z.neg p) with (- Z.pos p). rewrite Z.mul_opp_l, Hz. done.
  - destruct (k <? _); [done|].
    assert (SFdiv 53 1024 (S754_finite true p 0) (S754_finite false (Z.to_pos (10 ^ (- k))) 0) =
            SFopp (SFdiv 53 1024 (S754_finite false p 0) (S754_finite false (Z.to_pos (10 ^ (- k))) 0))) as ->; [|apply Hopp].
    unfold SFdiv. destruct (SFdiv_core_binary _ _ _ _ _ _) as [[mz ez] lz]. cbn [xorb]. apply (round_aux_opp false).
Qed.

Lemma shortest_reads fuel p n m k f digits q : shortest fuel p n m k f = Some (digits, q) -> reads_as digits q f = true.
Proof.
  revert p. induction fuel as [|fuel IH]; intros p; cbn [shortest]; cbv zeta; [done|].
  repeat match goal with |- context [if reads_as ?a ?b ?c then _ else _] => destruct (reads_as a b c) eqn:? end; [..|apply IH];
    intros Hc; apply (inj Some) in Hc; by rewrite Hc in *.
Qed.

(** What the encoder writes for a float64 reads back as that float64. *)
Lemma format_float_reads f t : format_float f = Some t ->
  exists v, parse_number (bytes_of t) = Some (v, []) /\ number_value v = Some (VFloat f).
Proof.
  destruct f as [s| | |s m e]; try done.
  { destruct s; intros [= <-]; [exists (true, 0, 0)|exists (false, 0, 0)]; split; reflexivity. }
  unfold format_float, format_finite. cbv zeta. set (n := if 0 <=? e then Z.pos m * 2 ^ e else Z.pos m). set (d := if 0 <=? e then 1 else 2 ^ (- e)).
  destruct (shortest _ _ _ _ _ _) as [[digits q]|] eqn:Hs; [|done]. intros [= <-].
  assert (exists p, digits = Z.pos p /\ float_of_dec false p q = Some (S754_finite false m e)) as (p & -> & Hp).
  { apply reads_as_ok. by eapply shortest_reads. }
  destruct (layout_literal n d (Z.pos p) q ltac:(lia)) as (m' & k & Hparse & Hmk).
  assert (exists p', m' = Z.pos p' /\ float_of_dec false p' k = Some (S754_finite false m e)) as (p' & -> & Hp').
  { destruct Hmk as [[-> ->]|(Hq & -> & ->)]; [by exists p|]. destruct (float_of_dec_scale _ _ _ _ Hq Hp) as (p' & Heq & Hf). by exists p'. }
  destruct s.
  - exists (true, Z.pos p', k). split; [|cbn; by rewrite float_of_dec_neg, Hp'].
    rewrite bytes_of_app. change (bytes_of "-") with [45]. cbn [app].
    destruct (parse_number_head _ _ _ Hparse) as (b & l & Hbl & Hb). rewrite Hbl in Hparse |- *.
    assert (b <> 45) as Hb45.
    { intros ->. revert Hparse. unfold parse_number, parse_sign. cbn. repeat (case_match; try done). }
    revert Hparse. unfold parse_number.
    assert (parse_sign (45 :: b :: l) = (true, b :: l)) as -> by done.
    assert (parse_sign (b :: l) = (false, b :: l)) as -> by (unfold parse_sign; cbn; by apply Z.eqb_neq in Hb45 as ->).
    destruct (take_digits (b :: l)) as [[|d0 more] l2]; [done|]. destruct (_ && _); [done|].
    destruct (parse_fraction l2) as [[fp l3]|]; [|done]. destruct (parse_exponent l3) as [[ex l4]|]; [|done]. congruence.
  - exists (false, Z.pos p', k). split; [exact Hparse|]. cbn. by rewrite Hp'.
Qed.

(** ** Values *)

(** Induction through the lists of a value. *)
Section GovalInd.
Context (P : goval -> Prop).
Context (Hnil : P VNil) (Hbool : forall b, P (VBool b)) (Hint : forall z, P (VInt z)) (Hfloat : forall f, P (VFloat f)).
Context (Hnumber : forall lit, P (VNumber lit)) (Hstring : forall s, P (VString s)) (Hraw : forall t, P (VRaw t)).
Context (Hslice : forall l, Forall P l -> P (VSlice l)).
Context (Hmap : forall m : list (string * goval), Forall (fun kv => P kv.2) m -> P (VMap m)).
Context (Hstruct : forall m : list (string * goval), Forall (fun kv => P kv.2) m -> P (VStruct m)).

Fixpoint goval_nested_ind (v : goval) : P v :=
match v with
| VNil => Hnil
| VBool b => Hbool b
| VInt z => Hint z
| VFloat f => Hfloat f
| VNumber lit => Hnumber lit
| VString s => Hstring s
| VSlice l => Hslice l ((fix go l := match l return Forall P l with
                           | [] => Forall_nil_2 P
                           | x :: l' => Forall_cons_2 P x l' (goval_nested_ind x) (go l')
                           end) l)
| VMap m => Hmap m ((fix go m := match m return Forall (fun kv => P kv.2) m with
                       | [] => Forall_nil_2 _
                       | kv :: m' => Forall_cons_2 _ kv m' (goval_nested_ind kv.2) (go m')
                       end) m)
| VStruct m => Hstruct m ((fix go m := match m return Forall (fun kv => P kv.2) m with
                             | [] => Forall_nil_2 _
                             | kv :: m' => Forall_cons_2 _ kv m' (goval_nested_ind kv.2) (go m')
                             end) m)
| VRaw t => Hraw t
end.
End GovalInd.

(** What the program's values satisfy: keys are distinct and valid UTF-8; raw
    JSON is left out. *)
Definition all_props (l : list Prop) : Prop := foldr and True l.
Fixpoint clean (v : goval) : Prop :=
  match v with
  | VSlice l => all_props (map clean l)
  | VMap m | VStruct m =>
      NoDup (map fst m) /\ Forall utf8_text (map fst m) /\ all_props (map (fun kv => clean kv.2) m)
  | VRaw _ => False
  | _ => True
  end.
Lemma all_props_Forall {A} (P : A -> Prop) l : all_props (map P l) <-> Forall P l.
Proof. induction l as [|x l IH]; cbn; [by split|]. rewrite Forall_cons, <- IH. done. Qed.

(** The value the decoder reads for it. *)
Fixpoint decoded (v : goval) : goval :=
  match v with
  | VInt z => VNumber (itoa z)
  | VFloat f => VNumber (default "" (format_float f))
  | VNumber lit => VNumber (if str_eqb lit "" then "0" else lit)
  | VString s => VString (sanitize_text s)
  | VSlice l => VSlice (map decoded l)
  | VMap m => VMap (sort_on fst (map (fun kv => (kv.1, decoded kv.2)) m))
  | VStruct m => VMap (map (fun kv => (kv.1, decoded kv.2)) m)
  | v => v
  end.

Lemma opt_all_Forall2 {A} (l : list (option A)) (l' : list A) : opt_all l = Some l' <-> Forall2 (fun o x => o = Some x) l l'.
Proof.
  revert l'. induction l as [|o l IH]; intros l'; cbn.
  - split; [by intros [= <-]|]. by intros ->%Forall2_nil_inv_l.
  - fold (opt_all l). split.
    + destruct o as [x|]; [|done]. destruct (opt_all l) as [xs|]; [|done]. intros [= <-]. constructor; [done|]. by apply IH.
    + intros (x & xs & -> & Hl & ->)%Forall2_cons_inv_l. apply IH in Hl. cbn in *. by rewrite Hl.
Qed.

Lemma opt_all_map {A B} (f : A -> option B) l l' : opt_all (map f l) = Some l' <-> Forall2 (fun x y => f x = Some y) l l'.
Proof. by rewrite opt_all_Forall2, Forall2_fmap_l. Qed.

Lemma sort_on_map {A B} (g : A -> B) (ka : A -> string) (kb : B -> string) l :
  (forall x, kb (g x) = ka x) -> NoDup (map ka l) -> sort_on kb (map g l) = map g (sort_on ka l).
Proof.
  intros Hk Hnd. apply (StronglySorted_unique_strong (key_le kb)).
  - intros y1 y2 Hy1 Hy2 H12 H21. rewrite sort_on_elem in Hy1. apply list_elem_of_fmap in Hy1 as (x1 & -> & Hx1).
    apply list_elem_of_fmap in Hy2 as (x2 & -> & Hx2). rewrite sort_on_elem in Hx2. unfold key_le in *. rewrite !Hk in *.
    f_equal. apply (NoDup_map_inj ka l); [done..|]. by apply (anti_symm String.le).
  - apply sort_on_sorted.
  - assert (forall m, StronglySorted (key_le ka) m -> StronglySorted (key_le kb) (map g m)) as Hs; [|apply Hs, sort_on_sorted].
    induction 1 as [|x m Hm IH Hall]; cbn; constructor; [done|]. apply Forall_fmap. eapply Forall_impl; [exact Hall|].
    intros y. unfold key_le. cbn. by rewrite !Hk.
  - by rewrite !sort_on_permutation.
Qed.

(** *** The shape of an encoded value *)

Definition starts (l : list Z) : Prop := exists b l', l = b :: l' /\ is_space_byte b = false /\ b <> 93 /\ b <> 125.

Lemma number_starts l v r : parse_number l = Some (v, r) -> starts l.
Proof.
  intros (b & l' & -> & Hb)%parse_number_head. exists b, l'. split; [done|]. destruct Hb as [->|Hb]; [done|].
  unfold is_digit, cont in Hb. bool_inv. unfold is_space_byte. rewrite !orb_false_iff, !Z.eqb_neq. lia.
Qed.

Lemma skip_ws_starts l : starts l -> skip_ws l = l.
Proof. intros (b & l' & -> & Hb & _). cbn. by rewrite Hb. Qed.

Lemma quote_head s : exists l, bytes_of (quote s) = 34 :: l.
Proof. rewrite bytes_of_quote. by eexists. Qed.

Definition member_of (kv : string * goval) : option (string * string) :=
  match marshal kv.2 with Some t => Some (kv.1, t) | None => None end.
Lemma marshal_slice l : marshal (VSlice l) = (fun ts => "[" +:+ join_with "," ts +:+ "]") <$> opt_all (map marshal l).
Proof. change (marshal (VSlice l)) with (match opt_all (map marshal l) with Some ts => Some ("[" +:+ join_with "," ts +:+ "]") | None => None end). by destruct (opt_all _). Qed.
Lemma marshal_map m :
  marshal (VMap m) = (fun ms => "{" +:+ join_with "," (map member_text (sort_on fst ms)) +:+ "}") <$> opt_all (map member_of m).
Proof.
  change (marshal (VMap m)) with (match opt_all (map member_of m) with
    Some ms => Some ("{" +:+ join_with "," (map member_text (sort_on fst ms)) +:+ "}") | None => None end).
  by destruct (opt_all _).
Qed.
Lemma marshal_struct m : marshal (VStruct m) = (fun ms => "{" +:+ join_with "," (map member_text ms) +:+ "}") <$> opt_all (map member_of m).
Proof.
  change (marshal (VStruct m)) with (match opt_all (map member_of m) with
    Some ms => Some ("{" +:+ join_with "," (map member_text ms) +:+ "}") | None => None end).
  by destruct (opt_all _).
Qed.

Lemma marshal_starts v t : marshal v = Some t -> clean v -> starts (bytes_of t).
Proof.
  destruct v as [|b|z|f|lit|s|l|m|m|raw]; cbn [clean]; intros Hm Hc.
  - injection Hm as <-. by eexists _, _.
  - injection Hm as <-. by destruct b; eexists _, _.
  - injection Hm as <-. eapply number_starts, itoa_literal.
  - destruct (format_float_reads f t Hm) as (v & Hv & _). by eapply number_starts.
  - revert Hm. unfold marshal. set (lit' := if str_eqb lit "" then "0" else lit). unfold number_literal_ok.
    destruct (parse_number (bytes_of lit')) as [[v [|]]|] eqn:Hp; try done. intros [= <-]. by eapply number_starts.
  - injection Hm as <-. destruct (quote_head s) as [l ->]. by eexists _, _.
  - rewrite marshal_slice in Hm. apply fmap_Some in Hm as (ts & _ & ->). rewrite bytes_of_app. by eexists _, _.
  - rewrite marshal_map in Hm. apply fmap_Some in Hm as (ts & _ & ->). rewrite bytes_of_app. by eexists _, _.
  - rewrite marshal_struct in Hm. apply fmap_Some in Hm as (ts & _ & ->). rewrite bytes_of_app. by eexists _, _.
  - done.
Qed.

(** *** Reading a value back *)

(** [t] is read as [v] in front of anything that may follow it. *)
Definition reads (t : string) (v : goval) : Prop :=
  forall rest fuel, delim rest -> (2 * length (bytes_of t) <= fuel)%nat -> parse_value fuel (bytes_of t ++ rest) = Some (v, rest).

Lemma reads_number t n : parse_number (bytes_of t) = Some (n, []) -> reads t (VNumber t).
Proof.
  intros Hp rest fuel Hd Hf. destruct (parse_number_head _ _ _ Hp) as (b & l & Hb & Hbd).
  assert (b = 45 \/ 48 <= b <= 57) as Hrange.
  { destruct Hbd as [->|Hbd]; [by left|right]. unfold is_digit, cont in Hbd. bool_inv. lia. }
  destruct fuel as [|fuel]; [rewrite Hb in Hf; cbn in Hf; lia|].
  pose proof (parse_number_app _ rest _ _ Hd Hp) as Hpa. cbn [app] in Hpa.
  cbn [parse_value]. rewrite skip_ws_starts.
  2:{ pose proof (number_starts _ _ _ Hp) as (b' & l' & -> & H1). cbn [app]. by exists b', (l' ++ rest). }
  rewrite Hb in Hpa |- *. cbn [app]. assert (forall c, 57 < c \/ c = 34 -> b =? c = false) as Hne by (intros; apply Z.eqb_neq; lia).
  rewrite !Hne by lia. cbn [strip_prefix]. rewrite !(Z.eqb_sym _ b), !Hne by lia. cbn [app] in Hpa. rewrite Hpa.
  unfold number_literal. do 3 f_equal. change (b :: l ++ rest) with ((b :: l) ++ rest).
  rewrite length_app, take_app_le by lia. rewrite <- Hb, take_ge by lia. apply of_bytes_bytes_of.
Qed.

Lemma reads_string s : reads (quote s) (VString (sanitize_text s)).
Proof.
  intros rest fuel Hd Hf. rewrite bytes_of_quote in Hf |- *. destruct fuel as [|fuel]; [cbn in Hf; lia|].
  cbn [app parse_value skip_ws is_space_byte Z.eqb orb]. rewrite <- app_assoc. cbn [app].
  assert (is_space_byte 34 = false) as -> by done. cbn [Z.eqb Pos.eqb].
  rewrite parse_escape_any; [done|apply bytes_of_bytes|done|]. rewrite length_app. cbn. lia.
Qed.

(** Texts joined by commas. *)
Definition tail_text (ts : list string) : list Z := concat (map (fun t => 44 :: bytes_of t) ts).
Lemma bytes_of_join t ts : bytes_of (join_with "," (t :: ts)) = bytes_of t ++ tail_text ts.
Proof.
  unfold join_with. revert t. induction ts as [|t' ts IH]; intros t; cbn [foldl]; [by rewrite app_nil_r|].
  rewrite IH, !bytes_of_app. change (bytes_of ",") with [44]. unfold tail_text. cbn. by rewrite <- !app_assoc.
Qed.

Lemma delim_byte b rest : b = 44 \/ b = 93 \/ b = 125 -> delim (b :: rest).
Proof. intros [-> | [-> | ->]]; (split; [reflexivity|lia]). Qed.

Lemma reads_elements vs : forall v t ts acc rest fuel,
  reads t v -> Forall2 reads ts vs -> (2 * (length (bytes_of t) + length (tail_text ts) + 1) <= fuel)%nat ->
  parse_elements fuel (bytes_of t ++ tail_text ts ++ 93 :: rest) acc = Some (VSlice (acc ++ v :: vs), rest).
Proof.
  induction vs as [|v' vs IH]; intros v t ts acc rest fuel Hv Hvs Hf; (destruct fuel as [|fuel]; [lia|]); cbn [parse_elements].
  - apply Forall2_nil_inv_r in Hvs as ->. rewrite Hv; [|apply delim_byte; auto|lia]. done.
  - apply Forall2_cons_inv_r in Hvs as (t' & ts' & Hv' & Hvs & ->).
    change (tail_text (t' :: ts')) with ((44 :: bytes_of t') ++ tail_text ts') in *. rewrite length_app in Hf. cbn [length] in Hf.
    rewrite <- app_assoc. cbn [app]. rewrite Hv; [|apply delim_byte; auto|lia]. cbn [skip_ws].
    assert (is_space_byte 44 = false) as -> by done. rewrite (IH v' t' ts' (acc ++ [v]) rest fuel Hv' Hvs) by lia. by rewrite <- app_assoc.
Qed.

Lemma map_set_fresh {A} (m : list (string * A)) k v : k ∉ map fst m -> map_set m k v = m ++ [(k, v)].
Proof.
  intros Hk. unfold map_set. f_equal. induction m as [|[k' v'] m IH]; [done|]. cbn in *. apply not_elem_of_cons in Hk as [H1 H2].
  apply str_eqb_false in H1. rewrite H1. cbn. by rewrite IH.
Qed.

Lemma bytes_of_member k t : bytes_of (member_text (k, t)) = 34 :: escape (length (bytes_of k)) (bytes_of k) ++ 34 :: 58 :: bytes_of t.
Proof. unfold member_text. cbn [fst snd]. rewrite !bytes_of_app, bytes_of_quote. change (bytes_of ":") with [58]. cbn. by rewrite <- app_assoc. Qed.

(** A member is its key with the text of its value. *)
Definition reads_member (kt : string * string) (kv : string * goval) : Prop := kt.1 = kv.1 /\ utf8_text kt.1 /\ reads kt.2 kv.2.

Lemma reads_members vs : forall kv kt ts acc rest fuel,
  reads_member kt kv -> Forall2 reads_member ts vs -> NoDup (map fst (acc ++ kv :: vs)) ->
  (2 * (length (bytes_of (member_text kt)) + length (tail_text (map member_text ts)) + 1) <= fuel)%nat ->
  parse_members fuel (bytes_of (member_text kt) ++ tail_text (map member_text ts) ++ 125 :: rest) acc = Some (VMap (acc ++ kv :: vs), rest).
Proof.
  induction vs as [|kv' vs IH]; intros [k v] [k0 t] ts acc rest fuel (Hk & Hu & Hv) Hvs Hnd Hf; cbn [fst snd] in *; subst k0;
    (destruct fuel as [|fuel]; [lia|]); rewrite bytes_of_member in Hf |- *; cbn [length] in Hf; rewrite length_app in Hf; cbn [length] in Hf;
    assert (k ∉ map fst acc) as Hfresh by (rewrite map_app in Hnd; apply NoDup_app in Hnd as (_ & Hx & _); intros Hin; apply (Hx k Hin); left);
    cbn [parse_members app skip_ws]; assert (is_space_byte 34 = false) as -> by done; rewrite <- app_assoc; cbn [app];
    (rewrite parse_escape; [|exact Hu|apply bytes_of_bytes|done|rewrite length_app; cbn; lia]); cbn [skip_ws];
    assert (is_space_byte 58 = false) as -> by done.
  - apply Forall2_nil_inv_r in Hvs as ->. cbn [map tail_text concat app]. rewrite Hv; [|apply delim_byte; auto|lia]. cbn [skip_ws].
    assert (is_space_byte 125 = false) as -> by done. by rewrite of_bytes_bytes_of, map_set_fresh.
  - apply Forall2_cons_inv_r in Hvs as (kt' & ts' & Hv' & Hvs & ->).
    change (tail_text (map member_text (kt' :: ts'))) with ((44 :: bytes_of (member_text kt')) ++ tail_text (map member_text ts')) in *.
    rewrite length_app in Hf. cbn [length] in Hf. rewrite <- !app_assoc. cbn [app]. rewrite Hv; [|apply delim_byte; auto|lia]. cbn [skip_ws].
    assert (is_space_byte 44 = false) as -> by done. rewrite of_bytes_bytes_of, map_set_fresh by done.
    rewrite (IH kv' kt' ts' (acc ++ [(k, v)]) rest fuel Hv' Hvs); [by rewrite <- app_assoc| |lia]. by rewrite <- app_assoc.
Qed.

Lemma reads_object ms kvs : Forall2 reads_member ms kvs -> NoDup (map fst kvs) ->
  reads ("{" +:+ join_with "," (map member_text ms) +:+ "}") (VMap kvs).
Proof.
  intros Hms Hnd rest fuel Hd Hf. rewrite !bytes_of_app in Hf |- *. change (bytes_of "{") with [123] in *. change (bytes_of "}") with [125] in *.
  rewrite !length_app in Hf. cbn [length] in Hf. destruct fuel as [|fuel]; [lia|]. rewrite <- !app_assoc. cbn [app parse_value skip_ws].
  assert (is_space_byte 123 = false) as -> by done. cbn [Z.eqb Pos.eqb].
  destruct Hms as [|[k t] kv ms kvs Hm Hms]; [done|]. cbn [map] in *. rewrite bytes_of_join in Hf |- *. rewrite length_app in Hf.
  rewrite <- !app_assoc. cbn [app]. rewrite skip_ws_starts; [|rewrite bytes_of_member; by eexists _, _].
  assert (forall l, eat 125 (bytes_of (member_text (k, t)) ++ l) = None) as -> by (intros l; by rewrite bytes_of_member).
  rewrite (reads_members kvs kv (k, t) ms [] rest fuel Hm Hms); [done|done|lia].
Qed.

Lemma reads_list ts vs : Forall2 reads ts vs -> Forall (fun t => starts (bytes_of t)) ts ->
  reads ("[" +:+ join_with "," ts +:+ "]") (VSlice vs).
Proof.
  intros Hts Hst rest fuel Hd Hf. rewrite !bytes_of_app in Hf |- *. change (bytes_of "[") with [91] in *. change (bytes_of "]") with [93] in *.
  rewrite !length_app in Hf. cbn [length] in Hf. destruct fuel as [|fuel]; [lia|]. rewrite <- !app_assoc. cbn [app parse_value skip_ws].
  assert (is_space_byte 91 = false) as -> by done. cbn [Z.eqb Pos.eqb].
  destruct Hts as [|t v ts vs Hv Hts]; [done|]. rewrite bytes_of_join in Hf |- *. rewrite length_app in Hf.
  apply Forall_cons_1 in Hst as [(b & l & Hb & Hsp & H93 & H125) _]. rewrite <- !app_assoc.
  rewrite skip_ws_starts by (rewrite Hb; exists b, (l ++ tail_text ts ++ 93 :: rest); repeat split; done).
  assert (eat 93 (bytes_of t ++ tail_text ts ++ 93 :: rest) = None) as -> by (rewrite Hb; cbn; by apply Z.eqb_neq in H93 as ->).
  rewrite (reads_elements vs v t ts [] rest fuel Hv Hts) by lia. done.
Qed.

(** Members of a map are matched after sorting. *)
Lemma sort_on_Forall2 {A B} (R : A -> B -> Prop) (ka : A -> string) (kb : B -> string) l l' :
  Forall2 R l l' -> (forall a b, R a b -> ka a = kb b) -> NoDup (map ka l) -> Forall2 R (sort_on ka l) (sort_on kb l').
Proof.
  intros HR Hk Hnd. set (p := zip l l').
  assert (map fst p = l /\ map snd p = l') as [Hl Hl'].
  { apply Forall2_length in HR. split; [apply fst_zip; lia|apply snd_zip; lia]. }
  assert (Forall (fun ab => R ab.1 ab.2) p) as Hp.
  { subst p. clear -HR. induction HR; cbn; constructor; auto. }
  assert (forall ab, ab ∈ p -> kb ab.2 = ka ab.1) as Hkk.
  { intros ab Hin. rewrite Forall_forall in Hp. symmetry. by apply Hk, Hp. }
  assert (sort_on ka l = map fst (sort_on (fun ab : A * B => ka ab.1) p)) as ->.
  { rewrite <- Hl at 1. apply sort_on_map; [done|]. rewrite <- Hl, map_map in Hnd. exact Hnd. }
  assert (sort_on kb l' = map snd (sort_on (fun ab : A * B => ka ab.1) p)) as ->.
  { assert (sort_on (fun ab : A * B => ka ab.1) p = sort_on (fun ab : A * B => kb ab.2) p) as ->.
    { apply (StronglySorted_unique_strong (key_le (fun ab : A * B => ka ab.1))).
      - intros y1 y2 Hy1 Hy2 H12 H21. rewrite sort_on_elem in Hy1, Hy2.
        apply (NoDup_map_inj (fun ab : A * B => ka ab.1) p); [by rewrite <- Hl, map_map in Hnd|done..|]. by apply (anti_symm String.le).
      - apply sort_on_sorted.
      - pose proof (sort_on_sorted (fun ab : A * B => kb ab.2) p) as Hs.
        assert (Forall (fun ab => kb ab.2 = ka ab.1) (sort_on (fun ab : A * B => kb ab.2) p)) as Hall.
        { apply Forall_forall. intros ab. rewrite sort_on_elem. apply Hkk. }
        revert Hall. induction Hs as [|x m Hm IH Hx]; intros Hall; constructor; apply Forall_cons_1 in Hall as [H1 H2]; [auto|].
        apply Forall_forall. intros y Hy. rewrite Forall_forall in Hx, H2. unfold key_le in *. rewrite <- H1, <- (H2 y Hy). by apply Hx.
      - by rewrite !sort_on_permutation. }
    rewrite <- Hl' at 1. apply sort_on_map; [done|].
    assert (map (fun x : A * B => kb x.2) p = map (fun x : A * B => ka x.1) p) as ->; [|by rewrite <- Hl, map_map in Hnd].
    apply map_ext_in. intros ab Hab. apply Hkk. by apply list_elem_of_In. }
  apply Forall2_fmap. assert (Forall (fun ab : A * B => R ab.1 ab.2) (sort_on (fun ab : A * B => ka ab.1) p)) as Hs.
  { apply Forall_forall. intros ab. rewrite sort_on_elem. rewrite Forall_forall in Hp. apply Hp. }
  induction Hs; constructor; done.
Qed.

Lemma members_read (m : list (string * goval)) ms :
  Forall (fun kv => forall t, marshal kv.2 = Some t -> clean kv.2 -> reads t (decoded kv.2)) m ->
  opt_all (map member_of m) = Some ms -> Forall utf8_text (map fst m) -> Forall (fun kv => clean kv.2) m ->
  Forall2 reads_member ms (map (fun kv => (kv.1, decoded kv.2)) m).
Proof.
  intros IH Hms%opt_all_map Hu Hc. revert IH Hu Hc. induction Hms as [|[k v] kt m ms Hm _ IHm]; intros IH Hu Hc; [constructor|].
  cbn [map] in *. apply Forall_cons_1 in IH as [IH1 IH2], Hu as [Hu1 Hu2], Hc as [Hc1 Hc2]. constructor; [|by apply IHm].
  unfold member_of in Hm. cbn [fst snd] in *. destruct (marshal v) as [t|] eqn:Ht; [|done]. injection Hm as <-. split; [done|]. split; [done|]. by apply IH1.
Qed.

(** Every encoded value reads back. *)
Lemma marshal_reads v : forall t, marshal v = Some t -> clean v -> reads t (decoded v).
Proof.
  induction v as [|b|z|f|lit|s|raw|l IH|m IH|m IH] using goval_nested_ind; intros t Hm Hc.
  - injection Hm as <-. intros rest fuel _ Hf. destruct fuel; [cbn in Hf; lia|done].
  - injection Hm as <-. intros rest fuel _ Hf. by destruct b; (destruct fuel; [cbn in Hf; lia|]).
  - injection Hm as <-. eapply reads_number, itoa_literal.
  - assert (format_float f = Some t) as Hf by exact Hm. destruct (format_float_reads f t Hf) as (v & Hv & _).
    cbn [decoded]. rewrite Hf. by eapply reads_number.
  - revert Hm. unfold marshal. cbn [decoded]. set (lit' := if str_eqb lit "" then "0" else lit). unfold number_literal_ok.
    destruct (parse_number (bytes_of lit')) as [[v [|]]|] eqn:Hp; try done. intros [= <-]. by eapply reads_number.
  - injection Hm as <-. by apply reads_string.
  - done.
  - rewrite marshal_slice in Hm. apply fmap_Some in Hm as (ts & Hts & ->). cbn [clean] in Hc. rewrite all_props_Forall in Hc.
    apply opt_all_map in Hts. cbn [decoded]. apply reads_list.
    + clear -IH Hts Hc. induction Hts as [|v t l ts Hv _ IHl]; [constructor|]. apply Forall_cons_1 in IH as [IH1 IH2], Hc as [Hc1 Hc2].
      constructor; [by apply IH1|by apply IHl].
    + clear -Hts Hc. induction Hts as [|v t l ts Hv _ IHl]; [constructor|]. apply Forall_cons_1 in Hc as [Hc1 Hc2].
      constructor; [by eapply marshal_starts|by apply IHl].
  - rewrite marshal_map in Hm. apply fmap_Some in Hm as (ms & Hms & ->). cbn [clean] in Hc. destruct Hc as (Hnd & Hu & Hc).
    rewrite all_props_Forall in Hc. pose proof (members_read _ _ IH Hms Hu Hc) as HR. cbn [decoded].
    assert (map fst (map (fun kv => (kv.1, decoded kv.2)) m) = map fst m) as Hkeys by by rewrite map_map.
    assert (map fst ms = map fst m) as Hkm.
    { rewrite <- Hkeys. clear -HR. induction HR as [|kt kv ms l (H1 & _) _ IH]; [done|]. cbn. by rewrite H1, IH. }
    apply reads_object.
    + apply sort_on_Forall2; [exact HR|by intros a b' [? _]|by rewrite Hkm].
    + rewrite sort_on_permutation. by rewrite Hkeys.
  - rewrite marshal_struct in Hm. apply fmap_Some in Hm as (ms & Hms & ->). cbn [clean] in Hc. destruct Hc as (Hnd & Hu & Hc).
    rewrite all_props_Forall in Hc. pose proof (members_read _ _ IH Hms Hu Hc) as HR. cbn [decoded].
    apply reads_object; [exact HR|]. by rewrite map_map.
Qed.

Lemma unmarshal_number_marshal v t : marshal v = Some t -> clean v -> unmarshal_number t = Some (decoded v).
Proof.
  intros Hm Hc. pose proof (marshal_reads v t Hm Hc [] (2 * length (bytes_of t) + 2)%nat I ltac:(lia)) as Hr.
  rewrite app_nil_r in Hr. unfold unmarshal_number. rewrite Hr. done.
Qed.
