(* ===== verification/JsonParse.v ===== *)
(** * What the decoder returns

    Decoded text is valid UTF-8 whatever the input, the keys of a decoded
    object are distinct, and no decoded number is a NaN: every decoded value is
    one the round trip of JsonFacts applies to. *)

From Stdlib Require Import SpecFloat.
From S2P Require Export JsonFacts.
Open Scope Z_scope.

Definition bytes (l : list Z) : Prop := Forall is_byte l.

(** ** Strings *)

Lemma utf8_cons_rune l rest n : rune_len l = S n -> utf8 rest -> utf8 (take (S n) l ++ rest).
Proof.
  intros Hn Hr. destruct (rune_len_app l rest n Hn) as [Hl Hlen]. apply (utf8_rune n); [done|].
  rewrite drop_app_ge by (rewrite length_take; lia). by rewrite length_take, Nat.min_l, Nat.sub_diag by lia.
Qed.
Lemma utf8_cons_byte b rest : b < 128 -> utf8 rest -> utf8 (b :: rest).
Proof. intros Hb Hr. apply (utf8_rune 0); [|done]. unfold rune_len. by apply Z.ltb_lt in Hb as ->. Qed.

(** Comparisons decided by arithmetic. *)
Ltac decide_step :=
  match goal with
  | |- context [?a <? ?b] => first [rewrite (proj2 (Z.ltb_lt a b)) by lia | rewrite (proj2 (Z.ltb_ge a b)) by lia]
  | |- context [?a <=? ?b] => first [rewrite (proj2 (Z.leb_le a b)) by lia | rewrite (proj2 (Z.leb_gt a b)) by lia]
  | |- context [?a =? ?b] => destruct (Z.eqb_spec a b)
  end.
Ltac decide_all := repeat (decide_step; cbv iota; cbn [andb]); try reflexivity; try lia.

Lemma encode_rune_valid r : 0 <= r < 1114112 -> bytes (encode_rune r) /\ exists n, rune_len (encode_rune r) = S n /\ length (encode_rune r) = S n.
Proof.
  intros Hr. unfold encode_rune, bytes, is_byte.
  pose proof (Z.mod_pos_bound r 64 eq_refl). pose proof (Z.mod_pos_bound (r / 64) 64 eq_refl). pose proof (Z.mod_pos_bound (r / 4096) 64 eq_refl).
  pose proof (Z.div_mod r 64 ltac:(lia)).
  pose proof (Z.div_mod (r / 64) 64 ltac:(lia)) as H64. rewrite Z.div_div in H64 by lia. change (64 * 64) with 4096 in H64.
  pose proof (Z.div_mod (r / 4096) 64 ltac:(lia)) as H4096. rewrite Z.div_div in H4096 by lia. change (4096 * 64) with 262144 in H4096.
  destruct (Z.ltb_spec r 128).
  { split; [by repeat first [apply Forall_nil | apply Forall_cons; split; [lia|]]|]. exists 0%nat. split; [|done]. unfold rune_len. decide_all. }
  destruct (Z.ltb_spec r 2048).
  { split; [by repeat first [apply Forall_nil | apply Forall_cons; split; [lia|]]|]. exists 1%nat. split; [|done]. unfold rune_len, cont. decide_all. }
  destruct (Z.ltb_spec r 65536).
  { destruct (cont r 55296 57343) eqn:Hsur.
    - split; [by repeat first [apply Forall_nil | apply Forall_cons; split; [lia|]]|]. by exists 2%nat.
    - assert (r < 55296 \/ 57343 < r) as Hs. { unfold cont in Hsur. apply andb_false_iff in Hsur as [Hs|Hs]; bool_inv; lia. }
      split; [by repeat first [apply Forall_nil | apply Forall_cons; split; [lia|]]|]. exists 2%nat. split; [|done]. unfold rune_len, cont. decide_all. }
  split; [by repeat first [apply Forall_nil | apply Forall_cons; split; [lia|]]|]. exists 3%nat. split; [|done]. unfold rune_len, cont. decide_all.
Qed.

Lemma utf8_cons_encoded r rest : 0 <= r < 1114112 -> utf8 rest -> utf8 (encode_rune r ++ rest).
Proof.
  intros Hr Hu. destruct (encode_rune_valid r Hr) as (_ & n & Hn & Hl). rewrite <- (firstn_all (encode_rune r)), Hl. by apply utf8_cons_rune.
Qed.

Lemma hex_val_range b x : hex_val b = Some x -> 0 <= x < 16.
Proof. unfold hex_val, cont. repeat case_match; intros [= <-]; bool_inv; lia. Qed.
Lemma hex4_range l r l' : hex4 l = Some (r, l') -> 0 <= r < 65536 /\ exists k, l' = drop k l.
Proof.
  destruct l as [|a [|b [|c [|d l1]]]]; try done. cbn.
  destruct (hex_val a) eqn:Ha, (hex_val b) eqn:Hb, (hex_val c) eqn:Hc, (hex_val d) eqn:Hd; try done.
  apply hex_val_range in Ha, Hb, Hc, Hd. intros [= <- <-]. split; [lia|]. by exists 4%nat.
Qed.
Lemma unescape_range r l rune l' : 0 <= r < 65536 -> unescape_u r l = (rune, l') -> 0 <= rune < 1114112 /\ exists k, l' = drop k l.
Proof.
  intros Hr. unfold unescape_u. destruct (cont r 55296 57343) eqn:Hs; [|intros [= <- <-]; split; [lia|by exists 0%nat]].
  assert (0 <= 65533 < 1114112 /\ exists k, l = drop k l) as Hlone by (split; [lia|by exists 0%nat]).
  destruct l as [|x [|y l1]]; try (by intros [= <- <-]); [by repeat case_match; intros [= <- <-]|].
  destruct (decide (x = 92)) as [->|Hx]; [|by repeat case_match; intros [= <- <-]].
  destruct (decide (y = 117)) as [->|Hy]; [|by repeat case_match; intros [= <- <-]].
  destruct (hex4 l1) as [[r2 l2]|] eqn:H4; [|by intros [= <- <-]]. apply hex4_range in H4 as [Hr2 [k ->]].
  destruct (_ && _) eqn:Hp; [|by intros [= <- <-]]. intros [= <- <-]. unfold cont in *. bool_inv. split; [lia|].
  exists (S (S k)). done.
Qed.

(** The body of a string literal. *)
Lemma parse_string_valid fuel l s r : bytes l -> parse_string fuel l = Some (s, r) -> utf8 s /\ bytes s /\ bytes r.
Proof.
  revert l s r. induction fuel as [|fuel IH]; intros l s r Hl; [done|]. cbn [parse_string]. destruct l as [|b l1]; [done|].
  pose proof Hl as [Hb Hl1]%Forall_cons_1.
  assert (forall pre rest, bytes rest -> (forall t, utf8 t -> utf8 (pre ++ t)) -> bytes pre ->
    match parse_string fuel rest with Some (s, r) => Some (pre ++ s, r) | None => None end = Some (s, r) -> utf8 s /\ bytes s /\ bytes r) as Hnext.
  { intros pre rest Hrest Hpre Hbpre. destruct (parse_string fuel rest) as [[s' r']|] eqn:Hp; [|done]. intros [= <- <-].
    apply IH in Hp as (Hu & Hs & Hr'); [|done]. split_and!; [by apply Hpre|by apply Forall_app|done]. }
  destruct (b =? 34); [intros [= <- <-]; split_and!; [constructor|constructor|done]|].
  destruct (b =? 92).
  { destruct l1 as [|c l2]; [done|]. apply Forall_cons_1 in Hl1 as [Hc Hl2]. destruct (c =? 117).
    - destruct (hex4 l2) as [[x l3]|] eqn:H4; [|done]. apply hex4_range in H4 as [Hx [k ->]].
      destruct (unescape_u x (drop k l2)) as [rune l4] eqn:Hun. apply unescape_range in Hun as [Hrune [k' ->]]; [|done].
      apply Hnext; [by do 2 apply Forall_drop|intros t; by apply utf8_cons_encoded|by apply encode_rune_valid].
    - destruct (simple_escape c) as [x|] eqn:Hse; [|done].
      assert (0 <= x < 128) as Hx by (revert Hse; unfold simple_escape; repeat case_match; intros [= <-]; bool_inv; try lia;
        repeat match goal with H : (_ || _) = true |- _ => apply orb_true_iff in H as [H|H] end; bool_inv; lia).
      apply Hnext; [done|intros t; apply utf8_cons_byte; lia|repeat constructor; unfold is_byte; lia]. }
  destruct (b <? 32); [done|]. destruct (rune_len (b :: l1)) as [|n] eqn:Hn.
  - apply Hnext; [done| |repeat constructor; unfold is_byte; lia]. intros t. apply (utf8_cons_rune [239; 191; 189] t 2). reflexivity.
  - apply Hnext; [by apply Forall_drop|intros t; by apply utf8_cons_rune|by apply Forall_take].
Qed.

(** ** Values *)

Lemma skip_ws_bytes l : bytes l -> bytes (skip_ws l).
Proof. induction 1; cbn; [constructor|]. case_match; [done|by constructor]. Qed.
Lemma eat_bytes c l r : bytes l -> eat c l = Some r -> bytes r.
Proof. intros Hl. destruct l as [|b l]; [done|]. apply Forall_cons_1 in Hl as [_ Hl]. cbn. case_match; [|done]. by intros [= <-]. Qed.
Lemma strip_prefix_bytes p l r : bytes l -> strip_prefix p l = Some r -> bytes r.
Proof.
  revert l. induction p as [|x p IH]; intros l Hl; cbn; [by intros [= <-]|]. destruct l as [|y l]; [done|].
  apply Forall_cons_1 in Hl as [_ Hl]. case_match; [by apply IH|done].
Qed.
Lemma take_digits_bytes l ds r : bytes l -> take_digits l = (ds, r) -> bytes r.
Proof.
  intros Hl. revert ds r. induction Hl as [|b l Hb Hl IH]; intros ds r; cbn; [intros [= _ <-]; constructor|].
  destruct (cont b 48 57); [|intros [= _ <-]; by constructor]. destruct (take_digits l) as [ds' r']. intros [= _ <-]. by eapply IH.
Qed.
Lemma parse_number_bytes l n r : bytes l -> parse_number l = Some (n, r) -> bytes r.
Proof.
  intros Hl. unfold parse_number. assert (bytes (parse_sign l).2) as Hs.
  { unfold parse_sign. destruct (eat 45 l) eqn:He; [by eapply eat_bytes|done]. }
  destruct (parse_sign l) as [neg l1]. destruct (take_digits l1) as [[|d more] l2] eqn:H2; [done|]. apply take_digits_bytes in H2; [|done].
  destruct (_ && _); [done|]. destruct (parse_fraction l2) as [[fp l3]|] eqn:Hf; [|done].
  assert (bytes l3) as H3.
  { unfold parse_fraction in Hf. destruct (eat 46 l2) as [l'|] eqn:He; [|by injection Hf as _ <-]. apply eat_bytes in He; [|done].
    destruct (take_digits l') as [fp' r'] eqn:Ht. apply take_digits_bytes in Ht; [|done]. case_bool_decide; [done|]. by injection Hf as _ <-. }
  destruct (parse_exponent l3) as [[e l4]|] eqn:He; [|done]. intros [= _ <-]. unfold parse_exponent in He.
  destruct l3 as [|c l']; [by injection He as _ <-|]. destruct (_ || _); [|by injection He as _ <-]. apply Forall_cons_1 in H3 as [_ H3].
  assert (bytes (parse_signs l').2) as Hss.
  { unfold parse_signs, parse_sign. destruct (eat 43 l') eqn:H43; [by eapply eat_bytes|]. destruct (eat 45 l') eqn:H45; [by eapply eat_bytes|done]. }
  destruct (parse_signs l') as [neg' l5]. destruct (take_digits l5) as [ep r'] eqn:Ht. apply take_digits_bytes in Ht; [|done].
  case_bool_decide; [done|]. by injection He as _ <-.
Qed.

(** The values [unmarshal_number] returns. *)
Fixpoint parsed (v : goval) : Prop :=
  match v with
  | VNil | VBool _ | VNumber _ => True
  | VString s => utf8_text s
  | VSlice l => all_props (map parsed l)
  | VMap m => NoDup (map fst m) /\ Forall utf8_text (map fst m) /\ all_props (map (fun kv => parsed kv.2) m)
  | _ => False
  end.

Lemma filter_keys {A} (f : string * A -> bool) m : NoDup (map fst m) -> NoDup (map fst (List.filter f m)).
Proof.
  induction m as [|[k v] m IH]; cbn; [constructor|]. intros [Hn Hnd]%NoDup_cons. case_match; [|by apply IH]. cbn. apply NoDup_cons.
  split; [|by apply IH]. intros (kv & -> & Hin)%list_elem_of_fmap. apply Hn, list_elem_of_fmap. exists kv. split; [done|].
  apply list_elem_of_In in Hin. apply filter_In in Hin as [Hin _]. by apply list_elem_of_In.
Qed.
Lemma map_set_keys {A} (m : list (string * A)) k v : NoDup (map fst m) -> NoDup (map fst (map_set m k v)).
Proof.
  intros Hnd. unfold map_set. rewrite map_app. apply NoDup_app. split; [by apply filter_keys|]. split; [|repeat constructor; set_solver].
  intros x (kv & -> & Hin)%list_elem_of_fmap Hx%list_elem_of_singleton. cbn in Hx. apply list_elem_of_In, filter_In in Hin as [_ Hf].
  rewrite Hx, str_eqb_refl in Hf. done.
Qed.
Lemma map_set_Forall {A} (P : string * A -> Prop) m k v : Forall P m -> P (k, v) -> Forall P (map_set m k v).
Proof.
  intros Hm Hv. unfold map_set. apply Forall_app. split; [|by repeat constructor]. apply Forall_forall. intros kv Hin.
  apply list_elem_of_In, filter_In in Hin as [Hin _]. rewrite Forall_forall in Hm. by apply Hm, list_elem_of_In.
Qed.

Lemma parsed_map m : parsed (VMap m) <-> NoDup (map fst m) /\ Forall (fun kv => utf8_text kv.1 /\ parsed kv.2) m.
Proof. cbn [parsed]. rewrite all_props_Forall, Forall_and, Forall_fmap. done. Qed.
Lemma parsed_slice l : parsed (VSlice l) <-> Forall parsed l.
Proof. cbn [parsed]. apply all_props_Forall. Qed.

Lemma parse_valid fuel :
  (forall l v r, bytes l -> parse_value fuel l = Some (v, r) -> parsed v /\ bytes r) /\
  (forall l acc v r, bytes l -> Forall parsed acc -> parse_elements fuel l acc = Some (v, r) -> parsed v /\ bytes r) /\
  (forall l acc v r, bytes l -> parsed (VMap acc) -> parse_members fuel l acc = Some (v, r) -> parsed v /\ bytes r).
Proof.
  induction fuel as [|fuel (IHv & IHe & IHm)]; [done|]. split_and!.
  - intros l v r Hl. cbn [parse_value]. pose proof (skip_ws_bytes l Hl) as Hs. destruct (skip_ws l) as [|b l1]; [done|].
    pose proof Hs as [_ Hl1]%Forall_cons_1. destruct (b =? 34).
    { destruct (parse_string _ l1) as [[s r']|] eqn:Hp; [|done]. apply parse_string_valid in Hp as (Hu & Hb & Hr); [|done].
      intros [= <- <-]. split; [|done]. cbn. unfold utf8_text. by rewrite bytes_of_of_bytes. }
    destruct (b =? 91).
    { destruct (eat 93 (skip_ws l1)) eqn:He; [|by apply IHe]. apply eat_bytes in He; [|by apply skip_ws_bytes]. by intros [= <- <-]. }
    destruct (b =? 123).
    { destruct (eat 125 (skip_ws l1)) eqn:He; [|apply IHm; [done|]; cbn; split_and!; constructor]. apply eat_bytes in He; [|by apply skip_ws_bytes].
      intros [= <- <-]. split; [|done]. cbn. split_and!; constructor. }
    destruct (strip_prefix [116; 114; 117; 101] (b :: l1)) eqn:Ht; [apply strip_prefix_bytes in Ht; [|done]; by intros [= <- <-]|].
    destruct (strip_prefix [102; 97; 108; 115; 101] (b :: l1)) eqn:Hf; [apply strip_prefix_bytes in Hf; [|done]; by intros [= <- <-]|].
    destruct (strip_prefix [110; 117; 108; 108] (b :: l1)) eqn:Hn; [apply strip_prefix_bytes in Hn; [|done]; by intros [= <- <-]|].
    destruct (parse_number (b :: l1)) as [[n r']|] eqn:Hp; [|done]. apply parse_number_bytes in Hp; [|done]. by intros [= <- <-].
  - intros l acc v r Hl Hacc. cbn [parse_elements]. destruct (parse_value fuel l) as [[x r1]|] eqn:Hv; [|done].
    apply IHv in Hv as [Hx Hr1]; [|done]. pose proof (skip_ws_bytes r1 Hr1) as Hs. destruct (skip_ws r1) as [|b r2]; [done|].
    apply Forall_cons_1 in Hs as [_ Hr2]. assert (Forall parsed (acc ++ [x])) as Hacc' by (apply Forall_app; by repeat constructor).
    destruct (decide (b = 44)) as [->|H44]; [by apply IHe|]. destruct (decide (b = 93)) as [->|H93].
    + intros [= <- <-]. split; [by apply parsed_slice|done].
    + intros Hc. exfalso. revert Hc. repeat case_match; congruence.
  - intros l acc v r Hl Hacc. cbn [parse_members]. pose proof (skip_ws_bytes l Hl) as Hs. destruct (skip_ws l) as [|b l1]; [done|].
    apply Forall_cons_1 in Hs as [_ Hl1]. destruct (decide (b = 34)) as [->|H34]; [|intros Hc; exfalso; revert Hc; repeat case_match; congruence].
    destruct (parse_string _ l1) as [[k l2]|] eqn:Hk; [|done]. apply parse_string_valid in Hk as (Huk & Hbk & Hl2); [|done].
    pose proof (skip_ws_bytes l2 Hl2) as Hs2. destruct (skip_ws l2) as [|c l3]; [done|]. apply Forall_cons_1 in Hs2 as [_ Hl3].
    destruct (decide (c = 58)) as [->|H58]; [|intros Hc; exfalso; revert Hc; repeat case_match; congruence].
    destruct (parse_value fuel l3) as [[x r1]|] eqn:Hv; [|done]. apply IHv in Hv as [Hx Hr1]; [|done]. cbv zeta.
    assert (parsed (VMap (map_set acc (of_bytes k) x))) as Hacc'.
    { rewrite parsed_map in Hacc |- *. destruct Hacc as [Hnd Hall]. split; [by apply map_set_keys|]. apply map_set_Forall; [done|].
      cbn. split; [|done]. unfold utf8_text. by rewrite bytes_of_of_bytes. }
    pose proof (skip_ws_bytes r1 Hr1) as Hs3. destruct (skip_ws r1) as [|e r2]; [done|]. apply Forall_cons_1 in Hs3 as [_ Hr2].
    destruct (decide (e = 44)) as [->|H44]; [by apply IHm|]. destruct (decide (e = 125)) as [->|H125].
    + by intros [= <- <-].
    + intros Hc. exfalso. revert Hc. repeat case_match; congruence.
Qed.

Lemma unmarshal_number_parsed s v : unmarshal_number s = Some v -> parsed v.
Proof.
  unfold unmarshal_number. destruct (parse_value _ _) as [[v' r]|] eqn:Hp; [|done].
  apply (proj1 (parse_valid _)) in Hp as [Hv _]; [|apply bytes_of_bytes]. case_match; [|done]. by intros [= <-].
Qed.

(** ** As floats *)

(** The values [unmarshal] returns: numbers are float64, never NaN. *)
Fixpoint plain (v : goval) : Prop :=
  match v with
  | VNil | VBool _ => True
  | VFloat f => f <> S754_nan
  | VString s => utf8_text s
  | VSlice l => all_props (map plain l)
  | VMap m => NoDup (map fst m) /\ Forall utf8_text (map fst m) /\ all_props (map (fun kv => plain kv.2) m)
  | _ => False
  end.
Lemma plain_map m : plain (VMap m) <-> NoDup (map fst m) /\ Forall (fun kv => utf8_text kv.1 /\ plain kv.2) m.
Proof. cbn [plain]. rewrite all_props_Forall, Forall_and, Forall_fmap. done. Qed.
Lemma plain_slice l : plain (VSlice l) <-> Forall plain l.
Proof. cbn [plain]. apply all_props_Forall. Qed.

Lemma number_value_plain n v : number_value n = Some v -> plain v.
Proof.
  destruct n as [[neg m] k]. unfold number_value, float_of_dec. repeat case_match; intros [= <-]; cbn; try done;
    simplify_eq; try discriminate; repeat case_match; simplify_eq; try discriminate; congruence.
Qed.

Lemma plain_clean v : plain v -> clean v.
Proof.
  induction v as [|b|z|f|lit|s|raw|l IH|m IH|m IH] using goval_nested_ind; try done.
  - rewrite plain_slice. cbn [clean]. rewrite all_props_Forall. intros Hl. eapply Forall_impl; [by eapply Forall_and; split; [exact IH|exact Hl]|].
    intros x [H1 H2]. auto.
  - rewrite plain_map. cbn [clean]. rewrite all_props_Forall, Forall_and. intros (Hnd & Hu & Hp). split_and!; [done|by apply Forall_fmap|].
    eapply Forall_impl; [by eapply Forall_and; split; [exact IH|exact Hp]|]. intros x [H1 H2]. auto.
Qed.

(** Decoding an object keeps its keys. *)
Lemma opt_all_members {A B} (f : A -> option B) (m : list (string * A)) m' :
  opt_all (map (fun kv => match f kv.2 with Some x => Some (kv.1, x) | None => None end) m) = Some m' ->
  Forall2 (fun kv kv' => kv'.1 = kv.1 /\ f kv.2 = Some kv'.2) m m'.
Proof.
  rewrite opt_all_map. intros H. eapply Forall2_impl; [exact H|]. intros [k v] [k' v']. cbn. destruct (f v) eqn:Hf; [|done]. by intros [= -> ->].
Qed.
Lemma members_keys {A B} (f : A -> option B) (m : list (string * A)) m' :
  Forall2 (fun kv kv' => kv'.1 = kv.1 /\ f kv.2 = Some kv'.2) m m' -> map fst m' = map fst m.
Proof. induction 1 as [|kv kv' m m' [Hk _] _ IH]; [done|]. cbn. by rewrite Hk, IH. Qed.

Lemma to_floats_plain v : forall v', parsed v -> to_floats v = Some v' -> plain v'.
Proof.
  induction v as [|b|z|f|lit|s|raw|l IH|m IH|m IH] using goval_nested_ind; intros v' Hp; try done; cbn [to_floats].
  - by intros [= <-].
  - by intros [= <-].
  - destruct (parse_number _) as [[n [|]]|]; try done. apply number_value_plain.
  - by intros [= <-].
  - destruct (opt_all (map to_floats l)) as [l'|] eqn:Hl; [|done]. intros [= <-]. apply opt_all_map in Hl. apply parsed_slice in Hp.
    apply plain_slice. revert IH Hp. induction Hl as [|x y l l' Hx _ IHl]; [constructor|]. intros [IH1 IH2]%Forall_cons_1 [Hp1 Hp2]%Forall_cons_1.
    constructor; [by apply IH1|by apply IHl].
  - destruct (opt_all _) as [m'|] eqn:Hm; [|done]. intros [= <-]. apply opt_all_members in Hm. apply parsed_map in Hp as [Hnd Hp].
    apply plain_map. split; [by rewrite (members_keys _ _ _ Hm)|]. clear Hnd. revert IH Hp.
    induction Hm as [|kv kv' m m' [Hk Hx] _ IHm]; [constructor|]. intros [IH1 IH2]%Forall_cons_1 [[Hu Hp1] Hp2]%Forall_cons_1.
    constructor; [|by apply IHm]. rewrite Hk. split; [done|]. by apply IH1.
Qed.

Lemma unmarshal_plain s v : unmarshal s = Some v -> plain v.
Proof.
  unfold unmarshal. destruct (unmarshal_number s) as [w|] eqn:Hw; [|done]. apply to_floats_plain. by eapply unmarshal_number_parsed.
Qed.

(** ** Fuel *)

Lemma parse_more fuel :
  (forall l x, parse_value fuel l = Some x -> parse_value (S fuel) l = Some x) /\
  (forall l acc x, parse_elements fuel l acc = Some x -> parse_elements (S fuel) l acc = Some x) /\
  (forall l acc x, parse_members fuel l acc = Some x -> parse_members (S fuel) l acc = Some x).
Proof.
  induction fuel as [|fuel (IHv & IHe & IHm)]; [done|]. split_and!.
  - intros l x. cbn [parse_value]. destruct (skip_ws l) as [|b l1]; [done|]. destruct (b =? 34); [done|].
    destruct (b =? 91); [destruct (eat 93 (skip_ws l1)); [done|apply IHe]|].
    destruct (b =? 123); [destruct (eat 125 (skip_ws l1)); [done|apply IHm]|]. done.
  - intros l acc x Hx. cbn [parse_elements] in Hx. destruct (parse_value fuel l) as [[v r]|] eqn:Hv; [|done]. apply IHv in Hv.
    change (parse_elements (S (S fuel)) l acc) with (match parse_value (S fuel) l with
      | None => None | Some (v, r) => match skip_ws r with
        | 44 :: r' => parse_elements (S fuel) r' (acc ++ [v]) | 93 :: r' => Some (VSlice (acc ++ [v]), r') | _ => None end end).
    rewrite Hv. destruct (skip_ws r) as [|b r']; [done|]. destruct (decide (b = 44)) as [->|H44]; [by apply IHe|]. exact Hx || (revert Hx; repeat case_match; congruence).
  - intros l acc x Hx. cbn [parse_members] in Hx.
    change (parse_members (S (S fuel)) l acc) with (match skip_ws l with
      | 34 :: l1 => match parse_string (S (length l1)) l1 with
        | None => None
        | Some (k, l2) => match skip_ws l2 with
          | 58 :: l3 => match parse_value (S fuel) l3 with
            | None => None
            | Some (v, r) => let acc' := map_set acc (of_bytes k) v in
              match skip_ws r with 44 :: r' => parse_members (S fuel) r' acc' | 125 :: r' => Some (VMap acc', r') | _ => None end
            end
          | _ => None end end
      | _ => None end).
    destruct (skip_ws l) as [|b l1]; [done|]. destruct (decide (b = 34)) as [->|H34]; [|exfalso; revert Hx; repeat case_match; congruence].
    destruct (parse_string _ l1) as [[k l2]|]; [|done]. destruct (skip_ws l2) as [|c l3]; [done|].
    destruct (decide (c = 58)) as [->|H58]; [|exfalso; revert Hx; repeat case_match; congruence].
    destruct (parse_value fuel l3) as [[v r]|] eqn:Hv; [|done]. apply IHv in Hv. rewrite Hv. cbv zeta in *.
    destruct (skip_ws r) as [|e r']; [done|]. destruct (decide (e = 44)) as [->|H44]; [by apply IHm|]. exact Hx || (revert Hx; repeat case_match; congruence).
Qed.
Lemma parse_value_fuel f f' l x x' : parse_value f l = Some x -> parse_value f' l = Some x' -> x = x'.
Proof.
  assert (forall n k l x, parse_value k l = Some x -> parse_value (n + k) l = Some x) as Hup.
  { induction n as [|n IH]; [done|]. intros k l0 y Hy. apply (proj1 (parse_more _)). by apply IH. }
  intros H H'. apply (Hup f') in H. apply (Hup f) in H'. rewrite Nat.add_comm in H'. congruence.
Qed.

(** ** Raw elements *)

Lemma skip_ws_idem l : skip_ws (skip_ws l) = skip_ws l.
Proof. induction l as [|b l IH]; cbn; [done|]. destruct (is_space_byte b) eqn:Hb; [done|]. cbn. by rewrite Hb. Qed.
Lemma parse_value_skip f l : parse_value f (skip_ws l) = parse_value f l.
Proof. destruct f; [done|]. cbn [parse_value]. by rewrite skip_ws_idem. Qed.

Lemma raw_elements_length f l acc v r f' ts :
  parse_elements f l acc = Some (v, r) -> raw_elements f' l = Some ts -> exists vs, v = VSlice vs /\ length vs = (length acc + length ts)%nat.
Proof.
  revert l acc f' ts. induction f as [|f IH]; intros l acc f' ts; [done|]. cbn [parse_elements].
  destruct (parse_value f l) as [[x r1]|] eqn:Hv; [|done]. destruct f' as [|f']; [done|]. cbn [raw_elements]. unfold raw_value.
  destruct (parse_value (2 * length (skip_ws l) + 2) (skip_ws l)) as [[x' r1']|] eqn:Hv'; [|done]. rewrite parse_value_skip in Hv'.
  pose proof (parse_value_fuel _ _ _ _ _ Hv Hv') as [= <- <-]. destruct (skip_ws r1) as [|b r2]; [done|].
  destruct (Z.eqb_spec b 44) as [->|H44].
  - intros He Hr. apply fmap_Some in Hr as (ts' & Hts & ->). destruct (IH _ _ _ _ He Hts) as (vs & -> & Hl). exists vs. split; [done|].
    rewrite Hl, length_app. cbn. lia.
  - destruct (decide (b = 93)) as [->|H93]; [|intros Hc; exfalso; revert Hc; repeat case_match; congruence].
    intros [= <- <-] [= <-]. eexists. split; [done|]. rewrite length_app. done.
Qed.
Lemma raw_list_length s vs ts : unmarshal_number s = Some (VSlice vs) -> raw_list s = Some ts -> length vs = length ts.
Proof.
  unfold unmarshal_number, raw_list. destruct (parse_value _ _) as [[v r]|] eqn:Hp; [|done]. destruct (skip_ws r); [|done]. intros [= ->].
  remember (2 * length (bytes_of s) + 2)%nat as n eqn:Hn. destruct n as [|n]; [done|]. clear Hn. cbn [parse_value] in Hp.
  destruct (skip_ws (bytes_of s)) as [|b l]; [done|]. cbn [eat]. destruct (Z.eqb_spec b 91) as [->|Hb]; [|done].
  cbn [Z.eqb Pos.eqb] in Hp. destruct (eat 93 (skip_ws l)) as [r'|].
  - injection Hp as <- <-. by intros [= <-].
  - intros Hr. by destruct (raw_elements_length _ _ _ _ _ _ _ Hp Hr) as (vs' & [= <-] & Hl).
Qed.
