(* ===== verification/JsonTyped.v ===== *)
(** * Encoding and decoding the program's types

    What [json.Marshal] writes of a struct made of texts, whole numbers, lists
    and maps, [json.Unmarshal] into the same struct reads back. *)

From S2P Require Export JsonFacts JsonParse.
Open Scope Z_scope.

(** ** ASCII texts *)

Lemma utf8_ascii l : Forall (fun b => b < 128) l -> utf8 l.
Proof. induction 1 as [|b l Hb Hl IH]; [constructor|]. by apply utf8_cons_byte. Qed.
Lemma utf8_ascii_text s : forallb (fun b => b <? 128) (bytes_of s) = true -> utf8_text s.
Proof.
  intros H. apply utf8_ascii, Forall_forall. intros b Hb%list_elem_of_In. rewrite forallb_forall in H. by apply Z.ltb_lt, H.
Qed.

(** ** Values that are always encoded *)

(** Values made of texts and numbers. *)
Fixpoint encodable (v : goval) : Prop :=
  match v with
  | VNil | VBool _ | VInt _ | VString _ => True
  | VSlice l => all_props (map encodable l)
  | VMap m | VStruct m => all_props (map (fun kv => encodable kv.2) m)
  | _ => False
  end.
Lemma opt_all_is_Some {A B} (f : A -> option B) l : Forall (fun x => is_Some (f x)) l -> is_Some (opt_all (map f l)).
Proof.
  induction 1 as [|x l [y Hy] _ [ys IH]]; cbn; [by eexists|]. fold (opt_all (map f l)). rewrite Hy, IH. by eexists.
Qed.
Lemma marshal_members (m : list (string * goval)) :
  Forall (fun kv => encodable kv.2 -> is_Some (marshal kv.2)) m -> all_props (map (fun kv => encodable kv.2) m) -> is_Some (opt_all (map member_of m)).
Proof.
  intros IH Hm. rewrite (all_props_Forall (fun kv => encodable kv.2)) in Hm. apply opt_all_is_Some. apply Forall_forall. intros kv Hin.
  rewrite Forall_forall in IH, Hm. unfold member_of. destruct (IH kv Hin (Hm kv Hin)) as [t ->]. by eexists.
Qed.
Lemma marshal_encodable v : encodable v -> is_Some (marshal v).
Proof.
  induction v as [|b|z|f|lit|s|t|l IH|m IH|m IH] using goval_nested_ind; cbn [encodable]; try done; try (intros _; by eexists).
  - intros Hm. rewrite marshal_slice, fmap_is_Some. apply opt_all_is_Some. rewrite (all_props_Forall encodable) in Hm.
    apply Forall_forall. intros x Hx. rewrite Forall_forall in IH, Hm. auto.
  - intros Hm. rewrite marshal_map, fmap_is_Some. by apply marshal_members.
  - intros Hm. rewrite marshal_struct, fmap_is_Some. by apply marshal_members.
Qed.

Lemma encodable_slice l : Forall encodable l -> encodable (VSlice l).
Proof. cbn. by rewrite (all_props_Forall encodable). Qed.
Lemma encodable_struct m : Forall (fun kv => encodable kv.2) m -> encodable (VStruct m).
Proof. cbn. by rewrite (all_props_Forall (fun kv => encodable kv.2)). Qed.
Lemma encodable_map m : Forall (fun kv => encodable kv.2) m -> encodable (VMap m).
Proof. cbn. by rewrite (all_props_Forall (fun kv => encodable kv.2)). Qed.
Lemma encodable_texts (l : list string) : Forall encodable (map VString l).
Proof. by apply Forall_fmap, Forall_true. Qed.
Lemma encodable_strings (l : list string) : all_props (map encodable (map VString l)).
Proof. apply all_props_Forall, Forall_fmap, Forall_true. done. Qed.

(** ** Reading fields back *)

Lemma decode_text_decoded s : utf8_text s -> decode_text (decoded (VString s)) = Some s.
Proof. intros Hu. cbn [decoded decode_text]. by rewrite sanitize_text_id. Qed.
Lemma decode_int_decoded z : in_int64 z -> decode_int (decoded (VInt z)) = Some z.
Proof. intros Hz. cbn [decoded decode_int]. by rewrite parse_int64_itoa. Qed.
Lemma opt_all_decoded {A B} (f : A -> option B) (l : list A) (l' : list B) : Forall2 (fun x y => f x = Some y) l l' -> opt_all (map f l) = Some l'.
Proof. apply opt_all_map. Qed.
Lemma decode_list_decoded {A} (enc : A -> goval) (dec : goval -> option A) l :
  Forall (fun x => dec (decoded (enc x)) = Some x) l -> decode_list dec (decoded (VSlice (map enc l))) = Some l.
Proof.
  intros Hl. cbn [decoded decode_list]. rewrite map_map. apply opt_all_decoded. induction Hl as [|x l Hx _ IH]; [constructor|]. by constructor.
Qed.
Lemma decode_strings l : Forall utf8_text l -> decode_list decode_text (decoded (VSlice (map VString l))) = Some l.
Proof. intros Hl. apply decode_list_decoded. eapply Forall_impl; [exact Hl|]. apply decode_text_decoded. Qed.
(** A map is read in the order of its keys. *)
Lemma decode_map_decoded {A} (enc : A -> goval) (dec : goval -> option A) (m : list (string * A)) :
  sort_on fst m = m -> NoDup (map fst m) -> Forall (fun kv => dec (decoded (enc kv.2)) = Some kv.2) m ->
  decode_map dec (decoded (VMap (map (fun kv => (kv.1, enc kv.2)) m))) = Some m.
Proof.
  intros Hs Hnd Hm. cbn [decoded decode_map]. rewrite map_map. cbn [fst snd].
  rewrite (sort_on_map (fun kv => (kv.1, decoded (enc kv.2))) fst fst m) by done. rewrite Hs, map_map. apply opt_all_decoded.
  clear -Hm. induction Hm as [|[k x] l Hx _ IH]; [constructor|]. cbn in Hx |- *. constructor; [|done].
  cbn. by rewrite Hx.
Qed.

(** A field with its value, and a list that is left out when it is empty. *)
Lemma field_some {A} (m : list (string * goval)) key (dec : goval -> option A) zero v x :
  alookup m key = Some v -> v <> VNil -> dec v = Some x -> field (VMap m) key dec zero = Some x.
Proof. intros Hm Hv Hd. cbn. rewrite Hm. by destruct v. Qed.
Lemma field_none {A} (m : list (string * goval)) key (dec : goval -> option A) zero : alookup m key = None -> field (VMap m) key dec zero = Some zero.
Proof. intros Hm. cbn. by rewrite Hm. Qed.

(** The keys of a struct are known: a sublist of distinct ASCII names. *)
Lemma clean_struct (m : list (string * goval)) keys :
  map fst m `sublist_of` keys -> NoDup keys -> Forall (fun k => forallb (fun b => b <? 128) (bytes_of k) = true) keys ->
  Forall (fun kv => clean kv.2) m -> clean (VStruct m).
Proof.
  intros Hs Hnd Hk Hm. cbn [clean]. split_and!.
  - by eapply sublist_NoDup.
  - apply Forall_forall. intros k Hin. apply utf8_ascii_text. rewrite Forall_forall in Hk. apply Hk. by eapply elem_of_sublist.
  - rewrite (all_props_Forall (fun kv => clean kv.2)). done.
Qed.

Ltac sublist_keys := repeat first [apply sublist_nil | apply sublist_skip | apply sublist_cons].
(** [clean_fields keys] leaves the values of the fields to show. *)
Ltac clean_fields keys :=
  apply (clean_struct _ keys); [cbn; sublist_keys|apply (bool_decide_unpack _); vm_compute; exact I|repeat constructor|].
Lemma clean_slice l : Forall clean l -> clean (VSlice l).
Proof. cbn. by rewrite (all_props_Forall clean). Qed.
Lemma clean_texts (l : list string) : Forall clean (map VString l).
Proof. by apply Forall_fmap, Forall_true. Qed.
Lemma clean_map (m : list (string * goval)) : NoDup (map fst m) -> Forall utf8_text (map fst m) -> Forall (fun kv => clean kv.2) m -> clean (VMap m).
Proof. cbn [clean]. rewrite (all_props_Forall (fun kv => clean kv.2)). done. Qed.

(** ** Whole numbers as float64

    A 64-bit integer is rounded to a finite float64, so the text of one is
    always read into an [any]. *)

From Stdlib Require Import SpecFloat.

Lemma digits2_log p : Z.pos (digits2_pos p) = Z.log2 (Z.pos p) + 1.
Proof.
  induction p as [p IH|p IH|]; cbn [digits2_pos]; [| |done]; rewrite Pos2Z.inj_succ, IH.
  - rewrite Pos2Z.inj_xI, Z.log2_succ_double by lia. lia.
  - rewrite Pos2Z.inj_xO, Z.log2_double by lia. lia.
Qed.
Lemma Zdigits2_mono a b : 0 <= a <= b -> Zdigits2 a <= Zdigits2 b.
Proof.
  intros H. destruct a as [|p|p], b as [|q|q]; try lia; cbn [Zdigits2]; rewrite ?digits2_log; [pose proof (Z.log2_nonneg (Z.pos q)); lia|].
  pose proof (Z.log2_le_mono (Z.pos p) (Z.pos q)). lia.
Qed.
Lemma Zdigits2_succ a : 0 <= a -> Zdigits2 (a + 1) <= Zdigits2 a + 1.
Proof.
  intros Ha. destruct a as [|p|p]; [done| |lia]. change (Z.pos p + 1) with (Z.pos (p + 1)). cbn [Zdigits2]. rewrite !digits2_log.
  pose proof (Z.log2_succ_le (Z.pos p)). change (Z.succ (Z.pos p)) with (Z.pos (p + 1)) in *. lia.
Qed.
Lemma iter_pos_invariant {A} (f : A -> A) (I : A -> Prop) p x : (forall x, I x -> I (f x)) -> I x -> I (SpecFloat.iter_pos f p x).
Proof. intros Hf. revert x. induction p as [p IH|p IH|]; intros x Hx; cbn; auto. Qed.
Lemma shr_bounds mrs e n : 0 <= shr_m mrs -> let '(mrs', e') := shr mrs e n in 0 <= shr_m mrs' <= shr_m mrs /\ e' = Z.max e (e + n).
Proof.
  intros Hm. unfold shr. destruct n as [|p|p]; try (split; lia). split; [|lia].
  apply (iter_pos_invariant shr_1 (fun m => 0 <= shr_m m <= shr_m mrs)); [|lia].
  intros [m r s] [H1 H2]. cbn in *. destruct m as [|q|q]; cbn; [lia| |lia]. destruct q; cbn; lia.
Qed.
Lemma round_bounds m l : 0 <= m -> m <= round_nearest_even m l <= m + 1.
Proof. intros Hm. unfold round_nearest_even. destruct l as [|[]]; try lia. destruct (Z.even m); lia. Qed.

Definition finite (f : spec_float) : Prop := match f with S754_infinity _ | S754_nan => False | _ => True end.
Lemma round_aux_finite sx mx ex lx : 0 <= mx -> ex <= 400 -> Zdigits2 mx <= 400 -> Zdigits2 mx + ex <= 400 -> finite (binary_round_aux 53 1024 sx mx ex lx).
Proof.
  intros Hm He Hd Hde. unfold binary_round_aux, shr_fexp.
  pose proof (shr_bounds (shr_record_of_loc mx lx) ex (fexp 53 1024 (Zdigits2 mx + ex) - ex)) as H1.
  assert (shr_m (shr_record_of_loc mx lx) = mx) as Hrec by (destruct lx as [|[]]; done). rewrite Hrec in H1. specialize (H1 Hm).
  destruct (shr _ ex _) as [mrs1 e1]. destruct H1 as [H1 He1]. pose proof (round_bounds (shr_m mrs1) (loc_of_shr_record mrs1) ltac:(lia)) as Hr.
  set (m2 := round_nearest_even _ _) in *. assert (Zdigits2 m2 <= Zdigits2 mx + 1) as Hd2.
  { etransitivity; [apply (Zdigits2_mono m2 (mx + 1)); lia|]. apply Zdigits2_succ. lia. }
  assert (e1 <= 400) as He1' by (rewrite He1; unfold fexp, emin; lia).
  pose proof (shr_bounds (shr_record_of_loc m2 loc_Exact) e1 (fexp 53 1024 (Zdigits2 m2 + e1) - e1)) as H2. cbn [shr_record_of_loc shr_m] in H2.
  specialize (H2 ltac:(lia)). cbn [shr_record_of_loc]. destruct (shr _ e1 _) as [mrs2 e2]. destruct H2 as [H2 He2].
  assert (e2 <= 971) as He2' by (rewrite He2; unfold fexp, emin; lia).
  destruct (shr_m mrs2) as [|q|q] eqn:Hq; [done| |lia]. by rewrite (proj2 (Z.leb_le e2 (1024 - 53)) He2').
Qed.
Lemma round_finite sx p : Z.log2 (Z.pos p) < 64 -> finite (binary_round 53 1024 sx p 0).
Proof.
  intros Hl. unfold binary_round, shl_align, fexp, emin. rewrite digits2_log, Z.sub_0_r.
  destruct (Z.max (Z.log2 (Z.pos p) + 1 + 0 - 53) (3 - 1024 - 53)) as [|q|q] eqn:Hq.
  - apply round_aux_finite; [lia|lia|cbn [Zdigits2]; rewrite digits2_log; lia..].
  - apply round_aux_finite; [lia|lia|cbn [Zdigits2]; rewrite digits2_log; lia..].
  - assert (Z.pos (Pos.iter xO p q) = Z.pos p * 2 ^ Z.pos q) as Hs by (rewrite <- Z.shiftl_mul_pow2 by lia; unfold Z.shiftl; cbn; apply (Pos.iter_swap_gen _ _ Z.pos); done).
    assert (Z.log2 (Z.pos (Pos.iter xO p q)) = Z.log2 (Z.pos p) + Z.pos q) as Hlog by (rewrite Hs, Z.log2_mul_pow2; lia).
    pose proof (Z.log2_nonneg (Z.pos p)).
    apply round_aux_finite; [lia|lia|cbn [Zdigits2]; rewrite digits2_log, Hlog; lia..].
Qed.

Lemma to_floats_int n : in_int64 n -> to_floats (VNumber (itoa n)) = Some (VFloat (float_of_int n)).
Proof.
  intros Hn. cbn [to_floats]. rewrite itoa_literal. unfold number_value.
  assert (forall p, Z.pos p <= 2 ^ 63 -> Z.log2 (Z.pos p) < 64) as Hlog.
  { intros p Hp. pose proof (Z.log2_le_mono (Z.pos p) (2 ^ 63) Hp) as Hl. change (Z.log2 (2 ^ 63)) with 63 in Hl. lia. }
  unfold in_int64, int64_min, int64_max in Hn.
  assert (forall (neg : bool) p, Z.pos p <= 2 ^ 63 -> float_of_dec neg p 0 = Some (float_of_int (if neg then Z.neg p else Z.pos p))) as Hf.
  { intros neg p Hp. unfold float_of_dec. pose proof (Hlog p Hp). pose proof (Z.log2_nonneg (Z.pos p)).
    assert (1100 <? Z.log2 (Z.pos p) / 4 + 0 = false) as -> by (apply Z.ltb_ge; pose proof (Z.div_le_upper_bound (Z.log2 (Z.pos p)) 4 16); lia).
    cbn [Z.leb Z.compare Z.pow]. rewrite !Z.mul_1_r. unfold float_of_int. destruct neg; cbn [binary_normalize].
    - pose proof (round_finite true p ltac:(done)) as Ht. by destruct (binary_round 53 1024 true p 0).
    - pose proof (round_finite false p ltac:(done)) as Ht. by destruct (binary_round 53 1024 false p 0). }
  destruct n as [|p|p]; [done| |].
  - change (match float_of_dec false p 0 with Some f => Some (VFloat f) | None => None end = Some (VFloat (float_of_int (Z.pos p)))).
    by rewrite (Hf false p) by lia.
  - change (match float_of_dec true p 0 with Some f => Some (VFloat f) | None => None end = Some (VFloat (float_of_int (Z.neg p)))).
    by rewrite (Hf true p) by lia.
Qed.
