(* ===== verification/JsonRaw.v ===== *)
(** * Raw JSON that is already canonical

    The encoder writes a [json.RawMessage] by compacting it and escaping it
    again.  A text the encoder itself produced goes through unchanged, so a
    canonical payload can be embedded and read back. *)

From S2P Require Export JsonParse.
Open Scope Z_scope.

(** Encoded text: bytes outside strings, and quoted strings. *)
Definition plain_byte (b : Z) : Prop := 32 < b < 128 /\ b <> 34.
#[export] Instance plain_byte_dec b : Decision (plain_byte b).
Proof. unfold plain_byte. apply _. Defined.
Inductive encoded : list Z -> Prop :=
| encoded_nil : encoded []
| encoded_byte b l : plain_byte b -> encoded l -> encoded (b :: l)
| encoded_quote s l : encoded l -> encoded (bytes_of (quote s) ++ l).

Lemma encoded_app l l' : encoded l -> encoded l' -> encoded (l ++ l').
Proof. intros Hl Hl'. induction Hl as [|b l Hb _ IH|s l _ IH]; [done|by constructor|]. rewrite <- app_assoc. by constructor. Qed.
Lemma encoded_bytes l : Forall plain_byte l -> encoded l.
Proof. intros Hl. induction Hl; by constructor. Qed.
Ltac plain_bytes := apply encoded_bytes, (bool_decide_unpack _); vm_compute; exact I.
Lemma encoded_string s : encoded (bytes_of (quote s)).
Proof. rewrite <- (app_nil_r (bytes_of (quote s))). apply encoded_quote, encoded_nil. Qed.

(** ** Numbers *)

Lemma digit_plain b : cont b 48 57 = true -> plain_byte b.
Proof. unfold cont, plain_byte. intros. bool_inv. lia. Qed.
Lemma take_digits_split l ds r : take_digits l = (ds, r) -> l = ds ++ r /\ Forall plain_byte ds.
Proof.
revert ds r. induction l as [|b l IH]; cbn; intros ds r; [by intros [= <- <-]|]. destruct (cont b 48 57) eqn:Hb; [|by intros [= <- <-]].
destruct (take_digits l) as [ds' r'] eqn:He. intros [= <- <-]. destruct (IH _ _ eq_refl) as [-> Hd]. split; [done|]. constructor; [by apply digit_plain|done].
Qed.
Lemma eat_split c l r : eat c l = Some r -> l = c :: r.
Proof. destruct l as [|b l]; cbn; [done|]. destruct (b =? c) eqn:Hb; [|done]. apply Z.eqb_eq in Hb as ->. by intros [= ->]. Qed.
Lemma sign_split l neg r : parse_sign l = (neg, r) -> exists pre, l = pre ++ r /\ Forall plain_byte pre.
Proof.
unfold parse_sign. destruct (eat 45 l) as [l'|] eqn:He; intros [= <- <-]; [|by exists []]. apply eat_split in He as ->.
exists [45]. split; [done|]. repeat constructor; lia.
Qed.
Lemma signs_split l neg r : parse_signs l = (neg, r) -> exists pre, l = pre ++ r /\ Forall plain_byte pre.
Proof.
unfold parse_signs. destruct (eat 43 l) as [l'|] eqn:He; [|by apply sign_split]. intros [= <- <-]. apply eat_split in He as ->.
exists [43]. split; [done|]. repeat constructor; lia.
Qed.
Lemma fraction_split l fp r : parse_fraction l = Some (fp, r) -> exists pre, l = pre ++ r /\ Forall plain_byte pre.
Proof.
unfold parse_fraction. destruct (eat 46 l) as [l'|] eqn:He; [|intros [= <- <-]; by exists []]. apply eat_split in He as ->.
destruct (take_digits l') as [ds r'] eqn:Hd. case_bool_decide; [done|]. intros [= <- <-]. apply take_digits_split in Hd as [-> Hd].
exists (46 :: ds). split; [done|]. constructor; [repeat split; lia|done].
Qed.
Lemma exponent_split l e r : parse_exponent l = Some (e, r) -> exists pre, l = pre ++ r /\ Forall plain_byte pre.
Proof.
unfold parse_exponent. destruct l as [|b l]; [intros [= <- <-]; by exists []|].
destruct ((b =? 101) || (b =? 69)) eqn:Hb; [|intros [= <- <-]; by exists []].
destruct (parse_signs l) as [neg l1] eqn:Hs. destruct (take_digits l1) as [ds r'] eqn:Hd. case_bool_decide; [done|]. intros [= <- <-].
apply signs_split in Hs as (pre & -> & Hpre). apply take_digits_split in Hd as [-> Hd]. exists (b :: pre ++ ds). split; [cbn [app]; by rewrite <- app_assoc|].
constructor; [|by apply Forall_app]. apply orb_true_iff in Hb. rewrite !Z.eqb_eq in Hb. unfold plain_byte. lia.
Qed.
Lemma number_split l v r : parse_number l = Some (v, r) -> exists pre, l = pre ++ r /\ Forall plain_byte pre.
Proof.
unfold parse_number. destruct (parse_sign l) as [neg l1] eqn:Hs. destruct (take_digits l1) as [[|d0 more] l2] eqn:Hd; [done|].
destruct (_ && _); [done|]. destruct (parse_fraction l2) as [[fp l3]|] eqn:Hf; [|done]. destruct (parse_exponent l3) as [[e l4]|] eqn:He; [|done].
intros [= <- <-]. apply sign_split in Hs as (p1 & -> & H1). apply take_digits_split in Hd as [-> H2]. apply fraction_split in Hf as (p3 & -> & H3).
apply exponent_split in He as (p4 & -> & H4). exists (p1 ++ (d0 :: more) ++ p3 ++ p4). split; [by rewrite <- !app_assoc|]. by rewrite !Forall_app.
Qed.
Lemma number_encoded l v : parse_number l = Some (v, []) -> encoded l.
Proof. intros (pre & -> & Hp)%number_split. rewrite app_nil_r. by apply encoded_bytes. Qed.

(** ** Encoder output *)

Lemma encoded_join ts : Forall (fun t => encoded (bytes_of t)) ts -> encoded (bytes_of (join_with "," ts)).
Proof.
destruct ts as [|t ts]; [constructor|]. rewrite Forall_cons. intros [Ht Hts]. rewrite bytes_of_join. apply encoded_app; [done|].
induction Hts as [|t' ts Ht' _ IH]; [constructor|]. unfold tail_text. cbn [map concat]. constructor; [unfold plain_byte; lia|]. by apply encoded_app.
Qed.
Lemma encoded_wrap a b t : plain_byte a -> plain_byte b -> encoded (bytes_of t) -> encoded (a :: bytes_of t ++ [b]).
Proof. intros Ha Hb Ht. constructor; [done|]. apply encoded_app; [done|]. apply encoded_bytes. constructor; [done|constructor]. Qed.
Lemma encoded_member k t : encoded (bytes_of t) -> encoded (bytes_of (member_text (k, t))).
Proof.
intros Ht. unfold member_text. cbn [fst snd]. rewrite !bytes_of_app. apply encoded_app; [apply encoded_string|]. apply encoded_app; [|done]. plain_bytes.
Qed.

Lemma marshal_encoded v : forall t, marshal v = Some t -> clean v -> encoded (bytes_of t).
Proof.
assert (forall (m : list (string * goval)) ms, Forall (fun kv => forall t, marshal kv.2 = Some t -> clean kv.2 -> encoded (bytes_of t)) m ->
  opt_all (map member_of m) = Some ms -> Forall (fun kv => clean kv.2) m -> Forall (fun kt => encoded (bytes_of kt.2)) ms) as Hmembers.
{ intros m ms IH Hms Hc. apply opt_all_map in Hms. induction Hms as [|kv kt m ms Hkv _ IHm]; [constructor|]. apply Forall_cons in IH as [IH1 IH], Hc as [Hc1 Hc].
  constructor; [|by apply IHm]. unfold member_of in Hkv. destruct (marshal kv.2) as [t|] eqn:Ht; [|done]. injection Hkv as <-. by apply IH1. }
induction v as [|b|z|f|lit|s|raw|l IH|m IH|m IH] using goval_nested_ind; intros t Hm Hc.
- injection Hm as <-. plain_bytes.
- injection Hm as <-. destruct b; plain_bytes.
- injection Hm as <-. eapply number_encoded, itoa_literal.
- destruct (format_float_reads f t Hm) as (v & Hv & _). by eapply number_encoded.
- revert Hm. unfold marshal. set (lit' := if str_eqb lit "" then "0" else lit). unfold number_literal_ok.
  destruct (parse_number (bytes_of lit')) as [[v [|]]|] eqn:Hp; try done. intros [= <-]. by eapply number_encoded.
- injection Hm as <-. apply encoded_string.
- done.
- rewrite marshal_slice in Hm. apply fmap_Some in Hm as (ts & Hts & ->). cbn [clean] in Hc. rewrite all_props_Forall in Hc.
  rewrite !bytes_of_app. apply (encoded_wrap 91 93); [unfold plain_byte; lia..|]. apply encoded_join. apply opt_all_map in Hts.
  induction Hts as [|v t l ts Hv _ IHl]; [constructor|]. apply Forall_cons_1 in IH as [IH1 IH2], Hc as [Hc1 Hc2]. constructor; [by apply IH1|by apply IHl].
- rewrite marshal_map in Hm. apply fmap_Some in Hm as (ms & Hms & ->). cbn [clean] in Hc. destruct Hc as (_ & _ & Hc). rewrite all_props_Forall in Hc.
  rewrite !bytes_of_app. apply (encoded_wrap 123 125); [unfold plain_byte; lia..|]. apply encoded_join, Forall_fmap. rewrite sort_on_permutation.
  eapply Forall_impl; [by eapply Hmembers|]. intros [k t]. apply encoded_member.
- rewrite marshal_struct in Hm. apply fmap_Some in Hm as (ms & Hms & ->). cbn [clean] in Hc. destruct Hc as (_ & _ & Hc). rewrite all_props_Forall in Hc.
  rewrite !bytes_of_app. apply (encoded_wrap 123 125); [unfold plain_byte; lia..|]. apply encoded_join, Forall_fmap.
  eapply Forall_impl; [by eapply Hmembers|]. intros [k t]. apply encoded_member.
Qed.

(** ** Strings *)

(** The inside of a quoted string: plain bytes, escapes, and the runes that
    start with the byte of the two separators. *)
Inductive string_text : list Z -> Prop :=
| text_nil : string_text []
| text_byte b l : 32 <= b -> b ∉ [34; 92; 60; 62; 38; 226] -> string_text l -> string_text (b :: l)
| text_escape b l : 32 <= b < 128 -> b ∉ [60; 62; 38] -> string_text l -> string_text (92 :: b :: l)
| text_rune c d l : 128 <= c <= 191 -> 128 <= d <= 191 -> ~ (c = 128 /\ (d = 168 \/ d = 169)) -> string_text l -> string_text (226 :: c :: d :: l).

Lemma text_app l l' : string_text l -> string_text l' -> string_text (l ++ l').
Proof. intros Hl Hl'. induction Hl; [done|by constructor..]. Qed.
Lemma text_bytes l : Forall (fun b => 32 <= b /\ b ∉ [34; 92; 60; 62; 38; 226]) l -> string_text l.
Proof. intros Hl. induction Hl as [|b l [H1 H2] _ IH]; by constructor. Qed.
Lemma not_special b : b <> 34 -> b <> 92 -> b <> 60 -> b <> 62 -> b <> 38 -> b <> 226 -> b ∉ [34; 92; 60; 62; 38; 226].
Proof. rewrite !not_elem_of_cons. intros. split_and!; try done. by intros ?%elem_of_nil. Qed.

Lemma hex_byte_text z : 0 <= z < 16 -> 32 <= hex_byte z /\ hex_byte z ∉ [34; 92; 60; 62; 38; 226].
Proof. intros Hz. unfold hex_byte. destruct (z <? 10) eqn:Hlt; bool_inv; (split; [lia|apply not_special; lia]). Qed.
Lemma escape_byte_text b : 0 <= b < 128 -> string_text (escape_byte b).
Proof.
intros Hb. assert (forall c, 32 <= c < 128 -> c ∉ [60; 62; 38] -> string_text [92; c]) as Hpair by (intros; apply text_escape; [done|done|constructor]).
unfold escape_byte. destruct (_ || (b =? 92)) eqn:H1; [apply orb_true_iff in H1; rewrite !Z.eqb_eq in H1; apply Hpair; [lia|destruct H1; subst; set_solver]|].
destruct (b =? 8); [apply Hpair; [lia|set_solver]|]. destruct (b =? 12); [apply Hpair; [lia|set_solver]|].
destruct (b =? 10); [apply Hpair; [lia|set_solver]|]. destruct (b =? 13); [apply Hpair; [lia|set_solver]|].
destruct (b =? 9); [apply Hpair; [lia|set_solver]|]. destruct (_ || (b =? 38)) eqn:H2.
- unfold u00. apply text_escape; [lia|set_solver|]. apply text_bytes. repeat constructor; try (apply not_special; lia); try lia.
  all: apply hex_byte_text; rewrite ?Z.mod_pos_bound by lia; try lia; pose proof (Z.div_mod b 16 ltac:(lia)); pose proof (Z.mod_pos_bound b 16 ltac:(lia)); lia.
- bool_inv. apply text_byte; [lia|apply not_special; lia|constructor].
Qed.

(** A multi-byte rune: its lead byte, then continuation bytes. *)
Lemma rune_shape l n : rune_len l = S (S n) ->
exists b cs, take (S (S n)) l = b :: cs /\ 194 <= b /\ Forall (fun c => 128 <= c <= 191) cs /\ length cs = S n.
Proof.
destruct l as [|b0 l]; [done|]. cbn [rune_len]. destruct (b0 <? 128) eqn:H0; [done|]. destruct l as [|b1 l]; [done|].
destruct (cont b0 194 223) eqn:Hb.
{ destruct (cont b1 128 191) eqn:H1; [|done]. intros [= <-]. exists b0, [b1]. unfold cont in *. bool_inv. split_and!; try done; try lia; by repeat (constructor; [lia|]). }
destruct l as [|b2 l]; [done|]. destruct (cont b0 224 239) eqn:Hb'.
{ destruct (cont b1 _ _ && cont b2 128 191) eqn:H1; [|done]. intros [= <-]. exists b0, [b1; b2]. apply andb_true_iff in H1 as [H1 H2].
  assert (128 <= b1 <= 191) by (revert H1; unfold cont; destruct (b0 =? 224), (b0 =? 237); intros; bool_inv; lia).
  unfold cont in *. bool_inv. split_and!; try done; try lia; by repeat (constructor; [lia|]). }
destruct l as [|b3 l]; [done|]. destruct (cont b0 240 244 && _ && _ && _) eqn:H1; [|done]. intros [= <-]. exists b0, [b1; b2; b3].
apply andb_true_iff in H1 as [[[H1 H2]%andb_true_iff H3]%andb_true_iff H4].
assert (128 <= b1 <= 191) by (revert H2; unfold cont; destruct (b0 =? 240), (b0 =? 244); intros; bool_inv; lia).
unfold cont in *. bool_inv. split_and!; try done; try lia; by repeat (constructor; [lia|]).
Qed.
Lemma rune_text l n : rune_len l = S (S n) -> take (S (S n)) l <> [226; 128; 168] -> take (S (S n)) l <> [226; 128; 169] -> string_text (take (S (S n)) l).
Proof.
intros Hr H1 H2. destruct (rune_shape l n Hr) as (b & cs & He & Hb & Hcs & Hlen). rewrite He in H1, H2 |- *.
assert (forall c, 128 <= c <= 191 -> 32 <= c /\ c ∉ [34; 92; 60; 62; 38; 226]) as Hcont by (intros c Hc; split; [lia|apply not_special; lia]).
destruct (decide (b = 226)) as [->|Hne].
- assert (n = 1%nat) as ->.
  { destruct l as [|b0 l]; [done|]. cbn in He. injection He as -> _. cbn in Hr. destruct l as [|b1 [|b2 l]]; [done..|]. cbn in Hr.
    destruct (cont b1 128 191 && cont b2 128 191); congruence. }
  destruct cs as [|c [|d [|]]]; try done. rewrite !Forall_cons in Hcs. destruct Hcs as (Hc & Hd & _). apply text_rune; [done|done| |constructor].
  intros [-> [->| ->]]; done.
- apply text_byte; [lia|apply not_special; lia|]. apply text_bytes. eapply Forall_impl; [exact Hcs|exact Hcont].
Qed.

Lemma escape_text n l : Forall is_byte l -> string_text (escape n l).
Proof.
revert l. induction n as [|n IH]; intros l Hl; [constructor|]. destruct l as [|b l]; [constructor|]. rewrite escape_step.
assert (forall k, string_text (escape n (drop k (b :: l)))) as Hdrop by (intros k; by apply IH, Forall_drop).
pose proof (Hdrop 1%nat) as Htail. cbn [drop] in Htail.
assert (forall cs, Forall (fun c => 32 <= c /\ c ∉ [34; 92; 60; 62; 38; 226]) cs -> string_text (92 :: 117 :: cs)) as Hu.
{ intros cs Hcs. apply text_escape; [lia|set_solver|]. by apply text_bytes. }
apply Forall_cons in Hl as [Hb Hl]. destruct (rune_len (b :: l)) as [|[|k]] eqn:Hr.
- apply text_app; [|done]. apply Hu. repeat constructor; first [lia|set_solver].
- apply text_app; [|done]. apply escape_byte_text. unfold is_byte in Hb. split; [lia|]. apply (rune_len_one b l); [lia|done].
- cbv zeta. case_bool_decide as H1; [apply text_app; [|done]; apply Hu; repeat constructor; first [lia|set_solver]|].
  case_bool_decide as H2; [apply text_app; [|done]; apply Hu; repeat constructor; first [lia|set_solver]|].
  apply text_app; [by apply rune_text|done].
Qed.

(** ** The two passes leave encoded text alone *)

Lemma compact_text l X : string_text l -> compact true false (l ++ 34 :: X) = l ++ 34 :: compact false false X.
Proof.
intros Hl. induction Hl as [|b l Hb Hs _ IH|b l Hb Hs _ IH|c d l Hc Hd _ _ IH]; [done|..].
- rewrite !not_elem_of_cons in Hs. destruct Hs as (H34 & H92 & H60 & H62 & H38 & _). cbn [app compact].
  apply Z.eqb_neq in H34, H92, H60, H62, H38. rewrite H34, H92, H60, H62, H38. cbn [orb app negb]. by rewrite IH.
- rewrite !not_elem_of_cons in Hs. destruct Hs as (H60 & H62 & H38 & _). apply Z.eqb_neq in H60, H62, H38.
  cbn [app compact Z.eqb Pos.eqb orb negb]. rewrite H60, H62, H38. cbn [orb app]. by rewrite IH.
- assert (forall x, 128 <= x <= 191 \/ x = 226 -> forall Y, compact true false (x :: Y) = x :: compact true false Y) as Hx.
  { intros x Hx Y. cbn [compact]. assert (forall k, k < 128 -> x =? k = false) as Hk by (intros; apply Z.eqb_neq; lia). rewrite !Hk by lia. done. }
  cbn [app]. rewrite !Hx by tauto. by rewrite IH.
Qed.
Lemma separators_byte b X : b <> 226 -> escape_separators (b :: X) = b :: escape_separators X.
Proof. intros Hb. apply Z.eqb_neq in Hb. cbn [escape_separators]. destruct X as [|c [|d X]]; [done..|]. by rewrite Hb. Qed.
Lemma separators_text l X : string_text l -> escape_separators (l ++ X) = l ++ escape_separators X.
Proof.
intros Hl. induction Hl as [|b l Hb Hs _ IH|b l Hb Hs _ IH|c d l Hc Hd Hn _ IH]; [done|..]; cbn [app].
- rewrite separators_byte by set_solver. by rewrite IH.
- rewrite !separators_byte by lia. by rewrite IH.
- assert (escape_separators (226 :: c :: d :: l ++ X) = 226 :: escape_separators (c :: d :: l ++ X)) as ->.
  { cbn [escape_separators]. assert ((226 =? 226) && (c =? 128) && ((d =? 168) || (d =? 169)) = false) as ->; [|done].
    apply not_true_is_false. rewrite !andb_true_iff, orb_true_iff, !Z.eqb_eq. tauto. }
  rewrite !separators_byte by lia. by rewrite IH.
Qed.

Lemma encoded_fixed l : encoded l -> compact false false l = l /\ escape_separators l = l.
Proof.
intros Hl. induction Hl as [|b l Hb _ [IH1 IH2]|s l _ [IH1 IH2]]; [done|..].
- unfold plain_byte in Hb. split.
  + cbn [compact]. assert (is_space_byte b = false) as -> by (unfold is_space_byte; rewrite !orb_false_iff, !Z.eqb_neq; lia).
    assert (b =? 34 = false) as -> by (apply Z.eqb_neq; tauto). by rewrite IH1.
  + rewrite separators_byte by lia. by rewrite IH2.
- rewrite bytes_of_quote. cbn [app]. rewrite <- app_assoc. cbn [app]. pose proof (escape_text (length (bytes_of s)) _ (bytes_of_bytes s)) as Ht. split.
  + cbn [compact is_space_byte Z.eqb Pos.eqb orb]. rewrite compact_text by done. by rewrite IH1.
  + rewrite separators_byte, separators_text, separators_byte by (done || lia). by rewrite IH2.
Qed.

(** Canonical JSON is written as it is. *)
Lemma marshal_raw v t : marshal v = Some t -> clean v -> marshal (VRaw t) = Some t.
Proof.
intros Hm Hc. assert (json_valid t = true) as Hv by (apply bool_decide_true; rewrite (unmarshal_number_marshal v t Hm Hc); by eexists).
change (marshal (VRaw t)) with (if json_valid t then Some (of_bytes (escape_separators (compact false false (bytes_of t)))) else None). rewrite Hv.
destruct (encoded_fixed _ (marshal_encoded v t Hm Hc)) as [H1 H2]. by rewrite H1, H2, of_bytes_bytes_of.
Qed.

(** ** Decoding what was decoded and encoded *)

Lemma parsed_clean v : parsed v -> clean v.
Proof.
induction v as [|b|z|f|lit|s|raw|l IH|m IH|m IH] using goval_nested_ind; try done.
- rewrite parsed_slice. cbn [clean]. rewrite all_props_Forall. intros Hl. eapply Forall_impl; [by eapply Forall_and; split; [exact IH|exact Hl]|].
  intros x [H1 H2]. auto.
- rewrite parsed_map. cbn [clean]. rewrite all_props_Forall, Forall_and. intros (Hnd & Hu & Hp). split_and!; [done|by apply Forall_fmap|].
  eapply Forall_impl; [by eapply Forall_and; split; [exact IH|exact Hp]|]. intros x [H1 H2]. auto.
Qed.

Definition decoded_member (kv : string * goval) : string * goval := (kv.1, decoded kv.2).
Lemma sorted_members m ms : Forall2 (fun kv kt => member_of (decoded_member kv) = Some kt) m ms -> NoDup (map fst m) ->
opt_all (map member_of (sort_on fst (map decoded_member m))) = Some (sort_on fst ms) /\ NoDup (map fst ms).
Proof.
intros Hms Hnd. assert (Hk : map fst m = map fst ms).
{ clear Hnd. induction Hms as [|kv kt m ms Hm _ IH]; [done|]. cbn. rewrite IH. f_equal. unfold member_of, decoded_member in Hm. cbn in Hm. repeat case_match; by simplify_eq. }
assert (Hp : forall kv kt, member_of (decoded_member kv) = Some kt -> kv.1 = kt.1) by (intros kv kt; unfold member_of; case_match; by intros [= <-]).
split; [|by rewrite <- Hk]. apply opt_all_map.
eapply (sort_on_Forall2 (fun kv kt => member_of kv = Some kt)).
- clear -Hms. induction Hms; constructor; done.
- intros [k v] kt. unfold member_of. cbn. case_match; by intros [= <-].
- rewrite map_map. done.
Qed.
Lemma sort_on_twice {A} (key : A -> string) l : NoDup (map key l) -> sort_on key (sort_on key l) = sort_on key l.
Proof. intros Hnd. symmetry. apply sort_on_unique; [done|]. by rewrite sort_on_permutation. Qed.

Lemma marshal_decoded v : forall t, parsed v -> marshal v = Some t -> marshal (decoded v) = Some t.
Proof.
induction v as [|b|z|f|lit|s|raw|l IH|m IH|m IH] using goval_nested_ind; intros t Hp Hm; try done.
- revert Hm. unfold marshal. cbn [decoded]. destruct (str_eqb lit "") eqn:E; [done|]. by rewrite E.
- cbn [decoded]. by rewrite sanitize_text_id.
- cbn [decoded]. rewrite marshal_slice in *. apply fmap_Some in Hm as (ts & Hts & ->). rewrite parsed_slice in Hp.
  assert (opt_all (map marshal (map decoded l)) = Some ts) as ->; [|done]. rewrite map_map. apply opt_all_map. apply opt_all_map in Hts.
  induction Hts as [|v t l ts Hv _ IHl]; [constructor|]. apply Forall_cons_1 in IH as [IH1 IH2], Hp as [Hp1 Hp2]. constructor; [by apply IH1|by apply IHl].
- cbn [decoded]. rewrite marshal_map in *. apply fmap_Some in Hm as (ms & Hms & ->). rewrite parsed_map in Hp. destruct Hp as [Hnd Hp]. apply opt_all_map in Hms.
  assert (Hd : Forall2 (fun kv kt => member_of (decoded_member kv) = Some kt) m ms).
  { clear Hnd. induction Hms as [|kv kt m ms Hv _ IHm]; [constructor|]. apply Forall_cons_1 in IH as [IH1 IH2], Hp as [[_ Hp1] Hp2].
    constructor; [|by apply IHm]. unfold member_of in *. cbn. destruct (marshal kv.2) as [t'|] eqn:Ht; [|done]. by rewrite (IH1 _ Hp1 eq_refl). }
  destruct (sorted_members _ _ Hd Hnd) as [Hsm Hk]. unfold decoded_member in Hsm. rewrite Hsm. cbn. by rewrite sort_on_twice.
Qed.
