(* ===== verification/SeqLog.v ===== *)
(** * Per-run sequence numbers

    The ledger ([events]) and the ownership history ([run_ownership_log]) are
    both tables keyed by (run_id, seq) whose next number is
    [COALESCE(MAX(seq),0)+1].  This file has the query, the append and what
    makes such a table a log: the numbers of a run are 1..n without gaps, and
    appending adds the last row and touches no other. *)

From S2P Require Export Prelude.
Open Scope Z_scope.

Section SeqLog.
Context {A : Type}.
Implicit Types m : gmap (string * Z) A.

(** [SELECT COALESCE(MAX(seq),0) FROM t WHERE run_id=?] *)
Definition max_seq (r : string) m : Z :=
map_fold (fun (k : string * Z) (_ : A) acc => if bool_decide (k.1 = r) then Z.max acc k.2 else acc) 0 m.

Definition append_log (r : string) (v : A) m : gmap (string * Z) A := <[(r, max_seq r m + 1) := v]> m.

(** The rows of a run [ORDER BY seq]. *)
Definition seq_le (x y : Z * A) : Prop := x.1 <= y.1.
#[export] Instance seq_le_dec : RelDecision seq_le.
Proof. intros x y. unfold seq_le. apply _. Defined.
Definition run_rows (r : string) m : list (Z * A) :=
omap (fun kv : (string * Z) * A => if bool_decide (kv.1.1 = r) then Some (kv.1.2, kv.2) else None) (map_to_list m).
Definition log_rows (r : string) m : list (Z * A) := merge_sort seq_le (run_rows r m).

(** The numbers in use for a run are exactly 1..MAX(seq). *)
Definition dense (r : string) m : Prop := forall q, is_Some (m !! (r, q)) <-> 1 <= q <= max_seq r m.

Lemma max_seq_spec r m :
0 <= max_seq r m /\ (forall q v, m !! (r, q) = Some v -> q <= max_seq r m) /\
(max_seq r m = 0 \/ is_Some (m !! (r, max_seq r m))).
Proof.
unfold max_seq.
apply (map_fold_weak_ind (fun acc m' => 0 <= acc /\ (forall q v, m' !! (r, q) = Some v -> q <= acc) /\
 (acc = 0 \/ is_Some (m' !! (r, acc))))).
- split; [lia|]. split; [|by left]. intros q v Hq. by rewrite lookup_empty in Hq.
- intros [r' q'] v m' acc Hnone (H0 & Hub & Hin). cbn.
case_bool_decide as Hr; subst.
+ split; [lia|]. split.
* intros q w. destruct (decide (q = q')) as [->|Hne]; [lia|].
rewrite lookup_insert_ne by congruence. intros Hq. apply Hub in Hq. lia.
* destruct (Z.max_spec acc q') as [[Hlt ->]|[Hle ->]].
-- right. rewrite lookup_insert_eq. eauto.
-- destruct Hin as [Hz|Hin]; [by left|]. right.
 destruct (decide (acc = q')) as [->|Hne]; [rewrite lookup_insert_eq; eauto|].
 by rewrite lookup_insert_ne by congruence.
+ split; [lia|]. split.
* intros q w. rewrite lookup_insert_ne by congruence. apply Hub.
* destruct Hin as [|Hin]; [by left|]. right. by rewrite lookup_insert_ne by congruence.
Qed.

Lemma max_seq_nonneg r m : 0 <= max_seq r m.
Proof. apply max_seq_spec. Qed.
Lemma max_seq_ub r m q v : m !! (r, q) = Some v -> q <= max_seq r m.
Proof. apply max_seq_spec. Qed.

Lemma append_fresh r m : m !! (r, max_seq r m + 1) = None.
Proof.
destruct (m !! (r, max_seq r m + 1)) eqn:He; [|done].
apply max_seq_ub in He. lia.
Qed.

(** [max_seq] is the only number that bounds a run's rows and is used. *)
Lemma max_seq_unique r m n :
0 <= n -> (forall q v, m !! (r, q) = Some v -> q <= n) -> (n = 0 \/ is_Some (m !! (r, n))) ->
max_seq r m = n.
Proof.
intros Hn Hub Hin. destruct (max_seq_spec r m) as (H0 & Hub' & Hin').
assert (n <= max_seq r m).
{ destruct Hin as [->|[v Hv]]; [lia|]. eauto. }
assert (max_seq r m <= n); [|lia].
destruct Hin' as [->|[v Hv]]; [lia|]. eauto.
Qed.

Lemma max_seq_append_eq r v m : max_seq r (append_log r v m) = max_seq r m + 1.
Proof.
unfold append_log. pose proof (max_seq_nonneg r m). apply max_seq_unique; [lia| |].
- intros q w. destruct (decide (q = max_seq r m + 1)) as [->|Hne]; [lia|].
rewrite lookup_insert_ne by congruence. intros Hq%max_seq_ub. lia.
- right. rewrite lookup_insert_eq. eauto.
Qed.

Lemma max_seq_append_ne r r' v m : r <> r' -> max_seq r' (append_log r v m) = max_seq r' m.
Proof.
intros Hne. unfold append_log. destruct (max_seq_spec r' m) as (H0 & Hub & Hin).
apply max_seq_unique; [lia| |].
- intros q w. rewrite lookup_insert_ne by congruence. apply Hub.
- destruct Hin; [by left|right]. by rewrite lookup_insert_ne by congruence.
Qed.

Lemma dense_empty r : dense r ∅.
Proof.
intros q. assert (max_seq r (∅ : gmap (string * Z) A) = 0) as ->.
{ apply max_seq_unique; [lia| |by left]. intros ? ? Hq. by rewrite lookup_empty in Hq. }
split; [|lia]. intros [v Hv]. by rewrite lookup_empty in Hv.
Qed.

Lemma dense_append r r' v m : dense r' m -> dense r' (append_log r v m).
Proof.
intros Hd q. destruct (decide (r = r')) as [->|Hne].
- rewrite max_seq_append_eq. unfold append_log. pose proof (max_seq_nonneg r' m).
destruct (decide (q = max_seq r' m + 1)) as [->|Hq].
+ rewrite lookup_insert_eq. split; [lia|eauto].
+ rewrite lookup_insert_ne by congruence. rewrite (Hd q). lia.
- rewrite max_seq_append_ne by done. unfold append_log.
rewrite lookup_insert_ne by congruence. apply Hd.
Qed.

(** *** Reading the log back in order *)

#[local] Instance seq_le_trans : Transitive seq_le.
Proof. intros x y z. unfold seq_le. lia. Qed.
#[local] Instance seq_le_total : Total seq_le.
Proof. intros x y. unfold seq_le. lia. Qed.

Lemma elem_of_run_rows r m q v : (q, v) ∈ run_rows r m <-> m !! (r, q) = Some v.
Proof.
unfold run_rows. rewrite list_elem_of_omap. split.
- intros ([[r' q'] v'] & Hin%elem_of_map_to_list & Hc). cbn in *.
case_bool_decide; [|done]. by simplify_eq.
- intros Hl. exists ((r, q), v). rewrite elem_of_map_to_list. split; [done|].
cbn. by rewrite bool_decide_eq_true_2.
Qed.

Lemma elem_of_log_rows r m q v : (q, v) ∈ log_rows r m <-> m !! (r, q) = Some v.
Proof. unfold log_rows. rewrite merge_sort_Permutation. apply elem_of_run_rows. Qed.

Lemma run_rows_insert r r' q v m :
m !! (r', q) = None ->
run_rows r (<[(r', q) := v]> m) ≡ₚ (if bool_decide (r' = r) then [(q, v)] else []) ++ run_rows r m.
Proof.
intros Hn. unfold run_rows. rewrite map_to_list_insert by done.
cbn. by case_bool_decide.
Qed.

(** An append adds one row at the end of the run's log, and nothing to the
log of another run. *)
Lemma log_rows_append r v m : log_rows r (append_log r v m) = log_rows r m ++ [(max_seq r m + 1, v)].
Proof.
apply (StronglySorted_unique_strong seq_le).
- intros [q1 v1] [q2 v2] H1 H2 H12 H21. unfold seq_le in *. cbn in *.
apply elem_of_log_rows in H1. apply elem_of_app in H2.
assert (q1 = q2) as -> by lia. f_equal. unfold append_log in H1.
destruct H2 as [H2%elem_of_log_rows|[= -> ->]%list_elem_of_singleton].
+ pose proof (max_seq_ub _ _ _ _ H2).
rewrite lookup_insert_ne in H1 by (intros [=]; lia). congruence.
+ rewrite lookup_insert_eq in H1. congruence.
- apply StronglySorted_merge_sort; apply _.
- apply StronglySorted_app_2; [|apply StronglySorted_merge_sort; apply _|repeat constructor].
intros [q1 v1] [q2 v2] H1%elem_of_log_rows [= -> ->]%list_elem_of_singleton.
apply max_seq_ub in H1. unfold seq_le. cbn. lia.
- unfold log_rows. rewrite !merge_sort_Permutation. unfold append_log.
rewrite run_rows_insert by apply append_fresh.
rewrite bool_decide_eq_true_2 by done. apply Permutation_app_comm.
Qed.

Lemma log_rows_append_ne r r' v m : r <> r' -> log_rows r' (append_log r v m) = log_rows r' m.
Proof.
intros Hne. apply (StronglySorted_unique_strong seq_le).
- intros [q1 v1] [q2 v2] H1%elem_of_log_rows H2%elem_of_log_rows H12 H21. unfold seq_le in *. cbn in *.
assert (q1 = q2) as -> by lia. unfold append_log in H1.
rewrite lookup_insert_ne in H1 by congruence. congruence.
- apply StronglySorted_merge_sort; apply _.
- apply StronglySorted_merge_sort; apply _.
- unfold log_rows. rewrite !merge_sort_Permutation. unfold append_log.
rewrite run_rows_insert by apply append_fresh.
by rewrite bool_decide_eq_false_2.
Qed.

(** The sequence numbers of a dense run, in order, are 1..n. *)
Lemma dense_log_seqs r m :
dense r m -> (log_rows r m).*1 = seqZ 1 (max_seq r m).
Proof.
intros Hd. apply (StronglySorted_unique Z.le).
- assert (StronglySorted seq_le (log_rows r m)) as Hs by (apply StronglySorted_merge_sort; apply _).
apply StronglySorted_fmap with (R1 := seq_le); [|done]. by intros x y.
- apply Sorted_StronglySorted; [apply _|].
unfold seqZ. generalize (Z.to_nat (max_seq r m)) as n. intros n.
generalize 0%nat as k. induction n as [|n IH]; intros k; cbn; [constructor|].
constructor; [apply IH|]. destruct n; cbn; [constructor|]. constructor. lia.
- apply NoDup_Permutation.
+ unfold log_rows. rewrite (merge_sort_Permutation seq_le).
apply NoDup_fmap_fst.
* intros q v1 v2 H1%elem_of_run_rows H2%elem_of_run_rows. congruence.
* unfold run_rows. apply NoDup_omap_inj; [|apply NoDup_map_to_list].
intros [[r1 q1] v1] [[r2 q2] v2] y. cbn. repeat case_bool_decide; naive_solver.
+ apply NoDup_seqZ.
+ intros q. rewrite elem_of_seqZ, list_elem_of_fmap. split.
* intros ([q' v] & -> & Hin%elem_of_log_rows). cbn.
destruct (Hd q') as [Hq _]. specialize (Hq (ex_intro _ v Hin)). lia.
* intros Hq. destruct (Hd q) as [_ Hq']. destruct Hq' as [v Hv]; [lia|].
exists (q, v). split; [done|]. by apply elem_of_log_rows.
Qed.

(** A view of a dense log that shows the numbers shows 1..n. *)
Lemma dense_log_numbers {B} r m (f : Z * A -> B) (g : B -> Z) :
(forall x, g (f x) = x.1) -> dense r m -> g <$> map f (log_rows r m) = seqZ 1 (Z.of_nat (length (map f (log_rows r m)))).
Proof.
intros Hg Hd. pose proof (dense_log_seqs r m Hd) as Hs.
assert (g <$> map f (log_rows r m) = (log_rows r m).*1) as ->.
{ rewrite <- list_fmap_compose. apply list_fmap_ext. intros i x _. apply Hg. }
rewrite Hs. f_equal. apply (f_equal length) in Hs. rewrite length_fmap, length_seqZ in Hs.
rewrite length_map, Hs. pose proof (max_seq_nonneg r m). lia.
Qed.

(** The log of every run only gets longer, and keeps its numbering. *)
Definition grows m m' : Prop :=
forall r, log_rows r m `prefix_of` log_rows r m' /\ (dense r m -> dense r m').
#[export] Instance grows_preorder : PreOrder grows.
Proof.
split; unfold grows; [intros m r; by split|]. intros m1 m2 m3 H12 H23 r.
destruct (H12 r), (H23 r). split; [by etransitivity|auto].
Qed.
Lemma append_grows r v m : grows m (append_log r v m).
Proof.
intros r'. split; [|apply dense_append]. destruct (decide (r = r')) as [->|Hne].
- rewrite log_rows_append. by apply prefix_app_r.
- by rewrite log_rows_append_ne.
Qed.
End SeqLog.
