(* ===== verification/Db.v ===== *)
(** * The database (internal/store/migrate.go, baseSchema and distributedSchema)

    One record with a finite map per table, keyed by the table's primary key.
    Columns keep the type SQL gives them: TEXT is [string], INTEGER is [Z].
    [wall] is the reading of the process clock ([time.Now]); no statement
    writes it, and time passing is a step of the environment. *)

From S2P Require Export GoTime Json.
Open Scope Z_scope.

(** ** Rows, without their key columns *)

Record WorldRow := MkWorld { wld_seed : Z; wld_digest : string; wld_base_at : string }.
Record InvoiceRow := MkInvoice { inv_customer_id : string; inv_amount_cents : Z; inv_subscription_id : string }.
Record ChargeRow := MkCharge { chg_invoice_id : string; chg_amount_cents : Z; chg_refunded_cents : Z; chg_created_at : string }.
Record RefundRow := MkRefund { rfd_charge_id : string; rfd_amount_cents : Z; rfd_reason : string; rfd_created_at : string }.
Record SubscriptionRow := MkSubscription { sub_customer_id : string; sub_status : string; sub_plan : string }.
Record AccountRow := MkAccount { acc_customer_id : string; acc_status : string; acc_representative_id : string }.
Record ContactRow := MkContact { con_account_id : string; con_name : string; con_email : string }.
Record NoteRow := MkNote { nte_account_id : string; nte_body : string; nte_created_at : string }.
Record ProjectRow := MkProject { prj_key : string; prj_name : string }.
Record IssueRow := MkIssue { iss_project_id : string; iss_account_id : string; iss_title : string; iss_status : string; iss_priority : string }.
Record CommentRow := MkComment { cmt_issue_id : string; cmt_body : string; cmt_created_at : string }.
Record ChannelRow := MkChannel { chn_workspace_id : string; chn_name : string }.
Record MessageRow := MkMessage { msg_channel_id : string; msg_body : string; msg_created_at : string }.
Record RunRow := MkRun {
  run_world_id : string; run_scenario : string; run_provider : string; run_model : string; run_task : string;
  run_status : string; run_step : Z; run_transcript : string; run_fault_operation : string;
  run_fault_consumed : Z; run_principal_id : string }.
Record EventRow := MkEvent { evt_id : string; evt_recorded_at : string; evt_world_at : string; evt_type : string; evt_payload : string }.
Record ToolResultRow := MkToolResult { tr_operation_id : string; tr_arguments : string; tr_status : Z; tr_body : string }.
Record PolicyRow := MkPolicy { pol_json : string; pol_digest : string }.
Record RuleStateRow := MkRuleState { matching_calls : Z; injections : Z }.
Record OutcomeRow := MkOutcome { out_status : Z; out_body : string }.
Record HiddenRow := MkHidden { hid_rule_id : string; hid_status : Z; hid_body : string }.
Record LeaseRow := MkLease { ls_owner : string; ls_fence : Z; ls_committed_fence : Z; ls_expires_at : string; ls_acquired_at : string; ls_heartbeat_at : string }.
Record QueueRow := MkQueue { q_state : string; q_max_steps : Z; q_attempts : Z; q_enqueued_at : string; q_available_at : string; q_last_error : string }.
Record WorkerRow := MkWorker { wk_host : string; wk_started_at : string; wk_last_seen_at : string; wk_claims : Z }.
Record OwnershipRow := MkOwnership { own_at : string; own_kind : string; own_owner : string; own_fence : Z; own_detail : string }.
Record CheckpointRow := MkCheckpointRow { cpr_run_id : string; cpr_event_seq : Z; cpr_format_version : Z; cpr_manifest_digest : string; cpr_prefix_digest : string }.
Record LineageRow := MkLineage {
  lin_parent_run_id : string; lin_fork_event_seq : Z; lin_checkpoint_id : string; lin_format_version : Z; lin_manifest_digest : string;
  lin_prefix_digest : string; lin_parent_provider : string; lin_parent_model : string; lin_chaos_replaced : Z; lin_auth_replaced : Z }.
Record ObservationRow := MkObservationRow { obs_call_id : string; obs_status : Z; obs_body : string }.

(** ** Tables *)

Record DB := MkDB {
  wall : time;
  worlds : gmap string WorldRow;
  customers : gmap (string * string) string;
  invoices : gmap (string * string) InvoiceRow;
  charges : gmap (string * string) ChargeRow;
  refunds : gmap (string * string) RefundRow;
  subscriptions : gmap (string * string) SubscriptionRow;
  crm_accounts : gmap (string * string) AccountRow;
  crm_contacts : gmap (string * string) ContactRow;
  crm_notes : gmap (string * string) NoteRow;
  ticket_projects : gmap (string * string) ProjectRow;
  ticket_issues : gmap (string * string) IssueRow;
  ticket_comments : gmap (string * string) CommentRow;
  message_workspaces : gmap (string * string) string;
  message_channels : gmap (string * string) ChannelRow;
  message_members : gset (string * string * string);
  message_messages : gmap (string * string) MessageRow;
  runs : gmap string RunRow;
  events : gmap (string * Z) EventRow;
  tool_results : gmap (string * string) ToolResultRow;
  run_chaos : gmap string PolicyRow;
  chaos_rule_state : gmap (string * string) RuleStateRow;
  chaos_snapshots : gmap (string * string * string) OutcomeRow;
  chaos_hidden_outcomes : gmap (string * string) HiddenRow;
  run_auth : gmap string PolicyRow;
  auth_state : gmap string Z;
  run_leases : gmap string LeaseRow;
  work_queue : gmap string QueueRow;
  workers : gmap string WorkerRow;
  run_ownership_log : gmap (string * Z) OwnershipRow;
  checkpoints : gmap string CheckpointRow;
  fork_lineage : gmap string LineageRow;
  fork_observations : gmap string ObservationRow }.

Definition eta_db (s : DB) : DB :=
  MkDB (wall s) (worlds s) (customers s) (invoices s) (charges s) (refunds s) (subscriptions s) (crm_accounts s) (crm_contacts s) (crm_notes s) (ticket_projects s) (ticket_issues s) (ticket_comments s) (message_workspaces s) (message_channels s) (message_members s) (message_messages s) (runs s) (events s) (tool_results s) (run_chaos s) (chaos_rule_state s) (chaos_snapshots s) (chaos_hidden_outcomes s) (run_auth s) (auth_state s) (run_leases s) (work_queue s) (workers s) (run_ownership_log s) (checkpoints s) (fork_lineage s) (fork_observations s).
Definition empty_db (now : time) : DB :=
  MkDB now ∅ ∅ ∅ ∅ ∅ ∅ ∅ ∅ ∅ ∅ ∅ ∅ ∅ ∅ ∅ ∅ ∅ ∅ ∅ ∅ ∅ ∅ ∅ ∅ ∅ ∅ ∅ ∅ ∅ ∅ ∅ ∅.

(** The update of one table: [mk_setter] abstracts the projection in the eta
    expansion of the record. *)
Ltac mk_setter proj :=
  let t := eval cbv delta [eta_db] in eta_db in
  lazymatch eval pattern proj in t with
  | ?F _ => let r := eval cbv beta in (fun g => F (fun s => g (proj s))) in exact r
  end.

Definition set_wall : (time -> time) -> DB -> DB := ltac:(mk_setter wall).
Definition set_worlds : (gmap string WorldRow -> gmap string WorldRow) -> DB -> DB := ltac:(mk_setter worlds).
Definition set_customers : (gmap (string * string) string -> gmap (string * string) string) -> DB -> DB := ltac:(mk_setter customers).
Definition set_invoices : (gmap (string * string) InvoiceRow -> gmap (string * string) InvoiceRow) -> DB -> DB := ltac:(mk_setter invoices).
Definition set_charges : (gmap (string * string) ChargeRow -> gmap (string * string) ChargeRow) -> DB -> DB := ltac:(mk_setter charges).
Definition set_refunds : (gmap (string * string) RefundRow -> gmap (string * string) RefundRow) -> DB -> DB := ltac:(mk_setter refunds).
Definition set_subscriptions : (gmap (string * string) SubscriptionRow -> gmap (string * string) SubscriptionRow) -> DB -> DB := ltac:(mk_setter subscriptions).
Definition set_crm_accounts : (gmap (string * string) AccountRow -> gmap (string * string) AccountRow) -> DB -> DB := ltac:(mk_setter crm_accounts).
Definition set_crm_contacts : (gmap (string * string) ContactRow -> gmap (string * string) ContactRow) -> DB -> DB := ltac:(mk_setter crm_contacts).
Definition set_crm_notes : (gmap (string * string) NoteRow -> gmap (string * string) NoteRow) -> DB -> DB := ltac:(mk_setter crm_notes).
Definition set_ticket_projects : (gmap (string * string) ProjectRow -> gmap (string * string) ProjectRow) -> DB -> DB := ltac:(mk_setter ticket_projects).
Definition set_ticket_issues : (gmap (string * string) IssueRow -> gmap (string * string) IssueRow) -> DB -> DB := ltac:(mk_setter ticket_issues).
Definition set_ticket_comments : (gmap (string * string) CommentRow -> gmap (string * string) CommentRow) -> DB -> DB := ltac:(mk_setter ticket_comments).
Definition set_message_workspaces : (gmap (string * string) string -> gmap (string * string) string) -> DB -> DB := ltac:(mk_setter message_workspaces).
Definition set_message_channels : (gmap (string * string) ChannelRow -> gmap (string * string) ChannelRow) -> DB -> DB := ltac:(mk_setter message_channels).
Definition set_message_members : (gset (string * string * string) -> gset (string * string * string)) -> DB -> DB := ltac:(mk_setter message_members).
Definition set_message_messages : (gmap (string * string) MessageRow -> gmap (string * string) MessageRow) -> DB -> DB := ltac:(mk_setter message_messages).
Definition set_runs : (gmap string RunRow -> gmap string RunRow) -> DB -> DB := ltac:(mk_setter runs).
Definition set_events : (gmap (string * Z) EventRow -> gmap (string * Z) EventRow) -> DB -> DB := ltac:(mk_setter events).
Definition set_tool_results : (gmap (string * string) ToolResultRow -> gmap (string * string) ToolResultRow) -> DB -> DB := ltac:(mk_setter tool_results).
Definition set_run_chaos : (gmap string PolicyRow -> gmap string PolicyRow) -> DB -> DB := ltac:(mk_setter run_chaos).
Definition set_chaos_rule_state : (gmap (string * string) RuleStateRow -> gmap (string * string) RuleStateRow) -> DB -> DB := ltac:(mk_setter chaos_rule_state).
Definition set_chaos_snapshots : (gmap (string * string * string) OutcomeRow -> gmap (string * string * string) OutcomeRow) -> DB -> DB := ltac:(mk_setter chaos_snapshots).
Definition set_chaos_hidden_outcomes : (gmap (string * string) HiddenRow -> gmap (string * string) HiddenRow) -> DB -> DB := ltac:(mk_setter chaos_hidden_outcomes).
Definition set_run_auth : (gmap string PolicyRow -> gmap string PolicyRow) -> DB -> DB := ltac:(mk_setter run_auth).
Definition set_auth_state : (gmap string Z -> gmap string Z) -> DB -> DB := ltac:(mk_setter auth_state).
Definition set_run_leases : (gmap string LeaseRow -> gmap string LeaseRow) -> DB -> DB := ltac:(mk_setter run_leases).
Definition set_work_queue : (gmap string QueueRow -> gmap string QueueRow) -> DB -> DB := ltac:(mk_setter work_queue).
Definition set_workers : (gmap string WorkerRow -> gmap string WorkerRow) -> DB -> DB := ltac:(mk_setter workers).
Definition set_run_ownership_log : (gmap (string * Z) OwnershipRow -> gmap (string * Z) OwnershipRow) -> DB -> DB := ltac:(mk_setter run_ownership_log).
Definition set_checkpoints : (gmap string CheckpointRow -> gmap string CheckpointRow) -> DB -> DB := ltac:(mk_setter checkpoints).
Definition set_fork_lineage : (gmap string LineageRow -> gmap string LineageRow) -> DB -> DB := ltac:(mk_setter fork_lineage).
Definition set_fork_observations : (gmap string ObservationRow -> gmap string ObservationRow) -> DB -> DB := ltac:(mk_setter fork_observations).

(** [db_simpl] reads a table through updates of itself and of others. *)
Ltac db_simpl_step :=
  match goal with
  | |- context [?p (?st ?f ?s)] =>
      lazymatch type of s with
      | DB => first [change (p (st f s)) with (p s) | progress change (p (st f s)) with (f (p s))]
      end
  | H : context [?p (?st ?f ?s)] |- _ =>
      lazymatch type of s with
      | DB => first [change (p (st f s)) with (p s) in H | progress change (p (st f s)) with (f (p s)) in H]
      end
  end.
Ltac db_simpl := repeat db_simpl_step.

(** ** Errors *)

(** The sentinel errors the callers test with [errors.Is], everything else as
    its text, and [fmt.Errorf("...%w", e)], which keeps what [errors.Is] finds
    in [e].  [ErrPanic] is not an error the code returns: the call panics. *)
Inductive err : Type :=
| ErrFenced (why : string)
| ErrLeaseHeld (run_id owner : string)
| ErrNoWork
| ErrNoRows
| ErrConstraint (table : string)
| ErrCrashed (point : string)
| ErrCanceled
| ErrDeadlineExceeded
| ErrText (msg : string)
| ErrPanic (why : string)
| ErrWrap (context : string) (e : err).

Fixpoint root_cause (e : err) : err := match e with ErrWrap _ e' => root_cause e' | _ => e end.
Definition is_fenced (e : err) : bool := match root_cause e with ErrFenced _ => true | _ => false end.
Definition is_lease_held (e : err) : bool := match root_cause e with ErrLeaseHeld _ _ => true | _ => false end.
Definition is_crashed (e : err) : bool := match root_cause e with ErrCrashed _ => true | _ => false end.
Definition is_no_work (e : err) : bool := match root_cause e with ErrNoWork => true | _ => false end.
Definition is_panic (e : err) : bool := match e with ErrPanic _ => true | _ => false end.
Definition is_cancellation (e : err) : bool := match root_cause e with ErrCanceled | ErrDeadlineExceeded => true | _ => false end.

Abbreviation DbTx := (Tx DB err).
Abbreviation DbIO := (IO DB err).

(** ** Statements *)

Section Statements.
Context {K V : Type} `{Countable K}.

(** [INSERT INTO t ...]: a repeated primary key fails the statement. *)
Definition sql_insert (name : string) (get : DB -> gmap K V) (set : (gmap K V -> gmap K V) -> DB -> DB)
(k : K) (v : V) : DbTx unit :=
fun s => match get s !! k with
 | Some _ => Err (ErrConstraint name)
 | None => Ok (tt, set (insert k v) s)
 end.

(** [INSERT INTO t ... ON CONFLICT DO NOTHING] *)
Definition sql_insert_or_ignore (get : DB -> gmap K V) (set : (gmap K V -> gmap K V) -> DB -> DB)
(k : K) (v : V) : DbTx unit :=
fun s => match get s !! k with
 | Some _ => Ok (tt, s)
 | None => Ok (tt, set (insert k v) s)
 end.

(** [UPDATE t SET ... WHERE <primary key>]: the number of rows changed is 0
or 1, and most callers do not look at it. *)
Definition sql_update (set : (gmap K V -> gmap K V) -> DB -> DB) (k : K) (f : V -> V) : DbTx unit :=
tmodify (set (alter f k)).

(** [SELECT ... WHERE <primary key>] scanned into variables. *)
Definition sql_get (get : DB -> gmap K V) (k : K) : DbTx (option V) := treads (fun s => get s !! k).
Definition sql_get_row (get : DB -> gmap K V) (k : K) : DbTx V :=
fun s => match get s !! k with Some v => Ok (v, s) | None => Err ErrNoRows end.
End Statements.

Lemma respects_get {K V} `{Countable K} (R : DB -> DB -> Prop) `{!PreOrder R} (get : DB -> gmap K V) k :
  respects R (sql_get get k).
Proof. by apply respects_reads. Qed.
Lemma respects_get_row {K V} `{Countable K} (R : DB -> DB -> Prop) `{!PreOrder R} (get : DB -> gmap K V) k :
  respects R (sql_get_row get k).
Proof. intros s v s'. unfold sql_get_row. case_match; [|done]. intros [= <- <-]. reflexivity. Qed.
#[export] Hint Extern 1 (respects _ (sql_get _ _)) => (apply respects_get; apply _) : tx.
#[export] Hint Extern 1 (respects _ (sql_get_row _ _)) => (apply respects_get_row; apply _) : tx.

(** [SELECT ... FROM t WHERE world_id=? AND <cond>]: the rows of one world with
    their ids, in no particular order. *)
Definition world_rows {V} (m : gmap (string * string) V) (world_id : string) (cond : string -> V -> bool)
    : list (string * V) :=
  omap (fun kv : (string * string) * V =>
          if str_eqb (fst (fst kv)) world_id && cond (snd (fst kv)) (snd kv)
          then Some (snd (fst kv), snd kv) else None) (map_to_list m).

Lemma elem_of_world_rows {V} (m : gmap (string * string) V) w cond id v :
  (id, v) ∈ world_rows m w cond <-> m !! (w, id) = Some v /\ cond id v = true.
Proof.
  unfold world_rows. rewrite list_elem_of_omap. split.
  - intros ([[w' id'] v'] & Hin%elem_of_map_to_list & Hc). cbn in Hc.
    destruct (str_eqb w' w) eqn:Hw; [|done]. destruct (cond id' v') eqn:Hcond; [|done].
    apply str_eqb_true in Hw. by simplify_eq/=.
  - intros [Hl Hc]. exists ((w, id), v). rewrite elem_of_map_to_list. split; [done|].
    cbn. by rewrite str_eqb_refl, Hc.
Qed.

Lemma world_rows_insert {V} (m : gmap (string * string) V) w cond w' id v :
  m !! (w', id) = None ->
  world_rows (<[(w', id) := v]> m) w cond ≡ₚ
  (if str_eqb w' w && cond id v then [(id, v)] else []) ++ world_rows m w cond.
Proof.
  intros Hn. unfold world_rows. rewrite map_to_list_insert by done. cbn.
  by destruct (str_eqb w' w && cond id v).
Qed.
