(* ===== verification/Yaml.v ===== *)
(** * YAML documents as the program reads them

    The decoder is a library (gopkg.in/yaml.v3), so it is an interface here:
    [yaml.Unmarshal] into a [yaml.Node], and decoders into the program's types.
    What the program does with the nodes and the decoded values is its own. *)

From S2P Require Export Json Db.
Open Scope Z_scope.
Open Scope tx_scope.

(** [yaml.Node]: its kind, tag, text and children; the children of a mapping
    are its keys and values in turn. *)
Inductive NodeKind := ZeroNode | DocumentNode | SequenceNode | MappingNode | ScalarNode | AliasNode.
Inductive ynode := YNode (kind : NodeKind) (tag value : string) (content : list ynode).
#[export] Instance node_kind_eq_dec : EqDecision NodeKind.
Proof. solve_decision. Defined.

Definition node_kind (n : ynode) : NodeKind := match n with YNode k _ _ _ => k end.
Definition node_tag (n : ynode) : string := match n with YNode _ t _ _ => t end.
Definition node_value (n : ynode) : string := match n with YNode _ _ v _ => v end.
Definition node_content (n : ynode) : list ynode := match n with YNode _ _ _ c => c end.
Definition is_mapping (n : ynode) : bool := bool_decide (node_kind n = MappingNode).

(** [Content[i+1]] at the end of an odd list: the code panics there.  The
    library builds mappings of an even number of nodes only. *)
Definition missing_value : err := ErrText "runtime error: index out of range".
(** The keys and values of a mapping, as [for i := 0; i < len; i += 2] visits
    them. *)
Fixpoint for_pairs (l : list ynode) (f : string -> ynode -> res err unit) : res err unit :=
  match l with
  | [] => Ok tt
  | [_] => Err missing_value
  | k :: v :: l' => try* _ := f (node_value k) v in for_pairs l' f
  end.

(** ** Decoding *)

(** What a second [Decode] of the same input reports. *)
Inductive Rest := RestEOF | RestError (e : err) | RestDocument.
Definition Decoder (A : Type) : Type := string -> res err A * Rest.

(** Exactly one document of a type. *)
Definition decode_only {A} (context multiple : string) (decode : Decoder A) (raw : string) : res err A :=
  match decode raw with
  | (Err e, _) => Err (ErrWrap context e)
  | (Ok a, RestEOF) => Ok a
  | (Ok _, RestError e) => Err (ErrWrap context e)
  | (Ok _, RestDocument) => Err (ErrText multiple)
  end.

(** [yaml.Unmarshal] into a node. *)
Class YamlNodes := unmarshal_node : string -> res err ynode.

Section Documents.
Context `{!YamlNodes}.

(** The text of a document that is a mapping whose version is an integer. *)
Definition root_mapping (label raw : string) : res err ynode :=
try* node := rwrap (ErrWrap (label +:+ " YAML: ")) (unmarshal_node raw) in
match node_content node with
| [root] => if is_mapping root then Ok root else Err (ErrText (label +:+ " must be a mapping"))
| _ => Err (ErrText (label +:+ " must be a mapping"))
end.
Definition version_is_integer (version_label : string) (root : ynode) : res err unit :=
for_pairs (node_content root) (fun key value =>
rassert (negb (str_eqb key "version" && negb (str_eqb (node_tag value) "!!int"))) (ErrText (version_label +:+ " must be an integer"))).
Definition decode_document {A} (label : string) (decode : Decoder A) (raw : string) : res err A :=
decode_only (label +:+ " YAML: ") (label +:+ " has multiple YAML documents") decode raw.
End Documents.
