(* ===== verification/Ledger.v ===== *)
(** * The event ledger (internal/store/store.go)

    Every run has one ordered log of events.  [AppendEventTx] is its only
    writer; it runs inside the transaction of the change it records.
    [Events] and [LastEvent] read it back. *)

From S2P Require Export Db SeqLog.
Open Scope Z_scope.
Open Scope tx_scope.

Definition json_error : err := ErrText "json: unsupported value".
Definition time_error (text : string) : err := ErrText ("parsing time " +:+ quote text).

(** [store.Event] *)
Record Event := MkEvt {
  e_id : string; e_run_id : string; e_seq : Z; e_recorded_at : string;
  e_world_at : string; e_type : string; e_payload : string }.

(** [store.AppendEventTx] *)
Definition AppendEventTx (runID typ : string) (payload : goval) : DbTx unit :=
  let* data := tsome (marshal payload) json_error in
  let* run := sql_get_row runs runID in
  let* world := sql_get_row worlds (run_world_id run) in
  let* seq := treads (fun s => max_seq runID (events s) + 1) in
  let* '(base, zone) := tsome (parse_rfc3339 (wld_base_at world)) (time_error (wld_base_at world)) in
  let* now := treads wall in
  sql_insert "events" events set_events (runID, seq)
    (MkEvent (runID +:+ "/" +:+ itoa seq) (format_rfc3339nano now)
       (format_rfc3339 (base + seq * second) zone) typ data).

Arguments AppendEventTx : simpl never.

(** [Store.Append] *)
Definition Append (runID typ : string) (payload : goval) : DbIO unit :=
  atomically (AppendEventTx runID typ payload).

Definition event_of (runID : string) (row : Z * EventRow) : Event :=
  MkEvt (evt_id row.2) runID row.1 (evt_recorded_at row.2) (evt_world_at row.2) (evt_type row.2) (evt_payload row.2).

(** [Store.Events] *)
Definition Events (runID : string) (s : DB) : list Event :=
  map (event_of runID) (log_rows runID (events s)).

(** [Store.LastEvent]: [ErrNoRows] is [None]. *)
Definition LastEvent (runID : string) (s : DB) : option Event := last (Events runID s).

(** [Store.StartModelCall] *)
Definition StartModelCall (runID : string) (request : goval) : DbIO unit := Append runID "model.request" request.

(** [appendInterruptionsTx] *)
Definition appendInterruptionsTx (runID : string) (interruptions : list goval) : DbTx unit :=
  tfor interruptions (fun i => AppendEventTx runID "provider.interrupted" i).

Definition update_run (runID : string) (f : RunRow -> RunRow) : DbTx unit := sql_update set_runs runID f.
Definition with_status (st : string) (r : RunRow) : RunRow :=
  MkRun (run_world_id r) (run_scenario r) (run_provider r) (run_model r) (run_task r) st (run_step r)
    (run_transcript r) (run_fault_operation r) (run_fault_consumed r) (run_principal_id r).
Definition with_turn (step : Z) (transcript : string) (r : RunRow) : RunRow :=
  MkRun (run_world_id r) (run_scenario r) (run_provider r) (run_model r) (run_task r) "running" step
    transcript (run_fault_operation r) (run_fault_consumed r) (run_principal_id r).
Definition with_transcript (transcript : string) (r : RunRow) : RunRow :=
  MkRun (run_world_id r) (run_scenario r) (run_provider r) (run_model r) (run_task r) (run_status r) (run_step r)
    transcript (run_fault_operation r) (run_fault_consumed r) (run_principal_id r).
Definition with_fault_consumed (r : RunRow) : RunRow :=
  MkRun (run_world_id r) (run_scenario r) (run_provider r) (run_model r) (run_task r) (run_status r) (run_step r)
    (run_transcript r) (run_fault_operation r) 1 (run_principal_id r).

(** The transaction bodies of [SaveTurn], [FailModelTurn] and [SaveStatus],
    shared with their guarded forms. *)
Definition saveTurnTx (runID : string) (step : Z) (transcript : string) (response : goval)
    (interruptions : list goval) : DbTx unit :=
  appendInterruptionsTx runID interruptions ;;;
  AppendEventTx runID "model.response" response ;;;
  update_run runID (with_turn step transcript).

Definition provider_error (message : string) : goval :=
  VMap [("kind", VString "provider"); ("message", VString message)].

Definition failModelTurnTx (runID : string) (response : goval) (message : string) : DbTx unit :=
  AppendEventTx runID "model.response" response ;;;
  AppendEventTx runID "error" (provider_error message) ;;;
  update_run runID (with_status "failed").

Definition saveStatusTx (runID status typ : string) (payload : goval) : DbTx unit :=
  update_run runID (with_status status) ;;;
  AppendEventTx runID typ payload.

(** [Store.SaveTurn], [Store.FailModelTurn], [Store.SaveStatus] *)
Definition SaveTurn (runID : string) (step : Z) (transcript : string) (response : goval) (interruptions : list goval) : DbIO unit :=
  atomically (saveTurnTx runID step transcript response interruptions).
Definition FailModelTurn (runID : string) (response : goval) (message : string) : DbIO unit :=
  atomically (failModelTurnTx runID response message).
Definition SaveStatus (runID status typ : string) (payload : goval) : DbIO unit :=
  atomically (saveStatusTx runID status typ payload).

(** ** What an append does *)

Lemma sql_get_row_ok {K V} `{Countable K} (get : DB -> gmap K V) k s v s' :
  sql_get_row get k s = Ok (v, s') <-> get s !! k = Some v /\ s' = s.
Proof. unfold sql_get_row. destruct (get s !! k); naive_solver. Qed.
Lemma sql_insert_ok {K V} `{Countable K} name (get : DB -> gmap K V) set k v s u s' :
  sql_insert name get set k v s = Ok (u, s') <-> get s !! k = None /\ s' = set (insert k v) s.
Proof. unfold sql_insert. destruct (get s !! k); destruct u; naive_solver. Qed.
Lemma sql_insert_or_ignore_ok {K V} `{Countable K} (get : DB -> gmap K V) set k v s u s' :
  sql_insert_or_ignore get set k v s = Ok (u, s') <->
  s' = (match get s !! k with Some _ => s | None => set (insert k v) s end).
Proof. unfold sql_insert_or_ignore. destruct (get s !! k); destruct u; naive_solver. Qed.
Lemma sql_update_ok {K V} `{Countable K} (set : (gmap K V -> gmap K V) -> DB -> DB) k f s u s' :
  sql_update set k f s = Ok (u, s') <-> s' = set (alter f k) s.
Proof. unfold sql_update, tmodify. destruct u; naive_solver. Qed.
Lemma sql_get_ok {K V} `{Countable K} (get : DB -> gmap K V) k s v s' :
  sql_get get k s = Ok (v, s') <-> get s !! k = v /\ s' = s.
Proof. unfold sql_get, treads. naive_solver. Qed.

(** [sql_inv] extends [tx_inv] to the statements. *)
Ltac sql_inv_step :=
  match goal with
  | H : sql_get_row _ _ _ = Ok _ |- _ => apply sql_get_row_ok in H as [? ->]
  | H : sql_insert _ _ _ _ _ _ = Ok _ |- _ => apply sql_insert_ok in H as [? ->]
  | H : sql_insert_or_ignore _ _ _ _ _ = Ok _ |- _ => apply sql_insert_or_ignore_ok in H
  | H : sql_update _ _ _ _ = Ok _ |- _ => apply sql_update_ok in H
  | H : sql_get _ _ _ = Ok _ |- _ => apply sql_get_ok in H as [? ->]; try subst
  | H : update_run _ _ _ = Ok _ |- _ => apply sql_update_ok in H
  end.
Ltac sql_inv := repeat (first [sql_inv_step | progress tx_inv]).
Ltac sql_cases := repeat (first [sql_inv_step | progress tx_inv | tx_case_step]); simplify_eq/=.

(** The row [AppendEventTx] writes, when it writes one. *)
Definition event_row (s : DB) (runID typ : string) (payload : goval) : res err EventRow :=
  match marshal payload with
  | None => Err json_error
  | Some data =>
      match runs s !! runID with
      | None => Err ErrNoRows
      | Some run =>
          match worlds s !! run_world_id run with
          | None => Err ErrNoRows
          | Some world =>
              match parse_rfc3339 (wld_base_at world) with
              | None => Err (time_error (wld_base_at world))
              | Some (base, zone) =>
                  let seq := max_seq runID (events s) + 1 in
                  Ok (MkEvent (runID +:+ "/" +:+ itoa seq) (format_rfc3339nano (wall s))
                        (format_rfc3339 (base + seq * second) zone) typ data)
              end
          end
      end
  end.

(** Appending never collides: it fails exactly when the payload has no JSON
    form, the run or its world is missing, or the world's base time does not
    parse, and otherwise adds one row. *)
Lemma AppendEventTx_eq s runID typ payload :
  AppendEventTx runID typ payload s =
  match event_row s runID typ payload with
  | Ok row => Ok (tt, set_events (append_log runID row) s)
  | Err e => Err e
  end.
Proof.
  unfold AppendEventTx, event_row, tbind, tsome, tret, tfail, treads, sql_get_row, sql_insert.
  destruct (marshal payload); [|done]. destruct (runs s !! runID) as [run|]; [|done].
  destruct (worlds s !! run_world_id run) as [world|]; [|done].
  destruct (parse_rfc3339 (wld_base_at world)) as [[base zone]|]; [|done].
  by rewrite append_fresh.
Qed.

Lemma AppendEventTx_ok s runID typ payload u s' :
  AppendEventTx runID typ payload s = Ok (u, s') ->
  exists row, event_row s runID typ payload = Ok row /\ s' = set_events (append_log runID row) s.
Proof. rewrite AppendEventTx_eq. destruct (event_row _ _ _ _) as [row|e]; naive_solver. Qed.

Lemma event_row_fields s runID typ payload row :
  event_row s runID typ payload = Ok row -> evt_type row = typ /\ marshal payload = Some (evt_payload row).
Proof. unfold event_row. repeat case_match; naive_solver. Qed.

(** Appending needs the run, its world and a payload; none of it depends on
    the table of events, so a sequence of appends either all succeed or the
    first fails. *)
Lemma event_row_is_ok s s' runID typ typ' payload :
  runs s' = runs s -> worlds s' = worlds s ->
  is_ok (event_row s runID typ payload) = is_ok (event_row s' runID typ' payload).
Proof.
  intros Hr Hw. unfold event_row. rewrite Hr, Hw.
  destruct (marshal payload); [|done]. destruct (runs s !! runID) as [run|]; [|done].
  destruct (worlds s !! run_world_id run) as [world|]; [|done].
  by destruct (parse_rfc3339 (wld_base_at world)) as [[base zone]|].
Qed.

Lemma Events_append s runID row :
  Events runID (set_events (append_log runID row) s) =
  Events runID s ++ [event_of runID (max_seq runID (events s) + 1, row)].
Proof. unfold Events. db_simpl. by rewrite log_rows_append, map_app. Qed.

Lemma Events_append_other s runID r row :
  runID <> r -> Events r (set_events (append_log runID row) s) = Events r s.
Proof. intros. unfold Events. db_simpl. by rewrite log_rows_append_ne. Qed.

(** ** What the ledger operations change *)

Lemma append_respects (R : DB -> DB -> Prop) runID typ payload :
  (forall s row, R s (set_events (append_log runID row) s)) ->
  respects R (AppendEventTx runID typ payload).
Proof. intros HR s u s' (row & _ & ->)%AppendEventTx_ok. apply HR. Qed.

Lemma update_respects (R : DB -> DB -> Prop) runID f :
  (forall s, R s (set_runs (alter f runID) s)) -> respects R (update_run runID f).
Proof. intros HR s u s' ->%sql_update_ok. apply HR. Qed.

Lemma append_same {X} (f : DB -> X) runID typ payload :
  (forall s g, f (set_events g s) = f s) -> respects (same f) (AppendEventTx runID typ payload).
Proof. intros Hf. apply append_respects. intros s row. unfold same. apply Hf. Qed.
