(* ===== verification/Lease.v ===== *)
(** * Fenced run leases (internal/store/lease.go, ownership.go)

    A run is owned by at most one worker at a time through its row in
    [run_leases].  Every acquisition raises the row's fence; every durable
    write proves inside its own transaction, with [GuardFenceTx], that the
    writer still holds the row.  The error values keep the sentinel of the
    code ([ErrFenced], [ErrLeaseHeld]); their texts are shortened.

    Fences are Go int64; the model keeps them as unbounded integers, so the
    results hold for runs acquired fewer than 2^63 times. *)

From S2P Require Export Timestamp Ledger.
Open Scope Z_scope.
Open Scope tx_scope.

(** [store.RunLease] and [store.Fence] *)
Record RunLease := MkRunLease { lease_run_id : string; lease_owner : string; lease_token : Z; lease_expires_at : time }.
Record Fence := MkFence { fence_run_id : string; fence_owner : string; fence_token : Z }.
(** [RunLease.Fence] *)
Definition FenceOf (l : RunLease) : Fence := MkFence (lease_run_id l) (lease_owner l) (lease_token l).

(** Ownership event kinds. *)
Definition OwnershipAcquired := "lease.acquired".
Definition OwnershipReleased := "lease.released".
Definition OwnershipRenewed := "lease.renewed".
Definition OwnershipFenced := "fence.rejected".
Definition OwnershipFailed := "run.failed".
Definition OwnershipFinished := "run.finished".
Definition OwnershipKinds : list string :=
  [OwnershipAcquired; OwnershipReleased; OwnershipRenewed; OwnershipFenced; OwnershipFailed; OwnershipFinished].

(** [appendOwnershipTx]; [detail] is nil when [None]. *)
Definition appendOwnershipTx (runID kind owner : string) (fence : Z) (now : time) (detail : option goval) : DbTx unit :=
  let* encoded := match detail with
                  | None => tret "{}"
                  | Some d => tsome (marshal d) json_error
                  end in
  let* seq := treads (fun s => max_seq runID (run_ownership_log s) + 1) in
  sql_insert "run_ownership_log" run_ownership_log set_run_ownership_log (runID, seq)
    (MkOwnership (format_rfc3339nano now) kind owner fence encoded).

Arguments appendOwnershipTx : simpl never.

(** [Store.AppendOwnership].  [lockOwnershipLog] only orders concurrent
    PostgreSQL transactions and reads nothing. *)
Definition AppendOwnership (runID kind owner : string) (fence : Z) (now : time) (detail : option goval) : DbIO unit :=
  atomically (appendOwnershipTx runID kind owner fence now detail).

(** [Store.RecordFenceRejection] *)
Definition RecordFenceRejection (f : Fence) (now : time) (reason : string) : DbIO unit :=
  AppendOwnership (fence_run_id f) OwnershipFenced (fence_owner f) (fence_token f) now
    (Some (VMap [("reason", VString reason)])).

(** [store.OwnershipEvent] and [Store.Ownership] *)
Record OwnershipEvent := MkOwnershipEvent { oe_run_id : string; oe_seq : Z; oe_row : OwnershipRow }.
Definition Ownership (runID : string) (s : DB) : list OwnershipEvent :=
  map (fun row => MkOwnershipEvent runID row.1 row.2) (log_rows runID (run_ownership_log s)).

(** ** Acquire *)

Definition lease_expiry_error (runID : string) : err := ErrText ("lease expiry for " +:+ runID).

Definition acquired_detail (next : RunLease) (currentOwner : string) (takeover : bool) : goval :=
  VMap [("expires_at", VString (format_rfc3339nano (lease_expires_at next)));
        ("previous_owner", VString currentOwner);
        ("takeover", VBool (takeover || (negb (str_eqb currentOwner "") && negb (str_eqb currentOwner (lease_owner next)))))].

Arguments acquired_detail : simpl never.

(** The row a run that was never leased is given first, so that two claimers
    have a row to queue on. *)
Definition placeholder_row : LeaseRow :=
  let never := CoordinationTime 0 in MkLease "" 0 0 never never never.

(** A live lease of someone else. *)
Definition held_by_other (row : LeaseRow) (owner : string) (expires now : time) : bool :=
  negb (str_eqb (ls_owner row) "") && negb (str_eqb (ls_owner row) owner) && after expires now.

(** [acquireRunLeaseTx] *)
Definition acquireRunLeaseTx (runID owner : string) (ttl : duration) (now : time) (takeover : bool) : DbTx RunLease :=
  tassert (negb (str_eqb runID "" || str_eqb owner "")) (ErrText "run ID and owner are required") ;;;
  tassert (negb (ttl <? second)) (ErrText "lease ttl must be at least one second") ;;;
  let* found := sql_get run_leases runID in
  let* row := match found with
              | Some row => tret row
              | None =>
                  let* run := sql_get runs runID in
                  tassert (bool_decide (is_Some run)) (ErrText ("run " +:+ runID +:+ " does not exist")) ;;;
                  sql_insert_or_ignore run_leases set_run_leases runID placeholder_row ;;;
                  sql_get_row run_leases runID
              end in
  let* '(expires, _) := tsome (parse_rfc3339 (ls_expires_at row)) (lease_expiry_error runID) in
  if held_by_other row owner expires now
  then tfail (ErrLeaseHeld runID (ls_owner row))
  else
    let next := MkRunLease runID owner (ls_fence row + 1) (now + ttl) in
    tmodify (set_run_leases (insert runID
      (MkLease owner (lease_token next) (ls_committed_fence row) (CoordinationTime (lease_expires_at next))
         (CoordinationTime now) (CoordinationTime now)))) ;;;
    appendOwnershipTx runID OwnershipAcquired owner (lease_token next) now
      (Some (acquired_detail next (ls_owner row) takeover)) ;;;
    tret next.

Arguments acquireRunLeaseTx : simpl never.

(** [Store.AcquireRunLease] *)
Definition AcquireRunLease (runID owner : string) (ttl : duration) (now : time) : DbIO RunLease :=
  atomically (acquireRunLeaseTx runID owner ttl now false).

(** ** Renew, release *)

Definition lease_matches (l : RunLease) (row : LeaseRow) : bool :=
  str_eqb (ls_owner row) (lease_owner l) && (ls_fence row =? lease_token l).

Definition with_expiry (expires heartbeat : string) (row : LeaseRow) : LeaseRow :=
  MkLease (ls_owner row) (ls_fence row) (ls_committed_fence row) expires (ls_acquired_at row) heartbeat.
Definition with_release (at_ : string) (row : LeaseRow) : LeaseRow :=
  MkLease "" (ls_fence row) (ls_committed_fence row) at_ (ls_acquired_at row) at_.
Definition with_committed (token : Z) (row : LeaseRow) : LeaseRow :=
  MkLease (ls_owner row) (ls_fence row) token (ls_expires_at row) (ls_acquired_at row) (ls_heartbeat_at row).

(** [UPDATE run_leases SET ... WHERE run_id=? AND <cond>], with
    [RowsAffected() == 1]. *)
Definition update_lease_where (runID : string) (cond : LeaseRow -> bool) (f : LeaseRow -> LeaseRow) : DbTx bool :=
  fun s => match run_leases s !! runID with
           | Some row => if cond row then Ok (true, set_run_leases (insert runID (f row)) s) else Ok (false, s)
           | None => Ok (false, s)
           end.

(** [Store.RenewRunLease]: one statement, so its own transaction. *)
Definition RenewRunLease (l : RunLease) (ttl : duration) (now : time) : DbIO RunLease :=
  atomically (
    tassert (negb (ttl <? second)) (ErrText "lease ttl must be at least one second") ;;;
    let* affected := update_lease_where (lease_run_id l)
      (fun row => lease_matches l row && str_ltb (CoordinationTime now) (ls_expires_at row))
      (with_expiry (CoordinationTime (now + ttl)) (CoordinationTime now)) in
    tassert affected (ErrFenced ("renew rejected for run " +:+ lease_run_id l)) ;;;
    tret (MkRunLease (lease_run_id l) (lease_owner l) (lease_token l) (now + ttl))).

(** [Store.ReleaseRunLease] *)
Definition ReleaseRunLease (l : RunLease) (now : time) : DbIO unit :=
  atomically (
    let* affected := update_lease_where (lease_run_id l) (lease_matches l) (with_release (CoordinationTime now)) in
    tassert affected (ErrFenced ("release rejected for run " +:+ lease_run_id l)) ;;;
    appendOwnershipTx (lease_run_id l) OwnershipReleased (lease_owner l) (lease_token l) now None).

(** [Store.RunLease] *)
Definition RunLeaseOf (runID : string) : DbTx RunLease :=
  let* row := sql_get_row run_leases runID in
  let* '(expires, _) := tsome (parse_rfc3339 (ls_expires_at row)) (lease_expiry_error runID) in
  tret (MkRunLease runID (ls_owner row) (ls_fence row) expires).

(** ** The guard *)

(** [GuardFenceTx] *)
Definition GuardFenceTx (f : Fence) (now : time) : DbTx unit :=
  let runID := fence_run_id f in
  tassert (negb (str_eqb runID "" || str_eqb (fence_owner f) "")) (ErrText "fence requires a run ID and owner") ;;;
  let* found := sql_get run_leases runID in
  let* row := tsome found (ErrFenced ("run " +:+ runID +:+ " has no lease")) in
  tassert (negb (fence_token f <? ls_committed_fence row)) (ErrFenced ("fence for run " +:+ runID +:+ " was superseded")) ;;;
  tassert (str_eqb (ls_owner row) (fence_owner f) && (ls_fence row =? fence_token f))
    (ErrFenced ("run " +:+ runID +:+ " is now held by another owner or fence")) ;;;
  let* '(expires, _) := tsome (parse_rfc3339 (ls_expires_at row)) (lease_expiry_error runID) in
  tassert (after expires now) (ErrFenced ("lease on run " +:+ runID +:+ " expired")) ;;;
  if ls_committed_fence row =? fence_token f then tret tt
  else sql_update set_run_leases runID (with_committed (fence_token f)).

Arguments GuardFenceTx : simpl never.

(** [Store.withGuardedTx] and [Store.GuardFence] *)
Definition withGuardedTx (f : Fence) (now : time) (body : DbTx unit) : DbIO unit :=
  atomically (GuardFenceTx f now ;;; body).
Definition GuardFence (f : Fence) (now : time) : DbIO unit := withGuardedTx f now (tret tt).

(** ** Guarded writes (internal/store/guarded.go) *)

(** [store.Clock]: nil is [time.Now], and a test's clock is a function of it. *)
Definition Clock := option (time -> time).
Definition Clock_Now (c : Clock) (s : DB) : time := match c with Some f => f (wall s) | None => wall s end.

(** [Store.guarded]; a nil fence checks nothing. *)
Definition guarded (fence : option Fence) (clock : Clock) (body : DbTx unit) : DbIO unit :=
  atomically (
    match fence with
    | Some f => let* now := treads (Clock_Now clock) in GuardFenceTx f now ;;; body
    | None => body
    end).

Definition AppendGuarded (fence : option Fence) (clock : Clock) (runID typ : string) (payload : goval) : DbIO unit :=
  guarded fence clock (AppendEventTx runID typ payload).
Definition SaveTurnGuarded (fence : option Fence) (clock : Clock) (runID : string) (step : Z) (transcript : string)
    (response : goval) (interruptions : list goval) : DbIO unit :=
  guarded fence clock (saveTurnTx runID step transcript response interruptions).
Definition FailModelTurnGuarded (fence : option Fence) (clock : Clock) (runID : string)
    (response : goval) (interruptions : list goval) (message : string) : DbIO unit :=
  guarded fence clock (appendInterruptionsTx runID interruptions ;;; failModelTurnTx runID response message).
Definition SaveStatusGuarded (fence : option Fence) (clock : Clock) (runID status typ : string) (payload : goval) : DbIO unit :=
  guarded fence clock (saveStatusTx runID status typ payload).

(** * Properties of leases *)

(** ** Well-formed rows *)

(** A stored time is the text of an instant the layout can write. *)
Definition stored_time (text : string) : Prop := exists t, text = CoordinationTime t /\ valid_time t.

(** The high-water mark never passes the fence, and every time parses. *)
Definition lease_wf (row : LeaseRow) : Prop :=
  0 <= ls_committed_fence row <= ls_fence row /\
  stored_time (ls_expires_at row) /\ stored_time (ls_acquired_at row) /\ stored_time (ls_heartbeat_at row).
Definition leases_ok (s : DB) : Prop := forall r row, run_leases s !! r = Some row -> lease_wf row.

(** The fence of a run: 0 when it was never leased. *)
Definition fence_of (s : DB) (r : string) : Z := match run_leases s !! r with Some row => ls_fence row | None => 0 end.
Definition committed_of (s : DB) (r : string) : Z :=
  match run_leases s !! r with Some row => ls_committed_fence row | None => 0 end.
(** [owner] holds a lease on [r] that is live at [now]. *)
Definition live_lease (s : DB) (r owner : string) (now : time) : Prop :=
  exists row e, run_leases s !! r = Some row /\ ls_owner row = owner /\
                ls_expires_at row = CoordinationTime e /\ valid_time e /\ now < e.

Lemma stored_time_enc t : valid_time t -> stored_time (CoordinationTime t).
Proof. intros. by exists t. Qed.
#[export] Hint Resolve stored_time_enc : tx.

Lemma valid_time_0 : valid_time 0.
Proof. by vm_compute. Qed.
#[export] Hint Resolve valid_time_0 : tx.

Lemma stored_time_parse text : stored_time text -> exists e, parse_rfc3339 text = Some (e, 0) /\ text = CoordinationTime e /\ valid_time e.
Proof. intros (e & -> & He). exists e. by rewrite time_text_decode. Qed.

(** ** The ownership log *)

Lemma appendOwnershipTx_ok r kind owner fence now detail s u s' :
  appendOwnershipTx r kind owner fence now detail s = Ok (u, s') ->
  exists row, own_kind row = kind /\ own_owner row = owner /\ own_fence row = fence /\
              s' = set_run_ownership_log (append_log r row) s.
Proof.
  unfold appendOwnershipTx. intros H. destruct detail as [d|]; sql_inv; by eexists (MkOwnership _ _ _ _ _).
Qed.

Lemma appendOwnershipTx_eq r kind owner fence now detail s :
  appendOwnershipTx r kind owner fence now detail s =
  match (match detail with None => Some "{}" | Some d => marshal d end) with
  | Some text => Ok (tt, set_run_ownership_log (append_log r (MkOwnership (format_rfc3339nano now) kind owner fence text)) s)
  | None => Err json_error
  end.
Proof.
  unfold appendOwnershipTx, tbind, treads, sql_insert. destruct detail as [d|]; cbn.
  - unfold tsome. destruct (marshal d); cbn; [|done]. by rewrite append_fresh.
  - by rewrite append_fresh.
Qed.

Lemma own_respects (R : DB -> DB -> Prop) r kind owner fence now detail :
  (forall s row, R s (set_run_ownership_log (append_log r row) s)) ->
  respects R (appendOwnershipTx r kind owner fence now detail).
Proof. intros HR s u s' (row & _ & _ & _ & ->)%appendOwnershipTx_ok. apply HR. Qed.

(** ** The guard *)

Lemma with_committed_id row : with_committed (ls_committed_fence row) row = row.
Proof. by destruct row. Qed.

Lemma set_run_leases_ext f g s : f (run_leases s) = g (run_leases s) -> set_run_leases f s = set_run_leases g s.
Proof. unfold set_run_leases. by intros ->. Qed.
Lemma set_run_leases_id f s : f (run_leases s) = run_leases s -> set_run_leases f s = s.
Proof. unfold set_run_leases. intros ->. by destruct s. Qed.

(** The guard passes exactly for the holder of an unexpired lease whose fence
    is the row's, and then records the fence as committed. *)
Lemma guard_ok_iff f now s u s' :
  leases_ok s -> valid_time now ->
  GuardFenceTx f now s = Ok (u, s') <->
  fence_run_id f <> "" /\ fence_owner f <> "" /\
  exists row e, run_leases s !! fence_run_id f = Some row /\ ls_owner row = fence_owner f /\
    ls_fence row = fence_token f /\ ls_expires_at row = CoordinationTime e /\ valid_time e /\ now < e /\
    s' = set_run_leases (insert (fence_run_id f) (with_committed (fence_token f) row)) s.
Proof.
  intros Hok Hnow. unfold GuardFenceTx. split.
  - intros H. sql_inv. rename select (run_leases _ !! _ = Some _) into Hl.
    destruct (Hok _ _ Hl) as (Hc & (e & He & Hve) & _ & _).
    rewrite He, time_text_decode in * by done. simplify_eq/=.
    bool_inv. split; [done|]. split; [done|]. exists a0, z.
    rename select (after z now = true) into Ha. apply Z.ltb_lt in Ha.
    repeat (split; [done|]).
    destruct (Z.eqb_spec (ls_committed_fence a0) (fence_token f)) as [Heq|Hne]; sql_inv.
    + symmetry. apply set_run_leases_id. rewrite <- Heq, with_committed_id. by apply insert_id.
    + subst. apply set_run_leases_ext. apply map_eq. intros k.
      rewrite lookup_alter, lookup_insert. case_decide; subst; [|done]. by rewrite Hl.
  - intros (H1 & H2 & row & e & Hl & Ho & Hf & He & Hve & Hlt & ->).
    destruct (Hok _ _ Hl) as (Hc & _).
    unfold tbind, sql_get, treads.
    apply str_eqb_false in H1, H2. rewrite H1, H2. cbn. rewrite Hl. cbn.
    assert (fence_token f <? ls_committed_fence row = false) as -> by (apply Z.ltb_ge; lia). cbn.
    rewrite Ho, Hf, str_eqb_refl, Z.eqb_refl. cbn.
    rewrite He, time_text_decode by done. cbn.
    unfold after. assert (now <? e = true) as -> by (by apply Z.ltb_lt). cbn.
    destruct u. destruct (Z.eqb_spec (ls_committed_fence row) (fence_token f)) as [Heq|Hne].
    + unfold tret. f_equal. f_equal. symmetry. apply set_run_leases_id.
      rewrite <- Heq, with_committed_id. by apply insert_id.
    + unfold sql_update, tmodify. f_equal. f_equal. apply set_run_leases_ext, map_eq. intros k.
      rewrite lookup_alter, lookup_insert. case_decide; subst; [|done]. by rewrite Hl.
Qed.

(** A guard that fails on a named run and owner fails as fenced out. *)
Lemma guard_err_fenced f now s e :
  leases_ok s -> fence_run_id f <> "" -> fence_owner f <> "" ->
  GuardFenceTx f now s = Err e -> is_fenced e = true.
Proof.
  intros Hok H1 H2. unfold GuardFenceTx, tbind, sql_get, treads.
  apply str_eqb_false in H1, H2. rewrite H1, H2. cbn.
  destruct (run_leases s !! fence_run_id f) as [row|] eqn:Hl; cbn; [|by intros [= <-]].
  destruct (_ <? _); cbn; [by intros [= <-]|].
  destruct (_ && _); cbn; [|by intros [= <-]].
  destruct (Hok _ _ Hl) as (_ & Hst & _). destruct (stored_time_parse _ Hst) as (ex & -> & _). cbn.
  destruct (after ex now); cbn; [|by intros [= <-]].
  destruct (_ =? _); done.
Qed.

(** ** Acquisition *)

(** The lease row and the database an acquisition leaves. *)
Definition acquired_row (s : DB) (r owner : string) (ttl : duration) (now : time) : LeaseRow :=
  MkLease owner (fence_of s r + 1) (committed_of s r) (CoordinationTime (now + ttl)) (CoordinationTime now) (CoordinationTime now).
Definition acquired_db (s : DB) (r owner : string) (ttl : duration) (now : time) (orow : OwnershipRow) : DB :=
  set_run_ownership_log (append_log r orow) (set_run_leases (insert r (acquired_row s r owner ttl now)) s).

Lemma set_run_leases_twice r a b s :
  set_run_leases (insert r a) (set_run_leases (insert r b) s) = set_run_leases (insert r a) s.
Proof. unfold set_run_leases. cbn. by rewrite insert_insert_eq. Qed.

Lemma marshal_acquired_detail next o tk : is_Some (marshal (acquired_detail next o tk)).
Proof. eexists. reflexivity. Qed.

(** The row an acquisition reads: the run's own, or the placeholder. *)
Definition current_row (s : DB) (r : string) : LeaseRow := default placeholder_row (run_leases s !! r).

Lemma fence_of_current s r : fence_of s r = ls_fence (current_row s r).
Proof. unfold fence_of, current_row. by destruct (run_leases s !! r). Qed.
Lemma committed_of_current s r : committed_of s r = ls_committed_fence (current_row s r).
Proof. unfold committed_of, current_row. by destruct (run_leases s !! r). Qed.

Lemma placeholder_wf : lease_wf placeholder_row.
Proof. split; [cbn; lia|]. split_and!; apply stored_time_enc, valid_time_0. Qed.
Lemma current_row_wf s r : leases_ok s -> lease_wf (current_row s r).
Proof.
  intros Hok. unfold current_row. destruct (run_leases s !! r) as [row|] eqn:Hl; [by eapply Hok|].
  apply placeholder_wf.
Qed.

Definition acquire_args_ok (r owner : string) (ttl : duration) : Prop := r <> "" /\ owner <> "" /\ second <= ttl.

(** Acquisition on every branch, for arguments the store accepts. *)
Lemma acquire_eq r owner ttl now tk s :
  leases_ok s -> acquire_args_ok r owner ttl ->
  exists expires, parse_rfc3339 (ls_expires_at (current_row s r)) = Some (expires, 0) /\
  match run_leases s !! r, runs s !! r with
  | None, None => acquireRunLeaseTx r owner ttl now tk s = Err (ErrText ("run " +:+ r +:+ " does not exist"))
  | _, _ =>
      if held_by_other (current_row s r) owner expires now
      then acquireRunLeaseTx r owner ttl now tk s = Err (ErrLeaseHeld r (ls_owner (current_row s r)))
      else exists orow, own_kind orow = OwnershipAcquired /\ own_owner orow = owner /\ own_fence orow = fence_of s r + 1 /\
           acquireRunLeaseTx r owner ttl now tk s =
           Ok (MkRunLease r owner (fence_of s r + 1) (now + ttl), acquired_db s r owner ttl now orow)
  end.
Proof.
  intros Hok (Hr & Ho & Ht).
  destruct (current_row_wf s r Hok) as (_ & Hst & _).
  destruct (stored_time_parse _ Hst) as (expires & Hparse & _ & _).
  exists expires. split; [done|].
  unfold acquireRunLeaseTx.
  apply str_eqb_false in Hr, Ho. apply Z.ltb_ge in Ht. rewrite Hr, Ho, Ht. cbn [negb orb].
  unfold tassert at 1 2. unfold tbind at 1 2. cbn [tret].
  unfold acquired_db, acquired_row. rewrite fence_of_current, committed_of_current.
  unfold current_row, tbind, sql_get, treads, sql_get_row, sql_insert_or_ignore, tassert in *.
  destruct (run_leases s !! r) as [row|] eqn:Hl; cbn in *.
  - rewrite Hl. cbn. rewrite Hparse. cbn. destruct (held_by_other _ _ _ _); cbn; [done|].
    rewrite appendOwnershipTx_eq. destruct (marshal_acquired_detail (MkRunLease r owner (ls_fence row + 1) (now + ttl)) (ls_owner row) tk) as [text ->].
    by eexists (MkOwnership _ _ _ _ _).
  - rewrite Hl. destruct (runs s !! r) as [run|]; cbn; [|done].
    rewrite Hl. cbn. db_simpl. rewrite lookup_insert_eq. cbn.
    rewrite time_text_decode by apply valid_time_0. cbn.
    assert (forall e, held_by_other placeholder_row owner e now = false) as Hph by done. rewrite !Hph.
    rewrite appendOwnershipTx_eq. destruct (marshal_acquired_detail (MkRunLease r owner (0 + 1) (now + ttl)) "" tk) as [text ->].
    cbn. rewrite set_run_leases_twice. by eexists (MkOwnership _ _ _ _ _).
Qed.

(** What an acquisition did, when it succeeded. *)
Lemma acquire_ok r owner ttl now tk s l s' :
  leases_ok s -> acquireRunLeaseTx r owner ttl now tk s = Ok (l, s') ->
  acquire_args_ok r owner ttl /\ l = MkRunLease r owner (fence_of s r + 1) (now + ttl) /\
  exists orow, own_kind orow = OwnershipAcquired /\ own_owner orow = owner /\ own_fence orow = fence_of s r + 1 /\
               s' = acquired_db s r owner ttl now orow.
Proof.
  intros Hok H. assert (acquire_args_ok r owner ttl) as Hargs.
  { unfold acquireRunLeaseTx in H. tx_inv. bool_inv. done. }
  split; [done|]. destruct (acquire_eq r owner ttl now tk s Hok Hargs) as (expires & _ & Heq).
  destruct (run_leases s !! r), (runs s !! r); try (rewrite H in Heq; discriminate);
    (destruct (held_by_other _ _ _ _); [rewrite H in Heq; discriminate|]);
    destruct Heq as (orow & ? & ? & ? & Heq); rewrite H in Heq; simplify_eq; eauto 10.
Qed.

(** ** Frames and invariants of the lease operations *)

(** Fences only go up. *)
Definition fences_mono (s s' : DB) : Prop := forall r, fence_of s r <= fence_of s' r.
#[export] Instance fences_mono_preorder : PreOrder fences_mono.
Proof.
  split; unfold fences_mono; [intros s r; lia|]. intros s1 s2 s3 H1 H2 r.
  specialize (H1 r). specialize (H2 r). lia.
Qed.

(** One relation for every operation on leases: rows stay well formed and
    fences only go up. *)
Definition lease_evolves (s s' : DB) : Prop := (leases_ok s -> leases_ok s') /\ (leases_ok s -> fences_mono s s').
#[export] Instance lease_evolves_preorder : PreOrder lease_evolves.
Proof.
  split; unfold lease_evolves.
  - intros s. split; [done|]. by intros _.
  - intros s1 s2 s3 [H1 H2] [H3 H4]. split; [auto|]. intros Hok. etransitivity; eauto.
Qed.

Lemma same_leases_evolves s s' : run_leases s' = run_leases s -> lease_evolves s s'.
Proof.
  intros Heq. split.
  - intros Hok r row. rewrite Heq. apply Hok.
  - intros _ r. unfold fence_of. rewrite Heq. lia.
Qed.

Lemma evolves_insert s r row :
  (leases_ok s -> lease_wf row /\ fence_of s r <= ls_fence row) -> lease_evolves s (set_run_leases (insert r row) s).
Proof.
  intros Hrow. split.
  - intros Hok r' row'. db_simpl. rewrite lookup_insert. case_decide; [|apply Hok].
    intros [= <-]. by apply Hrow.
  - intros Hok r'. unfold fence_of. db_simpl. rewrite lookup_insert. case_decide; [subst|lia].
    apply Hrow; done.
Qed.

Lemma frame_evolves {A} (m : DbTx A) : respects (same run_leases) m -> respects lease_evolves m.
Proof. intros Hm s a s' H%Hm. by apply same_leases_evolves. Qed.

Lemma append_leases runID typ payload : respects (same run_leases) (AppendEventTx runID typ payload).
Proof. by apply append_same. Qed.
Lemma update_leases runID f : respects (same run_leases) (update_run runID f).
Proof. by apply update_respects. Qed.
Lemma own_leases r kind owner fence now detail :
  respects (same run_leases) (appendOwnershipTx r kind owner fence now detail).
Proof. by apply own_respects. Qed.
#[export] Hint Resolve append_leases update_leases own_leases : tx.

Lemma append_evolves runID typ payload : respects lease_evolves (AppendEventTx runID typ payload).
Proof. apply frame_evolves. auto with tx. Qed.
Lemma update_evolves runID f : respects lease_evolves (update_run runID f).
Proof. apply frame_evolves. auto with tx. Qed.
Lemma own_evolves r kind owner fence now detail : respects lease_evolves (appendOwnershipTx r kind owner fence now detail).
Proof. apply frame_evolves. auto with tx. Qed.
#[export] Hint Resolve append_evolves update_evolves own_evolves : tx.

Lemma saveTurnTx_evolves runID step transcript response ints :
  respects lease_evolves (saveTurnTx runID step transcript response ints).
Proof. unfold saveTurnTx, appendInterruptionsTx. respects_tac. Qed.
Lemma failModelTurnTx_evolves runID response message : respects lease_evolves (failModelTurnTx runID response message).
Proof. unfold failModelTurnTx. respects_tac. Qed.
Lemma saveStatusTx_evolves runID status typ payload : respects lease_evolves (saveStatusTx runID status typ payload).
Proof. unfold saveStatusTx. respects_tac. Qed.
#[export] Hint Resolve saveTurnTx_evolves failModelTurnTx_evolves saveStatusTx_evolves : tx.

Lemma acquire_evolves r owner ttl now tk :
  valid_time now -> valid_time (now + ttl) -> respects lease_evolves (acquireRunLeaseTx r owner ttl now tk).
Proof.
  intros Hn Hnt s l s' H. split.
  - intros Hok. destruct (acquire_ok _ _ _ _ _ _ _ _ Hok H) as (_ & _ & orow & _ & _ & _ & ->).
    unfold acquired_db. intros r' row. db_simpl. rewrite lookup_insert. case_decide; [|apply Hok].
    intros [= <-]. destruct (current_row_wf s r Hok) as (Hc & _). unfold acquired_row, lease_wf. cbn.
    rewrite fence_of_current, committed_of_current. split; [lia|]. split_and!; by apply stored_time_enc.
  - intros Hok. destruct (acquire_ok _ _ _ _ _ _ _ _ Hok H) as (_ & _ & orow & _ & _ & _ & ->).
    intros r'. unfold acquired_db, fence_of. db_simpl. rewrite lookup_insert. case_decide; [subst|lia].
    unfold acquired_row, fence_of. cbn. lia.
Qed.

Lemma update_lease_evolves r cond f :
  (forall row, lease_wf row -> lease_wf (f row) /\ ls_fence (f row) = ls_fence row) ->
  respects lease_evolves (update_lease_where r cond f).
Proof.
  intros Hf s b s'. unfold update_lease_where.
  destruct (run_leases s !! r) as [row|] eqn:Hl; [|intros [= <- <-]; reflexivity].
  destruct (cond row); [|intros [= <- <-]; reflexivity]. intros [= <- <-].
  apply evolves_insert. intros Hok. destruct (Hf row) as [Hwf Hfe]; [by eapply Hok|].
  split; [done|]. unfold fence_of. rewrite Hl, Hfe. lia.
Qed.

Lemma renew_evolves l ttl now s r s' :
  valid_time now -> valid_time (now + ttl) -> RenewRunLease l ttl now s = (r, s') -> lease_evolves s s'.
Proof.
  intros Hn Hnt. unfold RenewRunLease. apply atomically_respects; [apply _|].
  respects_tac. apply update_lease_evolves. intros row (Hc & _ & Ha & _).
  unfold lease_wf. cbn. split_and!; try lia; eauto with tx.
Qed.

Lemma release_evolves l now s r s' :
  valid_time now -> ReleaseRunLease l now s = (r, s') -> lease_evolves s s'.
Proof.
  intros Hn. unfold ReleaseRunLease. apply atomically_respects; [apply _|].
  respects_tac. apply update_lease_evolves. intros row (Hc & _ & Ha & _).
  unfold lease_wf. cbn. split_and!; try lia; eauto with tx.
Qed.

Lemma guard_evolves f now : valid_time now -> respects lease_evolves (GuardFenceTx f now).
Proof.
  intros Hn s u s' H. split.
  - intros Hok. apply guard_ok_iff in H as (_ & _ & row & e & Hl & _ & Hf & _ & _ & _ & ->); [|done|done].
    apply evolves_insert; [|done]. intros _. destruct (Hok _ _ Hl) as (Hc & ? & ? & ?).
    unfold lease_wf, fence_of. cbn. rewrite Hl. split_and!; eauto; lia.
  - intros Hok. apply guard_ok_iff in H as (_ & _ & row & e & Hl & _ & Hf & _ & _ & _ & ->); [|done|done].
    apply evolves_insert; [|done]. intros _. destruct (Hok _ _ Hl) as (Hc & ? & ? & ?).
    unfold lease_wf, fence_of. cbn. rewrite Hl. split_and!; eauto; lia.
Qed.
