(* ===== verification/Queue.v ===== *)
(** * The work queue (internal/store/queue.go)

    Workers claim runs from [work_queue] under a fenced lease.  The condition
    under which a row is claimable is one definition, [claimableWhere], used
    by the claim and by the metrics query, as in the code.  Every statement of
    a completion runs after [GuardFenceTx] in one transaction. *)

From S2P Require Export Lease.
Open Scope Z_scope.
Open Scope tx_scope.

Definition QueueRunnable := "runnable".
Definition QueueLeased := "leased".
Definition QueueFinished := "finished".
Definition QueueFailed := "failed".

(** [store.QueueEntry] *)
Record QueueEntry := MkEntry {
  en_run_id : string; en_state : string; en_max_steps : Z; en_attempts : Z;
  en_enqueued_at : string; en_available_at : string; en_last_error : string; en_takeover : bool }.

Definition with_claim (row : QueueRow) : QueueRow :=
  MkQueue QueueLeased (q_max_steps row) (q_attempts row + 1) (q_enqueued_at row) (q_available_at row) (q_last_error row).
Definition with_completion (state available reason : string) (row : QueueRow) : QueueRow :=
  MkQueue state (q_max_steps row) (q_attempts row) (q_enqueued_at row) available reason.
Definition with_attempt_back (row : QueueRow) : QueueRow :=
  MkQueue (q_state row) (q_max_steps row) (if 0 <? q_attempts row then q_attempts row - 1 else 0)
    (q_enqueued_at row) (q_available_at row) (q_last_error row).

(** [Store.Enqueue]; the upsert keeps the first [enqueued_at]. *)
Definition Enqueue (runID : string) (maxSteps : Z) (now : time) : DbIO unit :=
  atomically (
    tassert (negb (maxSteps <? 1)) (ErrText "maxSteps must be positive") ;;;
    let* run := sql_get runs runID in
    tassert (bool_decide (is_Some run)) (ErrText ("run " +:+ runID +:+ " does not exist")) ;;;
    let stamp := CoordinationTime now in
    tmodify (set_work_queue (fun m =>
      match m !! runID with
      | Some row => <[runID := MkQueue QueueRunnable maxSteps 0 (q_enqueued_at row) stamp ""]> m
      | None => <[runID := MkQueue QueueRunnable maxSteps 0 stamp stamp ""]> m
      end))).

(** ** Claimable rows *)

(** [claimableWhere] over a queue row and its lease, for a claimant at [stamp]. *)
Definition claimableWhere (q : QueueRow) (l : option LeaseRow) (stamp owner : string) : bool :=
  str_leb (q_available_at q) stamp
  && (str_eqb (q_state q) QueueRunnable
      || str_eqb (q_state q) QueueLeased
         && match l with None => true | Some l => str_leb (ls_expires_at l) stamp end)
  && match l with
     | None => true
     | Some l => str_eqb (ls_owner l) "" || str_eqb (ls_owner l) owner || str_leb (ls_expires_at l) stamp
     end.

(** The lease was someone's and has run out. *)
Definition displaced (l : option LeaseRow) (stamp : string) : bool :=
  match l with
  | None => false
  | Some l => negb (str_eqb (ls_owner l) "") && str_leb (ls_expires_at l) stamp
  end.

Definition candidates (s : DB) (stamp owner : string) (skip : list string) : list (string * QueueRow) :=
  filter (fun kv => claimableWhere kv.2 (run_leases s !! kv.1) stamp owner && negb (contains skip kv.1) = true)
    (map_to_list (work_queue s)).

(** [ORDER BY q.enqueued_at, q.run_id] *)
Definition queue_le : relation (string * QueueRow) := lex_le (fun x => q_enqueued_at x.2) fst.

Definition oldest_candidate (s : DB) (stamp owner : string) (skip : list string) : option (string * QueueRow) :=
  head (sort_on2 (fun x => q_enqueued_at x.2) fst (candidates s stamp owner skip)).

(** [Store.OldestClaimableSince] *)
Definition claimable_since (q : QueueRow) (l : option LeaseRow) : string :=
  match l with
  | Some l => if negb (str_eqb (ls_owner l) "") && str_ltb (q_available_at q) (ls_expires_at l)
              then ls_expires_at l else q_available_at q
  | None => q_available_at q
  end.
Definition OldestClaimableSince (now : time) (s : DB) : option string :=
  head (sort_strings (map (fun kv => claimable_since kv.2 (run_leases s !! kv.1))
                        (candidates s (CoordinationTime now) "" []))).

(** ** Claiming *)

Definition touch_worker (id stamp : string) (claims : Z) : DbTx unit :=
  sql_update set_workers id (fun w => MkWorker (wk_host w) (wk_started_at w) stamp (wk_claims w + claims)).

(** [Store.claimOnce].  [ErrLeaseHeld] carries the run the caller skips. *)
Definition claimOnce (owner : string) (ttl : duration) (now : time) (skip : list string) : DbTx (RunLease * QueueEntry) :=
  let stamp := CoordinationTime now in
  let* found := treads (fun s => oldest_candidate s stamp owner skip) in
  let* '(runID, row) := tsome found ErrNoWork in
  let* l := sql_get run_leases runID in
  let takeover := displaced l stamp in
  let* lease := acquireRunLeaseTx runID owner ttl now takeover in
  sql_update set_work_queue runID with_claim ;;;
  touch_worker owner stamp 1 ;;;
  tret (lease, MkEntry runID QueueLeased (q_max_steps row) (q_attempts row + 1)
                 (q_enqueued_at row) (q_available_at row) "" takeover).

Definition maxClaimAttempts : nat := 8.

Fixpoint claim_loop (n : nat) (owner : string) (ttl : duration) (now : time) (skip : list string) : DbIO (RunLease * QueueEntry) :=
  match n with
  | O => iofail ErrNoWork
  | S n' =>
      iotry (atomically (claimOnce owner ttl now skip)) (fun r =>
        match r with
        | Err (ErrLeaseHeld runID _) => claim_loop n' owner ttl now (skip ++ [runID])
        | r => iolift r
        end)
  end.

(** [Store.ClaimRun] *)
Definition ClaimRun (owner : string) (ttl : duration) (now : time) : DbIO (RunLease * QueueEntry) :=
  if str_eqb owner "" then iofail (ErrText "worker owner is required")
  else claim_loop maxClaimAttempts owner ttl now [].

(** ** Ending a claim *)

(** [completeQueueEntryTx]; a zero [availableAt] means [now]. *)
Definition completion_detail (state reason : string) : goval :=
  VMap (("state", VString state) :: (if str_eqb reason "" then [] else [("reason", VString reason)])).
Definition completeQueueEntryTx (l : RunLease) (now : time) (state kind reason : string) (availableAt : time) : DbTx unit :=
  let availableAt := if is_zero availableAt then now else availableAt in
  sql_update set_work_queue (lease_run_id l) (with_completion state (CoordinationTime availableAt) reason) ;;;
  let* _ := update_lease_where (lease_run_id l) (lease_matches l) (with_release (CoordinationTime now)) in
  appendOwnershipTx (lease_run_id l) kind (lease_owner l) (lease_token l) now (Some (completion_detail state reason)).

(** [Store.completeQueueEntry] *)
Definition completeQueueEntry (l : RunLease) (now : time) (state kind reason : string) (availableAt : time) : DbIO unit :=
  withGuardedTx (FenceOf l) now (completeQueueEntryTx l now state kind reason availableAt).

Definition FinishRun (l : RunLease) (now : time) : DbIO unit :=
  completeQueueEntry l now QueueFinished OwnershipFinished "" 0.
Definition FailRun (l : RunLease) (now : time) (reason : string) : DbIO unit :=
  completeQueueEntry l now QueueFailed OwnershipFailed reason 0.
Definition RequeueRun (l : RunLease) (now availableAt : time) (reason : string) : DbIO unit :=
  completeQueueEntry l now QueueRunnable OwnershipReleased reason availableAt.

(** [Store.ReleaseClaim] *)
Definition ReleaseClaim (l : RunLease) (now : time) (reason : string) : DbIO unit :=
  withGuardedTx (FenceOf l) now (
    completeQueueEntryTx l now QueueRunnable OwnershipReleased reason now ;;;
    sql_update set_work_queue (lease_run_id l) with_attempt_back).

(** [DeliveryLimitReason] and [Store.FailRunAtDeliveryLimit] *)
Definition DeliveryLimitReason (deliveries maxAttempts : Z) : string :=
  "delivery limit: " +:+ itoa deliveries +:+ " deliveries without completion (max attempts " +:+ itoa maxAttempts +:+ ")".
Definition delivery_limit_payload (deliveries maxAttempts : Z) : goval :=
  VMap [("kind", VString "delivery_limit"); ("deliveries", VInt deliveries); ("max_attempts", VInt maxAttempts)].
Definition FailRunAtDeliveryLimit (l : RunLease) (now : time) (deliveries maxAttempts : Z) : DbIO unit :=
  withGuardedTx (FenceOf l) now (
    update_run (lease_run_id l) (with_status "failed") ;;;
    AppendEventTx (lease_run_id l) "error" (delivery_limit_payload deliveries maxAttempts) ;;;
    completeQueueEntryTx l now QueueFailed OwnershipFailed (DeliveryLimitReason deliveries maxAttempts) 0).

(** ** Queue and fleet views *)

(** [Store.QueueEntryFor] *)
Definition QueueEntryFor (runID : string) (s : DB) : option QueueEntry :=
  match work_queue s !! runID with
  | Some q => Some (MkEntry runID (q_state q) (q_max_steps q) (q_attempts q) (q_enqueued_at q) (q_available_at q) (q_last_error q) false)
  | None => None
  end.

(** [Store.QueueDepth] *)
Definition QueueDepth (s : DB) : gmap string nat :=
  map_fold (fun _ q depth => <[q_state q := S (default 0%nat (depth !! q_state q))]> depth) ∅ (work_queue s).

(** [Store.RegisterWorker], [Store.TouchWorker], [Store.RemoveWorker] *)
Definition RegisterWorker (id host : string) (now : time) : DbIO unit :=
  atomically (tmodify (set_workers (fun m =>
    let stamp := CoordinationTime now in
    match m !! id with
    | Some w => <[id := MkWorker host (wk_started_at w) stamp (wk_claims w)]> m
    | None => <[id := MkWorker host stamp stamp 0]> m
    end))).
Definition TouchWorker (id : string) (now : time) : DbIO unit :=
  atomically (touch_worker id (CoordinationTime now) 0).
Definition owns_live_lease (s : DB) (id stamp : string) : bool :=
  bool_decide (Exists (fun kv : string * LeaseRow => str_eqb (ls_owner kv.2) id && str_ltb stamp (ls_expires_at kv.2) = true)
                 (map_to_list (run_leases s))).
Definition RemoveWorker (id : string) (now : time) : DbIO bool :=
  atomically (fun s =>
    if bool_decide (is_Some (workers s !! id)) && negb (owns_live_lease s id (CoordinationTime now))
    then Ok (true, set_workers (delete id) s) else Ok (false, s)).

(** [Store.Workers]: most recently seen first, then by id. *)
Definition worker_le (x y : string * WorkerRow) : Prop :=
  (wk_last_seen_at x.2 <> wk_last_seen_at y.2 /\ String.le (wk_last_seen_at y.2) (wk_last_seen_at x.2)) \/
  (wk_last_seen_at x.2 = wk_last_seen_at y.2 /\ String.le x.1 y.1).
#[export] Instance worker_le_dec : RelDecision worker_le.
Proof. intros x y. unfold worker_le. apply _. Defined.
Definition Workers (s : DB) : list (string * WorkerRow) := merge_sort worker_le (map_to_list (workers s)).

(** * Properties of the queue *)

(** ** Well-formed queues *)

(** Every stored time parses, attempts count up from zero, and the run of a
    queued row exists (enqueueing checks, and runs are never deleted). *)
Definition queue_row_wf (s : DB) (r : string) (q : QueueRow) : Prop :=
  stored_time (q_enqueued_at q) /\ stored_time (q_available_at q) /\ 0 <= q_attempts q /\
  q_state q ∈ [QueueRunnable; QueueLeased; QueueFinished; QueueFailed] /\ is_Some (runs s !! r).
Definition queue_ok (s : DB) : Prop := forall r q, work_queue s !! r = Some q -> queue_row_wf s r q.

Lemma elem_of_candidates s stamp owner skip r q :
  (r, q) ∈ candidates s stamp owner skip <->
  work_queue s !! r = Some q /\ claimableWhere q (run_leases s !! r) stamp owner = true /\ r ∉ skip.
Proof.
  unfold candidates. rewrite list_elem_of_filter, elem_of_map_to_list. cbn.
  rewrite andb_true_iff, negb_true_iff, <- not_true_iff_false, contains_spec. tauto.
Qed.

Lemma head_merge_sort {A} (R : relation A) `{!RelDecision R, !Total R, !Transitive R} (l : list A) x :
  head (merge_sort R l) = Some x -> x ∈ l /\ forall y, y ∈ l -> x = y \/ R x y.
Proof.
  intros Hh. pose proof (StronglySorted_merge_sort R l) as Hs.
  pose proof (merge_sort_Permutation R l) as Hp.
  destruct (merge_sort R l) as [|x' l'] eqn:Hm; [done|]. injection Hh as ->.
  split; [rewrite <- Hp; left|]. intros y Hy. rewrite <- Hp in Hy.
  apply StronglySorted_cons in Hs as [Hall _]. apply elem_of_cons in Hy as [->|Hy]; [by left|].
  right. by eapply Forall_forall in Hall.
Qed.

Lemma head_merge_sort_None {A} (R : relation A) `{!RelDecision R} (l : list A) :
  head (merge_sort R l) = None <-> l = [].
Proof.
  pose proof (merge_sort_Permutation R l) as Hp. split.
  - destruct (merge_sort R l); [|done]. by apply Permutation_nil_l in Hp.
  - intros ->. done.
Qed.

(** The claim takes the entry enqueued first, by run ID among equals. *)
Lemma oldest_candidate_Some s stamp owner skip r q :
  oldest_candidate s stamp owner skip = Some (r, q) ->
  work_queue s !! r = Some q /\ claimableWhere q (run_leases s !! r) stamp owner = true /\ r ∉ skip /\
  forall r' q', work_queue s !! r' = Some q' -> claimableWhere q' (run_leases s !! r') stamp owner = true ->
    r' ∉ skip -> (r, q) = (r', q') \/ queue_le (r, q) (r', q').
Proof.
  intros (Hin & Hmin)%head_merge_sort; try apply _.
  apply elem_of_candidates in Hin as (Hq & Hc & Hs). split_and!; [done..|].
  intros r' q' Hq' Hc' Hs'. by apply Hmin, elem_of_candidates.
Qed.

Lemma oldest_candidate_None s stamp owner skip :
  oldest_candidate s stamp owner skip = None <->
  forall r q, work_queue s !! r = Some q -> claimableWhere q (run_leases s !! r) stamp owner = true -> r ∈ skip.
Proof.
  unfold oldest_candidate, sort_on2. rewrite head_merge_sort_None. split.
  - intros Hnil r q Hq Hc. destruct (decide (r ∈ skip)) as [|Hs]; [done|].
    assert ((r, q) ∈ candidates s stamp owner skip) as Hin by (by apply elem_of_candidates).
    rewrite Hnil in Hin. by apply elem_of_nil in Hin.
  - intros Hall. destruct (candidates s stamp owner skip) as [|[r q] l] eqn:Hc; [done|].
    assert ((r, q) ∈ candidates s stamp owner skip) as (Hq & Hcl & Hs)%elem_of_candidates by (rewrite Hc; left).
    by apply Hall in Hcl.
Qed.

(** The SQL condition, on texts, is the condition on instants. *)
Lemma claimable_time s r q now owner :
  queue_ok s -> leases_ok s -> valid_time now -> work_queue s !! r = Some q ->
  exists available, q_available_at q = CoordinationTime available /\ valid_time available /\
  claimableWhere q (run_leases s !! r) (CoordinationTime now) owner =
  (available <=? now) &&
  match run_leases s !! r with
  | None => str_eqb (q_state q) QueueRunnable || str_eqb (q_state q) QueueLeased
  | Some l =>
      match parse_rfc3339 (ls_expires_at l) with
      | Some (e, _) =>
          (str_eqb (q_state q) QueueRunnable || str_eqb (q_state q) QueueLeased && (e <=? now)) &&
          (str_eqb (ls_owner l) "" || str_eqb (ls_owner l) owner || (e <=? now))
      | None => false
      end
  end.
Proof.
  intros Hq Hl Hn Hr. destruct (Hq _ _ Hr) as (_ & (av & Hav & Hv) & _).
  exists av. split; [done|]. split; [done|]. unfold claimableWhere. rewrite Hav, time_text_leb by done.
  destruct (run_leases s !! r) as [l|] eqn:Hlr.
  - destruct (Hl _ _ Hlr) as (_ & Hst & _). destruct (stored_time_parse _ Hst) as (e & -> & He & Hve).
    rewrite He, time_text_leb by done. by rewrite andb_assoc.
  - by rewrite !andb_true_r.
Qed.

(** A row that passes the SQL filter passes the check of the acquisition: the
    two texts of the rule agree. *)
Lemma claimable_not_held s r q now owner expires :
  queue_ok s -> leases_ok s -> valid_time now -> work_queue s !! r = Some q ->
  claimableWhere q (run_leases s !! r) (CoordinationTime now) owner = true ->
  parse_rfc3339 (ls_expires_at (current_row s r)) = Some (expires, 0) ->
  held_by_other (current_row s r) owner expires now = false.
Proof.
  intros Hq Hl Hn Hr Hc Hp. destruct (claimable_time _ _ _ _ owner Hq Hl Hn Hr) as (av & _ & _ & Heq).
  rewrite Hc in Heq. symmetry in Heq. apply andb_true_iff in Heq as [_ Heq].
  unfold current_row in *. destruct (run_leases s !! r) as [l|] eqn:Hlr; [|done]. cbn in *.
  rewrite Hp in Heq. apply andb_true_iff in Heq as [_ Heq].
  unfold held_by_other, after.
  destruct (str_eqb (ls_owner l) ""), (str_eqb (ls_owner l) owner); cbn in *; try done.
  apply Z.ltb_ge. by apply Z.leb_le.
Qed.

(** ** The claim *)

(** Run IDs are generated ("R-" and 24 hex digits), never empty. *)
Definition runs_named (s : DB) : Prop := runs s !! "" = None.
Definition coord_ok (s : DB) : Prop := leases_ok s /\ queue_ok s /\ runs_named s.

Definition claimed_db (s : DB) (r owner : string) (ttl : duration) (now : time) (orow : OwnershipRow) : DB :=
  set_workers (alter (fun w => MkWorker (wk_host w) (wk_started_at w) (CoordinationTime now) (wk_claims w + 1)) owner)
    (set_work_queue (alter with_claim r) (acquired_db s r owner ttl now orow)).
Definition claimed_lease (s : DB) (r owner : string) (ttl : duration) (now : time) : RunLease :=
  MkRunLease r owner (fence_of s r + 1) (now + ttl).
Definition claimed_entry (r : string) (q : QueueRow) (takeover : bool) : QueueEntry :=
  MkEntry r QueueLeased (q_max_steps q) (q_attempts q + 1) (q_enqueued_at q) (q_available_at q) "" takeover.

(** One claim on every branch: no candidate is [ErrNoWork], and a candidate is
    always claimed. *)
Lemma claimOnce_eq owner ttl now skip s :
  coord_ok s -> owner <> "" -> second <= ttl -> valid_time now ->
  match oldest_candidate s (CoordinationTime now) owner skip with
  | None => claimOnce owner ttl now skip s = Err ErrNoWork
  | Some (r, q) =>
      exists orow, own_kind orow = OwnershipAcquired /\ own_owner orow = owner /\ own_fence orow = fence_of s r + 1 /\
      claimOnce owner ttl now skip s =
      Ok ((claimed_lease s r owner ttl now, claimed_entry r q (displaced (run_leases s !! r) (CoordinationTime now))),
          claimed_db s r owner ttl now orow)
  end.
Proof.
  intros (Hl & Hq & Hn) Ho Ht Hnow. unfold claimOnce, treads.
  destruct (oldest_candidate s (CoordinationTime now) owner skip) as [[r q]|] eqn:Hc;
    [|unfold tbind at 1; by rewrite Hc].
  destruct (oldest_candidate_Some _ _ _ _ _ _ Hc) as (Hr & Hcl & _ & _).
  destruct (Hq _ _ Hr) as (_ & _ & _ & _ & [run Hrun]).
  assert (r <> "") as Hne by (intros ->; rewrite Hn in Hrun; done).
  destruct (acquire_eq r owner ttl now (displaced (run_leases s !! r) (CoordinationTime now)) s Hl) as (ex & Hp & Heq); [done|].
  rewrite (claimable_not_held _ _ _ _ _ _ Hq Hl Hnow Hr Hcl Hp), Hrun in Heq.
  assert (exists orow, own_kind orow = OwnershipAcquired /\ own_owner orow = owner /\ own_fence orow = fence_of s r + 1 /\
    acquireRunLeaseTx r owner ttl now (displaced (run_leases s !! r) (CoordinationTime now)) s =
    Ok (claimed_lease s r owner ttl now, acquired_db s r owner ttl now orow)) as (orow & Hk & Hoo & Hf & Hacq).
  { destruct (run_leases s !! r); done. }
  exists orow. split_and!; [done..|].
  unfold tbind at 1. rewrite Hc. unfold tsome, tbind, tret, sql_get, treads. rewrite Hacq. done.
Qed.

(** With one writer the retry loop of [ClaimRun] never retries. *)
Lemma ClaimRun_eq owner ttl now s :
  coord_ok s -> owner <> "" -> second <= ttl -> valid_time now ->
  ClaimRun owner ttl now s = atomically (claimOnce owner ttl now []) s.
Proof.
  intros Hok Ho Ht Hnow. unfold ClaimRun. rewrite (proj2 (str_eqb_false _ _) Ho).
  unfold maxClaimAttempts. cbn [claim_loop]. unfold iotry, atomically, iolift.
  pose proof (claimOnce_eq owner ttl now [] s Hok Ho Ht Hnow) as Heq.
  destruct (oldest_candidate _ _ _ _) as [[r q]|]; [destruct Heq as (orow & _ & _ & _ & ->)|rewrite Heq]; done.
Qed.

(** ** Ending a claim *)

Definition completed_row (l : RunLease) (now : time) (state reason : string) (availableAt : time) (q : QueueRow) : QueueRow :=
  with_completion state (CoordinationTime (if is_zero availableAt then now else availableAt)) reason q.

Definition completed_db (s : DB) (l : RunLease) (now : time) (state reason : string) (availableAt : time)
    (row : LeaseRow) (orow : OwnershipRow) : DB :=
  set_run_ownership_log (append_log (lease_run_id l) orow)
    (set_run_leases (insert (lease_run_id l) (with_release (CoordinationTime now) row))
      (set_work_queue (alter (completed_row l now state reason availableAt) (lease_run_id l)) s)).

Lemma marshal_completion_detail state reason : is_Some (marshal (completion_detail state reason)).
Proof. unfold completion_detail. destruct (str_eqb reason ""); eexists; reflexivity. Qed.

(** After a passed guard the completion releases the lease and logs it. *)
Lemma completeQueueEntryTx_eq s l now state kind reason availableAt row :
  run_leases s !! lease_run_id l = Some row -> lease_matches l row = true ->
  exists orow, own_kind orow = kind /\ own_owner orow = lease_owner l /\ own_fence orow = lease_token l /\
  completeQueueEntryTx l now state kind reason availableAt s = Ok (tt, completed_db s l now state reason availableAt row orow).
Proof.
  intros Hl Hm. unfold completeQueueEntryTx, tbind, sql_update, tmodify, update_lease_where.
  db_simpl. rewrite Hl, Hm. rewrite appendOwnershipTx_eq.
  destruct (marshal_completion_detail state reason) as [text ->].
  by eexists (MkOwnership _ _ _ _ _).
Qed.

Lemma lease_matches_true l row :
  lease_matches l row = true <-> ls_owner row = lease_owner l /\ ls_fence row = lease_token l.
Proof. unfold lease_matches. rewrite andb_true_iff, str_eqb_true, Z.eqb_eq. done. Qed.

(** A guarded transaction on every branch: the guard's refusal, or the body on
    the state the guard left. *)
Lemma withGuardedTx_eq f now body s :
  withGuardedTx f now body s =
  match GuardFenceTx f now s with
  | Err e => (Err e, s)
  | Ok (_, s1) => match body s1 with Ok (a, s2) => (Ok a, s2) | Err e => (Err e, s) end
  end.
Proof. unfold withGuardedTx, atomically, tbind. by destruct (GuardFenceTx f now s) as [[? ?]|]. Qed.

(** ** Frames and invariants of the queue operations *)

Lemma complete_evolves l now state kind reason availableAt :
  valid_time now -> respects lease_evolves (completeQueueEntryTx l now state kind reason availableAt).
Proof.
  intros Hn. unfold completeQueueEntryTx. respects_tac.
  - apply respects_modify. intros s. by apply same_leases_evolves.
  - apply update_lease_evolves. intros row (Hc & _ & Ha & _).
    unfold lease_wf. cbn. split_and!; try lia; eauto with tx.
Qed.

Lemma withGuardedTx_evolves f now body s r s' :
  valid_time now -> respects lease_evolves body -> withGuardedTx f now body s = (r, s') -> lease_evolves s s'.
Proof.
  intros Hn Hb. apply atomically_respects; [apply _|]. respects_tac. by apply guard_evolves.
Qed.

Lemma queue_update_evolves r f : respects lease_evolves (sql_update set_work_queue r f).
Proof. apply respects_modify. intros s. by apply same_leases_evolves. Qed.
#[export] Hint Resolve queue_update_evolves : tx.

Lemma claimOnce_evolves owner ttl now skip :
  valid_time now -> valid_time (now + ttl) -> respects lease_evolves (claimOnce owner ttl now skip).
Proof.
  intros Hn Hnt. unfold claimOnce, touch_worker. respects_tac.
  - by apply acquire_evolves.
  - apply respects_modify. intros ?. by apply same_leases_evolves.
Qed.

Lemma claim_loop_evolves n owner ttl now skip s r s' :
  valid_time now -> valid_time (now + ttl) -> claim_loop n owner ttl now skip s = (r, s') -> lease_evolves s s'.
Proof.
  intros Hn Hnt. revert skip s. induction n as [|n IH]; intros skip s; cbn [claim_loop].
  - intros [= <- <-]. reflexivity.
  - unfold iotry. destruct (atomically (claimOnce owner ttl now skip) s) as [r1 s1] eqn:H1.
    apply atomically_respects with (R := lease_evolves) in H1; [|apply _|by apply claimOnce_evolves].
    destruct r1 as [a|[]]; try (intros [= <- <-]; done).
    intros H2%IH. by etransitivity.
Qed.

Lemma ClaimRun_evolves owner ttl now s r s' :
  valid_time now -> valid_time (now + ttl) -> ClaimRun owner ttl now s = (r, s') -> lease_evolves s s'.
Proof.
  intros Hn Hnt. unfold ClaimRun. destruct (str_eqb owner "").
  - intros [= <- <-]. reflexivity.
  - by apply claim_loop_evolves.
Qed.
