(* ===== verification/Logs.v ===== *)
(** * The append-only logs

    [events] (internal/store/store.go) and [run_ownership_log]
    (internal/store/ownership.go) are written by one statement each.  Every
    operation only ever extends them, and keeps their rows numbered from one
    without a gap. *)

From S2P Require Export Queue.
Open Scope Z_scope.
Open Scope tx_scope.

Definition logs_grow (s s' : DB) : Prop :=
  grows (events s) (events s') /\ grows (run_ownership_log s) (run_ownership_log s').
#[export] Instance logs_grow_preorder : PreOrder logs_grow.
Proof. split; unfold logs_grow; [done|]. intros s1 s2 s3 [? ?] [? ?]. split; by etransitivity. Qed.

Definition logs_dense (s : DB) : Prop := forall r, dense r (events s) /\ dense r (run_ownership_log s).
Lemma logs_grow_dense s s' : logs_grow s s' -> logs_dense s -> logs_dense s'.
Proof. intros [He Ho] Hd r. destruct (Hd r), (He r), (Ho r). auto. Qed.

Lemma append_logs runID typ payload : respects logs_grow (AppendEventTx runID typ payload).
Proof. apply append_respects. intros s row. split; [apply append_grows|done]. Qed.
Lemma own_logs r kind owner fence now detail : respects logs_grow (appendOwnershipTx r kind owner fence now detail).
Proof. apply own_respects. intros s row. split; [done|apply append_grows]. Qed.

(** Statements on other tables. *)
Definition logs (s : DB) : gmap (string * Z) EventRow * gmap (string * Z) OwnershipRow := (events s, run_ownership_log s).
Lemma same_logs_grow s s' : same logs s s' -> logs_grow s s'.
Proof. unfold same, logs. intros [= He Ho]. unfold logs_grow. rewrite He, Ho. done. Qed.
Lemma modify_logs f : (forall s, logs (f s) = logs s) -> respects logs_grow (tmodify (E:=err) f).
Proof. intros Hf. apply respects_modify. intros s. apply same_logs_grow, Hf. Qed.
Lemma update_logs {K V} `{Countable K} (set : (gmap K V -> gmap K V) -> DB -> DB) k f :
  (forall g s, logs (set g s) = logs s) -> respects logs_grow (sql_update set k f).
Proof. intros Hs. apply modify_logs. intros s. apply Hs. Qed.
Lemma update_lease_logs r cond f : respects logs_grow (update_lease_where r cond f).
Proof. intros s b s'. unfold update_lease_where. repeat case_match; intros [= <- <-]; done. Qed.
#[export] Hint Resolve append_logs own_logs update_lease_logs : tx.
#[export] Hint Extern 2 (respects logs_grow (sql_update _ _ _)) => (apply update_logs; reflexivity) : tx.
#[export] Hint Extern 2 (respects logs_grow (update_run _ _)) => (apply update_logs; reflexivity) : tx.
#[export] Hint Extern 2 (respects logs_grow (touch_worker _ _ _)) => (apply update_logs; reflexivity) : tx.
#[export] Hint Extern 2 (respects logs_grow (tmodify _)) => (apply modify_logs; reflexivity) : tx.

Lemma saveTurnTx_logs runID step transcript response ints : respects logs_grow (saveTurnTx runID step transcript response ints).
Proof. unfold saveTurnTx, appendInterruptionsTx. respects_tac. Qed.
Lemma failModelTurnTx_logs runID response message : respects logs_grow (failModelTurnTx runID response message).
Proof. unfold failModelTurnTx. respects_tac. Qed.
Lemma saveStatusTx_logs runID status typ payload : respects logs_grow (saveStatusTx runID status typ payload).
Proof. unfold saveStatusTx. respects_tac. Qed.
Lemma guard_logs f now : respects logs_grow (GuardFenceTx f now).
Proof. unfold GuardFenceTx. respects_tac. Qed.
Lemma acquire_logs r owner ttl now tk : respects logs_grow (acquireRunLeaseTx r owner ttl now tk).
Proof.
  unfold acquireRunLeaseTx. respects_tac. intros s' u s2 ->%sql_insert_or_ignore_ok. by case_match.
Qed.
Lemma complete_logs l now state kind reason availableAt :
  respects logs_grow (completeQueueEntryTx l now state kind reason availableAt).
Proof. unfold completeQueueEntryTx. respects_tac. Qed.
#[export] Hint Resolve saveTurnTx_logs failModelTurnTx_logs saveStatusTx_logs guard_logs acquire_logs complete_logs : tx.
Lemma claimOnce_logs owner ttl now skip : respects logs_grow (claimOnce owner ttl now skip).
Proof. unfold claimOnce. respects_tac. Qed.

Lemma atomically_logs {A} (m : DbTx A) s : respects logs_grow m -> logs_grow s (snd (atomically m s)).
Proof.
  intros Hm. destruct (atomically m s) as [r s'] eqn:H. eapply atomically_respects; [apply _|done|done].
Qed.
Lemma claim_loop_logs n owner ttl now skip s : logs_grow s (snd (claim_loop n owner ttl now skip s)).
Proof.
  revert skip s. induction n as [|n IH]; intros skip s; cbn [claim_loop]; [done|]. unfold iotry.
  pose proof (atomically_logs _ s (claimOnce_logs owner ttl now skip)) as H1.
  destruct (atomically (claimOnce owner ttl now skip) s) as [r1 s1]. cbn in H1.
  destruct r1 as [a|[]]; try done. etransitivity; [exact H1|apply IH].
Qed.
