(* ===== verification/Coordination.v ===== *)
(** * Coordination as a transition system

    Workers, the control plane and the clock interleave their transactions
    arbitrarily; the database serializes them.  A [coord_op] is one call of a
    store operation with its arguments, [exec] its effect, and [coord_step]
    any admissible call.  Leases and fences in the arguments are arbitrary, so
    a step may be the write of a worker that was paused for any length of
    time. *)

From S2P Require Export Logs.
Open Scope Z_scope.
Open Scope tx_scope.

(** ** The operations *)

Inductive coord_op : Type :=
| OpEnqueue (r : string) (maxSteps : Z) (now : time)
| OpAcquire (r owner : string) (ttl : duration) (now : time)
| OpRenew (l : RunLease) (ttl : duration) (now : time)
| OpRelease (l : RunLease) (now : time)
| OpClaim (owner : string) (ttl : duration) (now : time)
| OpFinish (l : RunLease) (now : time)
| OpFail (l : RunLease) (now : time) (reason : string)
| OpRequeue (l : RunLease) (now availableAt : time) (reason : string)
| OpReleaseClaim (l : RunLease) (now : time) (reason : string)
| OpDeliveryLimit (l : RunLease) (now : time) (deliveries maxAttempts : Z)
| OpAppend (f : option Fence) (clock : Clock) (r typ : string) (payload : goval)
| OpSaveTurn (f : option Fence) (clock : Clock) (r : string) (step : Z) (transcript : string) (response : goval) (ints : list goval)
| OpFailTurn (f : option Fence) (clock : Clock) (r : string) (response : goval) (ints : list goval) (message : string)
| OpSaveStatus (f : option Fence) (clock : Clock) (r status typ : string) (payload : goval)
| OpRejection (f : Fence) (now : time) (reason : string)
| OpRegister (id host : string) (now : time)
| OpTouch (id : string) (now : time)
| OpRemove (id : string) (now : time)
| OpTick (t : time).

(** A call seen without its result value. *)
Definition void {A} (m : DbIO A) : DbIO unit :=
  fun s => (match fst (m s) with Ok _ => Ok tt | Err e => Err e end, snd (m s)).

Definition exec (op : coord_op) : DbIO unit :=
  match op with
  | OpEnqueue r maxSteps now => Enqueue r maxSteps now
  | OpAcquire r owner ttl now => void (AcquireRunLease r owner ttl now)
  | OpRenew l ttl now => void (RenewRunLease l ttl now)
  | OpRelease l now => ReleaseRunLease l now
  | OpClaim owner ttl now => void (ClaimRun owner ttl now)
  | OpFinish l now => FinishRun l now
  | OpFail l now reason => FailRun l now reason
  | OpRequeue l now availableAt reason => RequeueRun l now availableAt reason
  | OpReleaseClaim l now reason => ReleaseClaim l now reason
  | OpDeliveryLimit l now d m => FailRunAtDeliveryLimit l now d m
  | OpAppend f clock r typ payload => AppendGuarded f clock r typ payload
  | OpSaveTurn f clock r step transcript response ints => SaveTurnGuarded f clock r step transcript response ints
  | OpFailTurn f clock r response ints message => FailModelTurnGuarded f clock r response ints message
  | OpSaveStatus f clock r status typ payload => SaveStatusGuarded f clock r status typ payload
  | OpRejection f now reason => RecordFenceRejection f now reason
  | OpRegister id host now => RegisterWorker id host now
  | OpTouch id now => TouchWorker id now
  | OpRemove id now => void (RemoveWorker id now)
  | OpTick t => atomically (tmodify (set_wall (fun _ => t)))
  end.

(** The fence a call writes under, when it writes under one. *)
Definition op_fence (op : coord_op) : option Fence :=
  match op with
  | OpFinish l _ | OpFail l _ _ | OpRequeue l _ _ _ | OpReleaseClaim l _ _ | OpDeliveryLimit l _ _ _ => Some (FenceOf l)
  | OpAppend f _ _ _ _ | OpSaveTurn f _ _ _ _ _ _ | OpFailTurn f _ _ _ _ _ | OpSaveStatus f _ _ _ _ _ => f
  | _ => None
  end.

(** The instants an operation writes or compares with must be ones the stored
    layout can carry (years 1 to 9999). *)
Definition op_ok (s : DB) (op : coord_op) : Prop :=
  match op with
  | OpEnqueue _ _ now | OpRelease _ now | OpFinish _ now | OpFail _ now _ | OpReleaseClaim _ now _
  | OpDeliveryLimit _ now _ _ | OpRejection _ now _ | OpRegister _ _ now | OpTouch _ now | OpRemove _ now => valid_time now
  | OpAcquire _ _ ttl now | OpRenew _ ttl now | OpClaim _ ttl now => valid_time now /\ valid_time (now + ttl)
  | OpRequeue _ now availableAt _ => valid_time now /\ valid_time availableAt
  | OpAppend _ clock _ _ _ | OpSaveTurn _ clock _ _ _ _ _ | OpFailTurn _ clock _ _ _ _ | OpSaveStatus _ clock _ _ _ _ =>
      valid_time (Clock_Now clock s)
  | OpTick t => valid_time t
  end.

Definition coord_step (s s' : DB) : Prop := exists op, op_ok s op /\ s' = snd (exec op s).
Definition coord_steps : DB -> DB -> Prop := rtc coord_step.

(** ** Queues stay well formed *)

(** What [queue_ok] and [runs_named] look at. *)
Definition queue_view (s : DB) : gmap string QueueRow * gset string := (work_queue s, dom (runs s)).

Definition queue_evolves (s s' : DB) : Prop := dom (runs s') = dom (runs s) /\ (queue_ok s -> queue_ok s').
#[export] Instance queue_evolves_preorder : PreOrder queue_evolves.
Proof. split; unfold queue_evolves; [done|]. intros s1 s2 s3 [? ?] [? ?]. split; [congruence|auto]. Qed.

Lemma queue_row_wf_dom s s' r q : dom (runs s') = dom (runs s) -> queue_row_wf s r q -> queue_row_wf s' r q.
Proof. unfold queue_row_wf. rewrite <- !elem_of_dom. by intros ->. Qed.

Lemma same_queue_evolves s s' : same queue_view s s' -> queue_evolves s s'.
Proof.
  unfold same, queue_view. intros [= Hq Hd]. split; [done|]. intros Hok r q. rewrite Hq. intros Hr%Hok.
  by eapply queue_row_wf_dom.
Qed.
Lemma frame_queue_evolves {A} (m : DbTx A) : respects (same queue_view) m -> respects queue_evolves m.
Proof. intros Hm s a s' H%Hm. by apply same_queue_evolves. Qed.

Lemma append_queue runID typ payload : respects (same queue_view) (AppendEventTx runID typ payload).
Proof. by apply append_same. Qed.
Lemma update_queue runID f : respects (same queue_view) (update_run runID f).
Proof. apply update_respects. intros s. unfold same, queue_view. db_simpl. by rewrite dom_alter_L. Qed.
Lemma own_queue r kind owner fence now detail : respects (same queue_view) (appendOwnershipTx r kind owner fence now detail).
Proof. by apply own_respects. Qed.
Lemma update_lease_queue r cond f : respects (same queue_view) (update_lease_where r cond f).
Proof. intros s b s'. unfold update_lease_where. repeat case_match; intros [= <- <-]; done. Qed.
Lemma guard_queue f now : respects (same queue_view) (GuardFenceTx f now).
Proof. unfold GuardFenceTx. respects_tac. by apply respects_modify. Qed.
Lemma acquire_queue r owner ttl now tk : respects (same queue_view) (acquireRunLeaseTx r owner ttl now tk).
Proof.
  unfold acquireRunLeaseTx. respects_tac; try (by apply respects_modify); try apply own_queue.
  intros s u s' ->%sql_insert_or_ignore_ok. by case_match.
Qed.
#[export] Hint Resolve append_queue update_queue own_queue update_lease_queue guard_queue acquire_queue : tx.
#[export] Hint Resolve frame_queue_evolves : tx.

Lemma saveTurnTx_queue runID step transcript response ints :
  respects queue_evolves (saveTurnTx runID step transcript response ints).
Proof. unfold saveTurnTx, appendInterruptionsTx. respects_tac. Qed.
Lemma failModelTurnTx_queue runID response message : respects queue_evolves (failModelTurnTx runID response message).
Proof. unfold failModelTurnTx. respects_tac. Qed.
Lemma saveStatusTx_queue runID status typ payload : respects queue_evolves (saveStatusTx runID status typ payload).
Proof. unfold saveStatusTx. respects_tac. Qed.
#[export] Hint Resolve saveTurnTx_queue failModelTurnTx_queue saveStatusTx_queue : tx.

(** An update of a queue row that keeps it well formed. *)
Lemma queue_update_wf r f :
  (forall s q, queue_row_wf s r q -> queue_row_wf s r (f q)) -> respects queue_evolves (sql_update set_work_queue r f).
Proof.
  intros Hf. apply respects_modify. intros s. split; [done|]. intros Hok r' q. db_simpl.
  rewrite lookup_alter. case_decide as Hr; [subst r'|apply Hok].
  destruct (work_queue s !! r) as [q'|] eqn:Hq; [|done]. cbn. intros [= <-].
  apply (queue_row_wf_dom s); [done|]. by apply Hf, Hok.
Qed.

Lemma with_claim_wf s r q : queue_row_wf s r q -> queue_row_wf s r (with_claim q).
Proof. unfold queue_row_wf. cbn. intros (? & ? & ? & ? & ?). split_and!; try done; [lia|set_solver]. Qed.
Lemma with_attempt_back_wf s r q : queue_row_wf s r q -> queue_row_wf s r (with_attempt_back q).
Proof.
  unfold queue_row_wf. cbn. intros (? & ? & ? & ? & ?). split_and!; try done. case_match; lia.
Qed.
Lemma with_completion_wf s r q state available reason :
  valid_time available -> state ∈ [QueueRunnable; QueueLeased; QueueFinished; QueueFailed] ->
  queue_row_wf s r q -> queue_row_wf s r (with_completion state (CoordinationTime available) reason q).
Proof. unfold queue_row_wf. cbn. intros ?? (? & ? & ? & ? & ?). split_and!; try done. by apply stored_time_enc. Qed.

Lemma touch_queue id stamp n : respects queue_evolves (touch_worker id stamp n).
Proof. apply frame_queue_evolves. by apply respects_modify. Qed.
#[export] Hint Resolve touch_queue : tx.

Lemma complete_queue l now state kind reason availableAt :
  valid_time now -> valid_time availableAt -> state ∈ [QueueRunnable; QueueLeased; QueueFinished; QueueFailed] ->
  respects queue_evolves (completeQueueEntryTx l now state kind reason availableAt).
Proof.
  intros. unfold completeQueueEntryTx. respects_tac. apply queue_update_wf. intros s q.
  apply with_completion_wf; [|done]. by case_match.
Qed.

Lemma claimOnce_queue owner ttl now skip : respects queue_evolves (claimOnce owner ttl now skip).
Proof. unfold claimOnce. respects_tac. apply queue_update_wf. intros ??. apply with_claim_wf. Qed.
Lemma attempt_back_queue r : respects queue_evolves (sql_update set_work_queue r with_attempt_back).
Proof. apply queue_update_wf. intros ??. apply with_attempt_back_wf. Qed.
#[export] Hint Resolve claimOnce_queue attempt_back_queue : tx.

(** ** Every step keeps coordination well formed and never lowers a fence *)

Definition coord_evolves (s s' : DB) : Prop := lease_evolves s s' /\ queue_evolves s s'.
#[export] Instance coord_evolves_preorder : PreOrder coord_evolves.
Proof. split; unfold coord_evolves; [done|]. intros s1 s2 s3 [? ?] [? ?]. split; by etransitivity. Qed.

Lemma coord_evolves_ok s s' : coord_evolves s s' -> coord_ok s -> coord_ok s'.
Proof.
  intros [[Hl _] [Hd Hq]] (H1 & H2 & H3). split_and!; [auto..|].
  unfold runs_named in *. rewrite <- not_elem_of_dom in *. by rewrite Hd.
Qed.
Lemma coord_evolves_fences s s' : coord_evolves s s' -> coord_ok s -> fences_mono s s'.
Proof. intros [[_ Hf] _] (H1 & _ & _). auto. Qed.

Lemma respects_both {A} (m : DbTx A) :
  respects lease_evolves m -> respects queue_evolves m -> respects coord_evolves m.
Proof. intros Hl Hq s a s' H. split; [by eapply Hl|by eapply Hq]. Qed.

Lemma atomically_evolves {A} (m : DbTx A) s :
  respects lease_evolves m -> respects queue_evolves m -> coord_evolves s (snd (atomically m s)).
Proof.
  intros Hl Hq. destruct (atomically m s) as [r s'] eqn:H. cbn.
  eapply atomically_respects; [apply _|by apply respects_both|done].
Qed.

Lemma withGuardedTx_coord f now body s :
  valid_time now -> respects lease_evolves body -> respects queue_evolves body ->
  coord_evolves s (snd (withGuardedTx f now body s)).
Proof. intros Hn Hl Hq. apply atomically_evolves; respects_tac. by apply guard_evolves. Qed.

Lemma complete_coord l now state kind reason availableAt s :
  valid_time now -> valid_time availableAt -> state ∈ [QueueRunnable; QueueLeased; QueueFinished; QueueFailed] ->
  coord_evolves s (snd (completeQueueEntry l now state kind reason availableAt s)).
Proof. intros. apply withGuardedTx_coord; [done|by apply complete_evolves|by apply complete_queue]. Qed.

Lemma guarded_coord f clock body s :
  valid_time (Clock_Now clock s) -> respects lease_evolves body -> respects queue_evolves body ->
  coord_evolves s (snd (guarded f clock body s)).
Proof.
  intros Hn Hl Hq. unfold guarded. destruct f as [f|]; [|by apply atomically_evolves].
  by apply withGuardedTx_coord.
Qed.

Lemma claim_loop_coord n owner ttl now skip s :
  valid_time now -> valid_time (now + ttl) -> coord_evolves s (snd (claim_loop n owner ttl now skip s)).
Proof.
  intros Hn Hnt. revert skip s. induction n as [|n IH]; intros skip s; cbn [claim_loop]; [done|].
  unfold iotry.
  pose proof (atomically_evolves (claimOnce owner ttl now skip) s (claimOnce_evolves _ _ _ _ Hn Hnt) (claimOnce_queue _ _ _ _)) as H1.
  destruct (atomically (claimOnce owner ttl now skip) s) as [r1 s1]. cbn in H1.
  destruct r1 as [a|[]]; try done. etransitivity; [done|apply IH].
Qed.

Lemma io_evolves {A} (m : DbIO A) s :
  (forall r s', m s = (r, s') -> lease_evolves s s' /\ queue_evolves s s') -> coord_evolves s (snd (m s)).
Proof. intros Hm. destruct (m s) as [r s'] eqn:H. by eapply Hm. Qed.

Lemma ClaimRun_coord owner ttl now s :
  valid_time now -> valid_time (now + ttl) -> coord_evolves s (snd (ClaimRun owner ttl now s)).
Proof. intros. unfold ClaimRun. destruct (str_eqb owner ""); [done|by apply claim_loop_coord]. Qed.

Lemma release_coord l now s : valid_time now -> coord_evolves s (snd (ReleaseRunLease l now s)).
Proof.
  intros Hn. apply io_evolves. intros r s' H. split; [exact (release_evolves _ _ _ _ _ Hn H)|].
  eapply atomically_respects; [apply _| |exact H]. respects_tac.
Qed.
Lemma renew_coord l ttl now s : valid_time now -> valid_time (now + ttl) -> coord_evolves s (snd (RenewRunLease l ttl now s)).
Proof.
  intros Hn Hnt. apply io_evolves. intros r s' H. split; [exact (renew_evolves _ _ _ _ _ _ Hn Hnt H)|].
  eapply atomically_respects; [apply _| |exact H]. respects_tac.
Qed.

(** Statements on tables that coordination does not read. *)
Lemma frame_coord s s' : run_leases s' = run_leases s -> same queue_view s s' -> coord_evolves s s'.
Proof. intros. split; [by apply same_leases_evolves|by apply same_queue_evolves]. Qed.

Lemma enqueue_coord r maxSteps now s : valid_time now -> coord_evolves s (snd (Enqueue r maxSteps now s)).
Proof.
  intros Hn. unfold Enqueue, atomically, tbind, tassert, sql_get, treads, tmodify.
  destruct (maxSteps <? 1); cbn; [done|].
  case_bool_decide as Hr; cbn; [|done].
  split; [by apply same_leases_evolves|]. split; [done|]. intros Hok r' q. db_simpl.
  assert (queue_row_wf s r (MkQueue QueueRunnable maxSteps 0 (CoordinationTime now) (CoordinationTime now) "")) as Hnew.
  { unfold queue_row_wf. cbn. split_and!; [by apply stored_time_enc..|lia|set_solver|done]. }
  cbn beta. destruct (work_queue s !! r) as [q0|] eqn:Hq0; rewrite lookup_insert; case_decide as Hrr; try apply Hok; subst r';
    intros [= <-]; apply (queue_row_wf_dom s); try done.
  destruct (Hok _ _ Hq0) as (He & _). unfold queue_row_wf in *. cbn in *. tauto.
Qed.

Lemma exec_evolves op s : op_ok s op -> coord_evolves s (snd (exec op s)).
Proof.
  destruct op; cbn [op_ok exec]; unfold void; cbn [snd]; intros Hop;
    try (lazymatch type of Hop with _ /\ _ => destruct Hop as [Hn Hnt] end).
  - by apply enqueue_coord.
  - apply atomically_evolves; [by apply acquire_evolves|auto with tx].
  - by apply renew_coord.
  - by apply release_coord.
  - by apply ClaimRun_coord.
  - apply complete_coord; [done..|set_solver].
  - apply complete_coord; [done..|set_solver].
  - apply complete_coord; [done..|set_solver].
  - apply withGuardedTx_coord; [done| |]; respects_tac; [by apply complete_evolves|].
    apply complete_queue; [done..|set_solver].
  - apply withGuardedTx_coord; [done| |]; respects_tac; [by apply complete_evolves|].
    apply complete_queue; [done..|set_solver].
  - apply guarded_coord; auto with tx.
  - apply guarded_coord; auto with tx.
  - apply guarded_coord; [done| |]; unfold appendInterruptionsTx; respects_tac.
  - apply guarded_coord; auto with tx.
  - apply atomically_evolves; auto with tx.
  - by apply frame_coord.
  - by apply frame_coord.
  - apply frame_coord; unfold RemoveWorker, atomically; by destruct (_ && _).
  - by apply frame_coord.
Qed.

Lemma step_evolves s s' : coord_step s s' -> coord_evolves s s'.
Proof. intros (op & Hop & ->). by apply exec_evolves. Qed.
Lemma steps_evolve s s' : coord_steps s s' -> coord_evolves s s'.
Proof. induction 1 as [|s1 s2 s3 H12 H23 IH]; [done|]. etransitivity; [by apply step_evolves|done]. Qed.

(** ** Writes under a fence *)

(** The instant at which a guarded call compares the lease's expiry. *)
Definition op_now (op : coord_op) (s : DB) : time :=
  match op with
  | OpFinish _ now | OpFail _ now _ | OpRequeue _ now _ _ | OpReleaseClaim _ now _ | OpDeliveryLimit _ now _ _ => now
  | OpAppend _ clock _ _ _ | OpSaveTurn _ clock _ _ _ _ _ | OpFailTurn _ clock _ _ _ _ | OpSaveStatus _ clock _ _ _ _ =>
      Clock_Now clock s
  | _ => wall s
  end.

(** Every call that writes under a fence is the guard followed by a body, in
    one transaction. *)
Lemma exec_guarded op f s :
  op_fence op = Some f -> exists body, exec op s = withGuardedTx f (op_now op s) body s.
Proof.
  destruct op; cbn [op_fence exec op_now]; intros Hf; try discriminate Hf;
    first [injection Hf as <-; by eexists | rewrite Hf; by eexists].
Qed.

Lemma op_now_ok op f s : op_fence op = Some f -> op_ok s op -> valid_time (op_now op s).
Proof. destruct op; cbn [op_fence op_ok op_now]; try discriminate; intros _; tauto. Qed.

(** The guard refuses a token below the row's fence. *)
Lemma stale_guard f now body s :
  leases_ok s -> valid_time now -> fence_run_id f <> "" -> fence_owner f <> "" -> fence_token f < fence_of s (fence_run_id f) ->
  exists e, withGuardedTx f now body s = (Err e, s) /\ is_fenced e = true.
Proof.
  intros Hok Hn Hr Ho Hlt. rewrite withGuardedTx_eq. destruct (GuardFenceTx f now s) as [[u s1]|e] eqn:Hg.
  - apply guard_ok_iff in Hg as (_ & _ & row & e & Hl & _ & Hf & _); [|done|done].
    unfold fence_of in Hlt. rewrite Hl in Hlt. lia.
  - exists e. split; [done|]. by eapply guard_err_fenced.
Qed.

(** What a passed guard proves about the row. *)
Lemma guarded_ok_row f now body s s' :
  leases_ok s -> valid_time now -> withGuardedTx f now body s = (Ok tt, s') ->
  exists row, run_leases s !! fence_run_id f = Some row /\ ls_owner row = fence_owner f /\ ls_fence row = fence_token f /\
    live_lease s (fence_run_id f) (fence_owner f) now.
Proof.
  intros Hok Hn. rewrite withGuardedTx_eq. destruct (GuardFenceTx f now s) as [[u s1]|e] eqn:Hg; [|done].
  intros _. apply guard_ok_iff in Hg as (_ & _ & row & e & Hl & Ho & Hf & He & Hv & Hlt & _); [|done|done].
  exists row. split_and!; [done..|]. by exists row, e.
Qed.

(** ** Grants *)

(** [grants owner now s l s']: the store gives [l] to [owner] at [now]. *)
Inductive grants (owner : string) (now : time) (s : DB) (l : RunLease) (s' : DB) : Prop :=
| grants_acquire r ttl : valid_time (now + ttl) -> AcquireRunLease r owner ttl now s = (Ok l, s') -> grants owner now s l s'
| grants_claim ttl e : valid_time (now + ttl) -> ClaimRun owner ttl now s = (Ok (l, e), s') -> grants owner now s l s'.

Lemma ClaimRun_ok_args owner ttl now s l e s' :
  coord_ok s -> ClaimRun owner ttl now s = (Ok (l, e), s') -> owner <> "".
Proof. unfold ClaimRun. destruct (str_eqb owner "") eqn:Ho; [done|]. by apply str_eqb_false in Ho. Qed.

(** A claim asks for at least a second, or finds nothing to claim. *)
Lemma claimOnce_short owner ttl now skip s a : ttl < second -> claimOnce owner ttl now skip s <> Ok a.
Proof.
  intros Ht H. unfold claimOnce in H. destruct a as [[l e] s'].
  apply tbind_ok in H as (o & s1 & _ & H). apply tbind_ok in H as ([r q] & s2 & _ & H).
  apply tbind_ok in H as (lr & s3 & _ & H). apply tbind_ok in H as (l' & s4 & H & _).
  unfold acquireRunLeaseTx in H. apply Z.ltb_lt in Ht. rewrite Ht in H.
  apply tbind_ok in H as ([] & s5 & _ & H). apply tbind_ok in H as ([] & s6 & H & _). done.
Qed.
Lemma claim_loop_short n owner ttl now skip s a s' : ttl < second -> claim_loop n owner ttl now skip s <> (Ok a, s').
Proof.
  intros Ht. revert skip s. induction n as [|n IH]; intros skip s; cbn [claim_loop]; [done|].
  unfold iotry, atomically, iolift. destruct (claimOnce owner ttl now skip s) as [[b s1]|[]] eqn:Hc; try done.
  by apply claimOnce_short in Hc.
Qed.

(** The claim on every branch. *)
Lemma ClaimRun_ok owner ttl now s l e s' :
  coord_ok s -> valid_time now -> ClaimRun owner ttl now s = (Ok (l, e), s') ->
  owner <> "" /\ second <= ttl /\
  exists r q orow, oldest_candidate s (CoordinationTime now) owner [] = Some (r, q) /\
    own_kind orow = OwnershipAcquired /\ own_owner orow = owner /\ own_fence orow = fence_of s r + 1 /\
    l = claimed_lease s r owner ttl now /\ e = claimed_entry r q (displaced (run_leases s !! r) (CoordinationTime now)) /\
    s' = claimed_db s r owner ttl now orow.
Proof.
  intros Hok Hn H. assert (owner <> "") as Ho by (by eapply ClaimRun_ok_args). split; [done|].
  destruct (Z.le_gt_cases second ttl) as [Ht|Ht].
  2:{ unfold ClaimRun in H. rewrite (proj2 (str_eqb_false _ _) Ho) in H. by apply claim_loop_short in H. }
  split; [done|]. rewrite ClaimRun_eq in H by done. apply atomically_ok in H.
  pose proof (claimOnce_eq owner ttl now [] s Hok Ho Ht Hn) as Heq.
  destruct (oldest_candidate s (CoordinationTime now) owner []) as [[r q]|]; [|congruence].
  destruct Heq as (orow & ? & ? & ? & Heq). rewrite Heq in H. exists r, q, orow. naive_solver.
Qed.

(** A grant raises the fence of its run by one, and hands out that fence. *)
Lemma grants_fence owner now s l s' :
  coord_ok s -> valid_time now -> grants owner now s l s' ->
  lease_owner l = owner /\ owner <> "" /\ lease_run_id l <> "" /\
  lease_token l = fence_of s (lease_run_id l) + 1 /\ fence_of s' (lease_run_id l) = lease_token l /\
  (forall o, live_lease s (lease_run_id l) o now -> o = owner \/ o = "").
Proof.
  intros Hok Hn Hg. pose proof Hok as (Hl & Hq & Hr).
  assert (exists r ttl orow s0, valid_time (now + ttl) /\ acquire_args_ok r owner ttl /\
    l = MkRunLease r owner (fence_of s r + 1) (now + ttl) /\
    run_leases s' = run_leases (acquired_db s r owner ttl now orow) /\
    (exists tk, acquireRunLeaseTx r owner ttl now tk s = Ok (l, s0))) as
    (r & ttl & orow & s0 & Hnt & (Hne & Ho & Ht) & -> & Hls & tk & Hacq).
  { destruct Hg as [r ttl Hnt H|ttl e Hnt H].
    - apply atomically_ok in H. destruct (acquire_ok _ _ _ _ _ _ _ _ Hl H) as (Ha & -> & orow & _ & _ & _ & ->).
      exists r, ttl, orow, (acquired_db s r owner ttl now orow). eauto 10.
    - destruct (ClaimRun_ok _ _ _ _ _ _ _ Hok Hn H) as (Ho & Ht & r & q & orow & Hc & _ & _ & _ & -> & -> & ->).
      destruct (oldest_candidate_Some _ _ _ _ _ _ Hc) as (Hr' & Hcl & _ & _).
      destruct (Hq _ _ Hr') as (_ & _ & _ & _ & [run Hrun]).
      assert (r <> "") as Hne by (intros ->; unfold runs_named in Hr; congruence).
      exists r, ttl, orow.
      destruct (acquire_eq r owner ttl now (displaced (run_leases s !! r) (CoordinationTime now)) s Hl) as (ex & Hp & Heq); [done|].
      rewrite (claimable_not_held _ _ _ _ _ _ Hq Hl Hn Hr' Hcl Hp), Hrun in Heq.
      assert (exists orow', acquireRunLeaseTx r owner ttl now (displaced (run_leases s !! r) (CoordinationTime now)) s =
        Ok (MkRunLease r owner (fence_of s r + 1) (now + ttl), acquired_db s r owner ttl now orow')) as [orow' Ha].
      { destruct (run_leases s !! r); naive_solver. }
      eexists. split_and!; [done..|]. eauto. }
  cbn. assert (fence_of s' r = fence_of s r + 1) as Hf.
  { unfold fence_of at 1. rewrite Hls. unfold acquired_db. db_simpl. by rewrite lookup_insert_eq. }
  split_and!; [done..|]. intros o (row & e & Hrow & Hown & He & Hve & Hlive).
  destruct (acquire_eq r owner ttl now tk s Hl) as (ex & Hp & Heq); [done|].
  unfold current_row in *. rewrite Hrow in Hp, Heq. cbn in Hp, Heq. rewrite He, time_text_decode in Hp by done.
  injection Hp as <-. destruct (held_by_other row owner e now) eqn:Hh; [congruence|].
  unfold held_by_other, after in Hh. rewrite Hown in Hh.
  assert (now <? e = true) as Hlt by (by apply Z.ltb_lt). rewrite Hlt, andb_true_r in Hh.
  destruct (str_eqb o "") eqn:H1; [right; by apply str_eqb_true|].
  destruct (str_eqb o owner) eqn:H2; [left; by apply str_eqb_true|]. done.
Qed.

(** ** Reachable states *)

(** Coordination starts from a database with worlds and runs and no lease,
    queue row or ownership row. *)
Definition coord_init (s : DB) : Prop :=
  run_leases s = ∅ /\ work_queue s = ∅ /\ runs s !! "" = None.

Lemma coord_init_ok s : coord_init s -> coord_ok s.
Proof.
  intros (Hl & Hq & Hr). split_and!; [| |done].
  - intros r row. by rewrite Hl, lookup_empty.
  - intros r q. by rewrite Hq, lookup_empty.
Qed.

Definition coord_reachable : DB -> Prop := reachable coord_init coord_step.

Lemma coord_reachable_ok s : coord_reachable s -> coord_ok s.
Proof.
  apply reachable_invariant; [apply coord_init_ok|].
  intros s1 s2 Hok Hs. by eapply coord_evolves_ok; [apply step_evolves|].
Qed.

(** A small system for the examples: one run, and two workers that claim it one
    after the other, the second when the lease of the first has run out. *)
Module Demo.
Definition t0 : time := 63903513600 * second.
Definition init : DB :=
set_runs (insert "R-1" (MkRun "W-1" "billing" "scripted" "" "task" "pending" 0 "[]" "" 0 ""))
(set_worlds (insert "W-1" (MkWorld 7 "" "2026-01-01T00:00:00Z")) (empty_db t0)).
Definition queued : DB := snd (exec (OpEnqueue "R-1" 20 t0) init).
Definition first_claim : DB := snd (exec (OpClaim "w-1" (30 * second) t0) queued).
Definition t1 : time := t0 + 31 * second.
Definition second_claim : DB := snd (exec (OpClaim "w-2" (30 * second) t1) first_claim).
Definition first_lease : RunLease := MkRunLease "R-1" "w-1" 1 (t0 + 30 * second).
Definition second_lease : RunLease := MkRunLease "R-1" "w-2" 2 (t1 + 30 * second).

Lemma init_ok : coord_init init.
Proof. by split_and!. Qed.
Lemma step op s : op_ok s op -> coord_step s (snd (exec op s)).
Proof. intros. by exists op. Qed.
Lemma queued_reachable : coord_reachable queued.
Proof. eapply reachable_step; [apply reachable_init, init_ok|]. apply step. by vm_compute. Qed.
Lemma first_reachable : coord_reachable first_claim.
Proof. eapply reachable_step; [apply queued_reachable|]. apply step. by vm_compute. Qed.
Lemma second_reachable : coord_reachable second_claim.
Proof. eapply reachable_step; [apply first_reachable|]. apply step. by vm_compute. Qed.
Lemma second_step : coord_step first_claim second_claim.
Proof. apply step. by vm_compute. Qed.

Lemma first_owners r l : run_leases first_claim !! r = Some l -> ls_owner l <> "w-2".
Proof.
intros Hl. apply str_eqb_false, negb_true_iff.
exact (map_check (run_leases first_claim) (fun _ l => negb (str_eqb (ls_owner l) "w-2")) ltac:(by vm_compute) r l Hl).
Qed.

Example claims : ClaimRun "w-2" (30 * second) t1 first_claim =
(Ok (second_lease, MkEntry "R-1" "leased" 20 2 (CoordinationTime t0) (CoordinationTime t0) "" true), second_claim).
Proof. by vm_compute. Qed.
End Demo.

Lemma exec_logs op s : logs_grow s (snd (exec op s)).
Proof.
  destruct op; cbn [exec]; unfold void; cbn [snd].
  - apply atomically_logs. respects_tac.
  - apply atomically_logs. auto with tx.
  - apply atomically_logs. respects_tac.
  - apply atomically_logs. respects_tac.
  - unfold ClaimRun. destruct (str_eqb owner ""); [done|apply claim_loop_logs].
  - apply atomically_logs. respects_tac.
  - apply atomically_logs. respects_tac.
  - apply atomically_logs. respects_tac.
  - apply atomically_logs. respects_tac.
  - apply atomically_logs. respects_tac.
  - apply atomically_logs. respects_tac.
  - apply atomically_logs. respects_tac.
  - apply atomically_logs. unfold appendInterruptionsTx. respects_tac.
  - apply atomically_logs. respects_tac.
  - apply atomically_logs. auto with tx.
  - apply atomically_logs. respects_tac.
  - apply atomically_logs. unfold touch_worker. respects_tac.
  - unfold RemoveWorker, atomically. by destruct (_ && _).
  - apply atomically_logs. respects_tac.
Qed.

(** ** Claiming and giving back *)

(** To a worker without leases, another's rows look as they do to anybody. *)
Lemma claimable_fresh_owner q l stamp owner :
  (forall row, l = Some row -> ls_owner row <> owner) -> claimableWhere q l stamp owner = claimableWhere q l stamp "".
Proof.
  intros Hf. unfold claimableWhere. destruct l as [row|]; [|done].
  rewrite (proj2 (str_eqb_false _ _) (Hf row eq_refl)). by destruct (str_eqb (ls_owner row) "").
Qed.

Lemma OldestClaimableSince_None now s :
  OldestClaimableSince now s = None <-> candidates s (CoordinationTime now) "" [] = [].
Proof.
  unfold OldestClaimableSince, sort_strings. rewrite head_merge_sort_None.
  by destruct (candidates s (CoordinationTime now) "" []).
Qed.

(** A holder's write passes the guard, which records the fence. *)
Lemma guard_passes l s row now :
  leases_ok s -> valid_time now -> lease_run_id l <> "" -> lease_owner l <> "" ->
  run_leases s !! lease_run_id l = Some row -> lease_matches l row = true ->
  (exists e, ls_expires_at row = CoordinationTime e /\ valid_time e /\ now < e) ->
  GuardFenceTx (FenceOf l) now s =
  Ok (tt, set_run_leases (insert (lease_run_id l) (with_committed (lease_token l) row)) s).
Proof.
  intros Hl Hn Hr Ho Hrow [H1 H2]%lease_matches_true (e & He & Hv & Hlt). apply guard_ok_iff; [done|done|].
  split; [done|]. split; [done|]. exists row, e. done.
Qed.

(** A guarded completion by a holder, in full. *)
Lemma completion_ok l s row now state kind reason availableAt :
  leases_ok s -> valid_time now -> lease_run_id l <> "" -> lease_owner l <> "" ->
  run_leases s !! lease_run_id l = Some row -> lease_matches l row = true ->
  (exists e, ls_expires_at row = CoordinationTime e /\ valid_time e /\ now < e) ->
  exists orow, own_kind orow = kind /\ own_owner orow = lease_owner l /\ own_fence orow = lease_token l /\
  (GuardFenceTx (FenceOf l) now ;;; completeQueueEntryTx l now state kind reason availableAt) s =
  Ok (tt, completed_db (set_run_leases (insert (lease_run_id l) (with_committed (lease_token l) row)) s)
            l now state reason availableAt (with_committed (lease_token l) row) orow).
Proof.
  intros Hl Hn Hr Ho Hrow Hm He. unfold tbind at 1. rewrite (guard_passes l s row now) by done.
  apply completeQueueEntryTx_eq; [|done]. db_simpl. by rewrite lookup_insert_eq.
Qed.

Lemma with_claim_back q reason now : 0 <= q_attempts q ->
  with_attempt_back (with_completion QueueRunnable now reason (with_claim q)) =
  MkQueue QueueRunnable (q_max_steps q) (q_attempts q) (q_enqueued_at q) now reason.
Proof.
  intros Ha. unfold with_attempt_back. cbn. assert (0 <? q_attempts q + 1 = true) as -> by (apply Z.ltb_lt; lia).
  f_equal. lia.
Qed.

Lemma giveback_queue s l now reason q row orow s0 :
  work_queue s0 !! lease_run_id l = Some q -> 0 <= q_attempts q ->
  work_queue s = alter with_claim (lease_run_id l) (work_queue s0) ->
  alter with_attempt_back (lease_run_id l) (work_queue (completed_db s l now QueueRunnable reason now row orow)) =
  <[lease_run_id l := MkQueue QueueRunnable (q_max_steps q) (q_attempts q) (q_enqueued_at q) (CoordinationTime now) reason]>
    (work_queue s0).
Proof.
  intros Hq Ha Hs. unfold completed_db. db_simpl. rewrite Hs. apply map_eq. intros k.
  destruct (decide (k = lease_run_id l)) as [->|Hne]; simplify_map_eq; [|done].
  unfold completed_row. f_equal. rewrite <- (with_claim_back q reason) by done. by destruct (is_zero now).
Qed.

Lemma giveback_lease s l now state reason at_ row orow g :
  run_leases (set_work_queue g (completed_db s l now state reason at_ row orow)) !! lease_run_id l =
  Some (with_release (CoordinationTime now) row).
Proof. exact (lookup_insert_eq (run_leases s) (lease_run_id l) (with_release (CoordinationTime now) row)). Qed.

Lemma ReleaseClaim_eq l now reason s :
  ReleaseClaim l now reason s =
  match (GuardFenceTx (FenceOf l) now ;;; completeQueueEntryTx l now QueueRunnable OwnershipReleased reason now) s with
  | Ok (_, s1) => (Ok tt, set_work_queue (alter with_attempt_back (lease_run_id l)) s1)
  | Err e => (Err e, s)
  end.
Proof.
  unfold ReleaseClaim, withGuardedTx, atomically. rewrite <- tbind_assoc. unfold tbind at 1.
  by destruct ((_ ;;; _) s) as [[u s1]|e].
Qed.

Lemma claimed_lease_row s r owner ttl now orow :
  run_leases (claimed_db s r owner ttl now orow) !! r = Some (acquired_row s r owner ttl now).
Proof. unfold claimed_db, acquired_db. db_simpl. by rewrite lookup_insert_eq. Qed.
Lemma claimed_queue_row s r owner ttl now orow q :
  work_queue s !! r = Some q -> work_queue (claimed_db s r owner ttl now orow) !! r = Some (with_claim q).
Proof. intros Hq. unfold claimed_db, acquired_db. db_simpl. by rewrite lookup_alter_eq, Hq. Qed.


(** * Theorems *)

(** A worker that was fenced out can never write again: once the fence of
    a run has passed the one a call writes under, that call fails with
    [ErrFenced] and changes nothing, in every later state, whatever the
    workers, the control plane and the clock did in between and however late
    the call arrives. *)
Theorem stale_writer_rejected s s' op f :
  coord_ok s -> op_fence op = Some f -> fence_run_id f <> "" -> fence_owner f <> "" ->
  fence_token f < fence_of s (fence_run_id f) ->
  coord_steps s s' -> op_ok s' op ->
  exists e, exec op s' = (Err e, s') /\ is_fenced e = true.
Proof.
  intros Hok Hf Hr Ho Hlt Hs Hop. pose proof (steps_evolve _ _ Hs) as He.
  pose proof (coord_evolves_ok _ _ He Hok) as (Hl' & _). pose proof (coord_evolves_fences _ _ He Hok (fence_run_id f)) as Hm.
  destruct (exec_guarded _ _ s' Hf) as [body ->]. apply stale_guard; [done| |done..|lia].
  by eapply op_now_ok.
Qed.

(** The first worker's completion after the second claimed the run. *)
Lemma stale_writer_rejected_witness :
  exists e, exec (OpFinish Demo.first_lease (Demo.t1 + second)) Demo.second_claim = (Err e, Demo.second_claim) /\ is_fenced e = true.
Proof.
  apply (stale_writer_rejected Demo.second_claim Demo.second_claim _ (FenceOf Demo.first_lease)).
  - apply coord_reachable_ok, Demo.second_reachable.
  - reflexivity.
  - discriminate.
  - discriminate.
  - vm_compute. reflexivity.
  - apply rtc_refl.
  - vm_compute. split; [discriminate|reflexivity].
Defined.

(** At most one writer: in a state the store can be in, two calls that
    both succeed and write to the same run hold the same fence. *)
Theorem single_writer s op1 op2 f1 f2 s1 s2 :
  coord_ok s -> op_ok s op1 -> op_ok s op2 -> op_fence op1 = Some f1 -> op_fence op2 = Some f2 ->
  fence_run_id f1 = fence_run_id f2 ->
  exec op1 s = (Ok tt, s1) -> exec op2 s = (Ok tt, s2) -> f1 = f2.
Proof.
  intros (Hl & _) Hop1 Hop2 Hf1 Hf2 Hr H1 H2.
  pose proof (op_now_ok _ _ _ Hf1 Hop1) as Hn1. pose proof (op_now_ok _ _ _ Hf2 Hop2) as Hn2.
  destruct (exec_guarded _ _ s Hf1) as [b1 He1]. destruct (exec_guarded _ _ s Hf2) as [b2 He2].
  rewrite He1 in H1. rewrite He2 in H2.
  destruct (guarded_ok_row _ _ _ _ _ Hl Hn1 H1) as (row & Hrow & Ho & Hf & _).
  destruct (guarded_ok_row _ _ _ _ _ Hl Hn2 H2) as (row' & Hrow' & Ho' & Hf' & _).
  destruct f1, f2. cbn in *. rewrite Hr in *. congruence.
Qed.

(** The holder of the second lease finishing, and failing, the run. *)
Lemma single_writer_witness : FenceOf Demo.second_lease = FenceOf Demo.second_lease.
Proof.
  refine (single_writer Demo.second_claim (OpFinish Demo.second_lease (Demo.t1 + second)) (OpFail Demo.second_lease (Demo.t1 + second) "x")
    _ _ _ _ _ _ _ eq_refl eq_refl eq_refl _ _).
  - apply coord_reachable_ok, Demo.second_reachable.
  - vm_compute. split; [discriminate|reflexivity].
  - vm_compute. split; [discriminate|reflexivity].
  - vm_compute. reflexivity.
  - vm_compute. reflexivity.
Defined.

(** Fences are never handed out twice: a later grant of a run carries a
    strictly greater fence than every earlier one, and fences out its
    holder. *)
Theorem fences_strictly_increase s owner1 now1 l1 s1 s2 owner2 now2 l2 s3 :
  coord_ok s -> valid_time now1 -> valid_time now2 ->
  grants owner1 now1 s l1 s1 -> coord_steps s1 s2 -> grants owner2 now2 s2 l2 s3 ->
  lease_run_id l1 = lease_run_id l2 -> lease_token l1 < lease_token l2 /\ fence_of s3 (lease_run_id l1) = lease_token l2.
Proof.
  intros Hok Hn1 Hn2 H1 Hs H2 Hr.
  assert (coord_ok s1 /\ coord_ok s2 /\ fences_mono s1 s2) as (Hok1 & Hok2 & Hm).
  { assert (coord_ok s1) as Hok1.
    { destruct H1 as [r ttl ? H|ttl e ? H]; eapply coord_evolves_ok; try exact Hok.
      - pose proof (exec_evolves (OpAcquire r owner1 ttl now1) s) as He. cbn [exec] in He. unfold void in He. rewrite H in He. by apply He.
      - pose proof (exec_evolves (OpClaim owner1 ttl now1) s) as He. cbn [exec] in He. unfold void in He. rewrite H in He. by apply He. }
    pose proof (steps_evolve _ _ Hs) as He. split_and!; [done|by eapply coord_evolves_ok|by apply coord_evolves_fences]. }
  destruct (grants_fence _ _ _ _ _ Hok Hn1 H1) as (_ & _ & _ & _ & Hf1 & _).
  destruct (grants_fence _ _ _ _ _ Hok2 Hn2 H2) as (_ & _ & _ & Ht2 & Hf2 & _).
  specialize (Hm (lease_run_id l1)). rewrite Hr in *. lia.
Qed.

Lemma fences_strictly_increase_witness :
  lease_token Demo.first_lease < lease_token Demo.second_lease /\
  fence_of Demo.second_claim "R-1" = lease_token Demo.second_lease.
Proof.
  apply (fences_strictly_increase Demo.queued "w-1" Demo.t0 Demo.first_lease Demo.first_claim Demo.first_claim
    "w-2" Demo.t1 Demo.second_lease Demo.second_claim).
  - apply coord_reachable_ok, Demo.queued_reachable.
  - vm_compute. split; [discriminate|reflexivity].
  - vm_compute. split; [discriminate|reflexivity].
  - eapply (grants_claim _ _ _ _ _ (30 * second)); [vm_compute; split; [discriminate|reflexivity]|]. vm_compute. reflexivity.
  - apply rtc_refl.
  - eapply (grants_claim _ _ _ _ _ (30 * second)); [vm_compute; split; [discriminate|reflexivity]|]. vm_compute. reflexivity.
  - reflexivity.
Defined.

(** While a worker's lease is live nobody else is given the run, by an
    acquisition or by a claim. *)
Theorem live_lease_excludes s r owner other now l s' :
  coord_ok s -> valid_time now -> live_lease s r owner now -> owner <> "" ->
  grants other now s l s' -> lease_run_id l = r -> other = owner.
Proof.
  intros Hok Hn Hlive Ho Hg <-. destruct (grants_fence _ _ _ _ _ Hok Hn Hg) as (_ & _ & _ & _ & _ & Hx).
  by destruct (Hx _ Hlive).
Qed.

(** The holder itself may acquire again before its lease ends. *)
Lemma live_lease_excludes_witness : "w-2" = "w-2".
Proof.
  refine (live_lease_excludes Demo.second_claim "R-1" "w-2" "w-2" Demo.t1 (MkRunLease "R-1" "w-2" 3 (Demo.t1 + 30 * second)) _ _ _ _ _ _ _).
  - apply coord_reachable_ok, Demo.second_reachable.
  - vm_compute. split; [discriminate|reflexivity].
  - eexists _, (Demo.t1 + 30 * second). vm_compute. repeat split; discriminate.
  - discriminate.
  - eapply (grants_acquire _ _ _ _ _ "R-1" (30 * second)); [vm_compute; split; [discriminate|reflexivity]|].
    vm_compute. reflexivity.
  - reflexivity.
Defined.

(** C13. A claim takes the longest-waiting claimable run (ties by run id),
    gives it to the worker under the next fence with one more delivery
    counted, and reports [ErrNoWork], changing nothing, exactly when no row is
    claimable. *)
Theorem ClaimRun_spec owner ttl now s :
  coord_ok s -> owner <> "" -> second <= ttl -> valid_time now ->
  ((forall r q, work_queue s !! r = Some q -> claimableWhere q (run_leases s !! r) (CoordinationTime now) owner = false) /\
   ClaimRun owner ttl now s = (Err ErrNoWork, s)) \/
  (exists r q orow, work_queue s !! r = Some q /\
     claimableWhere q (run_leases s !! r) (CoordinationTime now) owner = true /\
     (forall r' q', work_queue s !! r' = Some q' ->
        claimableWhere q' (run_leases s !! r') (CoordinationTime now) owner = true -> (r, q) = (r', q') \/ queue_le (r, q) (r', q')) /\
     ClaimRun owner ttl now s =
       (Ok (claimed_lease s r owner ttl now, claimed_entry r q (displaced (run_leases s !! r) (CoordinationTime now))),
        claimed_db s r owner ttl now orow)).
Proof.
  intros Hok Ho Ht Hn. rewrite (ClaimRun_eq _ _ _ _ Hok Ho Ht Hn). unfold atomically.
  pose proof (claimOnce_eq owner ttl now [] s Hok Ho Ht Hn) as Heq.
  destruct (oldest_candidate s (CoordinationTime now) owner []) as [[r q]|] eqn:Hc.
  - right. destruct Heq as (orow & _ & _ & _ & ->). destruct (oldest_candidate_Some _ _ _ _ _ _ Hc) as (Hr & Hcl & _ & Hmin).
    exists r, q, orow. split_and!; [done..| |done]. intros r' q' Hr' Hcl'. apply Hmin; [done..|]. apply not_elem_of_nil.
  - left. rewrite Heq. split; [|done]. intros r q Hr. apply not_true_is_false. intros Hcl.
    apply (proj1 (oldest_candidate_None _ _ _ _) Hc) in Hcl; [|done]. by apply elem_of_nil in Hcl.
Qed.

(** The run of the example is claimable, so the second case holds. *)
Lemma ClaimRun_spec_witness :
  exists r q orow, work_queue Demo.first_claim !! r = Some q /\
    ClaimRun "w-2" (30 * second) Demo.t1 Demo.first_claim =
      (Ok (claimed_lease Demo.first_claim r "w-2" (30 * second) Demo.t1,
           claimed_entry r q (displaced (run_leases Demo.first_claim !! r) (CoordinationTime Demo.t1))),
       claimed_db Demo.first_claim r "w-2" (30 * second) Demo.t1 orow).
Proof.
  destruct (ClaimRun_spec "w-2" (30 * second) Demo.t1 Demo.first_claim) as [[_ H]|(r & q & orow & Hr & _ & _ & H)].
  - apply coord_reachable_ok, Demo.first_reachable.
  - discriminate.
  - vm_compute. discriminate.
  - vm_compute. split; [discriminate|reflexivity].
  - exfalso. vm_compute in H. discriminate H.
  - exists r, q, orow. split; [exact Hr|exact H].
Defined.

(** The metrics' queue age and the claim agree: [OldestClaimableSince]
    finds nothing exactly when a worker that holds no lease would be told
    there is no work. *)
Theorem OldestClaimableSince_agrees owner ttl now s :
  coord_ok s -> owner <> "" -> second <= ttl -> valid_time now ->
  (forall r l, run_leases s !! r = Some l -> ls_owner l <> owner) ->
  OldestClaimableSince now s = None <-> ClaimRun owner ttl now s = (Err ErrNoWork, s).
Proof.
  intros Hok Ho Ht Hn Hfresh. rewrite (ClaimRun_eq _ _ _ _ Hok Ho Ht Hn). unfold atomically.
  pose proof (claimOnce_eq owner ttl now [] s Hok Ho Ht Hn) as Heq.
  assert (forall r q, claimableWhere q (run_leases s !! r) (CoordinationTime now) owner =
                      claimableWhere q (run_leases s !! r) (CoordinationTime now) "") as Hfr.
  { intros r q. apply claimable_fresh_owner. eauto. }
  assert (oldest_candidate s (CoordinationTime now) owner [] = None <-> OldestClaimableSince now s = None) as Hiff.
  { rewrite OldestClaimableSince_None, oldest_candidate_None. setoid_rewrite Hfr. split.
    - intros Hall. apply elem_of_nil_inv. intros [r q] (Hr & Hc & _)%elem_of_candidates.
      by apply (Hall r q Hr), elem_of_nil in Hc.
    - intros Hnil r q Hr Hc. exfalso.
      assert ((r, q) ∈ candidates s (CoordinationTime now) "" []) as Hin
        by (apply elem_of_candidates; split_and!; [done..|apply not_elem_of_nil]).
      rewrite Hnil in Hin. by apply elem_of_nil in Hin. }
  rewrite <- Hiff. destruct (oldest_candidate _ _ _ _) as [[r q]|]; [|rewrite Heq; done].
  destruct Heq as (orow & _ & _ & _ & ->). done.
Qed.

(** The queue of the example has no row for a worker while the first lease is
    live. *)
Lemma OldestClaimableSince_agrees_witness :
  ClaimRun "w-2" (30 * second) Demo.t0 Demo.first_claim = (Err ErrNoWork, Demo.first_claim).
Proof.
  apply (proj1 (OldestClaimableSince_agrees "w-2" (30 * second) Demo.t0 Demo.first_claim
    (coord_reachable_ok _ Demo.first_reachable) ltac:(discriminate) ltac:(vm_compute; discriminate)
    ltac:(vm_compute; split; [discriminate|reflexivity])
    Demo.first_owners)).
  vm_compute. reflexivity.
Defined.

(** Giving a claim back undoes it for the queue: the run is runnable from
    [now2] on, to anybody, with as many deliveries as before the claim,
    and its fence stays raised, so the lease handed out is spent. *)
Theorem ReleaseClaim_undoes_claim owner ttl now s l e s1 now2 reason :
  coord_ok s -> valid_time now -> valid_time (now + ttl) -> valid_time now2 ->
  ClaimRun owner ttl now s = (Ok (l, e), s1) -> now2 < now + ttl ->
  exists q s2, work_queue s !! lease_run_id l = Some q /\ ReleaseClaim l now2 reason s1 = (Ok tt, s2) /\
    work_queue s2 = <[lease_run_id l := MkQueue QueueRunnable (q_max_steps q) (q_attempts q) (q_enqueued_at q)
                                          (CoordinationTime now2) reason]> (work_queue s) /\
    fence_of s2 (lease_run_id l) = lease_token l /\
    (forall other, claimableWhere (MkQueue QueueRunnable (q_max_steps q) (q_attempts q) (q_enqueued_at q) (CoordinationTime now2) reason)
      (run_leases s2 !! lease_run_id l) (CoordinationTime now2) other = true) /\
    runs s2 = runs s /\ events s2 = events s.
Proof.
  intros Hok Hn Hnt Hn2 Hclaim Hlt.
  destruct (ClaimRun_ok _ _ _ _ _ _ _ Hok Hn Hclaim) as (Ho & Ht & r & q & orow & Hc & _ & _ & _ & -> & _ & ->).
  destruct (oldest_candidate_Some _ _ _ _ _ _ Hc) as (Hr & _). pose proof Hok as (Hl & Hq & Hnm).
  destruct (Hq _ _ Hr) as (_ & _ & Ha & _ & [run Hrun]).
  assert (r <> "") as Hne by (intros ->; unfold runs_named in Hnm; congruence).
  pose proof (exec_evolves (OpClaim owner ttl now) s (conj Hn Hnt)) as Hev. cbn [exec] in Hev. unfold void in Hev.
  rewrite Hclaim in Hev. cbn [snd] in Hev. destruct (coord_evolves_ok _ _ Hev Hok) as (Hl1 & _).
  destruct (completion_ok (claimed_lease s r owner ttl now) _ _ now2 QueueRunnable OwnershipReleased reason now2 Hl1 Hn2 Hne Ho
    (claimed_lease_row s r owner ttl now orow)) as (orow2 & _ & _ & _ & Heq).
  { apply lease_matches_true. done. }
  { by exists (now + ttl). }
  exists q. eexists. split; [done|]. split.
  - rewrite ReleaseClaim_eq, Heq. reflexivity.
  - split_and!; [|..|done|done].
    + by apply (giveback_queue _ (claimed_lease s r owner ttl now)).
    + unfold fence_of at 1. by rewrite giveback_lease.
    + intros other. rewrite giveback_lease. unfold claimableWhere. cbn. by rewrite str_leb_refl.
Qed.

(** The first worker gives the run back a second after claiming it. *)
Lemma ReleaseClaim_undoes_claim_witness :
  exists s2, ReleaseClaim Demo.first_lease (Demo.t0 + second) "stopping" Demo.first_claim = (Ok tt, s2).
Proof.
  destruct (ReleaseClaim_undoes_claim "w-1" (30 * second) Demo.t0 Demo.queued Demo.first_lease
    (claimed_entry "R-1" (MkQueue "runnable" 20 0 (CoordinationTime Demo.t0) (CoordinationTime Demo.t0) "") false)
    Demo.first_claim (Demo.t0 + second) "stopping") as (q & s2 & _ & H & _).
  - apply coord_reachable_ok, Demo.queued_reachable.
  - vm_compute. split; [discriminate|reflexivity].
  - vm_compute. split; [discriminate|reflexivity].
  - vm_compute. split; [discriminate|reflexivity].
  - vm_compute. reflexivity.
  - vm_compute. reflexivity.
  - exists s2. exact H.
Defined.

(** A run over its delivery limit ends in one transaction: the run is
    failed, one error event says so, the queue row is failed with the reason
    and can never be claimed again, and the lease is free with its fence
    kept. *)
Theorem FailRunAtDeliveryLimit_spec l s row run now d m :
  coord_ok s -> valid_time now -> lease_owner l <> "" ->
  run_leases s !! lease_run_id l = Some row -> lease_matches l row = true ->
  (exists e, ls_expires_at row = CoordinationTime e /\ valid_time e /\ now < e) ->
  runs s !! lease_run_id l = Some run ->
  is_ok (event_row s (lease_run_id l) "error" (delivery_limit_payload d m)) = true ->
  exists s' ev, FailRunAtDeliveryLimit l now d m s = (Ok tt, s') /\
    runs s' = <[lease_run_id l := with_status "failed" run]> (runs s) /\
    Events (lease_run_id l) s' = Events (lease_run_id l) s ++ [ev] /\ e_type ev = "error" /\
    marshal (delivery_limit_payload d m) = Some (e_payload ev) /\
    (forall q, work_queue s' !! lease_run_id l = Some q ->
       q_state q = QueueFailed /\ q_last_error q = DeliveryLimitReason d m /\
       forall stamp owner, claimableWhere q (run_leases s' !! lease_run_id l) stamp owner = false) /\
    run_leases s' !! lease_run_id l = Some (with_release (CoordinationTime now) (with_committed (lease_token l) row)).
Proof.
  intros (Hl & _ & Hnm) Hn Ho Hrow Hm He Hrun Hev. set (r := lease_run_id l) in *.
  assert (r <> "") as Hr by (intros ->; unfold runs_named in Hnm; congruence).
  set (s1 := set_run_leases (insert r (with_committed (lease_token l) row)) s).
  set (s2 := set_runs (alter (with_status "failed") r) s1).
  assert (exists ev, event_row s2 r "error" (delivery_limit_payload d m) = Ok ev) as [ev Hev2].
  { assert (is_ok (event_row s2 r "error" (delivery_limit_payload d m)) = true) as H.
    { unfold event_row in *. unfold s2, s1. db_simpl. rewrite lookup_alter_eq, Hrun. rewrite Hrun in Hev. exact Hev. }
    destruct (event_row s2 _ _ _) as [ev|]; [by exists ev|done]. }
  destruct (completeQueueEntryTx_eq (set_events (append_log r ev) s2) l now QueueFailed OwnershipFailed
    (DeliveryLimitReason d m) 0 (with_committed (lease_token l) row)) as (orow & _ & _ & _ & Hc).
  { exact (lookup_insert_eq (run_leases s) r _). }
  { exact Hm. }
  eexists. exists (event_of r (max_seq r (events s2) + 1, ev)). split.
  { unfold FailRunAtDeliveryLimit. rewrite withGuardedTx_eq, (guard_passes l s row now) by done. fold r s1.
    unfold tbind, update_run, sql_update, tmodify. fold s2. rewrite AppendEventTx_eq, Hev2, Hc. reflexivity. }
  split_and!.
  - transitivity (alter (with_status "failed") r (runs s)); [reflexivity|]. apply map_eq. intros k.
    destruct (decide (k = r)) as [->|Hne]; simplify_map_eq; done.
  - exact (Events_append s2 r ev).
  - by apply event_row_fields in Hev2 as [<- _].
  - by apply event_row_fields in Hev2 as [_ ->].
  - intros q Hq. pose proof (eq_trans (eq_sym (lookup_alter_eq (completed_row l now QueueFailed (DeliveryLimitReason d m) 0) (work_queue s) r)) Hq) as Hq'.
    clear Hq. destruct (work_queue s !! r) as [q0|]; [|done]. injection Hq' as <-.
    split_and!; [done..|]. intros stamp owner. unfold claimableWhere. cbn. rewrite andb_false_r. done.
  - exact (lookup_insert_eq _ _ _).
Qed.

Lemma FailRunAtDeliveryLimit_spec_witness :
  exists s', FailRunAtDeliveryLimit Demo.second_lease (Demo.t1 + second) 2 1 Demo.second_claim = (Ok tt, s') /\
             runs s' !! "R-1" = Some (MkRun "W-1" "billing" "scripted" "" "task" "failed" 0 "[]" "" 0 "").
Proof.
  edestruct (FailRunAtDeliveryLimit_spec Demo.second_lease Demo.second_claim) as (s' & ev & H & Hr & _).
  - apply coord_reachable_ok, Demo.second_reachable.
  - instantiate (1 := Demo.t1 + second). vm_compute. split; [discriminate|reflexivity].
  - discriminate.
  - vm_compute. reflexivity.
  - vm_compute. reflexivity.
  - exists (Demo.t1 + 30 * second). vm_compute. repeat split; discriminate.
  - vm_compute. reflexivity.
  - instantiate (1 := 1). instantiate (1 := 2). vm_compute. reflexivity.
  - exists s'. split; [exact H|]. rewrite Hr. vm_compute. reflexivity.
Defined.

(** Whatever is executed, leases and queue stay well formed, the ledger
    and the ownership history of every run only ever grow at the end, and
    their rows stay numbered 1, 2, 3, ... *)
Theorem coordination_history s s' r :
  coord_ok s -> logs_dense s -> coord_steps s s' ->
  coord_ok s' /\ Events r s `prefix_of` Events r s' /\ Ownership r s `prefix_of` Ownership r s' /\
  e_seq <$> Events r s' = seqZ 1 (Z.of_nat (length (Events r s'))) /\
  oe_seq <$> Ownership r s' = seqZ 1 (Z.of_nat (length (Ownership r s'))).
Proof.
  intros Hok Hd Hs. pose proof (coord_evolves_ok _ _ (steps_evolve _ _ Hs) Hok) as Hok'.
  assert (logs_grow s s') as Hg.
  { clear Hok Hok' Hd. induction Hs as [|s1 s2 s3 (op & _ & ->) _ IH]; [done|]. etransitivity; [apply exec_logs|done]. }
  destruct (logs_grow_dense _ _ Hg Hd r) as [Hde Hdo]. destruct Hg as [He Hown].
  split_and!; [done| | | |].
  - apply map_prefix, He.
  - apply map_prefix, Hown.
  - exact (dense_log_numbers r (events s') (event_of r) e_seq (fun _ => eq_refl) Hde).
  - exact (dense_log_numbers r (run_ownership_log s') (fun row => MkOwnershipEvent r row.1 row.2) oe_seq (fun _ => eq_refl) Hdo).
Qed.

(** The example has one ownership row per claim. *)
Lemma coordination_history_witness :
  coord_ok Demo.second_claim /\ oe_seq <$> Ownership "R-1" Demo.second_claim = [1; 2].
Proof.
  destruct (coordination_history Demo.init Demo.second_claim "R-1") as (H & _ & _ & _ & Ho).
  - apply coord_init_ok, Demo.init_ok.
  - intros r. split; apply dense_empty.
  - apply (rtc_l _ _ Demo.queued); [apply Demo.step; vm_compute; split; [discriminate|reflexivity]|].
    apply (rtc_l _ _ Demo.first_claim); [apply Demo.step; vm_compute; repeat split; discriminate|].
    apply rtc_once, Demo.second_step.
  - split; [exact H|]. rewrite Ho. vm_compute. reflexivity.
Defined.
