(* ===== verification/Service.v ===== *)
(** * What the local services share

    Every service is a [Handler] (internal/behavior/registry.go): a function
    run inside the dispatcher's transaction that returns a status, a body and
    an optional mutation record.  Ids and times it makes up are functions of
    the run and the call, so replaying a call makes the same ones. *)

From S2P Require Export Ledger Sha256.
Open Scope Z_scope.
Open Scope tx_scope.

(** [behavior.Handler]: world, run, call, behavior key, arguments. *)
Definition Response (M : Type) : Type := Z * goval * option M.
Definition Handler : Type := string -> string -> string -> string -> list (string * goval) -> DbTx (Response goval).

Definition reply {M} (status : Z) (body : goval) : DbTx (Response M) := tret (status, body, None).
Definition reply_error {M} (status : Z) (message : string) : DbTx (Response M) :=
  reply status (VMap [("error", VString message)]).

(** How the SQL driver binds a dynamically typed argument compared with a TEXT
    key: [None] is NULL, which equals no key.  Drivers differ on values that
    are not strings, so only strings and nil are fixed. *)
Class SqlBind : Type := {
  sql_bind : goval -> res err (option string);
  sql_bind_string s : sql_bind (VString s) = Ok (Some s);
  sql_bind_nil : sql_bind VNil = Ok None }.

(** An instance: scalars bound as their text, as TEXT affinity compares them. *)
#[export, refine] Instance sqlite_bind : SqlBind := {
  sql_bind v := match v with
                | VNil => Ok None
                | VString s | VNumber s => Ok (Some s)
                | VInt z => Ok (Some (itoa z))
                | VBool b => Ok (Some (if b then "1" else "0"))
                | VFloat f => Ok (format_float f)
                | _ => Err (ErrText "sql: converting argument: unsupported type")
                end }.
Proof. all: done. Defined.

(** [SELECT ... WHERE world_id=? AND id=?] with a dynamically typed id. *)
Definition get_by_arg `{!SqlBind} {V} (get : DB -> gmap (string * string) V) (worldID : string) (id : goval)
    : DbTx (option (string * V)) :=
  let* key := tlift (sql_bind id) in
  match key with
  | None => tret None
  | Some k => let* row := sql_get get (worldID, k) in tret (pair k <$> row)
  end.

(** [SELECT ... WHERE world_id=? AND <column>=?], unsorted. *)
Definition rows_by_arg `{!SqlBind} {V} (get : DB -> gmap (string * string) V) (worldID : string) (column : V -> string)
    (arg : goval) : DbTx (list (string * V)) :=
  let* key := tlift (sql_bind arg) in
  match key with
  | None => tret []
  | Some k => treads (fun s => world_rows (get s) worldID (fun _ v => str_eqb (column v) k))
  end.

(** ** Stable ids and times *)

(** [sha256.Sum256([]byte(runID + ":" + callID))] *)
Definition call_digest (runID callID : string) : list Z := sum256 (runID +:+ ":" +:+ callID).
Definition stableID (prefix runID callID : string) : string := prefix +:+ hex_encode (take 6 (call_digest runID callID)).

Arguments call_digest : simpl never.
Arguments stableID : simpl never.

(** The world's base time and its zone. *)
Definition world_base (worldID : string) : DbTx (time * Z) :=
  let* world := sql_get_row worlds worldID in
  tsome (parse_rfc3339 (wld_base_at world)) (time_error (wld_base_at world)).

(** [binary.BigEndian.Uint32(sum[6:10])%86400] seconds past the next day. *)
Definition stable_offset (runID callID : string) : duration :=
  24 * hour + (be_uint32 (take 4 (drop 6 (call_digest runID callID))) mod 86400) * second.
Definition stableTime (worldID runID callID : string) : DbTx string :=
  let* '(base, zone) := world_base worldID in
  tret (format_rfc3339 (base + stable_offset runID callID) zone).

Arguments stable_offset : simpl never.
Arguments stableTime : simpl never.
Arguments world_base : simpl never.

(** ** Conversions of arguments *)

(** [stringArg]: a string that is not blank. *)
Definition not_blank (s : string) : bool := negb (str_eqb (trim_space s) "").
Definition stringArg (args : list (string * goval)) (key : string) : option string :=
  match as_string (arg args key) with
  | Some s => if not_blank s then Some s else None
  | None => None
  end.

Arguments not_blank : simpl never.

(** ** Frames of the queries *)

Section Queries.
Context `{!SqlBind} (R : DB -> DB -> Prop) `{!PreOrder R}.

Lemma get_by_arg_respects {V} (get : DB -> gmap (string * string) V) w id : respects R (get_by_arg get w id).
Proof. unfold get_by_arg. respects_tac. Qed.
Lemma rows_by_arg_respects {V} (get : DB -> gmap (string * string) V) w column a :
respects R (rows_by_arg get w column a).
Proof. unfold rows_by_arg. respects_tac. Qed.
Lemma world_base_respects w : respects R (world_base w).
Proof. unfold world_base. respects_tac. Qed.
Lemma stableTime_respects w run call : respects R (stableTime w run call).
Proof. unfold stableTime. respects_tac; apply world_base_respects. Qed.
End Queries.

#[export] Hint Extern 1 (respects _ (get_by_arg _ _ _)) => (apply get_by_arg_respects; apply _) : tx.
#[export] Hint Extern 1 (respects _ (rows_by_arg _ _ _ _)) => (apply rows_by_arg_respects; apply _) : tx.
#[export] Hint Extern 1 (respects _ (world_base _)) => (apply world_base_respects; apply _) : tx.
#[export] Hint Extern 1 (respects _ (stableTime _ _ _)) => (apply stableTime_respects; apply _) : tx.
#[export] Hint Extern 1 (respects _ (reply _ _)) => (apply respects_ret; apply _) : tx.
#[export] Hint Extern 1 (respects _ (reply_error _ _)) => (apply respects_ret; apply _) : tx.

Lemma world_base_state w s x s' : world_base w s = Ok (x, s') -> s' = s.
Proof. intros H. symmetry. revert H. apply (world_base_respects eq). Qed.
Lemma stableTime_state w r c s x s' : stableTime w r c s = Ok (x, s') -> s' = s.
Proof. intros H. symmetry. revert H. apply (stableTime_respects eq). Qed.

Lemma get_by_arg_string `{!SqlBind} {V} (get : DB -> gmap (string * string) V) w k s :
  get_by_arg get w (VString k) s = Ok (pair k <$> get s !! (w, k), s).
Proof. unfold get_by_arg, tbind, tlift. rewrite sql_bind_string. done. Qed.

(** ** The contract between the dispatcher and a service *)

(** The tables of one world that a service may write, seen from another. *)
Definition same_world (w : string) (s s' : DB) : Prop :=
  forall id, charges s' !! (w, id) = charges s !! (w, id) /\ refunds s' !! (w, id) = refunds s !! (w, id) /\
    crm_accounts s' !! (w, id) = crm_accounts s !! (w, id) /\ crm_notes s' !! (w, id) = crm_notes s !! (w, id) /\
    ticket_issues s' !! (w, id) = ticket_issues s !! (w, id) /\ ticket_comments s' !! (w, id) = ticket_comments s !! (w, id) /\
    message_messages s' !! (w, id) = message_messages s !! (w, id).
#[export] Instance same_world_preorder w : PreOrder (same_world w).
Proof.
  split; unfold same_world; [done|]. intros s1 s2 s3 H12 H23 id.
  specialize (H12 id). specialize (H23 id). intuition congruence.
Qed.

(** Everything a service never writes. *)
Definition outside_services (s : DB) :=
  (wall s, (worlds s, customers s, invoices s, subscriptions s, crm_contacts s, ticket_projects s, message_workspaces s,
            message_channels s, message_members s),
   (runs s, events s, tool_results s, run_chaos s, chaos_rule_state s, chaos_snapshots s, chaos_hidden_outcomes s,
    run_auth s, auth_state s), (run_leases s, work_queue s, workers s, run_ownership_log s), (checkpoints s, fork_lineage s, fork_observations s)).

(** One call of a service for world [w]: nothing outside the world's own
    service tables changes. *)
Definition service_step (w : string) (s s' : DB) : Prop :=
  same outside_services s s' /\ forall w', w' <> w -> same_world w' s s'.
#[export] Instance service_step_preorder w : PreOrder (service_step w).
Proof.
  split; unfold service_step; [done|]. intros s1 s2 s3 [H1 H2] [H3 H4].
  split; [by etransitivity|]. intros w' Hw. by etransitivity; eauto.
Qed.

(** A service changes the database only when it reports a mutation, and then
    only rows of its own world in the service tables. *)
Class Service {M} (h : string -> string -> string -> string -> list (string * goval) -> DbTx (Response M)) : Prop := {
  service_reads w r c b args s st body s' : h w r c b args s = Ok (st, body, None, s') -> s' = s;
  service_writes w r c b args : respects (service_step w) (h w r c b args) }.

(** [service_write] proves the step of one insert or update of a row of [w]. *)
Ltac service_write :=
  split; [done|]; intros ? ? ?; split_and!; try reflexivity;
  first [apply lookup_insert_ne | apply lookup_alter_ne]; congruence.

(** [frame_write] closes a frame condition for a write to another table. *)
Ltac frame_write := first [by apply respects_modify | by intros ? ? ? [_ ->]%sql_insert_ok].
