(* ===== verification/Billing.v ===== *)
(** * The billing service (internal/billing/billing.go)

    Customers, subscriptions, invoices and charges are read; [createRefund] is
    the one behavior that writes.  Amounts are int64 cents. *)

From S2P Require Export Service.
Open Scope Z_scope.
Open Scope tx_scope.

Module Billing.

Record Mutation := MkMutation { RefundID : string; ChargeID : string; AmountCents : Z }.
Definition mutation_value (m : Mutation) : goval :=
VStruct [("refund_id", VString (RefundID m)); ("charge_id", VString (ChargeID m)); ("amount_cents", VInt (AmountCents m))].

Definition charge_value (id : string) (c : ChargeRow) : goval :=
VMap [("id", VString id); ("invoice_id", VString (chg_invoice_id c)); ("amount_cents", VInt (chg_amount_cents c));
("refunded_cents", VInt (chg_refunded_cents c)); ("created_at", VString (chg_created_at c))].
Definition invoice_value (id : string) (i : InvoiceRow) : goval :=
VMap [("id", VString id); ("customer_id", VString (inv_customer_id i)); ("amount_cents", VInt (inv_amount_cents i));
("subscription_id", VString (inv_subscription_id i))].

(** [integer]: 0 for anything that is not a whole number of 64 bits. *)
Definition integer (v : goval) : Z :=
match v with
| VInt n => n
| VFloat f => if float_is_int f then int_of_float f else 0
| VNumber lit => fst (parse_int64 lit)
| _ => 0
end.

Definition with_refund (amount : Z) (c : ChargeRow) : ChargeRow :=
MkCharge (chg_invoice_id c) (chg_amount_cents c) (chg_refunded_cents c + amount) (chg_created_at c).

(** The case [billing.createRefund]. *)
Definition createRefund (worldID runID callID : string) (args : list (string * goval)) : DbTx (Response Mutation) :=
let amount := integer (arg args "amount_cents") in
match as_string (arg args "charge_id"), as_string (arg args "reason") with
| Some chargeID, Some reason =>
if str_eqb chargeID "" || str_eqb reason "" then reply_error 400 "invalid refund arguments"
else if amount <=? 0 then reply_error 400 "amount must be positive"
else
let* found := sql_get charges (worldID, chargeID) in
match found with
| None => reply_error 404 "charge not found"
| Some c =>
if wrap64 (chg_amount_cents c - chg_refunded_cents c) <? amount
then reply_error 409 "refund exceeds remaining charge"
else
let refundID := stableID "RF-" runID callID in
let* '(base, zone) := world_base worldID in
let at_ := format_rfc3339 (base + 24 * hour) zone in
sql_insert "refunds" refunds set_refunds (worldID, refundID) (MkRefund chargeID amount reason at_) ;;;
sql_update set_charges (worldID, chargeID) (with_refund amount) ;;;
tret (201, VMap [("id", VString refundID); ("charge_id", VString chargeID); ("amount_cents", VInt amount);
                 ("reason", VString reason); ("created_at", VString at_)],
      Some (MkMutation refundID chargeID amount))
end
| _, _ => reply_error 400 "invalid refund arguments"
end.

Section Handle.
Context `{!SqlBind}.

(** [ORDER BY id]; charges are ordered by [created_at] alone, with ties left in
the order of the primary key the scan follows. *)
Definition list_invoices (worldID : string) (id : goval) : DbTx (Response Mutation) :=
let* rows := rows_by_arg invoices worldID inv_customer_id id in
reply 200 (VSlice (map (fun r => invoice_value r.1 r.2) (sort_on fst rows))).
Definition list_charges (worldID : string) (id : goval) : DbTx (Response Mutation) :=
let* rows := rows_by_arg charges worldID chg_invoice_id id in
reply 200 (VSlice (map (fun r => charge_value r.1 r.2) (sort_on2 (fun r => chg_created_at r.2) fst rows))).

(** [billing.Handle] *)
Definition Handle (worldID runID callID behavior : string) (args : list (string * goval)) : DbTx (Response Mutation) :=
if str_eqb behavior "billing.getCustomer" then
let* found := get_by_arg customers worldID (arg args "id") in
match found with
| None => reply_error 404 "customer not found"
| Some (id, name) => reply 200 (VMap [("id", VString id); ("name", VString name)])
end
else if str_eqb behavior "billing.getSubscription" then
let* found := get_by_arg subscriptions worldID (arg args "id") in
match found with
| None => reply_error 404 "subscription not found"
| Some (id, sub) => reply 200 (VMap [("id", VString id); ("customer_id", VString (sub_customer_id sub));
                           ("status", VString (sub_status sub)); ("plan", VString (sub_plan sub))])
end
else if str_eqb behavior "billing.listInvoices" then list_invoices worldID (arg args "id")
else if str_eqb behavior "billing.listCharges" then list_charges worldID (arg args "id")
else if str_eqb behavior "billing.getCharge" then
let* found := get_by_arg charges worldID (arg args "id") in
match found with
| None => reply_error 404 "charge not found"
| Some (id, c) => reply 200 (charge_value id c)
end
else if str_eqb behavior "billing.createRefund" then createRefund worldID runID callID args
else tfail (ErrText ("unknown behavior " +:+ quote behavior)).

(** ** The service contract *)

Lemma createRefund_writes w r c args : respects (service_step w) (createRefund w r c args).
Proof.
unfold createRefund. respects_tac.
- intros s1 u s2 [_ ->]%sql_insert_ok. service_write.
- apply respects_modify. intros s1. service_write.
Qed.

Lemma createRefund_reads w r c args s st body s' : createRefund w r c args s = Ok (st, body, None, s') -> s' = s.
Proof. unfold createRefund, reply_error, reply. intros Hr. sql_cases; done. Qed.

#[global] Instance billing_service : Service Handle.
Proof.
split.
- intros w r c b args s st body s'. unfold Handle, list_invoices, list_charges, reply_error, reply, get_by_arg, rows_by_arg.
repeat (destruct (str_eqb b _); [first [apply createRefund_reads|intros Hrun; sql_cases; done]|]). done.
- intros w r c b args. unfold Handle, list_invoices, list_charges. respects_tac. apply createRefund_writes.
Qed.
End Handle.

(** ** The books *)

(** What has been refunded of a charge, from the refund rows. *)
Definition refund_total (m : gmap (string * string) RefundRow) (w c : string) : Z :=
map_fold (fun (k : string * string) (r : RefundRow) acc =>
if bool_decide (k.1 = w /\ rfd_charge_id r = c) then rfd_amount_cents r + acc else acc) 0 m.

Lemma refund_total_insert m w c k r :
m !! k = None ->
refund_total (<[k := r]> m) w c =
(if bool_decide (k.1 = w /\ rfd_charge_id r = c) then rfd_amount_cents r else 0) + refund_total m w c.
Proof.
intros Hk. unfold refund_total. rewrite map_fold_insert_L; [by case_bool_decide| |done].
intros j1 j2 z1 z2 y _ _ _. repeat case_bool_decide; lia.
Qed.

(** A charge is never refunded beyond its amount, its counter is the sum of
its refunds, and every refund is of a positive amount and of a charge of its
world. *)
Definition charge_balanced (s : DB) (w c : string) (row : ChargeRow) : Prop :=
0 <= chg_refunded_cents row <= chg_amount_cents row /\ in_int64 (chg_amount_cents row) /\
chg_refunded_cents row = refund_total (refunds s) w c.
Definition books_balanced (s : DB) : Prop :=
(forall w c row, charges s !! (w, c) = Some row -> charge_balanced s w c row) /\
(forall k r, refunds s !! k = Some r -> 0 < rfd_amount_cents r) /\
(forall w id r, refunds s !! (w, id) = Some r -> is_Some (charges s !! (w, rfd_charge_id r))).

(** The rows a successful refund writes. *)
Definition refunded_db (s : DB) (w refundID chargeID : string) (r : RefundRow) : DB :=
set_charges (alter (with_refund (rfd_amount_cents r)) (w, chargeID)) (set_refunds (insert (w, refundID) r) s).

Lemma createRefund_ok w run call args s st body m s' :
createRefund w run call args s = Ok (st, body, Some m, s') ->
exists chargeID reason c base zone, as_string (arg args "charge_id") = Some chargeID /\ chargeID <> "" /\ reason <> "" /\
as_string (arg args "reason") = Some reason /\ 0 < integer (arg args "amount_cents") /\ charges s !! (w, chargeID) = Some c /\
integer (arg args "amount_cents") <= wrap64 (chg_amount_cents c - chg_refunded_cents c) /\
world_base w s = Ok ((base, zone), s) /\ refunds s !! (w, stableID "RF-" run call) = None /\ st = 201 /\
m = MkMutation (stableID "RF-" run call) chargeID (integer (arg args "amount_cents")) /\
s' = refunded_db s w (stableID "RF-" run call) chargeID
 (MkRefund chargeID (integer (arg args "amount_cents")) reason (format_rfc3339 (base + 24 * hour) zone)).
Proof.
unfold createRefund, reply_error, reply. intros H. sql_cases; bool_inv; try done.
match goal with Hb : world_base _ _ = _ |- _ => pose proof (world_base_state _ _ _ _ Hb); subst end.
naive_solver.
Qed.

Lemma in_int64_sub a b : 0 <= b <= a -> in_int64 a -> in_int64 (a - b).
Proof. unfold in_int64, int64_min, int64_max. lia. Qed.

Lemma refunded_balanced s w id chargeID r c :
books_balanced s -> charges s !! (w, chargeID) = Some c -> refunds s !! (w, id) = None -> rfd_charge_id r = chargeID ->
0 < rfd_amount_cents r <= chg_amount_cents c - chg_refunded_cents c -> books_balanced (refunded_db s w id chargeID r).
Proof.
intros (Hc & Hr & Hof) Hch Hid Hrc Ham. unfold refunded_db. split; [|split].
- intros w' c' row. db_simpl. rewrite lookup_alter. unfold charge_balanced. db_simpl.
rewrite refund_total_insert by done. rewrite Hrc. cbn [fst]. case_decide as Hk.
+ injection Hk as <- <-. rewrite Hch. intros [= <-]. destruct (Hc _ _ _ Hch) as (Hb & Hi & Ht). cbn.
rewrite bool_decide_true by done. split; [lia|]. split; [done|lia].
+ intros Hrow. destruct (Hc _ _ _ Hrow) as (Hb & Hi & Ht).
rewrite bool_decide_false by (intros [-> ->]; by apply Hk). done.
- intros k r'. db_simpl. rewrite lookup_insert. case_decide; [|apply Hr]. intros [= <-]. lia.
- intros w' id' r'. db_simpl. rewrite lookup_insert, lookup_alter_is_Some. case_decide as Hk; [|apply Hof].
intros [= <-]. injection Hk as <- <-. rewrite Hrc, Hch. by eexists.
Qed.

Lemma createRefund_balanced w r c args : respects (keeps books_balanced) (createRefund w r c args).
Proof.
intros s [[st body] m] s' H Hb. destruct m as [m|]; [|by apply createRefund_reads in H as ->].
apply createRefund_ok in H as (chargeID & reason & row & base & zone & _ & _ & _ & _ & Hp & Hc & Hle & _ & Hid & _ & _ & ->).
destruct (proj1 Hb _ _ _ Hc) as (Hbal & Hi & _). rewrite wrap64_id in Hle by (by apply in_int64_sub).
by apply (refunded_balanced _ _ _ _ _ row).
Qed.

Lemma Handle_balanced `{!SqlBind} w r c b args : respects (keeps books_balanced) (Handle w r c b args).
Proof. unfold Handle, list_invoices, list_charges. respects_tac. apply createRefund_balanced. Qed.

(** ** Theorems *)

(** C14. Refunds never exceed a charge: whatever a billing behavior is called
with, every charge's counter stays the sum of its refund rows, within the
charge's amount (so the 64-bit sums never overflow), and no refund of a
zero or negative amount, or of a charge the world lacks, is ever written. *)
Theorem refunds_stay_balanced `{!SqlBind} w run call b args s r s' :
books_balanced s -> Handle w run call b args s = Ok (r, s') -> books_balanced s'.
Proof. intros Hb Hrun. by apply (Handle_balanced _ _ _ _ _ _ _ _ Hrun). Qed.

(** [createRefund] on a balanced charge, for arguments that decode: a
refund within what is left is recorded once and counted, and one beyond it
is refused with 409 and changes nothing. *)
Theorem createRefund_spec w run call args s chargeID reason c base zone :
books_balanced s -> as_string (arg args "charge_id") = Some chargeID -> as_string (arg args "reason") = Some reason ->
chargeID <> "" -> reason <> "" -> 0 < integer (arg args "amount_cents") ->
charges s !! (w, chargeID) = Some c -> world_base w s = Ok ((base, zone), s) ->
let amount := integer (arg args "amount_cents") in
let id := stableID "RF-" run call in
let row := MkRefund chargeID amount reason (format_rfc3339 (base + 24 * hour) zone) in
createRefund w run call args s =
if chg_amount_cents c - chg_refunded_cents c <? amount
then Ok (409, VMap [("error", VString "refund exceeds remaining charge")], None, s)
else match refunds s !! (w, id) with
 | Some _ => Err (ErrConstraint "refunds")
 | None => Ok (201, VMap [("id", VString id); ("charge_id", VString chargeID); ("amount_cents", VInt amount);
                  ("reason", VString reason); ("created_at", VString (rfd_created_at row))],
       Some (MkMutation id chargeID amount), refunded_db s w id chargeID row)
 end.
Proof.
intros Hb Hch Hre Hc0 Hr0 Hp Hc Hbase amount id row. destruct (proj1 Hb _ _ _ Hc) as (Hbal & Hi & _).
unfold createRefund. fold amount. rewrite Hch, Hre, (proj2 (str_eqb_false _ _) Hc0), (proj2 (str_eqb_false _ _) Hr0). cbn [orb].
rewrite (proj2 (Z.leb_gt amount 0)) by done. unfold tbind at 1, sql_get, treads. rewrite Hc.
rewrite wrap64_id by (by apply in_int64_sub). destruct (_ <? amount); [done|].
unfold tbind at 1. rewrite Hbase. unfold tbind at 1, sql_insert. fold id.
by destruct (refunds s !! (w, id)).
Qed.

(** ** A billing world for the examples *)

Definition demo : DB :=
set_charges (insert ("W-1", "CH-1") (MkCharge "INV-1" 500 0 "2026-01-01T01:00:00Z"))
(set_worlds (insert "W-1" (MkWorld 7 "" "2026-01-01T00:00:00Z")) (empty_db 0)).
Definition demo_args (amount : Z) : list (string * goval) :=
[("charge_id", VString "CH-1"); ("amount_cents", VInt amount); ("reason", VString "duplicate")].
Lemma demo_balanced : books_balanced demo.
Proof.
split; [|split].
- intros w c row Hrow.
change (<[("W-1", "CH-1") := MkCharge "INV-1" 500 0 "2026-01-01T01:00:00Z"]> (∅ : gmap (string * string) ChargeRow) !! (w, c) = Some row) in Hrow.
apply lookup_insert_Some in Hrow as [[[= <- <-] <-]|[_ Hrow]]; [|by rewrite lookup_empty in Hrow].
unfold charge_balanced, in_int64, int64_min, int64_max. cbn. split; [lia|]. split; [lia|]. by vm_compute.
- intros k r Hr. change ((∅ : gmap (string * string) RefundRow) !! k = Some r) in Hr. by rewrite lookup_empty in Hr.
- intros w id r Hr. change ((∅ : gmap (string * string) RefundRow) !! (w, id) = Some r) in Hr. by rewrite lookup_empty in Hr.
Qed.

Lemma refunds_stay_balanced_witness :
exists r s', Handle "W-1" "R-1" "call-1" "billing.createRefund" (demo_args 300) demo = Ok (r, s') /\ books_balanced s'.
Proof.
eexists _, _. split; [vm_compute; reflexivity|].
eapply (refunds_stay_balanced "W-1" "R-1" "call-1" "billing.createRefund" (demo_args 300) demo).
- exact demo_balanced.
- vm_compute. reflexivity.
Defined.

Lemma createRefund_spec_witness :
createRefund "W-1" "R-1" "call-1" (demo_args 501) demo =
Ok (409, VMap [("error", VString "refund exceeds remaining charge")], None, demo).
Proof.
exact (createRefund_spec "W-1" "R-1" "call-1" (demo_args 501) demo "CH-1" "duplicate" _ _ _ demo_balanced eq_refl eq_refl
ltac:(discriminate) ltac:(discriminate) ltac:(reflexivity) ltac:(vm_compute; reflexivity) ltac:(vm_compute; reflexivity)).
Defined.
End Billing.
