(* ===== verification/Crm.v ===== *)
(** * The CRM service (internal/crm/crm.go)

    Accounts are searched and read with their contacts and notes; notes are
    added and the status of an account is set. *)

From S2P Require Export Service.
Open Scope Z_scope.
Open Scope tx_scope.

Module Crm.

Record Mutation := MkMutation { Kind : string; AccountID : string; NoteID : string; Status : string }.
(** [omitempty] drops an empty text. *)
Definition omit_empty (key value : string) : list (string * goval) :=
if str_eqb value "" then [] else [(key, VString value)].
Definition mutation_value (m : Mutation) : goval :=
VStruct ([("kind", VString (Kind m)); ("account_id", VString (AccountID m))]
 ++ omit_empty "note_id" (NoteID m) ++ omit_empty "status" (Status m)).

Definition account_fields (id : string) (a : AccountRow) : list (string * goval) :=
[("id", VString id); ("customer_id", VString (acc_customer_id a)); ("status", VString (acc_status a));
 ("representative_id", VString (acc_representative_id a))].
Definition account_value (id : string) (a : AccountRow) : goval := VStruct (account_fields id a).
Definition contact_value (r : string * ContactRow) : goval :=
VStruct [("id", VString r.1); ("name", VString (con_name r.2)); ("email", VString (con_email r.2))].
Definition note_value (r : string * NoteRow) : goval :=
VStruct [("id", VString r.1); ("account_id", VString (nte_account_id r.2)); ("body", VString (nte_body r.2));
 ("created_at", VString (nte_created_at r.2))].
(** The struct [details]: the embedded account, then the lists. *)
Definition details_value (id : string) (a : AccountRow) (contacts : list (string * ContactRow)) (notes : list (string * NoteRow)) : goval :=
VStruct (account_fields id a ++ [("contacts", VSlice (map contact_value contacts)); ("notes", VSlice (map note_value notes))]).

Definition with_account_status (status : string) (a : AccountRow) : AccountRow :=
MkAccount (acc_customer_id a) status (acc_representative_id a).

(** The text a search looks in: the LEFT JOIN gives the customer's name. *)
Definition search_text (s : DB) (worldID id : string) (a : AccountRow) : string :=
id +:+ " " +:+ acc_customer_id a +:+ " " +:+ acc_status a +:+ " " +:+ acc_representative_id a +:+ " " +:+
default "" (customers s !! (worldID, acc_customer_id a)).
Definition searchAccounts (worldID : string) (args : list (string * goval)) : DbTx (Response Mutation) :=
match stringArg args "query" with
| None => reply_error 400 "invalid query"
| Some query =>
let* rows := treads (fun s => world_rows (crm_accounts s) worldID (fun id a =>
       sql_instr_pos (sql_lower (search_text s worldID id a)) (sql_lower (trim_space query)))) in
reply 200 (VSlice (map (fun r => account_value r.1 r.2) (sort_on fst rows)))
end.

Definition getAccount (worldID id : string) (a : AccountRow) : DbTx (Response Mutation) :=
let* contacts := treads (fun s => world_rows (crm_contacts s) worldID (fun _ c => str_eqb (con_account_id c) id)) in
let* notes := treads (fun s => world_rows (crm_notes s) worldID (fun _ n => str_eqb (nte_account_id n) id)) in
reply 200 (details_value id a (sort_on fst contacts) (sort_on2 (fun r => nte_created_at r.2) fst notes)).

Definition addAccountNote (worldID runID callID id body : string) : DbTx (Response Mutation) :=
let* at_ := stableTime worldID runID callID in
let noteID := stableID "NOTE-" runID callID in
sql_insert "crm_notes" crm_notes set_crm_notes (worldID, noteID) (MkNote id body at_) ;;;
tret (201, note_value (noteID, MkNote id body at_), Some (MkMutation "crm.note_added" id noteID "")).

Definition account_statuses : list string := ["active"; "needs_followup"; "resolved"].
Definition updateAccountStatus (worldID id status : string) (a : AccountRow) : DbTx (Response Mutation) :=
sql_update set_crm_accounts (worldID, id) (with_account_status status) ;;;
tret (200, account_value id (with_account_status status a), Some (MkMutation "crm.status_updated" id "" status)).

(** [crm.Handle]: the id is checked, then the behavior's own argument, then
the account is read. *)
Definition Handle (worldID runID callID behavior : string) (args : list (string * goval)) : DbTx (Response Mutation) :=
if str_eqb behavior "crm.searchAccounts" then searchAccounts worldID args
else if negb (contains ["crm.getAccount"; "crm.addAccountNote"; "crm.updateAccountStatus"] behavior)
then tfail (ErrText ("unknown behavior " +:+ quote behavior))
else
let key := if str_eqb behavior "crm.getAccount" then "id" else "account_id" in
match stringArg args key with
| None => reply_error 400 ("invalid " +:+ key)
| Some id =>
let with_account (k : AccountRow -> DbTx (Response Mutation)) : DbTx (Response Mutation) :=
let* found := sql_get crm_accounts (worldID, id) in
match found with
| None => reply_error 404 "account not found"
| Some a => k a
end in
if str_eqb behavior "crm.addAccountNote" then
match stringArg args "body" with
| None => reply_error 400 "invalid body"
| Some body => with_account (fun _ => addAccountNote worldID runID callID id body)
end
else if str_eqb behavior "crm.updateAccountStatus" then
match as_string (arg args "status") with
| Some status => if contains account_statuses status
             then with_account (updateAccountStatus worldID id status)
             else reply_error 400 "invalid status"
| None => reply_error 400 "invalid status"
end
else with_account (getAccount worldID id)
end.

(** ** The service contract *)

#[global] Instance crm_service : Service Handle.
Proof.
split.
- intros w r c b args s st body s'.
unfold Handle, searchAccounts, getAccount, addAccountNote, updateAccountStatus, reply_error, reply. intros Hrun.
sql_cases; try done.
- intros w r c b args. unfold Handle, searchAccounts, getAccount, addAccountNote, updateAccountStatus. respects_tac.
+ intros s1 u s2 [_ ->]%sql_insert_ok. service_write.
+ apply respects_modify. intros s1. service_write.
Qed.

(** ** Accounts and notes *)

(** The statuses an account can have. *)
Definition account_status_ok (s : DB) : Prop := forall k a, crm_accounts s !! k = Some a -> acc_status a ∈ account_statuses.

(** Notes are only ever added, and an account keeps its customer and its
representative. *)
Definition crm_step (s s' : DB) : Prop :=
(forall k n, crm_notes s !! k = Some n -> crm_notes s' !! k = Some n) /\
(forall k, (fun a => (acc_customer_id a, acc_representative_id a)) <$> crm_accounts s' !! k =
 (fun a => (acc_customer_id a, acc_representative_id a)) <$> crm_accounts s !! k) /\
(account_status_ok s -> account_status_ok s').
#[export] Instance crm_step_preorder : PreOrder crm_step.
Proof.
split; unfold crm_step; [done|]. intros s1 s2 s3 (H1 & H2 & H3) (H4 & H5 & H6).
split_and!; [eauto|intros k; by rewrite H5|auto].
Qed.

Lemma addAccountNote_step w r c id body : respects crm_step (addAccountNote w r c id body).
Proof.
unfold addAccountNote. respects_tac. intros s u s' [Hn ->]%sql_insert_ok. split_and!; [|done|done].
intros k n Hk. db_simpl. rewrite lookup_insert_ne; [done|]. intros <-. congruence.
Qed.

Lemma updateAccountStatus_step w id status a :
status ∈ account_statuses -> respects crm_step (updateAccountStatus w id status a).
Proof.
intros Hst. unfold updateAccountStatus. respects_tac. apply respects_modify. intros s. split_and!; [done| |].
- intros k. db_simpl. rewrite lookup_alter. case_decide as Hk; [subst|done]. by destruct (crm_accounts s !! (w, id)).
- intros Hok k b. db_simpl. rewrite lookup_alter. case_decide as Hk; [subst|apply Hok].
destruct (crm_accounts s !! (w, id)); [|done]. intros [= <-]. done.
Qed.

Lemma crm_handle_step w r c b args : respects crm_step (Handle w r c b args).
Proof.
unfold Handle, searchAccounts, getAccount. respects_tac; try apply addAccountNote_step.
apply updateAccountStatus_step. by apply contains_spec.
Qed.

(** ** Theorems *)

Definition reply_text {M} (r : res err (Response M * DB)) : option goval :=
match r with Ok (_, body, _, _) => Some body | Err _ => None end.

Lemma addAccountNote_eq w r c id body s s1 at_ :
stableTime w r c s = Ok (at_, s1) -> crm_notes s !! (w, stableID "NOTE-" r c) = None ->
addAccountNote w r c id body s =
Ok (201, note_value (stableID "NOTE-" r c, MkNote id body at_),
Some (MkMutation "crm.note_added" id (stableID "NOTE-" r c) ""),
set_crm_notes (insert (w, stableID "NOTE-" r c) (MkNote id body at_)) s).
Proof.
intros Ht Hn. pose proof (stableTime_state _ _ _ _ _ _ Ht) as ->.
unfold addAccountNote, tbind, sql_insert. by rewrite Ht, Hn.
Qed.

(** Whatever the CRM is called with, the notes that were there stay as they
were, an account keeps its customer and representative, and its status
stays one of the three. *)
Theorem crm_accounts_evolve w run call b args s r s' :
Handle w run call b args s = Ok (r, s') ->
(forall k n, crm_notes s !! k = Some n -> crm_notes s' !! k = Some n) /\
(forall k a, crm_accounts s !! k = Some a -> exists status, crm_accounts s' !! k = Some (with_account_status status a)) /\
(account_status_ok s -> account_status_ok s').
Proof.
intros (H1 & H2 & H3)%crm_handle_step. split_and!; [done| |done]. intros k [cu st re] Hk. specialize (H2 k).
rewrite Hk in H2. destruct (crm_accounts s' !! k) as [[cu' st' re']|]; [|done]. injection H2 as -> ->. by exists st'.
Qed.

Definition demo : DB :=
set_crm_accounts (insert ("W-1", "A-1") (MkAccount "C-1" "active" "REP-1"))
(set_worlds (insert "W-1" (MkWorld 7 "" "2026-01-01T00:00:00Z")) (empty_db 0)).
Definition note_args : list (string * goval) := [("account_id", VString "A-1"); ("body", VString "called back")].

Lemma crm_accounts_evolve_witness :
exists r s', Handle "W-1" "R-1" "call-1" "crm.addAccountNote" note_args demo = Ok (r, s') /\
exists status, crm_accounts s' !! ("W-1", "A-1") = Some (with_account_status status (MkAccount "C-1" "active" "REP-1")).
Proof.
eexists _, _. split; [vm_compute; reflexivity|].
eapply (crm_accounts_evolve "W-1" "R-1" "call-1" "crm.addAccountNote" note_args demo); vm_compute; reflexivity.
Defined.

(** A note that was added is read back: after [addAccountNote] answers 201,
[getAccount] of that account lists the note among the ones it listed
before, and reports the account unchanged. *)
Theorem added_note_is_read w r c id body a s s' st reply_body m :
addAccountNote w r c id body s = Ok (st, reply_body, Some m, s') ->
exists n, reply_body = note_value (stableID "NOTE-" r c, n) /\ nte_account_id n = id /\ nte_body n = body /\
exists before after, getAccount w id a s = Ok (200, details_value id a (sort_on fst (world_rows (crm_contacts s) w (fun _ c => str_eqb (con_account_id c) id))) before, None, s) /\
getAccount w id a s' = Ok (200, details_value id a (sort_on fst (world_rows (crm_contacts s) w (fun _ c => str_eqb (con_account_id c) id))) after, None, s') /\
after ≡ₚ (stableID "NOTE-" r c, n) :: before.
Proof.
intros Hrun. unfold addAccountNote in Hrun. sql_inv.
match goal with Ht : stableTime _ _ _ _ = _ |- _ => pose proof (stableTime_state _ _ _ _ _ _ Ht) as -> end.
eexists (MkNote id body _). split; [done|]. split; [done|]. split; [done|].
eexists _, _. split; [done|]. split; [reflexivity|].
unfold sort_on2. rewrite !merge_sort_Permutation. db_simpl. rewrite world_rows_insert by done. cbn. by rewrite !str_eqb_refl.
Qed.

Lemma added_note_is_read_witness :
exists n, nte_body n = "called back" /\ reply_text (addAccountNote "W-1" "R-1" "call-1" "A-1" "called back" demo)
= Some (note_value (stableID "NOTE-" "R-1" "call-1", n)).
Proof.
edestruct (added_note_is_read "W-1" "R-1" "call-1" "A-1" "called back" (MkAccount "C-1" "active" "REP-1") demo)
as (n & Hv & _ & Hb & _).
- vm_compute. reflexivity.
- exists n. split; [exact Hb|]. rewrite <- Hv. vm_compute. reflexivity.
Defined.
End Crm.
