(* ===== verification/Ticketing.v ===== *)
(** * The ticketing service (internal/ticketing/ticketing.go)

    Issues of a project, with comments.  An issue moves from open to
    in_progress to resolved and never otherwise. *)

From S2P Require Export Service.
Open Scope Z_scope.
Open Scope tx_scope.

Module Ticketing.

Record Mutation := MkMutation { Kind : string; IssueID : string; CommentID : string; Status : string }.
Definition omit_empty (key value : string) : list (string * goval) :=
if str_eqb value "" then [] else [(key, VString value)].
Definition mutation_value (m : Mutation) : goval :=
VStruct ([("kind", VString (Kind m))] ++ omit_empty "issue_id" (IssueID m)
 ++ omit_empty "comment_id" (CommentID m) ++ omit_empty "status" (Status m)).

Definition validPriority (priority : string) : bool :=
str_eqb priority "low" || str_eqb priority "medium" || str_eqb priority "high".

(** [scanIssue] *)
Definition issue_fields (id : string) (i : IssueRow) : list (string * goval) :=
[("id", VString id); ("project_id", VString (iss_project_id i)); ("account_id", VString (iss_account_id i));
 ("title", VString (iss_title i)); ("status", VString (iss_status i)); ("priority", VString (iss_priority i))].
Definition issue_value (id : string) (i : IssueRow) : goval := VMap (issue_fields id i).
Definition comment_value (id : string) (c : CommentRow) : goval :=
VMap [("id", VString id); ("issue_id", VString (cmt_issue_id c)); ("body", VString (cmt_body c));
("created_at", VString (cmt_created_at c))].
Definition with_issue_status (status : string) (i : IssueRow) : IssueRow :=
MkIssue (iss_project_id i) (iss_account_id i) (iss_title i) status (iss_priority i).

Definition createIssue (worldID runID callID : string) (args : list (string * goval)) : DbTx (Response Mutation) :=
match stringArg args "project_id", stringArg args "account_id", stringArg args "title", stringArg args "priority" with
| Some projectID, Some accountID, Some title, Some priority =>
if negb (validPriority priority) then reply_error 400 "invalid issue arguments"
else
let* project := sql_get ticket_projects (worldID, projectID) in
if bool_decide (project = None) then reply_error 404 "project not found"
else
let* account := sql_get crm_accounts (worldID, accountID) in
if bool_decide (account = None) then reply_error 404 "account not found"
else
let issueID := stableID "ISSUE-" runID callID in
let issue := MkIssue projectID accountID title "open" priority in
sql_insert "ticket_issues" ticket_issues set_ticket_issues (worldID, issueID) issue ;;;
tret (201, issue_value issueID issue, Some (MkMutation "ticket.issue_created" issueID "" ""))
| _, _, _, _ => reply_error 400 "invalid issue arguments"
end.

Definition getIssue (worldID : string) (args : list (string * goval)) : DbTx (Response Mutation) :=
match stringArg args "id" with
| None => reply_error 400 "invalid id"
| Some id =>
let* found := sql_get ticket_issues (worldID, id) in
match found with
| None => reply_error 404 "issue not found"
| Some issue =>
let* comments := treads (fun s => world_rows (ticket_comments s) worldID (fun _ c => str_eqb (cmt_issue_id c) id)) in
reply 200 (VMap (issue_fields id issue ++
[("comments", VSlice (map (fun r => comment_value r.1 r.2) (sort_on2 (fun r => cmt_created_at r.2) fst comments)))]))
end
end.

Definition search_text (id : string) (i : IssueRow) : string :=
id +:+ " " +:+ iss_project_id i +:+ " " +:+ iss_account_id i +:+ " " +:+ iss_title i +:+ " " +:+ iss_status i +:+ " " +:+ iss_priority i.
Definition searchIssues (worldID : string) (args : list (string * goval)) : DbTx (Response Mutation) :=
match stringArg args "query" with
| None => reply_error 400 "invalid query"
| Some query =>
let* rows := treads (fun s => world_rows (ticket_issues s) worldID (fun id i =>
       sql_instr_pos (sql_lower (search_text id i)) (sql_lower (trim_space query)))) in
reply 200 (VSlice (map (fun r => issue_value r.1 r.2) (sort_on fst rows)))
end.

Definition addComment (worldID runID callID : string) (args : list (string * goval)) : DbTx (Response Mutation) :=
match stringArg args "issue_id", stringArg args "body" with
| Some issueID, Some body =>
let* found := sql_get ticket_issues (worldID, issueID) in
match found with
| None => reply_error 404 "issue not found"
| Some _ =>
let commentID := stableID "COMMENT-" runID callID in
let* at_ := stableTime worldID runID callID in
let comment := MkComment issueID body at_ in
sql_insert "ticket_comments" ticket_comments set_ticket_comments (worldID, commentID) comment ;;;
tret (201, comment_value commentID comment, Some (MkMutation "ticket.comment_added" issueID commentID ""))
end
| _, _ => reply_error 400 "invalid comment arguments"
end.

Definition issue_statuses : list string := ["open"; "in_progress"; "resolved"].
Definition transition_allowed (current target : string) : bool :=
(str_eqb current "open" && str_eqb target "in_progress") || (str_eqb current "in_progress" && str_eqb target "resolved").

Definition transitionIssue (worldID : string) (args : list (string * goval)) : DbTx (Response Mutation) :=
match stringArg args "issue_id", stringArg args "status" with
| Some issueID, Some target =>
if negb (contains issue_statuses target) then reply_error 400 "invalid transition arguments"
else
let* found := sql_get ticket_issues (worldID, issueID) in
match found with
| None => reply_error 404 "issue not found"
| Some issue =>
if negb (transition_allowed (iss_status issue) target) then reply_error 409 "invalid issue transition"
else
sql_update set_ticket_issues (worldID, issueID) (with_issue_status target) ;;;
tret (200, issue_value issueID (with_issue_status target issue),
      Some (MkMutation "ticket.issue_transitioned" issueID "" target))
end
| _, _ => reply_error 400 "invalid transition arguments"
end.

(** [ticketing.Handle] *)
Definition Handle (worldID runID callID behavior : string) (args : list (string * goval)) : DbTx (Response Mutation) :=
if str_eqb behavior "ticket.createIssue" then createIssue worldID runID callID args
else if str_eqb behavior "ticket.getIssue" then getIssue worldID args
else if str_eqb behavior "ticket.searchIssues" then searchIssues worldID args
else if str_eqb behavior "ticket.addComment" then addComment worldID runID callID args
else if str_eqb behavior "ticket.transitionIssue" then transitionIssue worldID args
else tfail (ErrText ("unknown ticket behavior " +:+ quote behavior)).

(** ** The service contract *)

#[global] Instance ticketing_service : Service Handle.
Proof.
split.
- intros w r c b args s st body s'.
unfold Handle, createIssue, getIssue, searchIssues, addComment, transitionIssue, reply_error, reply. intros Hrun.
sql_cases; try done.
- intros w r c b args. unfold Handle, createIssue, getIssue, searchIssues, addComment, transitionIssue. respects_tac;
try (intros ? ? ? [_ ->]%sql_insert_ok; service_write).
apply respects_modify. intros ?. service_write.
Qed.

(** ** The life of an issue *)

(** One move of an issue. *)
Inductive issue_moves : string -> string -> Prop :=
| issue_started : issue_moves "open" "in_progress"
| issue_resolved : issue_moves "in_progress" "resolved".

Lemma transition_allowed_spec current target : transition_allowed current target = true <-> issue_moves current target.
Proof.
unfold transition_allowed. rewrite orb_true_iff, !andb_true_iff, !str_eqb_true. split.
- intros [[-> ->]|[-> ->]]; constructor.
- intros []; tauto.
Qed.

(** The rank of a status: every move raises it, so there are at most two. *)
Definition issue_rank (status : string) : Z :=
if str_eqb status "open" then 0 else if str_eqb status "in_progress" then 1 else 2.
Lemma issue_moves_rank a b : issue_moves a b -> issue_rank b = issue_rank a + 1.
Proof. by intros []. Qed.

(** What a call may do to issues and comments: an issue keeps everything but
its status, which moves at most once, and no issue or comment goes away. *)
Definition ticket_step (s s' : DB) : Prop :=
(forall k i, ticket_issues s !! k = Some i ->
 exists status, ticket_issues s' !! k = Some (with_issue_status status i) /\ rtc issue_moves (iss_status i) status) /\
(forall k c, ticket_comments s !! k = Some c -> ticket_comments s' !! k = Some c) /\
(forall k i, ticket_issues s !! k = None -> ticket_issues s' !! k = Some i -> rtc issue_moves "open" (iss_status i) /\ iss_status i ∈ issue_statuses).

Lemma with_issue_status_id i : with_issue_status (iss_status i) i = i.
Proof. by destruct i. Qed.

Lemma issue_moves_status a b : rtc issue_moves a b -> a ∈ issue_statuses -> b ∈ issue_statuses.
Proof. induction 1 as [|x y z [] _ IH]; [done|intros _; apply IH; set_solver..]. Qed.

#[export] Instance ticket_step_preorder : PreOrder ticket_step.
Proof.
split; unfold ticket_step.
- intros s. split_and!; [|done|congruence]. intros k i Hi. exists (iss_status i). by rewrite with_issue_status_id.
- intros s1 s2 s3 (H1 & H2 & H3) (H4 & H5 & H6). split_and!; [|auto|].
+ intros k i Hi. destruct (H1 _ _ Hi) as (st1 & Hi1 & Hm1). destruct (H4 _ _ Hi1) as (st2 & Hi2 & Hm2).
exists st2. split; [exact Hi2|]. by etransitivity.
+ intros k i Hn Hi. destruct (ticket_issues s2 !! k) as [i2|] eqn:H2'; [|by apply (H6 k)].
destruct (H3 _ _ Hn H2') as [Hr Hs]. destruct (H4 _ _ H2') as (st & Hi' & Hm). rewrite Hi' in Hi. injection Hi as <-. cbn.
split; [by etransitivity|by eapply issue_moves_status].
Qed.

Lemma ticket_insert_comment w id c s : ticket_comments s !! (w, id) = None ->
ticket_step s (set_ticket_comments (insert (w, id) c) s).
Proof.
intros Hn. split_and!.
- intros k i Hi. exists (iss_status i). by rewrite with_issue_status_id.
- intros k c' Hc. db_simpl. rewrite lookup_insert_ne; [done|]. intros <-. congruence.
- intros k i Hi1 Hi2. db_simpl. congruence.
Qed.

Lemma ticket_insert_issue w id i s : ticket_issues s !! (w, id) = None -> iss_status i = "open" ->
ticket_step s (set_ticket_issues (insert (w, id) i) s).
Proof.
intros Hn Ho. split_and!; [|done|].
- intros k i' Hi. exists (iss_status i'). rewrite with_issue_status_id. split; [|done].
db_simpl. rewrite lookup_insert_ne; [done|]. intros <-. congruence.
- intros k i' Hi1. db_simpl. rewrite lookup_insert. case_decide; [|congruence]. intros [= <-]. rewrite Ho. split; [done|set_solver].
Qed.

Lemma ticket_transition w id target s issue : ticket_issues s !! (w, id) = Some issue ->
transition_allowed (iss_status issue) target = true ->
ticket_step s (set_ticket_issues (alter (with_issue_status target) (w, id)) s).
Proof.
intros Hi Ht%transition_allowed_spec. split_and!; [|done|].
- intros k i Hk. db_simpl. rewrite lookup_alter. case_decide as He.
+ subst k. rewrite Hi in Hk. injection Hk as ->. exists target. rewrite Hi. split; [done|]. by apply rtc_once.
+ exists (iss_status i). by rewrite with_issue_status_id.
- intros k i Hn. db_simpl. rewrite lookup_alter. case_decide as He; [subst k; by rewrite Hn|congruence].
Qed.

Lemma transitionIssue_step w args : respects ticket_step (transitionIssue w args).
Proof.
intros s x s'. unfold transitionIssue, reply_error, reply. intros Hrun. sql_cases; bool_inv; try reflexivity.
by eapply ticket_transition.
Qed.

Lemma ticket_handle_step w r c b args : respects ticket_step (Handle w r c b args).
Proof.
unfold Handle, createIssue, getIssue, searchIssues, addComment. respects_tac; try apply transitionIssue_step.
- intros ? ? ? [Hn ->]%sql_insert_ok. by apply ticket_insert_issue.
- intros ? ? ? [Hn ->]%sql_insert_ok. by apply ticket_insert_comment.
Qed.

(** ** Theorems *)

(** The life of an issue: no call removes an issue or a comment or edits
what they say; a call moves an existing issue only forward along open,
in_progress, resolved, and an issue it creates starts open. *)
Theorem issue_lifecycle w run call b args s r s' :
Handle w run call b args s = Ok (r, s') ->
(forall k i, ticket_issues s !! k = Some i ->
 exists status, ticket_issues s' !! k = Some (with_issue_status status i) /\ rtc issue_moves (iss_status i) status /\
      issue_rank (iss_status i) <= issue_rank status) /\
(forall k c, ticket_comments s !! k = Some c -> ticket_comments s' !! k = Some c) /\
(forall k i, ticket_issues s !! k = None -> ticket_issues s' !! k = Some i -> rtc issue_moves "open" (iss_status i)).
Proof.
intros (H1 & H2 & H3)%ticket_handle_step. split_and!; [|done|].
- intros k i Hi. destruct (H1 _ _ Hi) as (st & Hi' & Hm). exists st. split_and!; [done..|].
clear Hi'. induction Hm as [|a b' c Hab _ IH]; [lia|]. apply issue_moves_rank in Hab. lia.
- intros k i Hn Hi. by apply (H3 k).
Qed.

Definition demo : DB :=
set_ticket_issues (insert ("W-1", "ISS-1") (MkIssue "PROJ" "A-1" "duplicate charge" "open" "high")) (empty_db 0).
Definition move_args (target : string) : list (string * goval) := [("issue_id", VString "ISS-1"); ("status", VString target)].

Lemma issue_lifecycle_witness :
exists r s', Handle "W-1" "R-1" "call-1" "ticket.transitionIssue" (move_args "in_progress") demo = Ok (r, s') /\
forall k c, ticket_comments demo !! k = Some c -> ticket_comments s' !! k = Some c.
Proof.
eexists _, _. split; [vm_compute; reflexivity|].
eapply (issue_lifecycle "W-1" "R-1" "call-1" "ticket.transitionIssue" (move_args "in_progress") demo); vm_compute; reflexivity.
Defined.

(** [transitionIssue] on an issue that exists: an allowed move is made and
answered with the moved issue, and any other is refused with 409 and
changes nothing. *)
Theorem transitionIssue_spec w args s id target issue :
stringArg args "issue_id" = Some id -> stringArg args "status" = Some target -> target ∈ issue_statuses ->
ticket_issues s !! (w, id) = Some issue ->
transitionIssue w args s =
if transition_allowed (iss_status issue) target
then Ok (200, issue_value id (with_issue_status target issue), Some (MkMutation "ticket.issue_transitioned" id "" target),
 set_ticket_issues (alter (with_issue_status target) (w, id)) s)
else Ok (409, VMap [("error", VString "invalid issue transition")], None, s).
Proof.
intros Hid Ht Hst%contains_spec Hi. unfold transitionIssue. rewrite Hid, Ht, Hst. cbn [negb].
unfold tbind at 1, sql_get, treads. rewrite Hi. by destruct (transition_allowed _ _).
Qed.

Lemma transitionIssue_spec_witness :
transitionIssue "W-1" (move_args "resolved") demo = Ok (409, VMap [("error", VString "invalid issue transition")], None, demo).
Proof.
exact (transitionIssue_spec "W-1" (move_args "resolved") demo "ISS-1" "resolved" (MkIssue "PROJ" "A-1" "duplicate charge" "open" "high")
eq_refl eq_refl ltac:(set_solver) eq_refl).
Defined.
End Ticketing.
