(* ===== verification/Messaging.v ===== *)
(** * The messaging service (internal/messaging/messaging.go)

    Workspaces have channels and channels have messages; messages are posted
    and never edited or removed. *)

From S2P Require Export Service.
Open Scope Z_scope.
Open Scope tx_scope.

Module Messaging.

Record Mutation := MkMutation { MessageID : string; ChannelID : string }.
Definition mutation_value (m : Mutation) : goval :=
VStruct [("message_id", VString (MessageID m)); ("channel_id", VString (ChannelID m))].

Definition message_value (id : string) (m : MessageRow) : goval :=
VMap [("id", VString id); ("channel_id", VString (msg_channel_id m)); ("body", VString (msg_body m));
("created_at", VString (msg_created_at m))].

Definition listChannels (worldID : string) (args : list (string * goval)) : DbTx (Response Mutation) :=
match as_string (arg args "id") with
| Some id =>
if str_eqb id "" then reply_error 400 "invalid workspace id"
else
let* workspace := sql_get message_workspaces (worldID, id) in
if bool_decide (workspace = None) then reply_error 404 "workspace not found"
else
let* rows := treads (fun s => world_rows (message_channels s) worldID (fun _ c => str_eqb (chn_workspace_id c) id)) in
reply 200 (VSlice (map (fun r => VMap [("id", VString r.1); ("workspace_id", VString id); ("name", VString (chn_name r.2))])
                  (sort_on fst rows)))
| None => reply_error 400 "invalid workspace id"
end.

Definition channel_messages (s : DB) (worldID id : string) : list (string * MessageRow) :=
sort_on2 (fun r => msg_created_at r.2) fst (world_rows (message_messages s) worldID (fun _ m => str_eqb (msg_channel_id m) id)).
Definition readChannel (worldID : string) (args : list (string * goval)) : DbTx (Response Mutation) :=
match as_string (arg args "id") with
| Some id =>
if str_eqb id "" then reply_error 400 "invalid channel id"
else
let* found := sql_get message_channels (worldID, id) in
match found with
| None => reply_error 404 "channel not found"
| Some c =>
let* messages := treads (fun s => channel_messages s worldID id) in
reply 200 (VMap [("id", VString id); ("workspace_id", VString (chn_workspace_id c)); ("name", VString (chn_name c));
               ("messages", VSlice (map (fun r => message_value r.1 r.2) messages))])
end
| None => reply_error 400 "invalid channel id"
end.

Definition postMessage (worldID runID callID : string) (args : list (string * goval)) : DbTx (Response Mutation) :=
match stringArg args "channel_id", stringArg args "body" with
| Some channelID, Some body =>
let* channel := sql_get message_channels (worldID, channelID) in
if bool_decide (channel = None) then reply_error 404 "channel not found"
else
let* '(base, zone) := world_base worldID in
let messageID := stableID "MSG-" runID callID in
let message := MkMessage channelID body (format_rfc3339 (base + 24 * hour) zone) in
sql_insert "message_messages" message_messages set_message_messages (worldID, messageID) message ;;;
tret (201, message_value messageID message, Some (MkMutation messageID channelID))
| _, _ => reply_error 400 "invalid message arguments"
end.

(** [messaging.Handle] *)
Definition Handle (worldID runID callID behavior : string) (args : list (string * goval)) : DbTx (Response Mutation) :=
if str_eqb behavior "messaging.listChannels" then listChannels worldID args
else if str_eqb behavior "messaging.readChannel" then readChannel worldID args
else if str_eqb behavior "messaging.postMessage" then postMessage worldID runID callID args
else tfail (ErrText ("unknown messaging behavior " +:+ quote behavior)).

(** ** The service contract *)

#[global] Instance messaging_service : Service Handle.
Proof.
split.
- intros w r c b args s st body s'. unfold Handle, listChannels, readChannel, postMessage, reply_error, reply. intros Hrun.
sql_cases; try done.
- intros w r c b args. unfold Handle, listChannels, readChannel, postMessage. respects_tac.
intros ? ? ? [_ ->]%sql_insert_ok. service_write.
Qed.

(** ** Messages *)

Definition message_step (s s' : DB) : Prop := message_messages s ⊆ message_messages s'.
#[export] Instance message_step_preorder : PreOrder message_step.
Proof. split; unfold message_step; [by intros ?|]. intros ???. apply transitivity. Qed.

Lemma message_handle_step w r c b args : respects message_step (Handle w r c b args).
Proof.
unfold Handle, listChannels, readChannel, postMessage. respects_tac.
intros ? ? ? [Hn ->]%sql_insert_ok. by apply insert_subseteq.
Qed.

(** ** Theorems *)

(** Messages are append-only and a posted message is read back: a call never
edits or drops a message, and after a post the channel's messages are
those before it and the new one. *)
Theorem messages_append_only w run call b args s st body m s' :
Handle w run call b args s = Ok (st, body, m, s') ->
message_messages s ⊆ message_messages s' /\
forall mm, m = Some mm -> st = 201 /\ exists row, body = message_value (MessageID mm) row /\ msg_channel_id row = ChannelID mm /\
channel_messages s' w (ChannelID mm) ≡ₚ (MessageID mm, row) :: channel_messages s w (ChannelID mm) /\
forall other, other <> ChannelID mm -> channel_messages s' w other ≡ₚ channel_messages s w other.
Proof.
intros Hrun. split; [by apply message_handle_step in Hrun|]. intros mm ->.
unfold Handle, listChannels, readChannel, postMessage, reply_error, reply in Hrun. sql_cases.
match goal with Hb : world_base _ _ = _ |- _ => pose proof (world_base_state _ _ _ _ Hb) as -> end.
split; [done|]. eexists. split; [done|]. split; [done|].
unfold channel_messages, sort_on2. setoid_rewrite merge_sort_Permutation. db_simpl. split.
- rewrite world_rows_insert by done. cbn. by rewrite !str_eqb_refl.
- intros other Hne. rewrite world_rows_insert by done. cbn.
rewrite (proj2 (str_eqb_false _ _) (not_eq_sym Hne)), andb_false_r. done.
Qed.

Definition demo : DB :=
set_message_channels (insert ("W-1", "CH-1") (MkChannel "WS-1" "support"))
(set_worlds (insert "W-1" (MkWorld 7 "" "2026-01-01T00:00:00Z")) (empty_db 0)).

Lemma messages_append_only_witness :
exists r s', Handle "W-1" "R-1" "call-1" "messaging.postMessage" [("channel_id", VString "CH-1"); ("body", VString "done")] demo = Ok (r, s') /\
message_messages demo ⊆ message_messages s'.
Proof.
eexists (_, _, _), _. split; [vm_compute; reflexivity|].
eapply (messages_append_only "W-1" "R-1" "call-1" "messaging.postMessage" [("channel_id", VString "CH-1"); ("body", VString "done")] demo).
vm_compute. reflexivity.
Defined.
End Messaging.
