(* ===== verification/Registry.v ===== *)
(** * The behavior registry (internal/behavior/registry.go)

    The dispatcher looks behaviors up by key.  The registry of the program
    binds the four services; every handler it can return keeps the service
    contract and the integrity of the world's data. *)

From S2P Require Export Billing Crm Ticketing Messaging.
Open Scope Z_scope.
Open Scope tx_scope.

(** [behavior.Registry]; a nil handler is [None]. *)
Abbreviation Registry := (gmap string Handler).
Definition NewRegistry : Registry := ∅.

Definition key_ok (key : string) : bool :=
  match split_on 46 key with
  | [service; name] => negb (str_eqb service "") && negb (str_eqb name "")
  | _ => false
  end.

(** [Registry.Register] *)
Definition Register (r : Registry) (key : string) (handler : option Handler) : res err Registry :=
  match handler with
  | Some h =>
      if negb (key_ok key) then Err (ErrText ("invalid behavior registration " +:+ quote key))
      else match r !! key with
           | Some _ => Err (ErrText ("duplicate behavior registration " +:+ quote key))
           | None => Ok (<[key := h]> r)
           end
  | None => Err (ErrText ("invalid behavior registration " +:+ quote key))
  end.

(** [Registry.Lookup] and [Registry.Keys] *)
Definition Lookup (r : Registry) (key : string) : option Handler := r !! key.
Definition Keys (r : Registry) : list string := sort_strings (map fst (map_to_list r)).

(** A service as a [Handler]: its mutation record becomes an [any]. *)
Definition as_handler {M} (value : M -> goval)
    (h : string -> string -> string -> string -> list (string * goval) -> DbTx (Response M)) : Handler :=
  fun worldID runID callID key args =>
    let* '(status, body, mutation) := h worldID runID callID key args in
    tret (status, body, value <$> mutation).

Section Builtin.
Context `{!SqlBind}.

Definition billingHandler : Handler := as_handler Billing.mutation_value Billing.Handle.
Definition modules : list (list string * Handler) :=
[(["billing.getCustomer"; "billing.listInvoices"; "billing.listCharges"; "billing.getCharge"; "billing.createRefund";
 "billing.getSubscription"], billingHandler);
 (["crm.getAccount"; "crm.searchAccounts"; "crm.addAccountNote"; "crm.updateAccountStatus"],
 as_handler Crm.mutation_value Crm.Handle);
 (["ticket.createIssue"; "ticket.getIssue"; "ticket.searchIssues"; "ticket.addComment"; "ticket.transitionIssue"],
 as_handler Ticketing.mutation_value Ticketing.Handle);
 (["messaging.listChannels"; "messaging.readChannel"; "messaging.postMessage"],
 as_handler Messaging.mutation_value Messaging.Handle)].

(** [Register] for each key in turn; the code panics where this is [Err]. *)
Fixpoint register_all (r : Registry) (bindings : list (string * Handler)) : res err Registry :=
match bindings with
| [] => Ok r
| (key, h) :: rest => match Register r key (Some h) with
          | Ok r' => register_all r' rest
          | Err e => Err e
          end
end.
Definition bindings : list (string * Handler) := flat_map (fun m => map (fun key => (key, m.2)) m.1) modules.
Definition Builtin : res err Registry := register_all NewRegistry bindings.

(** ** Handlers keep the contract *)

#[export] Instance as_handler_service {M} (value : M -> goval) h : Service h -> Service (as_handler value h).
Proof.
intros Hs. split.
- intros w r c b args s st body s'. unfold as_handler. intros Hrun.
apply tbind_ok in Hrun as ([[st' body'] m] & s1 & H1 & H2). unfold tret in H2. injection H2 as -> -> Hm ->.
destruct m; [done|]. by eapply (service_reads (h := h)).
- intros w r c b args. unfold as_handler. apply respects_bind; [apply _|apply service_writes|].
intros [[st body] m]. apply respects_ret, _.
Qed.

Lemma register_all_lookup r bs r' key h :
register_all r bs = Ok r' -> r' !! key = Some h -> r !! key = Some h \/ (key, h) ∈ bs.
Proof.
revert r. induction bs as [|[k1 h1] bs IH]; intros r; cbn [register_all].
- intros [= ->]. by left.
- unfold Register. destruct (key_ok k1); cbn [negb]; [|done]. destruct (r !! k1); [done|].
intros Hr Hk. destruct (IH _ Hr Hk) as [Hi|Hi]; [|by right; right].
apply lookup_insert_Some in Hi as [[-> ->]|[_ Hi]]; [right; left|by left].
Qed.

Lemma register_all_binds r bs r' key h : register_all r bs = Ok r' -> (key, h) ∈ bs -> r' !! key = Some h.
Proof.
revert r. induction bs as [|[k1 h1] bs IH]; intros r; cbn [register_all]; [by intros _ ?%elem_of_nil|].
unfold Register. destruct (key_ok k1); cbn [negb]; [|done]. destruct (r !! k1) eqn:Hk1; [done|].
intros Hr [[= -> ->]|Hin]%elem_of_cons; [|by eapply IH].
clear IH. revert Hr. assert (<[k1:=h1]> r !! k1 = Some h1) as Hl by apply lookup_insert_eq.
revert Hl. generalize (<[k1:=h1]> r). clear. induction bs as [|[k2 h2] bs IH]; intros r Hl; cbn [register_all].
- intros [= <-]. done.
- unfold Register. destruct (key_ok k2); cbn [negb]; [|done]. destruct (r !! k2) eqn:Hk2; [done|].
apply IH. rewrite lookup_insert_ne; [done|]. congruence.
Qed.

Lemma Builtin_lookup r key h : Builtin = Ok r -> Lookup r key = Some h -> (key, h) ∈ bindings.
Proof.
intros Hb Hk. destruct (register_all_lookup _ _ _ _ _ Hb Hk) as [Hn|]; [|done].
unfold NewRegistry in Hn. by rewrite lookup_empty in Hn.
Qed.

Lemma bindings_handlers key h : (key, h) ∈ bindings ->
h = billingHandler \/ h = as_handler Crm.mutation_value Crm.Handle \/
h = as_handler Ticketing.mutation_value Ticketing.Handle \/ h = as_handler Messaging.mutation_value Messaging.Handle.
Proof.
unfold bindings, modules. cbn. rewrite !elem_of_cons, elem_of_nil.
intros Hin. decompose [or] Hin; try done; simplify_eq; tauto.
Qed.

(** ** The integrity of a world *)

Definition issue_status_ok (s : DB) : Prop := forall k i, ticket_issues s !! k = Some i -> iss_status i ∈ Ticketing.issue_statuses.
Definition world_integrity (s : DB) : Prop :=
Billing.books_balanced s /\ Crm.account_status_ok s /\ issue_status_ok s.

Lemma billing_frame w r c b args :
respects (same (fun s => (crm_accounts s, ticket_issues s))) (Billing.Handle w r c b args).
Proof.
unfold Billing.Handle, Billing.list_invoices, Billing.list_charges, Billing.createRefund. respects_tac; frame_write.
Qed.
Lemma crm_frame w r c b args :
respects (same (fun s => (charges s, refunds s, ticket_issues s))) (Crm.Handle w r c b args).
Proof.
unfold Crm.Handle, Crm.searchAccounts, Crm.getAccount, Crm.addAccountNote, Crm.updateAccountStatus. respects_tac; frame_write.
Qed.
Lemma ticketing_frame w r c b args :
respects (same (fun s => (charges s, refunds s, crm_accounts s))) (Ticketing.Handle w r c b args).
Proof.
unfold Ticketing.Handle, Ticketing.createIssue, Ticketing.getIssue, Ticketing.searchIssues, Ticketing.addComment,
Ticketing.transitionIssue. respects_tac; frame_write.
Qed.
Lemma messaging_frame w r c b args :
respects (same (fun s => (charges s, refunds s, crm_accounts s, ticket_issues s))) (Messaging.Handle w r c b args).
Proof.
unfold Messaging.Handle, Messaging.listChannels, Messaging.readChannel, Messaging.postMessage. respects_tac; frame_write.
Qed.

(** Integrity looks at four tables only. *)
Lemma books_same s s' : charges s' = charges s -> refunds s' = refunds s -> Billing.books_balanced s -> Billing.books_balanced s'.
Proof. unfold Billing.books_balanced, Billing.charge_balanced. by intros -> ->. Qed.
Lemma accounts_same s s' : crm_accounts s' = crm_accounts s -> Crm.account_status_ok s -> Crm.account_status_ok s'.
Proof. unfold Crm.account_status_ok. by intros ->. Qed.
Lemma issues_same s s' : ticket_issues s' = ticket_issues s -> issue_status_ok s -> issue_status_ok s'.
Proof. unfold issue_status_ok. by intros ->. Qed.

Lemma ticket_step_statuses s s' : Ticketing.ticket_step s s' -> issue_status_ok s -> issue_status_ok s'.
Proof.
intros (H1 & _ & H3) Hok k i Hi. destruct (ticket_issues s !! k) as [i0|] eqn:Hk.
- destruct (H1 _ _ Hk) as (st & Hi' & Hm). rewrite Hi' in Hi. injection Hi as <-. cbn.
eapply Ticketing.issue_moves_status; [done|]. by eapply Hok.
- by apply (H3 _ _ Hk).
Qed.

Lemma billing_integrity w r c b args : respects (keeps world_integrity) (Billing.Handle w r c b args).
Proof.
intros s x s' Hr (H1 & H2 & H3). pose proof (billing_frame _ _ _ _ _ _ _ _ Hr) as Hf. unfold same in Hf. injection Hf as Ha Hi.
split_and!; [by eapply Billing.Handle_balanced|by eapply accounts_same|by eapply issues_same].
Qed.
Lemma crm_integrity w r c b args : respects (keeps world_integrity) (Crm.Handle w r c b args).
Proof.
intros s x s' Hr (H1 & H2 & H3). pose proof (crm_frame _ _ _ _ _ _ _ _ Hr) as Hf. unfold same in Hf. injection Hf as Hc Hre Hi.
split_and!; [by eapply books_same| |by eapply issues_same]. by eapply Crm.crm_handle_step.
Qed.
Lemma ticketing_integrity w r c b args : respects (keeps world_integrity) (Ticketing.Handle w r c b args).
Proof.
intros s x s' Hr (H1 & H2 & H3). pose proof (ticketing_frame _ _ _ _ _ _ _ _ Hr) as Hf. unfold same in Hf. injection Hf as Hc Hre Ha.
split_and!; [by eapply books_same|by eapply accounts_same|].
eapply ticket_step_statuses; [by eapply Ticketing.ticket_handle_step|done].
Qed.
Lemma messaging_integrity w r c b args : respects (keeps world_integrity) (Messaging.Handle w r c b args).
Proof.
intros s x s' Hr (H1 & H2 & H3). pose proof (messaging_frame _ _ _ _ _ _ _ _ Hr) as Hf. unfold same in Hf. injection Hf as Hc Hre Ha Hi.
split_and!; [by eapply books_same|by eapply accounts_same|by eapply issues_same].
Qed.

Lemma as_handler_respects {M} (R : DB -> DB -> Prop) `{!PreOrder R} (value : M -> goval) h w r c b args :
respects R (h w r c b args) -> respects R (as_handler value h w r c b args).
Proof. intros Hh. unfold as_handler. apply respects_bind; [apply _|done|]. intros [[st body] m]. apply respects_ret, _. Qed.

(** ** Registration *)

Lemma register_all_ok r bs :
forallb key_ok (map fst bs) = true -> NoDup (map fst bs) -> (forall key, key ∈ map fst bs -> r !! key = None) ->
exists r', register_all r bs = Ok r' /\ map fst (map_to_list r') ≡ₚ map fst bs ++ map fst (map_to_list r).
Proof.
revert r. induction bs as [|[k1 h1] bs IH]; intros r Hk Hnd Hfresh; cbn [register_all map]; [by eauto|].
cbn in Hk. apply andb_true_iff in Hk as [Hk1 Hk]. apply NoDup_cons in Hnd as [Hn1 Hnd].
assert (r !! k1 = None) as Hr1 by (apply Hfresh; left).
destruct (IH (<[k1 := h1]> r) Hk Hnd) as (r' & Hr' & Hp).
{ intros key Hin. rewrite lookup_insert_ne by (intros <-; done). apply Hfresh. by right. }
exists r'. unfold Register. rewrite Hk1, Hr1. cbn [negb]. split; [done|].
rewrite Hp, (map_to_list_insert r) by done. cbn. by rewrite Permutation_middle.
Qed.

Lemma bindings_keys : map fst bindings =
["billing.getCustomer"; "billing.listInvoices"; "billing.listCharges"; "billing.getCharge"; "billing.createRefund";
 "billing.getSubscription"; "crm.getAccount"; "crm.searchAccounts"; "crm.addAccountNote"; "crm.updateAccountStatus";
 "ticket.createIssue"; "ticket.getIssue"; "ticket.searchIssues"; "ticket.addComment"; "ticket.transitionIssue";
 "messaging.listChannels"; "messaging.readChannel"; "messaging.postMessage"].
Proof. reflexivity. Qed.

Lemma Builtin_ok : exists r, Builtin = Ok r /\ map fst (map_to_list r) ≡ₚ map fst bindings.
Proof.
destruct (register_all_ok NewRegistry bindings) as (r & Hr & Hp).
- rewrite bindings_keys. reflexivity.
- rewrite bindings_keys. by apply (bool_decide_unpack _).
- intros key _. apply lookup_empty.
- exists r. split; [done|]. rewrite Hp. unfold NewRegistry. by rewrite map_to_list_empty, app_nil_r.
Qed.

(** ** Theorems *)

Lemma Builtin_handlers r key h : Builtin = Ok r -> Lookup r key = Some h ->
Service h /\ forall w run call b args, respects (keeps world_integrity) (h w run call b args).
Proof.
intros Hb Hk. pose proof (bindings_handlers _ _ (Builtin_lookup _ _ _ Hb Hk)) as Hh.
destruct Hh as [-> | [-> | [-> | ->]]]; (split; [apply as_handler_service, _|]); intros; apply as_handler_respects; try apply _;
[apply billing_integrity|apply crm_integrity|apply ticketing_integrity|apply messaging_integrity].
Qed.

(** Every handler the built-in registry returns, under any key and called
with anything, leaves the database alone unless it reports a mutation,
writes only the service tables of its own world, and keeps the world's
integrity: balanced books and legal account and issue statuses. *)
Theorem builtin_handlers_sound r key h w run call b args s st body m s' :
Builtin = Ok r -> Lookup r key = Some h -> h w run call b args s = Ok (st, body, m, s') ->
(m = None -> s' = s) /\ service_step w s s' /\ (world_integrity s -> world_integrity s').
Proof.
intros Hb Hk Hrun. destruct (Builtin_handlers _ _ _ Hb Hk) as [Hs Hi]. split_and!.
- intros ->. by eapply service_reads.
- by eapply service_writes.
- by eapply Hi.
Qed.

(** The built-in registration never fails (the code would panic), and binds
exactly the eighteen behaviors of the four services, in sorted order. *)
Theorem builtin_keys : exists r, Builtin = Ok r /\ Keys r = sort_strings (map fst bindings) /\ length (Keys r) = 18%nat /\
forall key, is_Some (Lookup r key) <-> key ∈ map fst bindings.
Proof.
destruct Builtin_ok as (r & Hr & Hp). exists r. split_and!.
- done.
- by apply sort_strings_permutation.
- unfold Keys, sort_strings. by rewrite merge_sort_Permutation, Hp, bindings_keys.
- intros key. unfold Lookup. rewrite <- Hp, list_elem_of_fmap. split.
+ intros [h Hh]. exists (key, h). split; [reflexivity|]. apply elem_of_map_to_list. exact Hh.
+ intros ([k h] & -> & Hin%elem_of_map_to_list). by exists h.
Qed.
End Builtin.

Lemma builtin_handlers_sound_witness :
  exists r st body m s', Builtin = Ok r /\
    billingHandler "W-1" "R-1" "call-1" "billing.createRefund" (Billing.demo_args 300) Billing.demo = Ok (st, body, m, s') /\
    service_step "W-1" Billing.demo s'.
Proof.
  destruct Builtin_ok as (r & Hr & _).
  destruct (billingHandler "W-1" "R-1" "call-1" "billing.createRefund" (Billing.demo_args 300) Billing.demo)
    as [[[[st body] m] s']|e] eqn:Hrun; [|exfalso; revert Hrun; vm_compute; discriminate].
  exists r, st, body, m, s'. split; [exact Hr|]. split; [reflexivity|].
  refine (proj1 (proj2 (builtin_handlers_sound r "billing.createRefund" billingHandler "W-1" "R-1" "call-1" "billing.createRefund"
    (Billing.demo_args 300) Billing.demo st body m s' Hr _ Hrun))).
  apply (register_all_binds NewRegistry bindings r); [exact Hr|]. unfold bindings, modules. cbn.
  right. right. right. right. left.
Defined.
