(* ===== verification/Manifest.v ===== *)
(** * The compiled manifest (internal/compiler: types and contract)

    A manifest lists the operations a world offers.  [validateContract] pins an
    operation to the route it is named after; [ValidateManifest] accepts only
    the canonical form whose digest matches. *)

From S2P Require Export Registry.
Open Scope Z_scope.

(** [compiler.Operation]; [Properties] maps names to types, keys distinct. *)
Record Operation := MkOperation {
  op_id : string; op_service : string; op_method : string; op_path : string; op_behavior : string;
  op_required : list string; op_properties : list (string * string) }.

(** World metadata (internal/compiler/world.go). *)
Record ServiceSpec := MkServiceSpec { sp_name : string; sp_module : string; sp_openapi : string; sp_bindings : string }.
Record EntitySpec := MkEntitySpec { en_service : string; en_name : string; en_primary_key : string; en_fields : list string }.
Record RelationshipSpec := MkRelationship { rel_from : string; rel_to : string }.
Record WorldDefinition := MkWorldDefinition {
  wd_version : Z; wd_name : string; wd_seed_profile : string;
  wd_services : list ServiceSpec; wd_entities : list EntitySpec; wd_relationships : list RelationshipSpec }.
Record ServiceManifest := MkServiceManifest { sm_name : string; sm_module : string; sm_digest : string; sm_operations : list Operation }.
Record WorldMetadata := MkWorldMetadata { wm_definition : WorldDefinition; wm_services : list ServiceManifest }.
Record Manifest := MkManifest { mf_digest : string; mf_operations : list Operation; mf_world : option WorldMetadata }.

#[export] Instance operation_eq_dec : EqDecision Operation.
Proof. solve_decision. Defined.
#[export] Instance service_spec_eq_dec : EqDecision ServiceSpec.
Proof. solve_decision. Defined.
#[export] Instance entity_spec_eq_dec : EqDecision EntitySpec.
Proof. solve_decision. Defined.
#[export] Instance relationship_eq_dec : EqDecision RelationshipSpec.
Proof. solve_decision. Defined.
#[export] Instance world_definition_eq_dec : EqDecision WorldDefinition.
Proof. solve_decision. Defined.

(** [Manifest.Operation] *)
Definition find_operation (m : Manifest) (id : string) : option Operation :=
  List.find (fun op => str_eqb (op_id op) id) (mf_operations m).

(** ** JSON forms *)

(** A nil slice is [null]; the compiler leaves a slice nil when it is empty. *)
Definition strings_value (l : list string) : goval := match l with [] => VNil | _ => VSlice (map VString l) end.
Definition text_field (key value : string) : list (string * goval) := if str_eqb value "" then [] else [(key, VString value)].
Definition operation_value (op : Operation) : goval :=
  VStruct ([("id", VString (op_id op))] ++ text_field "service" (op_service op) ++
    [("method", VString (op_method op)); ("path", VString (op_path op)); ("behavior", VString (op_behavior op));
     ("required", strings_value (op_required op));
     ("properties", VMap (map (fun kv => (kv.1, VString kv.2)) (op_properties op)))]).
Definition operations_value (ops : list Operation) : goval :=
  match ops with [] => VNil | _ => VSlice (map operation_value ops) end.

(** [digestOperations]; marshalling texts never fails. *)
Definition digestOperations (ops : list Operation) : res err string :=
  match marshal (operations_value ops) with
  | Some raw => Ok (digest_hex raw)
  | None => Err json_error
  end.

(** ** The contract of an operation *)

Record contract := MkContract { ct_method : string; ct_path : string; ct_behavior : string; ct_properties : list (string * string) }.

Definition routes : list (string * contract) :=
  [("getCustomer", MkContract "get" "/customers/{id}" "billing.getCustomer" [("id", "string")]);
   ("listInvoices", MkContract "get" "/customers/{id}/invoices" "billing.listInvoices" [("id", "string")]);
   ("listCharges", MkContract "get" "/invoices/{id}/charges" "billing.listCharges" [("id", "string")]);
   ("getCharge", MkContract "get" "/charges/{id}" "billing.getCharge" [("id", "string")]);
   ("createRefund", MkContract "post" "/refunds" "billing.createRefund" [("charge_id", "string"); ("amount_cents", "integer"); ("reason", "string")]);
   ("getSubscription", MkContract "get" "/subscriptions/{id}" "billing.getSubscription" [("id", "string")]);
   ("crmGetAccount", MkContract "get" "/crm/accounts/{id}" "crm.getAccount" [("id", "string")]);
   ("crmSearchAccounts", MkContract "post" "/crm/accounts/search" "crm.searchAccounts" [("query", "string")]);
   ("crmAddAccountNote", MkContract "post" "/crm/notes" "crm.addAccountNote" [("account_id", "string"); ("body", "string")]);
   ("crmUpdateAccountStatus", MkContract "post" "/crm/accounts/status" "crm.updateAccountStatus" [("account_id", "string"); ("status", "string")]);
   ("ticketCreateIssue", MkContract "post" "/tickets/issues" "ticket.createIssue" [("project_id", "string"); ("account_id", "string"); ("title", "string"); ("priority", "string")]);
   ("ticketGetIssue", MkContract "get" "/tickets/issues/{id}" "ticket.getIssue" [("id", "string")]);
   ("ticketSearchIssues", MkContract "post" "/tickets/issues/search" "ticket.searchIssues" [("query", "string")]);
   ("ticketAddComment", MkContract "post" "/tickets/comments" "ticket.addComment" [("issue_id", "string"); ("body", "string")]);
   ("ticketTransitionIssue", MkContract "post" "/tickets/issues/transition" "ticket.transitionIssue" [("issue_id", "string"); ("status", "string")]);
   ("messageListChannels", MkContract "get" "/messages/workspaces/{id}/channels" "messaging.listChannels" [("id", "string")]);
   ("messageReadChannel", MkContract "get" "/messages/channels/{id}" "messaging.readChannel" [("id", "string")]);
   ("messagePostMessage", MkContract "post" "/messages/messages" "messaging.postMessage" [("channel_id", "string"); ("body", "string")])].

Arguments routes : simpl never.

(** [strings.ToUpper] on the method names of the table. *)
Definition upper_byte (b : Z) : Z := if (97 <=? b) && (b <=? 122) then b - 32 else b.
Definition to_upper (s : string) : string := of_bytes (map upper_byte (bytes_of s)).

(** [validateContract] *)
Definition validateContract (op : Operation) : res err unit :=
  let unsupported := Err (ErrText ("unsupported path or binding for " +:+ op_id op)) in
  let bad_schema := Err (ErrText ("unsupported schema for " +:+ op_id op)) in
  match alookup routes (op_id op) with
  | None => unsupported
  | Some route =>
      if negb (str_eqb (op_method op) (to_upper (ct_method route)) && str_eqb (op_path op) (ct_path route)
               && str_eqb (op_behavior op) (ct_behavior route)) then unsupported
      else
        let expected := ct_properties route in
        if negb (bool_decide (length (op_properties op) = length expected) && bool_decide (length (op_required op) = length expected))
        then bad_schema
        else if forallb (fun nt => str_eqb (default "" (alookup (op_properties op) nt.1)) nt.2 && contains (op_required op) nt.1) expected
        then Ok tt else bad_schema
  end.

(** ** What a valid operation looks like *)

Lemma alookup_in {A} (m : list (string * A)) k v : alookup m k = Some v -> (k, v) ∈ m.
Proof.
  induction m as [|[k' v'] m IH]; cbn; [done|]. destruct (str_eqb k k') eqn:Hk.
  - apply str_eqb_true in Hk as <-. intros [= ->]. left.
  - intros Hv. right. auto.
Qed.
Lemma alookup_None {A} (m : list (string * A)) k : alookup m k = None <-> k ∉ map fst m.
Proof.
  induction m as [|[k' v'] m IH]; cbn; [split; [intros _ H; by apply elem_of_nil in H|done]|].
  rewrite not_elem_of_cons. destruct (str_eqb k k') eqn:Hk.
  - apply str_eqb_true in Hk as <-. split; [done|]. by intros [].
  - apply str_eqb_false in Hk. rewrite IH. tauto.
Qed.

(** With distinct keys the order of an association list does not matter. *)
Lemma alookup_Some {A} (m : list (string * A)) k v : NoDup (map fst m) -> alookup m k = Some v <-> (k, v) ∈ m.
Proof.
  intros Hnd. split; [apply alookup_in|]. induction m as [|[k' v'] m IH]; [by intros ?%elem_of_nil|].
  cbn in Hnd |- *. apply NoDup_cons in Hnd as [Hn Hnd]. intros [[= <- <-]|Hin]%elem_of_cons; [by rewrite str_eqb_refl|].
  destruct (str_eqb k k') eqn:Hk; [|by apply IH]. apply str_eqb_true in Hk as <-. exfalso. apply Hn.
  apply list_elem_of_fmap. by exists (k, v).
Qed.
Lemma alookup_permutation {A} (m m' : list (string * A)) k : NoDup (map fst m) -> m ≡ₚ m' -> alookup m k = alookup m' k.
Proof.
  intros Hnd Hp. assert (NoDup (map fst m')) as Hnd' by (by rewrite <- (Permutation_map fst Hp)).
  apply option_eq. intros v. by rewrite !alookup_Some, Hp.
Qed.

(** No route has a property without a type. *)
Lemma routes_typed id route n t : alookup routes id = Some route -> (n, t) ∈ ct_properties route -> t <> "".
Proof.
  intros Hr%alookup_in Hin ->.
  assert (forallb (fun r => forallb (fun nt => negb (str_eqb nt.2 "")) (ct_properties r.2)) routes = true) as Hall by reflexivity.
  rewrite forallb_forall in Hall. specialize (Hall _ (proj1 (list_elem_of_In _ _) Hr)).
  rewrite forallb_forall in Hall. by specialize (Hall _ (proj1 (list_elem_of_In _ _) Hin)).
Qed.

(** A valid operation declares exactly its route's properties, with their
    types, and requires each of them. *)
Lemma validateContract_ok op :
  validateContract op = Ok tt ->
  exists route, alookup routes (op_id op) = Some route /\ op_behavior op = ct_behavior route /\ op_path op = ct_path route /\
    op_method op = to_upper (ct_method route) /\
    forall n t, (n, t) ∈ ct_properties route -> alookup (op_properties op) n = Some t /\ n ∈ op_required op.
Proof.
  unfold validateContract. destruct (alookup routes (op_id op)) as [route|] eqn:Hr; [|done].
  intros Hv. repeat (case_match; try discriminate Hv). clear Hv. rename select (forallb _ _ = true) into H3.
  exists route. bool_inv. split_and!; [done..|]. intros n t Hin.
  rewrite forallb_forall in H3. specialize (H3 (n, t) (proj1 (list_elem_of_In _ _) Hin)). cbn in H3.
  apply andb_true_iff in H3 as [Ht Hn]. apply str_eqb_true in Ht. apply contains_spec in Hn. split; [|done].
  destruct (alookup (op_properties op) n) as [t'|] eqn:Ha; cbn in Ht; [congruence|]. by apply (routes_typed _ _ _ _ Hr) in Hin.
Qed.
