(* ===== verification/Compiler.v ===== *)
(** * Compiling interfaces (internal/compiler/compiler.go)

    [Compile] turns an OpenAPI document and its behavior bindings into a
    manifest.  The document is checked as a tree of nodes first, then decoded;
    Go maps are association lists here, and their order is an iteration order
    the result must not depend on. *)

From S2P Require Export Manifest Yaml JsonTyped.
Open Scope Z_scope.
Open Scope tx_scope.

(** ** The decoded document *)

Record apiParameter := MkParameter { pr_name : string; pr_in : string; pr_required : bool; pr_type : string }.
Record apiSchema := MkSchema { sc_type : string; sc_required : list string; sc_properties : list (string * string) }.
Record apiBody := MkBody { bd_required : bool; bd_content : list (string * apiSchema) }.
(** [apiOperation] *)
Record apiOperation := MkApiOperation { ao_id : string; ao_parameters : list apiParameter; ao_body : option apiBody }.
(** [apiSpec] *)
Record apiSpec := MkApiSpec { as_openapi : string; as_paths : list (string * list (string * apiOperation)) }.

(** The typed decoders of the YAML library for these documents. *)
Class SpecYaml := { decode_spec : ynode -> res err apiSpec; unmarshal_bindings : string -> res err (list (string * string)) }.

(** ** Checks on the nodes *)

(** [hasRef] *)
Fixpoint hasRef (n : ynode) : bool :=
  match n with YNode _ _ value content => str_eqb value "$ref" || existsb hasRef content end.

(** [checkSchema] *)
Fixpoint checkSchema (n : ynode) : res err unit :=
  match n with
  | YNode MappingNode _ _ content =>
      (fix pairs l :=
         match l with
         | [] => Ok tt
         | [_] => Err missing_value
         | key :: value :: l' =>
             try* _ :=
               (if str_eqb (node_value key) "type" then
                  rassert (bool_decide (node_kind value = ScalarNode)) (ErrText "unsupported schema type")
                else if str_eqb (node_value key) "required" then
                  rassert (bool_decide (node_kind value = SequenceNode)) (ErrText "unsupported schema required")
                else if str_eqb (node_value key) "properties" then
                  match value with
                  | YNode MappingNode _ _ properties =>
                      (fix odd l := match l with
                                    | _ :: schema :: l' => try* _ := checkSchema schema in odd l'
                                    | _ => Ok tt
                                    end) properties
                  | _ => Err (ErrText "unsupported schema properties")
                  end
                else Err (ErrText ("unsupported schema keyword " +:+ node_value key))) in
             pairs l'
         end) content
  | _ => Err (ErrText "unsupported schema shape")
  end.

(** [checkSchemas] *)
Fixpoint checkSchemas (n : ynode) : res err unit :=
  match n with
  | YNode MappingNode _ _ content =>
      (fix pairs l :=
         match l with
         | [] => Ok tt
         | [_] => Err missing_value
         | key :: value :: l' =>
             try* _ := (if str_eqb (node_value key) "schema" then checkSchema value else checkSchemas value) in
             pairs l'
         end) content
  | YNode _ _ _ content =>
      (fix children l := match l with
                         | [] => Ok tt
                         | child :: l' => try* _ := checkSchemas child in children l'
                         end) content
  end.

(** ** Compile *)

Definition text_prefix (p s : string) : bool := has_prefix (bytes_of p) (bytes_of s).

(** The ids of the operations, in iteration order, and the first one met twice. *)
Definition spec_ids (spec : apiSpec) : list string :=
  List.filter (fun id => negb (str_eqb id "")) (flat_map (fun pm => map (fun md => ao_id md.2) pm.2) (as_paths spec)).
Fixpoint duplicate_id (l : list string) : option string :=
  match l with [] => None | x :: l' => if contains l' x then Some x else duplicate_id l' end.

(** The parameters and the body of one operation, as properties and required
    names. *)
Definition add_parameter (id : string) (acc : list (string * string) * list string) (p : apiParameter)
    : res err (list (string * string) * list string) :=
  try* _ := rassert (str_eqb (pr_in p) "path" && pr_required p && str_eqb (pr_type p) "string") (ErrText ("unsupported parameter in " +:+ id)) in
  Ok (map_set acc.1 (pr_name p) "string", acc.2 ++ [pr_name p]).
Definition json_type (t : string) : bool := contains ["string"; "integer"] t.
Definition add_property (id : string) (props : list (string * string)) (nt : string * string) : res err (list (string * string)) :=
  try* _ := rassert (json_type nt.2) (ErrText ("unsupported property " +:+ nt.1 +:+ " in " +:+ id)) in
  Ok (map_set props nt.1 nt.2).
Definition add_body (id : string) (acc : list (string * string) * list string) (body : option apiBody)
    : res err (list (string * string) * list string) :=
  let unsupported := ErrText ("unsupported request body in " +:+ id) in
  match body with
  | Some b =>
      try* _ := rassert (bool_decide (length (bd_content b) = 1%nat)) unsupported in
      try* schema := rsome (alookup (bd_content b) "application/json") unsupported in
      try* _ := rassert (bd_required b && str_eqb (sc_type schema) "object") unsupported in
      try* props := rfold (add_property id) acc.1 (sc_properties schema) in
      Ok (props, acc.2 ++ sc_required schema)
  | None => Err unsupported
  end.

(** The inner body of [Compile]'s loops, without the [seen] map. *)
Definition compile_operation (bindings : list (string * string)) (path method : string) (def : apiOperation) : res err Operation :=
  let id := ao_id def in
  try* route := rsome (alookup routes id) (ErrText ("unsupported path or method for " +:+ id)) in
  try* _ := rassert (str_eqb (ct_method route) method && str_eqb (ct_path route) path) (ErrText ("unsupported path or method for " +:+ id)) in
  let behavior := default "" (alookup bindings id) in
  try* _ := rassert (negb (str_eqb behavior "")) (ErrText ("unbound operation " +:+ id)) in
  try* _ := rassert (str_eqb behavior (ct_behavior route)) (ErrText ("unsupported binding " +:+ behavior +:+ " for " +:+ id)) in
  try* _ := rassert (negb (str_eqb method "get" && bool_decide (is_Some (ao_body def)))) (ErrText ("unsupported request body in " +:+ id)) in
  try* declared := rfold (add_parameter id) ([], []) (ao_parameters def) in
  try* declared := (if str_eqb method "post" then add_body id declared (ao_body def) else Ok declared) in
  let '(props, required) := declared in
  try* _ := rfor required (fun name =>
    rassert (negb (str_eqb (default "" (alookup props name)) "")) (ErrText ("required property " +:+ name +:+ " missing schema in " +:+ id))) in
  let op := MkOperation id "" (to_upper method) path behavior (sort_strings required) props in
  try* _ := validateContract op in
  Ok op.

Definition compile_method (bindings : list (string * string)) (path : string) (ops : list Operation) (md : string * apiOperation)
    : res err (list Operation) :=
  let '(method, def) := md in
  try* _ := rassert (contains ["get"; "post"] method) (ErrText ("unsupported method " +:+ method +:+ " " +:+ path)) in
  try* _ := rassert (negb (str_eqb (ao_id def) "")) (ErrText ("missing operationId at " +:+ method +:+ " " +:+ path)) in
  try* _ := rassert (negb (contains (map op_id ops) (ao_id def))) (ErrText ("duplicate operationId " +:+ ao_id def)) in
  try* op := compile_operation bindings path method def in
  Ok (ops ++ [op]).
Definition compile_path (bindings : list (string * string)) (ops : list Operation) (pm : string * list (string * apiOperation))
    : res err (list Operation) :=
  try* _ := rassert (text_prefix "/" pm.1) (ErrText ("unsupported path " +:+ quote pm.1)) in
  rfold (compile_method bindings pm.1) ops pm.2.

(** [Compile] from the decoded documents. *)
Definition compile_spec (spec : apiSpec) (bindings : list (string * string)) : res err Manifest :=
  try* _ := match duplicate_id (spec_ids spec) with Some id => Err (ErrText ("duplicate operationId " +:+ id)) | None => Ok tt end in
  try* ops := rfold (compile_path bindings) [] (as_paths spec) in
  try* _ := rfor bindings (fun kv => rassert (contains (map op_id ops) kv.1) (ErrText ("binding for nonexistent operation " +:+ kv.1))) in
  let ops := sort_on op_id ops in
  Ok (MkManifest (match digestOperations ops with Ok d => d | Err _ => "" end) ops None).

(** [Compile] *)
Definition Compile `{!YamlNodes, !SpecYaml} (specBytes bindingBytes : string) : res err Manifest :=
  try* node := rwrap (ErrWrap "OpenAPI YAML: ") (unmarshal_node specBytes) in
  try* _ := rassert (negb (hasRef node)) (ErrText "external or local reference is unsupported") in
  try* _ := checkSchemas node in
  try* spec := rwrap (ErrWrap "OpenAPI: ") (decode_spec node) in
  try* _ := rassert (text_prefix "3.1." (as_openapi spec) && negb (bool_decide (as_paths spec = [])))
              (ErrText "unsupported OpenAPI version or empty paths") in
  try* bindings := rwrap (ErrWrap "bindings YAML: ") (unmarshal_bindings bindingBytes) in
  compile_spec spec bindings.

(** ** Validating a plain manifest *)

(** [ValidateManifest] of a manifest without a world: operations in strict
    order of their ids, each as its route demands, and the digest of them. *)
Fixpoint validate_operations (last : string) (ops : list Operation) : res err unit :=
  match ops with
  | [] => Ok tt
  | op :: ops' =>
      try* _ := rassert (negb (str_leb (op_id op) last)) (ErrText "manifest operations are unsorted or duplicated") in
      try* _ := validateContract op in
      validate_operations (op_id op) ops'
  end.
Definition validate_plain (m : Manifest) : res err unit :=
  try* _ := rassert (negb (bool_decide (mf_operations m = []))) (ErrText "empty manifest") in
  try* _ := validate_operations "" (mf_operations m) in
  try* digest := digestOperations (mf_operations m) in
  rassert (str_eqb digest (mf_digest m)) (ErrText "manifest digest mismatch").

(** ** Facts *)

Lemma str_leb_spec a b : str_leb a b = true <-> String.le a b.
Proof. unfold str_leb, String.le. by rewrite Is_true_true. Qed.
Lemma str_lt_not_le a b : str_leb a b = false <-> String.le b a /\ a <> b.
Proof.
  rewrite <- not_true_iff_false, str_leb_spec. split.
  - intros Hn. split; [by destruct (total String.le a b)|]. intros ->. by apply Hn.
  - intros [Hle Hne] Hl. by apply Hne, (anti_symm String.le).
Qed.

Lemma digestOperations_ok ops : exists d, digestOperations ops = Ok d.
Proof.
  assert (encodable (operations_value ops)) as He.
  { destruct ops as [|op ops]; [done|]. cbn [operations_value encodable]. rewrite map_map. apply all_props_Forall, Forall_true. intros o.
    unfold operation_value. cbn [encodable]. rewrite map_app, map_app. unfold text_field.
    assert (encodable (strings_value (op_required o))) by (destruct (op_required o); [done|cbn; split; [done|apply encodable_strings]]).
    assert (all_props (map (fun kv : string * goval => encodable kv.2) (map (fun kv => (kv.1, VString kv.2)) (op_properties o))))
      by (rewrite map_map; apply all_props_Forall, Forall_true; done).
    destruct (str_eqb _ _); cbn; by split_and!. }
  apply marshal_encodable in He as [t Ht]. unfold digestOperations. rewrite Ht. by eexists.
Qed.

(** *** What [compile_spec] accepts *)

(** The operations of a document, in iteration order. *)
Definition entries (spec : apiSpec) : list (string * (string * apiOperation)) := flat_map (fun pm => map (pair pm.1) pm.2) (as_paths spec).
Definition compiles (bindings : list (string * string)) (e : string * (string * apiOperation)) (op : Operation) : Prop :=
  e.2.1 ∈ ["get"; "post"] /\ ao_id e.2.2 <> "" /\ compile_operation bindings e.1 e.2.1 e.2.2 = Ok op.

Lemma compile_operation_id b path method def op : compile_operation b path method def = Ok op -> op_id op = ao_id def /\ validateContract op = Ok tt.
Proof.
  unfold compile_operation. intros Hc. res_inv.
  match goal with H : validateContract _ = Ok tt |- _ => by split end.
Qed.
Lemma compile_method_ok b path ops md ops' :
  compile_method b path ops md = Ok ops' <-> exists op, compiles b (path, md) op /\ op_id op ∉ map op_id ops /\ ops' = ops ++ [op].
Proof.
  destruct md as [method def]. unfold compile_method, compiles. cbn [fst snd]. split.
  - intros Hc. res_inv. match goal with H : compile_operation _ _ _ _ = Ok _ |- _ => pose proof (compile_operation_id _ _ _ _ _ H) as [Hid _] end.
    match type of Hid with op_id ?op = _ => exists op end. split_and!; [by apply contains_spec| |done| |done].
    { by bool_inv. }
    rewrite Hid. intros Hin%contains_spec. bool_inv. congruence.
  - intros (op & (Hm & Hid & Hc) & Hfresh & ->). pose proof (compile_operation_id _ _ _ _ _ Hc) as [Hop _].
    apply contains_spec in Hm. rewrite Hm. cbn [rassert rbind]. rewrite (proj2 (str_eqb_false _ _) Hid). cbn [negb rassert rbind].
    destruct (contains (map op_id ops) (ao_id def)) eqn:Hd; [by rewrite contains_spec, <- Hop in Hd|]. cbn [negb rassert rbind]. by rewrite Hc.
Qed.

Lemma compile_methods_ok b path mds ops ops1 :
  rfold (compile_method b path) ops mds = Ok ops1 <->
  exists new, ops1 = ops ++ new /\ Forall2 (compiles b) (map (pair path) mds) new /\ new_keys op_id ops new.
Proof.
  revert ops. induction mds as [|md mds IH]; intros ops; cbn [rfold map].
  - split; [intros [= <-]; exists []; rewrite app_nil_r; split_and!; [done|constructor|by apply new_keys_empty]|].
    intros (new & -> & ->%Forall2_nil_inv_l & _). by rewrite app_nil_r.
  - rewrite rbind_ok. setoid_rewrite compile_method_ok. split.
    + intros (? & (op & Hc & Hn & ->) & Hr). apply IH in Hr as (new & -> & Hf & Hd). exists (op :: new).
      rewrite <- app_assoc. split_and!; [done|by constructor|]. by apply new_keys_cons.
    + intros (? & -> & (op & new & Hc & Hf & ->)%Forall2_cons_inv_l & [Hn Hd]%new_keys_cons). eexists. split; [by eauto|]. apply IH.
      exists new. by rewrite <- app_assoc.
Qed.
Lemma compile_paths_ok b paths ops ops1 :
  rfold (compile_path b) ops paths = Ok ops1 <->
  Forall (fun pm => text_prefix "/" pm.1 = true) paths /\
  exists new, ops1 = ops ++ new /\ Forall2 (compiles b) (flat_map (fun pm => map (pair pm.1) pm.2) paths) new /\ new_keys op_id ops new.
Proof.
  revert ops. induction paths as [|[path mds] paths IH]; intros ops; cbn [rfold flat_map fst snd].
  - split; [intros [= <-]; split; [done|]; exists []; rewrite app_nil_r; split_and!; [done|constructor|by apply new_keys_empty]|].
    intros (_ & new & -> & ->%Forall2_nil_inv_l & _). by rewrite app_nil_r.
  - rewrite rbind_ok, Forall_cons. unfold compile_path at 1. cbn [fst snd]. setoid_rewrite rbind_ok. setoid_rewrite rassert_ok.
    setoid_rewrite compile_methods_ok. split.
    + intros (? & (? & Hp & new1 & -> & Hf1 & Hd1) & Hr). apply IH in Hr as (Hps & new2 & -> & Hf2 & Hd2). split; [done|].
      exists (new1 ++ new2). rewrite <- app_assoc. split_and!; [done|by apply Forall2_app|]. by apply new_keys_app.
    + intros ([Hp Hps] & ? & -> & (new1 & new2 & Hf1 & Hf2 & ->)%Forall2_app_inv_l & [Hd1 Hd2]%new_keys_app).
      exists (ops ++ new1). split; [exists tt; split; [done|]; by exists new1|]. apply IH. split; [done|]. exists new2. by rewrite <- app_assoc.
Qed.

Lemma duplicate_id_None l : duplicate_id l = None <-> NoDup l.
Proof.
  induction l as [|x l IH]; cbn; [split; [constructor|done]|]. rewrite NoDup_cons, <- IH. destruct (contains l x) eqn:Hc.
  - apply contains_spec in Hc. split; [done|]. by intros [].
  - rewrite <- contains_spec, Hc. naive_solver.
Qed.
Lemma spec_ids_entries spec : spec_ids spec = List.filter (fun id => negb (str_eqb id "")) (map (fun e => ao_id e.2.2) (entries spec)).
Proof.
  unfold spec_ids, entries. f_equal. induction (as_paths spec) as [|pm l IH]; cbn; [done|]. by rewrite map_app, map_map, IH.
Qed.
Lemma compiles_ids b es ops : Forall2 (compiles b) es ops -> map op_id ops = List.filter (fun id => negb (str_eqb id "")) (map (fun e => ao_id e.2.2) es).
Proof.
  induction 1 as [|e op es ops (Hm & Hid & Hc) _ IH]; cbn; [done|]. apply compile_operation_id in Hc as [Hop _].
  rewrite (proj2 (str_eqb_false _ _) Hid). cbn [negb]. by rewrite IH, Hop.
Qed.

(** A manifest is compiled from a document exactly when each of its operations
    compiles, their ids are distinct, and each binding is of one of them. *)
Lemma compile_spec_ok spec b m :
  compile_spec spec b = Ok m <->
  Forall (fun pm => text_prefix "/" pm.1 = true) (as_paths spec) /\
  exists ops, Forall2 (compiles b) (entries spec) ops /\ NoDup (map op_id ops) /\ Forall (fun kv => kv.1 ∈ map op_id ops) b /\
    m = MkManifest (match digestOperations (sort_on op_id ops) with Ok d => d | Err _ => "" end) (sort_on op_id ops) None.
Proof.
  unfold compile_spec. rewrite !rbind_ok. setoid_rewrite rbind_ok. setoid_rewrite compile_paths_ok. setoid_rewrite rbind_ok. setoid_rewrite rfor_ok.
  setoid_rewrite rassert_ok. setoid_rewrite contains_spec. split.
  - intros (_ & _ & ? & (Hp & ops & -> & Hf & Hd) & _ & Hb & [= <-]). split; [done|]. exists ops. by destruct Hd.
  - intros (Hp & ops & Hf & Hnd & Hb & ->). exists tt. split.
    + rewrite spec_ids_entries, <- (compiles_ids _ _ _ Hf). by rewrite (proj2 (duplicate_id_None _) Hnd).
    + exists ops. split; [|by exists tt]. split; [done|]. exists ops. split_and!; [done|done|]. split; [done|]. by intros op _ ?%elem_of_nil.
Qed.

(** The same document with its maps visited in another order. *)
Definition reordered (s s' : apiSpec) : Prop :=
  exists paths, as_paths s ≡ₚ paths /\ Forall2 (fun pm pm' => pm.1 = pm'.1 /\ pm.2 ≡ₚ pm'.2) paths (as_paths s').

Lemma reordered_entries s s' : reordered s s' -> entries s ≡ₚ entries s'.
Proof.
  intros (paths & Hp & Hf). unfold entries. rewrite Hp. clear Hp. induction Hf as [|pm pm' l l' [H1 H2] _ IH]; cbn; [done|].
  by rewrite H1, H2, IH.
Qed.
Lemma reordered_prefixed s s' : reordered s s' ->
  Forall (fun pm => text_prefix "/" pm.1 = true) (as_paths s) -> Forall (fun pm => text_prefix "/" pm.1 = true) (as_paths s').
Proof.
  intros (paths & Hp & Hf). rewrite Hp. clear Hp. induction Hf as [|pm pm' l l' [H1 H2] _ IH]; [done|]. rewrite !Forall_cons, H1. intros [? ?]. auto.
Qed.
Lemma compiles_bindings b b' e op : NoDup (map fst b) -> b ≡ₚ b' -> compiles b e op -> compiles b' e op.
Proof.
  intros Hnd Hp (Hm & Hid & Hc). split_and!; [done..|]. revert Hc. unfold compile_operation. by rewrite (alookup_permutation b b' _ Hnd Hp).
Qed.

Lemma str_le_trans a b c : String.le a b -> String.le b c -> String.le a c.
Proof. apply transitivity. Qed.
(** Operations in order of distinct ids, each with its contract. *)
Lemma validate_operations_sorted last ops :
  StronglySorted (key_le op_id) ops -> NoDup (map op_id ops) -> Forall (fun op => validateContract op = Ok tt) ops ->
  Forall (fun op => String.le last (op_id op) /\ last <> op_id op) ops -> validate_operations last ops = Ok tt.
Proof.
  revert last. induction ops as [|op ops IH]; intros last Hs Hnd Hc Hl; [done|]. cbn [validate_operations].
  apply Forall_cons_1 in Hc as [Hc Hcs], Hl as [[Hle Hne] Hl]. apply StronglySorted_inv in Hs as [Hs Hall]. cbn [map] in Hnd. apply NoDup_cons in Hnd as [Hn Hnd].
  rewrite (proj2 (str_lt_not_le (op_id op) last)) by done. cbn. rewrite Hc. cbn. apply IH; [done..|].
  rewrite Forall_forall in Hall |- *. intros o Ho. split; [by apply Hall|]. intros Heq. apply Hn. rewrite Heq. by apply list_elem_of_fmap_2.
Qed.
Lemma le_empty s : String.le "" s.
Proof. by destruct s. Qed.

(** ** Theorems *)

(** What is compiled does not depend on the order in which Go visits maps:
    with the paths, the methods of a path and the bindings in any other order,
    the same document compiles to the same manifest, digest included. *)
Theorem compile_order_irrelevant spec spec' b b' m :
  reordered spec spec' -> b ≡ₚ b' -> NoDup (map fst b) -> compile_spec spec b = Ok m -> compile_spec spec' b' = Ok m.
Proof.
  intros Hr Hb Hnd (Hp & ops & Hf & Hops & Hbs & ->)%compile_spec_ok. apply compile_spec_ok. split; [by eapply reordered_prefixed|].
  destruct (Permutation_Forall2 (reordered_entries _ _ Hr) Hf) as (ops' & Hperm%symmetry & Hf').
  exists ops'. split_and!.
  - eapply Forall2_impl; [exact Hf'|]. intros e op He. by eapply compiles_bindings.
  - by rewrite Hperm.
  - rewrite <- Hb. eapply Forall_impl; [exact Hbs|]. intros kv. cbn. by rewrite Hperm.
  - by rewrite (sort_on_unique op_id ops ops' Hops (symmetry Hperm)).
Qed.

(** A compiled manifest is valid: what [Compile] returns is accepted by
    [ValidateManifest] as it stands, unless it has no operation at all, which
    [Compile] lets through (paths without methods) and validation refuses. *)
Theorem compiled_is_valid spec b m :
  compile_spec spec b = Ok m ->
  mf_world m = None /\ match mf_operations m with [] => validate_plain m = Err (ErrText "empty manifest") | _ => validate_plain m = Ok tt end.
Proof.
  intros (Hp & ops & Hf & Hops & Hbs & ->)%compile_spec_ok. split; [done|]. cbn [mf_operations]. unfold validate_plain. cbn [mf_operations mf_digest].
  destruct (digestOperations_ok (sort_on op_id ops)) as [d Hd]. rewrite Hd.
  assert (validate_operations "" (sort_on op_id ops) = Ok tt) as Hv.
  { assert (forall op, op ∈ ops -> op_id op <> "" /\ validateContract op = Ok tt) as Hall.
    { intros op Hop. apply list_elem_of_lookup in Hop as [i Hi]. destruct (Forall2_lookup_r _ _ _ _ _ Hf Hi) as (e & _ & _ & Hid & Hc).
      apply compile_operation_id in Hc as [-> Hv]. done. }
    apply validate_operations_sorted.
    - apply sort_on_sorted.
    - by rewrite sort_on_permutation.
    - apply Forall_forall. intros op Hop. rewrite sort_on_elem in Hop. by apply Hall.
    - apply Forall_forall. intros op Hop. rewrite sort_on_elem in Hop. split; [apply le_empty|]. by destruct (Hall op Hop). }
  rewrite Hv. destruct (sort_on op_id ops); [done|]. cbn. by rewrite str_eqb_refl.
Qed.
