(* ===== verification/World.v ===== *)
(** * Worlds (internal/compiler/world.go, world_compile.go)

    A world definition names services, the entities they hold and how these
    relate; [CompileWorld] compiles each service against the behavior registry
    and joins them into one manifest, and [ValidateManifestWithRegistry]
    accepts only such a manifest. *)

From S2P Require Export Compiler.
Open Scope Z_scope.
Open Scope tx_scope.

(** ** Definitions *)

(** The YAML library on world definitions and on the bindings of a service. *)
Class WorldYaml := {
  decode_definition : Decoder WorldDefinition;
  marshal_definition : WorldDefinition -> res err string;
  decode_node : Decoder ynode;
  decode_bindings : Decoder (list (string * string)) }.

Definition is_letter (b : Z) : bool := cont b 97 122 || cont b 65 90.
(** [validWorldIdentifier] *)
Definition validWorldIdentifier (value : string) : bool :=
  match bytes_of value with
  | [] => false
  | first :: rest => is_letter first && forallb (fun b => is_letter b || cont b 48 57 || (b =? 95) || (b =? 45)) rest
  end.
Definition blank (s : string) : bool := str_eqb (trim_space s) "".

Section Definitions.
Context `{!YamlNodes, !WorldYaml}.

(** The loop over the services: the names seen so far. *)
Definition check_service (seen : list string) (service : ServiceSpec) : res err (list string) :=
let name := sp_name service in
try* _ := rassert (validWorldIdentifier name) (ErrText ("invalid service name " +:+ quote name)) in
try* _ := rassert (negb (contains seen name)) (ErrText ("duplicate service " +:+ quote name)) in
try* _ := rassert (validWorldIdentifier (sp_module service)) (ErrText ("invalid module for service " +:+ name)) in
try* _ := rassert (negb (blank (sp_openapi service))) (ErrText ("openapi file is required for service " +:+ name)) in
try* _ := rassert (negb (blank (sp_bindings service))) (ErrText ("bindings file is required for service " +:+ name)) in
Ok (seen ++ [name]).

Definition entity_key (e : EntitySpec) : string := en_service e +:+ "." +:+ en_name e.
Definition with_fields (fields : list string) (e : EntitySpec) : EntitySpec := MkEntitySpec (en_service e) (en_name e) (en_primary_key e) fields.
Definition check_field (key : string) (seen : list string) (field : string) : res err (list string) :=
try* _ := rassert (validWorldIdentifier field) (ErrText ("invalid field " +:+ quote field +:+ " for entity " +:+ key)) in
try* _ := rassert (negb (contains seen field)) (ErrText ("duplicate field " +:+ field +:+ " in entity " +:+ key)) in
Ok (seen ++ [field]).
(** The loop over the entities: the entities with their fields sorted. *)
Definition check_entity (services : list string) (seen : list EntitySpec) (e : EntitySpec) : res err (list EntitySpec) :=
let key := entity_key e in
try* _ := rassert (contains services (en_service e)) (ErrText ("unknown service " +:+ quote (en_service e) +:+ " for entity " +:+ en_name e)) in
try* _ := rassert (validWorldIdentifier (en_name e)) (ErrText ("invalid entity name " +:+ quote (en_name e))) in
try* _ := rassert (negb (contains (map entity_key seen) key)) (ErrText ("duplicate entity " +:+ key)) in
try* _ := rassert (validWorldIdentifier (en_primary_key e)) (ErrText ("invalid primary key for entity " +:+ key)) in
try* fields := rfold (check_field key) [] (en_fields e) in
try* _ := rassert (contains fields (en_primary_key e))
    (ErrText ("primary key " +:+ en_primary_key e +:+ " is not a declared field in entity " +:+ key)) in
Ok (seen ++ [with_fields (sort_strings (en_fields e)) e]).

Definition declares (entities : list EntitySpec) (key field : string) : bool :=
existsb (fun e => str_eqb (entity_key e) key && contains (en_fields e) field) entities.
Definition check_endpoint (entities : list EntitySpec) (endpoint : string) : res err unit :=
match split_on 46 endpoint with
| [service; entity; field] =>
try* _ := rassert (validWorldIdentifier service && validWorldIdentifier entity && validWorldIdentifier field)
        (ErrText ("invalid relationship endpoint " +:+ quote endpoint)) in
rassert (declares entities (service +:+ "." +:+ entity) field) (ErrText ("unknown relationship endpoint " +:+ quote endpoint))
| _ => Err (ErrText ("invalid relationship endpoint " +:+ quote endpoint))
end.
Definition check_relationship (entities : list EntitySpec) (seen : list RelationshipSpec) (r : RelationshipSpec) : res err (list RelationshipSpec) :=
try* _ := rassert (negb (bool_decide (r ∈ seen))) (ErrText ("duplicate relationship " +:+ rel_from r +:+ " to " +:+ rel_to r)) in
try* _ := rfor [rel_from r; rel_to r] (check_endpoint entities) in
Ok (seen ++ [r]).

(** [ParseWorldDefinition] after decoding. *)
Definition check_definition (def : WorldDefinition) : res err WorldDefinition :=
try* _ := rassert (wd_version def =? 1) (ErrText ("unsupported world version " +:+ itoa (wd_version def))) in
try* _ := rassert (negb (blank (wd_name def))) (ErrText "world name is required") in
try* _ := rassert (str_eqb (wd_seed_profile def) "company-v1") (ErrText ("unsupported seed profile " +:+ quote (wd_seed_profile def))) in
try* _ := rassert (negb (bool_decide (wd_services def = []))) (ErrText "at least one service is required") in
try* services := rfold check_service [] (wd_services def) in
try* entities := rfold (check_entity services) [] (wd_entities def) in
try* _ := rfold (check_relationship entities) [] (wd_relationships def) in
Ok (MkWorldDefinition (wd_version def) (wd_name def) (wd_seed_profile def) (sort_on sp_name (wd_services def))
(sort_on2 en_service en_name entities) (sort_on2 rel_from rel_to (wd_relationships def))).

(** [ParseWorldDefinition] *)
Definition ParseWorldDefinition (data : string) : res err WorldDefinition :=
try* root := root_mapping "world definition" data in
try* _ := version_is_integer "world version" root in
try* def := decode_document "world definition" decode_definition data in
check_definition def.
End Definitions.

(** ** Routes *)

Definition contains_any (chars s : string) : bool := existsb (fun b => existsb (Z.eqb b) (bytes_of chars)) (bytes_of s).
Definition text_suffix (p s : string) : bool := has_prefix (reverse (bytes_of p)) (reverse (bytes_of s)).
Definition drop_text (n : nat) (s : string) : string := of_bytes (drop n (bytes_of s)).
Definition brace_argument (segment : string) : bool := text_prefix "{" segment && text_suffix "}" segment.
(** [segment[1 : len(segment)-1]] *)
Definition inner (segment : string) : string := let l := bytes_of segment in of_bytes (take (length l - 2) (drop 1 l)).

Definition path_segment (path : string) (acc : list string * list string) (segment : string) : res err (list string * list string) :=
  let '(args, shape) := acc in
  try* _ := rassert (negb (str_eqb segment "")) (ErrText ("unsupported path " +:+ quote path)) in
  if brace_argument segment then
    let name := inner segment in
    try* _ := rassert (negb (str_eqb name "" || contains args name || contains_any "{}" name)) (ErrText ("unsupported path argument in " +:+ quote path)) in
    Ok (args ++ [name], shape ++ ["{}"])
  else
    try* _ := rassert (negb (contains_any "{}" segment)) (ErrText ("unsupported path " +:+ quote path)) in
    Ok (args, shape ++ [segment]).
(** [worldPath]: the names of the path arguments, and the shape of the route. *)
Definition worldPath (path : string) : res err (list string * string) :=
  try* _ := rassert (text_prefix "/" path && negb (str_eqb path "/") && negb (contains_any "?" path)) (ErrText ("unsupported path " +:+ quote path)) in
  try* '(args, shape) := rfold (path_segment path) ([], []) (split_on 47 (drop_text 1 path)) in
  Ok (args, "/" +:+ join_with "/" shape).

Definition trim_slash (s : string) : string := if text_prefix "/" s then drop_text 1 s else s.
Definition shape_segments (shape : string) : list string := split_on 47 (trim_slash shape).
Definition segments_meet (a b : string) : bool := str_eqb a b || str_eqb a "{}" || str_eqb b "{}".
Fixpoint segments_overlap (a b : list string) : bool :=
  match a, b with
  | [], [] => true
  | x :: a', y :: b' => segments_meet x y && segments_overlap a' b'
  | _, _ => false
  end.
(** [routesOverlap] *)
Definition routesOverlap (left right : string) : bool := segments_overlap (shape_segments left) (shape_segments right).

(** The shapes of a method's routes so far; a new one must not overlap them. *)
Definition add_route (method path : string) (routes : list (string * list string)) (shape : string) : res err (list (string * list string)) :=
  let previous := default [] (alookup routes method) in
  try* _ := rassert (negb (existsb (fun p => routesOverlap p shape) previous)) (ErrText ("ambiguous service route " +:+ method +:+ " " +:+ path)) in
  Ok (map_set routes method (previous ++ [shape])).

(** ** Compiling a service *)

(** The keys of a mapping, and its values. *)
Fixpoint evens {A} (l : list A) : list A := match l with x :: _ :: l' => x :: evens l' | l => l end.
Definition odds {A} (l : list A) : list A := evens (drop 1 l).

(** [onlyWorldKeys] *)
Definition onlyWorldKeys (node : ynode) (allowed : list string) : res err unit :=
  try* _ := rassert (is_mapping node) (ErrText "unsupported OpenAPI mapping shape") in
  rfor (evens (node_content node)) (fun key => rassert (contains allowed (node_value key)) (ErrText ("unsupported OpenAPI feature " +:+ quote (node_value key)))).

Definition check_request_body (body : ynode) : res err unit :=
  try* _ := onlyWorldKeys body ["required"; "content"] in
  for_pairs (node_content body) (fun key content =>
    if negb (str_eqb key "content") then Ok tt
    else
      try* _ := rassert (is_mapping content) (ErrText "OpenAPI content must be a mapping") in
      rfor (odds (node_content content)) (fun media => onlyWorldKeys media ["schema"])).
Definition check_api_operation (operation : ynode) : res err unit :=
  try* _ := onlyWorldKeys operation ["operationId"; "parameters"; "requestBody"] in
  for_pairs (node_content operation) (fun key value =>
    if str_eqb key "parameters" then
      try* _ := rassert (bool_decide (node_kind value = SequenceNode)) (ErrText "OpenAPI parameters must be a sequence") in
      rfor (node_content value) (fun parameter => onlyWorldKeys parameter ["name"; "in"; "required"; "schema"])
    else if str_eqb key "requestBody" then check_request_body value
    else Ok tt).
(** [checkWorldOpenAPI], of the root mapping. *)
Definition checkWorldOpenAPI (root : ynode) : res err unit :=
  try* _ := onlyWorldKeys root ["openapi"; "info"; "paths"] in
  for_pairs (node_content root) (fun key paths =>
    if negb (str_eqb key "paths") then Ok tt
    else
      try* _ := rassert (is_mapping paths) (ErrText "OpenAPI paths must be a mapping") in
      for_pairs (node_content paths) (fun _ methods =>
        try* _ := rassert (is_mapping methods) (ErrText "OpenAPI path methods must be a mapping") in
        for_pairs (node_content methods) (fun _ operation => check_api_operation operation))).

(** The arguments of a GET: each a path argument, none twice. *)
Definition add_path_parameter (id : string) (path_args : list string) (acc : list (string * string) * list string) (p : apiParameter)
    : res err (list (string * string) * list string) :=
  try* _ := rassert (str_eqb (pr_in p) "path" && pr_required p && str_eqb (pr_type p) "string" && contains path_args (pr_name p)
                     && str_eqb (default "" (alookup acc.1 (pr_name p))) "") (ErrText ("unsupported path parameter in " +:+ id)) in
  Ok (map_set acc.1 (pr_name p) "string", acc.2 ++ [pr_name p]).
Definition get_arguments (path_args : list string) (def : apiOperation) : res err (list (string * string) * list string) :=
  try* _ := rassert (bool_decide (ao_body def = None) && bool_decide (length (ao_parameters def) = length path_args))
              (ErrText ("unsupported GET arguments in " +:+ ao_id def)) in
  rfold (add_path_parameter (ao_id def) path_args) ([], []) (ao_parameters def).
(** The arguments of a POST: the properties of its JSON body, all required. *)
Definition add_body_property (id : string) (props : list (string * string)) (nt : string * string) : res err (list (string * string)) :=
  try* _ := rassert (negb (str_eqb nt.1 "") && json_type nt.2) (ErrText ("unsupported property in " +:+ id)) in
  Ok (map_set props nt.1 nt.2).
Definition post_arguments (path_args : list string) (def : apiOperation) : res err (list (string * string) * list string) :=
  let id := ao_id def in
  let unsupported := ErrText ("unsupported POST arguments in " +:+ id) in
  let bad_body := ErrText ("unsupported JSON body in " +:+ id) in
  try* _ := rassert (bool_decide (path_args = []) && bool_decide (ao_parameters def = [])) unsupported in
  try* body := rsome (ao_body def) unsupported in
  try* _ := rassert (bd_required body && bool_decide (length (bd_content body) = 1%nat)) unsupported in
  try* schema := rsome (alookup (bd_content body) "application/json") bad_body in
  try* _ := rassert (str_eqb (sc_type schema) "object" && negb (bool_decide (sc_properties schema = []))) bad_body in
  try* props := rfold (add_body_property id) [] (sc_properties schema) in
  let required := sc_required schema in
  try* _ := rassert (bool_decide (length required = length props)) (ErrText ("optional properties are unsupported in " +:+ id)) in
  try* _ := rfor required (fun name =>
    rassert (negb (str_eqb (default "" (alookup props name)) "")) (ErrText ("unknown required property " +:+ quote name +:+ " in " +:+ id))) in
  Ok (props, required).

Record Compiling := MkCompiling { co_ops : list Operation; co_routes : list (string * list string) }.

Section Services.
Context (registry : Registry) (service : ServiceSpec) (bindings : list (string * string)).

(** One operation of [compileService]. *)
Definition compile_service_method (path : string) (path_args : list string) (shape : string) (st : Compiling) (md : string * apiOperation) : res err Compiling :=
let '(method, def) := md in
let id := ao_id def in
try* _ := rassert (contains ["get"; "post"] method) (ErrText ("unsupported method " +:+ method +:+ " " +:+ path)) in
try* routes := add_route method path (co_routes st) shape in
try* _ := rassert (negb (str_eqb id "" || contains (map op_id (co_ops st)) id)) (ErrText ("missing or duplicate operation ID " +:+ quote id)) in
let key := default "" (alookup bindings id) in
try* _ := rassert (bool_decide (is_Some (alookup bindings id)) && text_prefix (sp_module service +:+ ".") key)
  (ErrText ("missing or wrong-module binding for " +:+ id)) in
try* _ := rassert (bool_decide (is_Some (Registry.Lookup registry key))) (ErrText ("unregistered behavior " +:+ quote key)) in
try* '(props, required) := (if str_eqb method "get" then get_arguments path_args def else post_arguments path_args def) in
Ok (MkCompiling (co_ops st ++ [MkOperation id (sp_name service) (to_upper method) path key (sort_strings required) props]) routes).
Definition compile_service_path (st : Compiling) (pm : string * list (string * apiOperation)) : res err Compiling :=
try* '(path_args, shape) := worldPath pm.1 in
rfold (compile_service_method pm.1 path_args shape) st pm.2.

(** [compileService] from the decoded documents. *)
Definition compile_service_spec (spec : apiSpec) : res err (list Operation) :=
try* _ := rassert (negb (bool_decide (bindings = []))) (ErrText "service has no behavior bindings") in
try* st := rfold compile_service_path (MkCompiling [] []) (as_paths spec) in
try* _ := rassert (bool_decide (length (co_ops st) = length bindings)) (ErrText "bindings include nonexistent operations") in
Ok (sort_on op_id (co_ops st)).
End Services.

Section CompileWorld.
Context `{!SqlBind, !YamlNodes, !SpecYaml, !WorldYaml}.

(** [compileService] *)
Definition compileService (service : ServiceSpec) (specBytes bindingBytes : string) (registry : Registry) : res err (list Operation) :=
try* node := decode_document "OpenAPI" decode_node specBytes in
try* _ := rassert (negb (hasRef node)) (ErrText "$ref is unsupported") in
try* _ := checkSchemas node in
let not_mapping := ErrText "OpenAPI root must be a mapping" in
try* root := match node_content node with [root] => if is_mapping root then Ok root else Err not_mapping | _ => Err not_mapping end in
try* _ := checkWorldOpenAPI root in
try* spec := decode_spec node in
try* _ := rassert (text_prefix "3.1." (as_openapi spec) && negb (bool_decide (as_paths spec = []))) (ErrText "unsupported OpenAPI version or empty paths") in
try* bindings := decode_document "bindings" decode_bindings bindingBytes in
compile_service_spec registry service bindings spec.

(** *** Digests *)

Definition service_spec_value (s : ServiceSpec) : goval :=
VStruct [("name", VString (sp_name s)); ("module", VString (sp_module s)); ("openapi", VString (sp_openapi s)); ("bindings", VString (sp_bindings s))].
Definition entity_value (e : EntitySpec) : goval :=
VStruct [("service", VString (en_service e)); ("name", VString (en_name e)); ("primary_key", VString (en_primary_key e)); ("fields", strings_value (en_fields e))].
Definition relationship_value (r : RelationshipSpec) : goval := VStruct [("from", VString (rel_from r)); ("to", VString (rel_to r))].
(** A definition after [normalizeDefinition]: its lists are never nil. *)
Definition definition_value (d : WorldDefinition) : goval :=
VStruct [("version", VInt (wd_version d)); ("name", VString (wd_name d)); ("seed_profile", VString (wd_seed_profile d));
 ("services", VSlice (map service_spec_value (wd_services d))); ("entities", VSlice (map entity_value (wd_entities d)));
 ("relationships", VSlice (map relationship_value (wd_relationships d)))].
Definition service_value (s : ServiceManifest) : goval :=
VStruct [("name", VString (sm_name s)); ("module", VString (sm_module s)); ("digest", VString (sm_digest s)); ("operations", operations_value (sm_operations s))].
Definition world_value (w : WorldMetadata) : goval :=
VStruct [("definition", definition_value (wm_definition w));
 ("services", match wm_services w with [] => VNil | l => VSlice (map service_value l) end)].
Definition digest_value (v : goval) : res err string := match marshal v with Some raw => Ok (digest_hex raw) | None => Err json_error end.
(** [digestService] and [digestWorld] *)
Definition digestService (s : ServiceManifest) : res err string :=
digest_value (VStruct [("name", VString (sm_name s)); ("module", VString (sm_module s)); ("operations", operations_value (sm_operations s))]).
Definition digestWorld (m : Manifest) : res err string :=
digest_value (VStruct [("world", match mf_world m with Some w => world_value w | None => VNil end); ("operations", operations_value (mf_operations m))]).

(** *** Validation *)

(** [validateWorldOperation] *)
Definition validateWorldOperation (op : Operation) : res err unit :=
let bad_shape := ErrText ("invalid operation shape for " +:+ op_id op) in
let bad_property := ErrText ("invalid operation property in " +:+ op_id op) in
try* '(path_args, _) := match worldPath (op_path op) with Ok p => Ok p | Err _ => Err bad_shape end in
try* _ := rassert (negb (str_eqb (op_id op) "") && bool_decide (length (op_properties op) = length (op_required op))) bad_shape in
try* _ := rfold (fun seen name =>
try* _ := rassert (negb (contains seen name) && json_type (default "" (alookup (op_properties op) name))) bad_property in
Ok (seen ++ [name])) [] (op_required op) in
if str_eqb (op_method op) "GET" then
try* _ := rassert (bool_decide (length path_args = length (op_properties op))) (ErrText ("invalid GET path parameters in " +:+ op_id op)) in
rfor (op_properties op) (fun nt => rassert (contains path_args nt.1 && str_eqb nt.2 "string") (ErrText ("invalid GET parameter in " +:+ op_id op)))
else rassert (str_eqb (op_method op) "POST" && bool_decide (path_args = [])) (ErrText ("unsupported method or path in " +:+ op_id op)).

Record Validating := MkValidating { va_previous : string; va_ids : list string; va_routes : list (string * list string) }.
Definition validate_service_operation (registry : Registry) (service : ServiceManifest) (st : Validating) (op : Operation) : res err Validating :=
try* _ := rassert (negb (str_leb (op_id op) (va_previous st)) && bool_decide (sort_strings (op_required op) = op_required op))
  (ErrText ("noncanonical operation order or arguments in " +:+ sm_name service)) in
try* _ := rassert (negb (contains (va_ids st) (op_id op)) && str_eqb (op_service op) (sm_name service)
         && text_prefix (sm_module service +:+ ".") (op_behavior op)) (ErrText ("invalid or duplicate operation " +:+ op_id op)) in
try* _ := rassert (bool_decide (is_Some (Registry.Lookup registry (op_behavior op)))) (ErrText ("unregistered behavior " +:+ quote (op_behavior op))) in
try* _ := validateWorldOperation op in
let shape := match worldPath (op_path op) with Ok (_, shape) => shape | Err _ => "" end in
try* routes := add_route (op_method op) (op_path op) (va_routes st) shape in
Ok (MkValidating (op_id op) (va_ids st ++ [op_id op]) routes).
Definition validate_service (registry : Registry) (ids : list string) (specs : ServiceSpec * ServiceManifest) : res err (list string) :=
let '(spec, service) := specs in
try* _ := rassert (str_eqb (sm_name service) (sp_name spec) && str_eqb (sm_module service) (sp_module spec) && negb (bool_decide (sm_operations service = [])))
  (ErrText ("service metadata differs for " +:+ sp_name spec)) in
try* _ := match digestService service with
| Ok digest => rassert (str_eqb digest (sm_digest service)) (ErrText ("service digest mismatch for " +:+ sp_name spec))
| Err _ => Err (ErrText ("service digest mismatch for " +:+ sp_name spec))
end in
try* st := rfold (validate_service_operation registry service) (MkValidating "" ids []) (sm_operations service) in
Ok (va_ids st).

(** [reflect.DeepEqual] of two operations: the properties are maps. *)
Definition same_operation (a b : Operation) : bool :=
str_eqb (op_id a) (op_id b) && str_eqb (op_service a) (op_service b) && str_eqb (op_method a) (op_method b) && str_eqb (op_path a) (op_path b)
&& str_eqb (op_behavior a) (op_behavior b) && bool_decide (op_required a = op_required b)
&& bool_decide ((list_to_map (op_properties a) : gmap string string) = list_to_map (op_properties b)).
Definition same_operations (a b : list Operation) : bool :=
bool_decide (length a = length b) && forallb (fun ab => same_operation ab.1 ab.2) (zip a b).

(** [ValidateManifestWithRegistry] of a world. *)
Definition validate_world (m : Manifest) (w : WorldMetadata) (registry : Registry) : res err unit :=
try* raw := marshal_definition (wm_definition w) in
let noncanonical := ErrText "invalid or noncanonical world definition" in
try* def := match ParseWorldDefinition raw with Ok def => Ok def | Err _ => Err noncanonical end in
try* _ := rassert (bool_decide (def = wm_definition w)) noncanonical in
try* _ := rassert (bool_decide (length (wd_services def) = length (wm_services w)) && negb (bool_decide (mf_operations m = [])))
  (ErrText "world service or operation count differs") in
try* _ := rfold (validate_service registry) [] (zip (wd_services def) (wm_services w)) in
let flat := sort_on op_id (flat_map sm_operations (wm_services w)) in
try* _ := rassert (same_operations flat (mf_operations m)) (ErrText "flattened world operations differ") in
let mismatch := ErrText "world manifest digest mismatch" in
match digestWorld m with
| Ok digest => rassert (str_eqb digest (mf_digest m)) mismatch
| Err _ => Err mismatch
end.
(** [ValidateManifestWithRegistry]; a nil registry is [None]. *)
Definition ValidateManifestWithRegistry (m : Manifest) (registry : option Registry) : res err unit :=
match mf_world m, registry with
| None, _ => validate_plain m
| Some _, None => Err (ErrText "behavior registry is required")
| Some w, Some registry => validate_world m w registry
end.
(** [ValidateManifest]; the built-in registration never fails. *)
Definition ValidateManifest (m : Manifest) : res err unit :=
match mf_world m with
| Some _ => ValidateManifestWithRegistry m (match Builtin with Ok r => Some r | Err _ => None end)
| None => validate_plain m
end.

(** *** CompileWorld *)

Definition compile_world_service (load : string -> res err string) (registry : Registry) (acc : list Operation * list ServiceManifest) (service : ServiceSpec)
: res err (list Operation * list ServiceManifest) :=
let '(all, services) := acc in
let name := sp_name service in
try* spec := rwrap (ErrWrap (name +:+ " OpenAPI: ")) (load (sp_openapi service)) in
try* raw := rwrap (ErrWrap (name +:+ " bindings: ")) (load (sp_bindings service)) in
try* ops := rwrap (ErrWrap (name +:+ ": ")) (compileService service spec raw registry) in
try* all := rfold (fun all op =>
try* _ := rassert (negb (contains (map op_id all) (op_id op))) (ErrText ("duplicate operation ID " +:+ quote (op_id op) +:+ " across services")) in
Ok (all ++ [op])) all ops in
let sm := MkServiceManifest name (sp_module service) "" ops in
try* digest := digestService sm in
Ok (all, services ++ [MkServiceManifest name (sp_module service) digest ops]).
(** [CompileWorld] *)
Definition CompileWorld (definition : string) (load : option (string -> res err string)) (registry : option Registry) : res err Manifest :=
match load, registry with
| Some load, Some registry =>
try* def := ParseWorldDefinition definition in
try* '(ops, services) := rfold (compile_world_service load registry) ([], []) (wd_services def) in
let ops := sort_on op_id ops in
let world := MkWorldMetadata def services in
try* digest := digestWorld (MkManifest "" ops (Some world)) in
let m := MkManifest digest ops (Some world) in
try* _ := ValidateManifestWithRegistry m (Some registry) in
Ok m
| _, _ => Err (ErrText "world loader and behavior registry are required")
end.
End CompileWorld.
