(* ===== verification/WorldFacts.v ===== *)
(** * Facts about worlds

    The canonical form of a world definition is a fixed point of parsing it;
    two routes overlap exactly when some request path takes both; and a valid
    world manifest is one the dispatcher can serve without ambiguity. *)

From S2P Require Export World.
Open Scope Z_scope.
Open Scope tx_scope.

(** ** Definitions *)

Definition good_service (s : ServiceSpec) : Prop :=
  validWorldIdentifier (sp_name s) = true /\ validWorldIdentifier (sp_module s) = true /\ blank (sp_openapi s) = false /\ blank (sp_bindings s) = false.
Definition good_entity (services : list string) (e : EntitySpec) : Prop :=
  en_service e ∈ services /\ validWorldIdentifier (en_name e) = true /\ validWorldIdentifier (en_primary_key e) = true /\
  Forall (fun f => validWorldIdentifier f = true) (en_fields e) /\ NoDup (en_fields e) /\ en_primary_key e ∈ en_fields e.
Definition good_relationship (entities : list EntitySpec) (r : RelationshipSpec) : Prop :=
  check_endpoint entities (rel_from r) = Ok tt /\ check_endpoint entities (rel_to r) = Ok tt.
Definition canonical_entity (e : EntitySpec) : EntitySpec := with_fields (sort_strings (en_fields e)) e.

Lemma check_services_ok l seen : rfold check_service [] l = Ok seen <-> Forall good_service l /\ NoDup (map sp_name l) /\ seen = map sp_name l.
Proof.
  rewrite (rfold_seen check_service good_service sp_name (fun n => n)); [by rewrite new_keys_nil, map_id|]. intros s1 x s2. rewrite map_id.
  unfold check_service, good_service. rewrite !rassert_bind, not_contains, !negb_true_iff, Ok_inj. tauto.
Qed.
Lemma check_fields_ok key l seen :
  rfold (check_field key) [] l = Ok seen <-> Forall (fun f => validWorldIdentifier f = true) l /\ NoDup l /\ seen = l.
Proof.
  rewrite (rfold_seen (check_field key) (fun f => validWorldIdentifier f = true) (fun f => f) (fun f => f)); [by rewrite new_keys_nil, !map_id|].
  intros s1 x s2. rewrite map_id. unfold check_field. by rewrite !rassert_bind, not_contains, Ok_inj.
Qed.
Lemma check_entities_ok services l seen :
  rfold (check_entity services) [] l = Ok seen <-> Forall (good_entity services) l /\ NoDup (map entity_key l) /\ seen = map canonical_entity l.
Proof.
  rewrite (rfold_seen (check_entity services) (good_entity services) canonical_entity entity_key); [by rewrite new_keys_nil, map_map|].
  intros s1 x s2. unfold check_entity, good_entity. rewrite !rassert_bind, not_contains, contains_spec, rbind_ok. setoid_rewrite check_fields_ok.
  setoid_rewrite rassert_bind. setoid_rewrite contains_spec. split.
  - intros (? & ? & ? & ? & fields & (? & ? & ->) & ? & [= <-]). done.
  - intros ((? & ? & ? & ? & ? & ?) & ? & ->). split_and!; [done..|]. by exists (en_fields x).
Qed.
Lemma check_relationships_ok entities l seen :
  rfold (check_relationship entities) [] l = Ok seen <-> Forall (good_relationship entities) l /\ NoDup l /\ seen = l.
Proof.
  rewrite (rfold_seen (check_relationship entities) (good_relationship entities) (fun r => r) (fun r => r)); [by rewrite new_keys_nil, !map_id|].
  intros s1 x s2. rewrite map_id. unfold check_relationship, good_relationship. rewrite rassert_bind, rbind_unit, rfor_ok, Ok_inj, negb_true_iff, bool_decide_eq_false.
  rewrite !Forall_cons, Forall_nil. tauto.
Qed.

(** The order does not matter, nor does the order of the fields. *)
Lemma good_entity_perm services services' e : services ≡ₚ services' -> good_entity services e -> good_entity services' (canonical_entity e).
Proof.
  intros Hp (? & ? & ? & Hf & Hnd & Hk). unfold good_entity, canonical_entity, with_fields, sort_strings. cbn. rewrite merge_sort_Permutation.
  rewrite <- Hp. done.
Qed.
Lemma declares_perm entities entities' key field : entities ≡ₚ entities' -> declares entities key field = declares entities' key field.
Proof.
  intros Hp. apply eq_true_iff_eq. unfold declares. rewrite !existsb_exists. setoid_rewrite <- list_elem_of_In. by setoid_rewrite Hp.
Qed.
Lemma contains_sort l v : contains (sort_strings l) v = contains l v.
Proof. apply eq_true_iff_eq. rewrite !contains_spec. unfold sort_strings. by rewrite merge_sort_Permutation. Qed.
Lemma declares_canonical entities key field : declares (map canonical_entity entities) key field = declares entities key field.
Proof.
  unfold declares. induction entities as [|e l IH]; cbn [map existsb]; [done|]. rewrite IH. f_equal. unfold canonical_entity, with_fields, entity_key.
  cbn [en_fields en_service en_name]. by rewrite contains_sort.
Qed.
Lemma good_relationship_same entities entities' r :
  (forall key field, declares entities key field = declares entities' key field) -> good_relationship entities r -> good_relationship entities' r.
Proof.
  intros Hd. unfold good_relationship, check_endpoint. intros Hg. destruct (split_on 46 (rel_from r)) as [|a [|b [|c [|]]]];
  destruct (split_on 46 (rel_to r)) as [|a' [|b' [|c' [|]]]]; try done; by rewrite <- !Hd.
Qed.
Lemma canonical_idem e : canonical_entity (canonical_entity e) = canonical_entity e.
Proof.
  unfold canonical_entity, with_fields. cbn. f_equal. apply sort_strings_permutation. unfold sort_strings. by rewrite merge_sort_Permutation.
Qed.

Lemma sort_on2_unique {A} (k1 k2 : A -> string) l l' : NoDup (map (fun x => (k1 x, k2 x)) l) -> l ≡ₚ l' -> sort_on2 k1 k2 l = sort_on2 k1 k2 l'.
Proof.
  intros Hnd Hp. unfold sort_on2. apply (StronglySorted_unique_strong (lex_le k1 k2)); try (apply StronglySorted_merge_sort; apply _).
  - intros x y Hx Hy Hxy Hyx. rewrite merge_sort_Permutation in Hx, Hy. rewrite <- Hp in Hy. apply (NoDup_map_inj (fun x => (k1 x, k2 x)) l); [done..|].
    destruct Hxy as [[Hn H1]|[H1 H2]], Hyx as [[Hn' H1']|[H1' H2']]; [exfalso; apply Hn; by apply (anti_symm String.le)|by destruct Hn|by destruct Hn'|].
    f_equal; [done|]. by apply (anti_symm String.le).
  - by rewrite !merge_sort_Permutation.
Qed.
Lemma entity_pairs l : NoDup (map entity_key l) -> NoDup (map (fun e => (en_service e, en_name e)) l).
Proof.
  intros Hnd. apply (NoDup_fmap_1 (fun p : string * string => p.1 +:+ "." +:+ p.2)). 
  change (fmap ?f ?l) with (map f l). by rewrite map_map.
Qed.
Lemma relationship_pairs l : NoDup l -> NoDup (map (fun r => (rel_from r, rel_to r)) l).
Proof. intros Hnd. apply NoDup_fmap_2_strong; [|done]. intros [f t] [f' t'] _ _ [= -> ->]. done. Qed.

(** A definition in canonical form, with everything it names declared. *)
Definition canonical (d : WorldDefinition) : Prop :=
  (wd_version d = 1 /\ blank (wd_name d) = false /\ wd_seed_profile d = "company-v1" /\ wd_services d <> []) /\
  (Forall good_service (wd_services d) /\ NoDup (map sp_name (wd_services d))) /\
  (Forall (good_entity (map sp_name (wd_services d))) (wd_entities d) /\ NoDup (map entity_key (wd_entities d)) /\
   Forall (fun e => canonical_entity e = e) (wd_entities d)) /\
  (Forall (good_relationship (wd_entities d)) (wd_relationships d) /\ NoDup (wd_relationships d)) /\
  sort_on sp_name (wd_services d) = wd_services d /\ sort_on2 en_service en_name (wd_entities d) = wd_entities d /\
  sort_on2 rel_from rel_to (wd_relationships d) = wd_relationships d.

Lemma check_definition_ok d d' :
  check_definition d = Ok d' <->
  (wd_version d = 1 /\ blank (wd_name d) = false /\ wd_seed_profile d = "company-v1" /\ wd_services d <> []) /\
  (Forall good_service (wd_services d) /\ NoDup (map sp_name (wd_services d))) /\
  (Forall (good_entity (map sp_name (wd_services d))) (wd_entities d) /\ NoDup (map entity_key (wd_entities d))) /\
  (Forall (good_relationship (map canonical_entity (wd_entities d))) (wd_relationships d) /\ NoDup (wd_relationships d)) /\
  d' = MkWorldDefinition (wd_version d) (wd_name d) (wd_seed_profile d) (sort_on sp_name (wd_services d))
         (sort_on2 en_service en_name (map canonical_entity (wd_entities d))) (sort_on2 rel_from rel_to (wd_relationships d)).
Proof.
  unfold check_definition. rewrite !rassert_bind, !negb_true_iff, bool_decide_eq_false, Z.eqb_eq, str_eqb_true, rbind_ok.
  setoid_rewrite check_services_ok. setoid_rewrite rbind_ok. setoid_rewrite check_entities_ok. setoid_rewrite rbind_ok.
  setoid_rewrite check_relationships_ok. split.
  - intros (? & ? & ? & ? & ? & (? & ? & ->) & ? & (? & ? & ->) & ? & (? & ? & ->) & [= <-]). done.
  - intros ((? & ? & ? & ?) & [? ?] & [? ?] & [? ?] & ->). split_and!; [done..|]. do 3 (eexists; split; [done|]). done.
Qed.

Lemma check_definition_canonical d d' : check_definition d = Ok d' -> canonical d'.
Proof.
  intros ((Hv & Hb & Hs & Hne) & [Hg Hnd] & [Hge Hnde] & [Hgr Hndr] & ->)%check_definition_ok. unfold canonical.
  cbn [wd_version wd_name wd_seed_profile wd_services wd_entities wd_relationships].
  assert (sort_on sp_name (wd_services d) ≡ₚ wd_services d) as Ps by apply sort_on_permutation.
  assert (sort_on2 en_service en_name (map canonical_entity (wd_entities d)) ≡ₚ map canonical_entity (wd_entities d)) as Pe by apply merge_sort_Permutation.
  assert (sort_on2 rel_from rel_to (wd_relationships d) ≡ₚ wd_relationships d) as Pr by apply merge_sort_Permutation.
  assert (map entity_key (map canonical_entity (wd_entities d)) = map entity_key (wd_entities d)) as Hk by (by rewrite map_map).
  split_and!.
  - done.
  - done.
  - done.
  - intros Hn. apply Hne. apply Permutation_nil_r. rewrite <- Hn. by symmetry.
  - by rewrite Ps.
  - by rewrite Ps.
  - rewrite Pe, Forall_fmap. eapply Forall_impl; [exact Hge|]. intros e He. eapply good_entity_perm; [|exact He]. by rewrite Ps.
  - by rewrite Pe, Hk.
  - rewrite Pe, Forall_fmap. apply Forall_true. intros e. apply canonical_idem.
  - rewrite Pr. eapply Forall_impl; [exact Hgr|]. intros r. apply good_relationship_same. intros key field. apply declares_perm. by symmetry.
  - by rewrite Pr.
  - by apply sort_on_unique; [rewrite Ps|].
  - apply sort_on2_unique; [|done]. rewrite Pe. by apply entity_pairs; rewrite Hk.
  - apply sort_on2_unique; [|done]. rewrite Pr. by apply relationship_pairs.
Qed.
Lemma canonical_fixed d : canonical d -> check_definition d = Ok d.
Proof.
  intros ((Hv & Hb & Hs & Hne) & [Hg Hnd] & (Hge & Hnde & Hce) & [Hgr Hndr] & Ss & Se & Sr). apply check_definition_ok.
  assert (map canonical_entity (wd_entities d) = wd_entities d) as Hm.
  { clear -Hce. induction Hce as [|e l He _ IH]; cbn; [done|]. by rewrite He, IH. }
  rewrite Hm, Ss, Se, Sr. split_and!; try done. by destruct d.
Qed.

(** ** Routes *)

(** A shape serves a request path, segment by segment. *)
Definition serves (shape : string) (request : list string) : Prop := Forall2 (fun s seg => s = "{}" \/ s = seg) (shape_segments shape) request.

Lemma segments_overlap_spec a b :
  segments_overlap a b = true <->
  exists request, Forall2 (fun s seg => s = "{}" \/ s = seg) a request /\ Forall2 (fun s seg => s = "{}" \/ s = seg) b request.
Proof.
  revert b. induction a as [|x a IH]; intros [|y b]; cbn.
  - split; [by exists []|done].
  - split; [done|]. intros (r & ->%Forall2_nil_inv_l & H2). by apply Forall2_cons_nil_inv in H2.
  - split; [done|]. intros (r & H2 & ->%Forall2_nil_inv_l). by apply Forall2_cons_nil_inv in H2.
  - rewrite andb_true_iff, IH. unfold segments_meet. rewrite !orb_true_iff, !str_eqb_true. split.
    + intros [Hm (r & Ha & Hb)]. destruct (decide (x = "{}")) as [->|Hx]; [exists (y :: r)|exists (x :: r)]; split; constructor; auto.
      destruct Hm as [[Hm|Hm]|Hm]; subst; auto. done.
    + intros (r & (seg & r' & Hx & Ha & ->)%Forall2_cons_inv_l & (seg' & r'' & Hy & Hb & [= <- <-])%Forall2_cons_inv_l). split; [|by exists r'].
      destruct Hx as [Hx|Hx], Hy as [Hy|Hy]; subst; auto.
Qed.

Lemma alookup_app {A} (m m' : list (string * A)) k : alookup (m ++ m') k = match alookup m k with Some v => Some v | None => alookup m' k end.
Proof. induction m as [|[k' v] m IH]; cbn; [done|]. by destruct (str_eqb k k'). Qed.
Lemma alookup_map_set {A} (m : list (string * A)) k v k' : alookup (map_set m k v) k' = if str_eqb k' k then Some v else alookup m k'.
Proof.
  unfold map_set. rewrite alookup_app. cbn [alookup]. induction m as [|[k1 v1] m IH]; cbn [List.filter fst].
  - cbn [alookup]. by destruct (str_eqb k' k).
  - destruct (str_eqb k k1) eqn:Hk; cbn [negb alookup].
    + apply str_eqb_true in Hk as <-. rewrite IH. destruct (str_eqb k' k) eqn:Hk'; [done|]. done.
    + destruct (str_eqb k' k1) eqn:Hk1; [|done]. apply str_eqb_true in Hk1 as ->. destruct (str_eqb k1 k) eqn:Hk2; [|done].
      apply str_eqb_true in Hk2 as ->. by rewrite str_eqb_refl in Hk.
Qed.

Lemma add_route_ok method path routes shape routes' :
  add_route method path routes shape = Ok routes' ->
  (forall p, p ∈ default [] (alookup routes method) -> routesOverlap p shape = false) /\
  shape ∈ default [] (alookup routes' method) /\
  forall m p, p ∈ default [] (alookup routes m) -> p ∈ default [] (alookup routes' m).
Proof.
  unfold add_route. rewrite rassert_bind, negb_true_iff, Ok_inj. intros [Hn ->]. split_and!.
  - intros p Hp. apply not_true_iff_false. intros Ho. rewrite <- not_true_iff_false in Hn. apply Hn. apply existsb_exists. exists p.
    by rewrite <- list_elem_of_In.
  - rewrite alookup_map_set, str_eqb_refl. apply elem_of_app. right. by apply list_elem_of_singleton.
  - intros m p Hp. rewrite alookup_map_set. destruct (str_eqb m method) eqn:Hm; [|done]. apply str_eqb_true in Hm as ->. apply elem_of_app. by left.
Qed.

(** ** Operations of a valid world *)

Definition op_shape (op : Operation) : string := match worldPath (op_path op) with Ok (_, shape) => shape | Err _ => "" end.
Definition separate (a b : Operation) : Prop := op_method a = op_method b -> routesOverlap (op_shape a) (op_shape b) = false.
Definition good_operation (registry : Registry) (service : ServiceManifest) (op : Operation) : Prop :=
  op_service op = sm_name service /\ is_Some (Registry.Lookup registry (op_behavior op)) /\ validateWorldOperation op = Ok tt.

Lemma validate_service_operation_ok registry service st op st' :
  validate_service_operation registry service st op = Ok st' ->
  good_operation registry service op /\ op_id op ∉ va_ids st /\ va_ids st' = va_ids st ++ [op_id op] /\
  add_route (op_method op) (op_path op) (va_routes st) (op_shape op) = Ok (va_routes st').
Proof.
  unfold validate_service_operation. rewrite !rassert_bind, !andb_true_iff, bool_decide_eq_true, not_contains, !str_eqb_true, rbind_unit, rbind_ok.
  unfold good_operation. intros (_ & ((Hn & Hs) & _) & bd & Hv & routes & Hr & [= <-]). apply bool_decide_eq_true in bd. done.
Qed.

Lemma validate_operations_ok registry service ops st st' :
  rfold (validate_service_operation registry service) st ops = Ok st' ->
  Forall (good_operation registry service) ops /\ new_keys (fun id => id) (va_ids st) (map op_id ops) /\ va_ids st' = va_ids st ++ map op_id ops /\
  (forall op p, op ∈ ops -> p ∈ default [] (alookup (va_routes st) (op_method op)) -> routesOverlap p (op_shape op) = false) /\
  ForallOrdPairs separate ops.
Proof.
  revert st. induction ops as [|op ops IH]; intros st; cbn [rfold map].
  - intros [= <-]. rewrite app_nil_r. split_and!; [done|apply new_keys_empty|done|by intros op p ?%elem_of_nil|constructor].
  - rewrite rbind_ok. intros (st1 & (Hg & Hn & Hids & Hr)%validate_service_operation_ok & (Hgs & Hk & Hids' & Hsep & Hpairs)%IH).
    apply add_route_ok in Hr as (Hno & Hin & Hkeep). rewrite Hids in Hk, Hids'. rewrite new_keys_cons, map_id. split_and!; [by constructor|done|done| | |].
    + by rewrite <- app_assoc in Hids'.
    + intros o p [->|Ho]%elem_of_cons Hp; [by apply Hno|]. apply Hsep; [done|]. by apply Hkeep.
    + constructor; [|done]. rewrite List.Forall_forall. intros o Ho%list_elem_of_In Hm. apply Hsep; [done|]. by rewrite <- Hm.
Qed.

Lemma validate_services_ok registry pairs ids ids' :
  rfold (validate_service registry) ids pairs = Ok ids' ->
  let services := map snd pairs in
  new_keys (fun id => id) ids (map op_id (flat_map sm_operations services)) /\
  Forall (fun sm => Forall (good_operation registry sm) (sm_operations sm) /\ ForallOrdPairs separate (sm_operations sm)) services.
Proof.
  revert ids. induction pairs as [|[spec sm] pairs IH]; intros ids; cbn [rfold map flat_map snd].
  - intros [= <-]. split; [apply new_keys_empty|constructor].
  - rewrite rbind_ok. intros (ids1 & Hs & Hr%IH). cbn zeta in Hr. destruct Hr as [Hk' Hall]. revert Hs. unfold validate_service.
    rewrite rassert_bind, rbind_unit, rbind_ok. intros (_ & _ & st & (Hg & Hk & Hids & _ & Hp)%validate_operations_ok & [= <-]).
    cbn [va_ids] in *. split; [|by constructor]. rewrite map_app. apply new_keys_app. split; [done|]. by rewrite Hids in Hk'.
Qed.

Lemma parsed_canonical `{!YamlNodes, !WorldYaml} data d : ParseWorldDefinition data = Ok d -> canonical d.
Proof. unfold ParseWorldDefinition. rewrite rbind_ok. intros (? & _ & Hp). revert Hp. rewrite rbind_unit, rbind_ok. intros (_ & ? & _ & Hp).
by eapply check_definition_canonical. Qed.

(** The arguments of a valid operation are exactly its declared properties. *)
Lemma world_operation_arguments op :
  validateWorldOperation op = Ok tt -> NoDup (op_required op) /\ op_required op ≡ₚ map fst (op_properties op) /\
  forall n, n ∈ op_required op -> json_type (default "" (alookup (op_properties op) n)) = true.
Proof.
  unfold validateWorldOperation. rewrite rbind_ok. intros ([path_args shape] & _ & Hv). revert Hv.
  rewrite rassert_bind, andb_true_iff, bool_decide_eq_true, rbind_ok. intros ([_ Hlen] & seen & Hs & _).
  rewrite (rfold_seen _ (fun name => json_type (default "" (alookup (op_properties op) name)) = true) (fun n => n) (fun n => n)) in Hs.
  2:{ intros s1 x s2. rewrite map_id, rassert_bind, andb_true_iff, not_contains, Ok_inj. tauto. }
  destruct Hs as (Hall & Hk & ->). rewrite new_keys_nil, !map_id in Hk. rewrite Forall_forall in Hall. split_and!; [done| |done].
  apply submseteq_length_Permutation; [|rewrite length_map; lia]. apply NoDup_submseteq; [done|]. intros n Hn. specialize (Hall n Hn).
  destruct (alookup (op_properties op) n) as [t|] eqn:Ha; [|done]. apply alookup_in in Ha. apply list_elem_of_fmap. by exists (n, t).
Qed.

(** ** Theorems *)

(** C17. Two routes overlap exactly when some request path takes both: the test
    the compiler uses to refuse ambiguous services misses nothing and refuses
    nothing else. *)
Theorem routesOverlap_exact left right : routesOverlap left right = true <-> exists request, serves left request /\ serves right request.
Proof. apply segments_overlap_spec. Qed.

(** C19. A valid world can be served: its definition is canonical, its operation
    ids are distinct across services, every behavior is registered, the
    arguments of an operation are exactly its declared properties, each typed,
    and no request path takes two operations of a service by the same method. *)
Theorem valid_world_sound `{!SqlBind, !YamlNodes, !WorldYaml} m w registry :
  mf_world m = Some w -> ValidateManifestWithRegistry m (Some registry) = Ok tt ->
  let flat := flat_map sm_operations (wm_services w) in
  canonical (wm_definition w) /\ NoDup (map op_id flat) /\ same_operations (sort_on op_id flat) (mf_operations m) = true /\
  (forall op, op ∈ flat -> is_Some (Registry.Lookup registry (op_behavior op)) /\ NoDup (op_required op) /\ op_required op ≡ₚ map fst (op_properties op) /\
     forall n, n ∈ op_required op -> json_type (default "" (alookup (op_properties op) n)) = true) /\
  (forall service a b request, service ∈ wm_services w -> a ∈ sm_operations service -> b ∈ sm_operations service -> op_method a = op_method b ->
     serves (op_shape a) request -> serves (op_shape b) request -> a = b).
Proof.
  intros Hw. unfold ValidateManifestWithRegistry. rewrite Hw. unfold validate_world. rewrite rbind_ok. intros (raw & _ & Hv). revert Hv.
  rewrite rbind_ok. intros (def & Hdef & Hv). revert Hv. rewrite !rassert_bind, bool_decide_eq_true, andb_true_iff, bool_decide_eq_true, rbind_ok.
  intros (-> & [Hlen _] & ids & Hs & Hv). revert Hv. rewrite rassert_bind. intros [Hsame _].
  apply validate_services_ok in Hs as [Hk Hall]. cbn zeta in Hk, Hall. rewrite new_keys_nil, map_id in Hk.
  assert (map snd (zip (wd_services (wm_definition w)) (wm_services w)) = wm_services w) as Hz by (apply snd_zip; lia).
  rewrite Hz in Hk, Hall. rewrite Forall_forall in Hall. split_and!.
  - destruct (ParseWorldDefinition raw) eqn:Hp; [|done]. injection Hdef as ->. by eapply parsed_canonical.
  - done.
  - done.
  - intros op Hop. apply list_elem_of_In, in_flat_map in Hop as (sm & Hsm%list_elem_of_In & Hop%list_elem_of_In).
    destruct (Hall sm Hsm) as [Hg _]. rewrite Forall_forall in Hg. destruct (Hg op Hop) as (_ & Hr & Hv). split; [done|]. by apply world_operation_arguments.
  - intros sm a b request Hsm Ha Hb Hm Hsa Hsb. destruct (Hall sm Hsm) as [_ Hp].
    assert (separate a b -> False) as Hab.
    { intros Hsep. specialize (Hsep Hm). unfold routesOverlap in Hsep. by rewrite (proj2 (segments_overlap_spec _ _) (ex_intro _ request (conj Hsa Hsb))) in Hsep. }
    assert (separate b a -> False) as Hba.
    { intros Hsep. specialize (Hsep (symmetry Hm)). unfold routesOverlap in Hsep. by rewrite (proj2 (segments_overlap_spec _ _) (ex_intro _ request (conj Hsb Hsa))) in Hsep. }
    destruct (ForallOrdPairs_In Hp a b) as [?|[?|?]]; [by apply list_elem_of_In..|done|by destruct Hab|by destruct Hba].
Qed.

(** The YAML library reads a text back as a definition. *)
Definition reads_back `{!YamlNodes, !WorldYaml} (raw : string) (d : WorldDefinition) : Prop :=
  (exists tag value root, unmarshal_node raw = Ok (YNode DocumentNode tag value [root]) /\ is_mapping root = true /\
     version_is_integer "world version" root = Ok tt) /\
  decode_definition raw = (Ok d, RestEOF).

(** C18. Parsing a definition is canonical: what [ParseWorldDefinition] returns
    is in canonical form, whatever order the document lists things in, and
    written out and parsed again it comes back unchanged. *)
Theorem definition_roundtrip `{!YamlNodes, !WorldYaml} data raw d :
  ParseWorldDefinition data = Ok d -> reads_back raw d -> canonical d /\ ParseWorldDefinition raw = Ok d.
Proof.
  intros Hp%parsed_canonical ((tag & value & root & Hn & Hm & Hv) & Hd). split; [done|]. unfold ParseWorldDefinition, root_mapping, decode_document, decode_only.
  rewrite Hn. cbn. rewrite Hm. cbn. rewrite Hv. cbn. rewrite Hd. cbn. by apply canonical_fixed.
Qed.

(** ** An example: one service with one operation *)
Module WorldDemo.
Definition shuffled : WorldDefinition :=
MkWorldDefinition 1 "demo" "company-v1" [MkServiceSpec "crm" "crm" "crm.yaml" "crm-bindings.yaml"]
[MkEntitySpec "crm" "note" "id" ["id"; "body"]; MkEntitySpec "crm" "account" "id" ["id"]] [MkRelationship "crm.note.id" "crm.account.id"].
Definition sorted : WorldDefinition :=
MkWorldDefinition 1 "demo" "company-v1" [MkServiceSpec "crm" "crm" "crm.yaml" "crm-bindings.yaml"]
[MkEntitySpec "crm" "account" "id" ["id"]; MkEntitySpec "crm" "note" "id" ["body"; "id"]] [MkRelationship "crm.note.id" "crm.account.id"].
Definition document : ynode := YNode DocumentNode "" "" [YNode MappingNode "!!map" "" [YNode ScalarNode "!!str" "version" []; YNode ScalarNode "!!int" "1" []]].
#[export] Instance nodes : YamlNodes := fun _ => Ok document.
#[export] Instance yaml : WorldYaml := {
decode_definition raw := (Ok (if str_eqb raw "shuffled" then shuffled else sorted), RestEOF); marshal_definition _ := Ok "sorted";
decode_node _ := (Ok document, RestEOF); decode_bindings _ := (Ok [], RestEOF) }.
Definition note : Operation := MkOperation "addNote" "crm" "POST" "/notes" "crm.addAccountNote" ["account_id"; "body"] [("account_id", "string"); ("body", "string")].
Definition get : Operation := MkOperation "getNote" "crm" "GET" "/notes/{id}" "crm.getAccount" ["id"] [("id", "string")].
Definition digest_of (r : res err string) : string := match r with Ok d => d | Err _ => "" end.
Definition service : ServiceManifest :=
MkServiceManifest "crm" "crm" (digest_of (digestService (MkServiceManifest "crm" "crm" "" [note; get]))) [note; get].
Definition world : WorldMetadata := MkWorldMetadata sorted [service].
Definition manifest : Manifest := MkManifest (digest_of (digestWorld (MkManifest "" [note; get] (Some world)))) [note; get] (Some world).
Definition handler : Handler := fun _ _ _ _ _ => reply 200 VNil.
Definition registry : Registry := {["crm.addAccountNote" := handler; "crm.getAccount" := handler]}.
Lemma valid : ValidateManifestWithRegistry manifest (Some registry) = Ok tt.
Proof. vm_compute. reflexivity. Qed.
Definition spec : apiSpec :=
MkApiSpec "3.1.0" [("/charges/{id}", [("get", MkApiOperation "getCharge" [MkParameter "id" "path" true "string"] None)]);
         ("/customers/{id}", [("get", MkApiOperation "getCustomer" [MkParameter "id" "path" true "string"] None)])].
Definition spec' : apiSpec := MkApiSpec "3.1.0" (reverse (as_paths spec)).
Definition bindings : list (string * string) := [("getCustomer", "billing.getCustomer"); ("getCharge", "billing.getCharge")].
End WorldDemo.
Import WorldDemo.

Lemma valid_world_sound_witness : NoDup (map op_id [WorldDemo.note; WorldDemo.get]) /\ canonical WorldDemo.sorted.
Proof.
  destruct (valid_world_sound WorldDemo.manifest WorldDemo.world WorldDemo.registry eq_refl WorldDemo.valid) as (Hc & Hnd & _). split; [exact Hnd|exact Hc].
Defined.
Lemma definition_roundtrip_witness : canonical WorldDemo.sorted /\ ParseWorldDefinition "sorted" = Ok WorldDemo.sorted.
Proof.
  apply (definition_roundtrip "shuffled" "sorted" WorldDemo.sorted).
  - vm_compute. reflexivity.
  - split; [|reflexivity]. do 3 eexists. split; [reflexivity|]. split; vm_compute; reflexivity.
Defined.
Lemma compile_order_irrelevant_witness : exists m, compile_spec WorldDemo.spec WorldDemo.bindings = Ok m /\ compile_spec WorldDemo.spec' (reverse WorldDemo.bindings) = Ok m.
Proof.
  destruct (compile_spec WorldDemo.spec WorldDemo.bindings) as [m|e] eqn:Hc; [|exfalso; vm_compute in Hc; discriminate]. exists m. split; [reflexivity|].
  apply (compile_order_irrelevant WorldDemo.spec _ WorldDemo.bindings); [| | |exact Hc].
  - exists (as_paths WorldDemo.spec'). split; [apply Permutation_swap|]. repeat constructor.
  - apply Permutation_swap.
  - apply (bool_decide_unpack _). vm_compute. exact I.
Defined.
Lemma compiled_is_valid_witness : exists m, compile_spec WorldDemo.spec WorldDemo.bindings = Ok m /\ validate_plain m = Ok tt.
Proof.
  destruct (compile_spec WorldDemo.spec WorldDemo.bindings) as [m|e] eqn:Hc; [|exfalso; vm_compute in Hc; discriminate]. exists m. split; [reflexivity|].
  pose proof (compiled_is_valid _ _ _ Hc) as [_ Hv]. destruct (mf_operations m) as [|op ops] eqn:Hm; [|exact Hv].
  exfalso. vm_compute in Hc. injection Hc as <-. discriminate Hm.
Defined.
