(* ===== verification/Authz.v ===== *)
(** * Authorization (internal/authz/policy.go, decision.go, args.go, stored.go)

    A secured run has one policy.  Every call it dispatches consumes the next
    call number and is decided by the policy at that number: the permission of
    the operation's behavior must be active, and the resource the call names
    must be in scope. *)

From S2P Require Export Manifest.
Open Scope Z_scope.
Open Scope tx_scope.

(** ** Policies *)

Definition permissions : list (string * string) :=
  [("billing.getCustomer", "customers.read"); ("billing.listInvoices", "invoices.read");
   ("billing.listCharges", "charges.read"); ("billing.getCharge", "charges.read");
   ("billing.createRefund", "refunds.create"); ("billing.getSubscription", "subscriptions.read");
   ("crm.getAccount", "crm.accounts.read"); ("crm.searchAccounts", "crm.accounts.read");
   ("crm.addAccountNote", "crm.notes.write"); ("crm.updateAccountStatus", "crm.accounts.write");
   ("ticket.createIssue", "jira.issues.create"); ("ticket.getIssue", "jira.issues.read");
   ("ticket.searchIssues", "jira.issues.read"); ("ticket.addComment", "jira.comments.write");
   ("ticket.transitionIssue", "jira.issues.transition"); ("messaging.listChannels", "slack.channels.read");
   ("messaging.readChannel", "slack.messages.read"); ("messaging.postMessage", "slack.messages.write")].

(** [Permission] *)
Definition Permission (op : Operation) : option string := alookup permissions (op_behavior op).

Record TemporaryGrant := MkGrant { tg_permission : string; tg_starts_at_call : Z; tg_ends_at_call : Z }.
Record Revocation := MkRevocation { rv_permission : string; rv_after_call : Z }.
(** [Policy]; a nil scope is [None]. *)
Record Policy := MkPolicyDoc {
  po_version : Z;
  po_principal_id : string; po_principal_roles : list string;
  po_roles : list (string * list string);
  po_allow : list string;
  po_customer_ids : option (list string); po_channel_ids : option (list string); po_project_ids : option (list string);
  po_refund_max_cents : option Z;
  po_temporary_grants : list TemporaryGrant;
  po_revocations : list Revocation }.

(** [Policy.CanonicalJSON] and [Policy.Digest] *)
Definition omit_nil (key : string) (l : list goval) : list (string * goval) := match l with [] => [] | _ => [(key, VSlice l)] end.
Definition role_value (allow : list string) : goval := VStruct (omit_nil "allow" (map VString allow)).
Definition scope_field (key : string) (ids : option (list string)) : list (string * goval) :=
  match ids with Some l => [(key, VSlice (map VString l))] | None => [] end.
Definition grant_value (g : TemporaryGrant) : goval :=
  VStruct [("permission", VString (tg_permission g)); ("starts_at_call", VInt (tg_starts_at_call g)); ("ends_at_call", VInt (tg_ends_at_call g))].
Definition revocation_value (r : Revocation) : goval :=
  VStruct [("permission", VString (rv_permission r)); ("after_call", VInt (rv_after_call r))].
Definition policy_value (p : Policy) : goval :=
  VStruct ([("version", VInt (po_version p));
            ("principal", VStruct ([("id", VString (po_principal_id p))] ++ omit_nil "roles" (map VString (po_principal_roles p))))]
    ++ match po_roles p with [] => [] | rs => [("roles", VMap (map (fun r => (r.1, role_value r.2)) rs))] end
    ++ [("permissions", role_value (po_allow p));
        ("resources", VStruct (scope_field "customer_ids" (po_customer_ids p) ++ scope_field "channel_ids" (po_channel_ids p)
                               ++ scope_field "project_ids" (po_project_ids p)));
        ("constraints", VStruct match po_refund_max_cents p with Some c => [("refund_max_cents", VInt c)] | None => [] end)]
    ++ omit_nil "temporary_grants" (map grant_value (po_temporary_grants p))
    ++ omit_nil "revocations" (map revocation_value (po_revocations p))).
Definition CanonicalJSON (p : Policy) : option string := marshal (policy_value p).
Definition Digest (p : Policy) : string := match CanonicalJSON p with Some raw => digest_hex raw | None => "" end.

(** [json.Unmarshal] of a stored policy. *)
Definition role_of (v : goval) : option (list string) := field v "allow" (decode_list decode_text) [].
Definition grant_of (v : goval) : option TemporaryGrant :=
  match field v "permission" decode_text "", field v "starts_at_call" decode_int 0, field v "ends_at_call" decode_int 0 with
  | Some p, Some a, Some b => Some (MkGrant p a b)
  | _, _, _ => None
  end.
Definition revocation_of (v : goval) : option Revocation :=
  match field v "permission" decode_text "", field v "after_call" decode_int 0 with
  | Some p, Some a => Some (MkRevocation p a)
  | _, _ => None
  end.
Definition empty_object : goval := VMap [].
Definition sub_field {A} (v : goval) (outer : string) (get : goval -> option A) : option A :=
  match field v outer Some empty_object with Some o => get o | None => None end.
Definition policy_of (v : goval) : option Policy :=
  match field v "version" decode_int 0,
        sub_field v "principal" (fun o => field o "id" decode_text ""),
        sub_field v "principal" (fun o => field o "roles" (decode_list decode_text) []),
        field v "roles" (decode_map role_of) [], sub_field v "permissions" role_of,
        sub_field v "resources" (fun o => pointer_field o "customer_ids" (decode_list decode_text)),
        sub_field v "resources" (fun o => pointer_field o "channel_ids" (decode_list decode_text)) with
  | Some version, Some id, Some roles, Some defs, Some allow, Some customers, Some channels =>
      match sub_field v "resources" (fun o => pointer_field o "project_ids" (decode_list decode_text)),
            sub_field v "constraints" (fun o => pointer_field o "refund_max_cents" decode_int),
            field v "temporary_grants" (decode_list grant_of) [], field v "revocations" (decode_list revocation_of) [] with
      | Some projects, Some cap, Some grants, Some revs =>
          Some (MkPolicyDoc version id roles defs allow customers channels projects cap grants revs)
      | _, _, _, _ => None
      end
  | _, _, _, _, _, _, _ => None
  end.

(** [load]: the stored policy, with its digest checked. *)
Definition load (runID : string) : DbTx (option Policy) :=
  let* row := sql_get run_auth runID in
  match row with
  | None => tret None
  | Some row =>
      tassert (str_eqb (digest_hex (pol_json row)) (pol_digest row)) (ErrText ("authorization policy digest mismatch for run " +:+ runID)) ;;;
      let* policy := tsome (match unmarshal_number (pol_json row) with Some v => policy_of v | None => None end) (ErrText "json: stored policy") in
      tassert (po_version policy =? 1) (ErrText ("unsupported stored authorization policy version " +:+ itoa (po_version policy))) ;;;
      tret (Some policy)
  end.

Arguments load : simpl never.

(** ** Decisions *)

Definition ReasonUnmapped := "behavior_unmapped".
Definition ReasonNotGranted := "permission_not_granted".
Definition ReasonRevoked := "permission_revoked".
Definition ReasonCustomerScope := "customer_out_of_scope".
Definition ReasonChannelScope := "channel_out_of_scope".
Definition ReasonProjectScope := "project_out_of_scope".
Definition ReasonBroadSearch := "broad_search_scoped".
Definition ReasonRefundLimit := "refund_limit_exceeded".

(** [Decision] *)
Record Decision := MkDecision {
  d_enforced : bool; d_invalid : bool; d_allowed : bool; d_principal : string; d_permission : string; d_reason : string; d_call : Z }.

(** [Policy.broad] *)
Definition broad (p : Policy) (behavior : string) : bool :=
  if contains ["crm.searchAccounts"; "ticket.searchIssues"] behavior then bool_decide (is_Some (po_customer_ids p))
  else if str_eqb behavior "messaging.listChannels" then bool_decide (is_Some (po_channel_ids p))
  else false.

(** [Policy.grantReason] *)
Definition grant_active (p : Policy) (permission : string) (call : Z) : bool :=
  contains (po_allow p) permission
  || existsb (fun role => contains (default [] (alookup (po_roles p) role)) permission) (po_principal_roles p)
  || existsb (fun g => str_eqb (tg_permission g) permission && (tg_starts_at_call g <=? call) && (call <=? tg_ends_at_call g))
       (po_temporary_grants p).
Definition revoked_at (p : Policy) (permission : string) (call : Z) : bool :=
  existsb (fun r => str_eqb (rv_permission r) permission && (rv_after_call r <? call)) (po_revocations p).
Definition grantReason (p : Policy) (permission : string) (call : Z) : string :=
  if negb (grant_active p permission call) then ReasonNotGranted
  else if revoked_at p permission call then ReasonRevoked
  else "".

(** [wholeNumber] *)
Definition wholeNumber (v : goval) : Z * bool :=
  match v with
  | VInt n => (n, true)
  | VFloat f => (int_of_float f, float_is_int f)
  | VNumber lit => parse_int64 lit
  | _ => (0, false)
  end.

(** [handlerValid], with its tables. *)
Definition nonBlankArgs : list (string * list string) :=
  [("crm.searchAccounts", ["query"]); ("crm.getAccount", ["id"]); ("crm.addAccountNote", ["account_id"; "body"]);
   ("crm.updateAccountStatus", ["account_id"]); ("ticket.createIssue", ["project_id"; "account_id"; "title"]);
   ("ticket.getIssue", ["id"]); ("ticket.searchIssues", ["query"]); ("ticket.addComment", ["issue_id"; "body"]);
   ("ticket.transitionIssue", ["issue_id"]); ("messaging.postMessage", ["channel_id"; "body"])].
Definition allowedValues : list (string * list (string * list string)) :=
  [("crm.updateAccountStatus", [("status", ["active"; "needs_followup"; "resolved"])]);
   ("ticket.createIssue", [("priority", ["low"; "medium"; "high"])]);
   ("ticket.transitionIssue", [("status", ["open"; "in_progress"; "resolved"])])].
Definition handlerValid (behavior : string) (args : list (string * goval)) : bool :=
  forallb (fun name => bool_decide (is_Some (stringArg args name))) (default [] (alookup nonBlankArgs behavior))
  && forallb (fun nv => contains nv.2 (default "" (as_string (arg args nv.1)))) (default [] (alookup allowedValues behavior))
  && (if str_eqb behavior "billing.createRefund"
      then let '(amount, ok) := wholeNumber (arg args "amount_cents") in ok && (0 <? amount)
      else true).

Section Decide.
Context `{!SqlBind}.

(** The customer lookups, as queries on the tables. *)
Definition chargeCustomer (s : DB) (w id : string) : option string :=
c ← charges s !! (w, id); i ← invoices s !! (w, chg_invoice_id c); Some (inv_customer_id i).
Definition accountCustomer (s : DB) (w id : string) : option string := acc_customer_id <$> crm_accounts s !! (w, id).
Definition issueCustomer (s : DB) (w id : string) : option string :=
t ← ticket_issues s !! (w, id); a ← crm_accounts s !! (w, iss_account_id t); Some (acc_customer_id a).
Definition itselfCustomer (s : DB) (w id : string) : option string := (fun _ => id) <$> customers s !! (w, id).
Definition subscriptionCustomer (s : DB) (w id : string) : option string := sub_customer_id <$> subscriptions s !! (w, id).
Definition invoiceCustomer (s : DB) (w id : string) : option string := inv_customer_id <$> invoices s !! (w, id).

Definition customerLookups : list (string * (string * (DB -> string -> string -> option string))) :=
[("billing.getCustomer", ("id", itselfCustomer)); ("billing.listInvoices", ("id", itselfCustomer));
 ("billing.getSubscription", ("id", subscriptionCustomer)); ("billing.listCharges", ("id", invoiceCustomer));
 ("billing.getCharge", ("id", chargeCustomer)); ("billing.createRefund", ("charge_id", chargeCustomer));
 ("crm.getAccount", ("id", accountCustomer)); ("crm.addAccountNote", ("account_id", accountCustomer));
 ("crm.updateAccountStatus", ("account_id", accountCustomer)); ("ticket.createIssue", ("account_id", accountCustomer));
 ("ticket.getIssue", ("id", issueCustomer)); ("ticket.addComment", ("issue_id", issueCustomer));
 ("ticket.transitionIssue", ("issue_id", issueCustomer))].
Definition channelArgs : list (string * string) := [("messaging.readChannel", "id"); ("messaging.postMessage", "channel_id")].

(** [CustomerOf]: [None] when the behavior has no customer resource, and ""
when the resource does not exist. *)
Definition CustomerOf (worldID behavior : string) (args : list (string * goval)) : DbTx (option string) :=
match alookup customerLookups behavior with
| None => tret None
| Some (name, query) =>
let* key := tlift (sql_bind (arg args name)) in
match key with
| None => tret (Some "")
| Some k => treads (fun s => Some (default "" (query s worldID k)))
end
end.

(** [Policy.resourceReason] *)
Definition resourceReason (p : Policy) (worldID behavior : string) (args : list (string * goval)) : DbTx string :=
if broad p behavior then tret ReasonBroadSearch
else
let* outside :=
match po_customer_ids p with
| None => tret false
| Some ids => let* customer := CustomerOf worldID behavior args in
        tret (match customer with Some c => negb (contains ids c) | None => false end)
end in
if (outside : bool) then tret ReasonCustomerScope
else if match alookup channelArgs behavior, po_channel_ids p with
| Some name, Some ids => negb (contains ids (default "" (as_string (arg args name))))
| _, _ => false
end then tret ReasonChannelScope
else if str_eqb behavior "ticket.createIssue" &&
match po_project_ids p with
| Some ids => negb (contains ids (default "" (as_string (arg args "project_id"))))
| None => false
end then tret ReasonProjectScope
else if str_eqb behavior "billing.createRefund" &&
match po_refund_max_cents p with
| Some cap => let '(amount, ok) := wholeNumber (arg args "amount_cents") in negb ok || (cap <? amount)
| None => false
end then tret ReasonRefundLimit
else tret "".

(** [Screen] *)
Definition Screen (worldID : string) (p : Policy) (op : Operation) (args : list (string * goval)) (call : Z) : DbTx Decision :=
let id := po_principal_id p in
if negb (handlerValid (op_behavior op) args) then tret (MkDecision true true false id "" "" 0)
else match Permission op with
 | None => tret (MkDecision true false false id "" ReasonUnmapped call)
 | Some permission =>
 let reason := grantReason p permission call in
 if negb (str_eqb reason "") then tret (MkDecision true false false id permission reason call)
 else
 let* reason := resourceReason p worldID (op_behavior op) args in
 tret (MkDecision true false (str_eqb reason "") id permission reason call)
 end.

(** [Decide]; the zero [Decision] is not enforced. *)
Definition unenforced : Decision := MkDecision false false false "" "" "" 0.
Definition Decide (runID worldID : string) (op : Operation) (args : list (string * goval)) : DbTx Decision :=
let* policy := load runID in
match policy with
| None => tret unenforced
| Some p =>
if negb (handlerValid (op_behavior op) args) then tret (MkDecision true true false (po_principal_id p) "" "" 0)
else
tmodify (set_auth_state (fun m => <[runID := default 0 (m !! runID) + 1]> m)) ;;;
let* call := sql_get_row auth_state runID in
Screen worldID p op args call
end.

(** [Exposed] *)
Definition Exposed (runID : string) (ops : list Operation) : DbTx (list Operation) :=
let* policy := load runID in
match policy with
| None => tret ops
| Some p =>
let* state := sql_get auth_state runID in
let call := default 0 state in
tret (List.filter (fun op => match Permission op with
                       | Some permission => str_eqb (grantReason p permission (call + 1)) "" && negb (broad p (op_behavior op))
                       | None => false
                       end) ops)
end.
End Decide.

(** ** The specification of a decision *)

(** What it means for a permission to be held at a call, and for the resource
    of a call to be in scope, without the order of the checks. *)
Definition granted (p : Policy) (permission : string) (call : Z) : Prop :=
  permission ∈ po_allow p \/
  (exists role allow, role ∈ po_principal_roles p /\ alookup (po_roles p) role = Some allow /\ permission ∈ allow) \/
  (exists g, g ∈ po_temporary_grants p /\ tg_permission g = permission /\ tg_starts_at_call g <= call <= tg_ends_at_call g).
Definition revoked (p : Policy) (permission : string) (call : Z) : Prop :=
  exists r, r ∈ po_revocations p /\ rv_permission r = permission /\ rv_after_call r < call.

Lemma existsb_spec {A} (f : A -> bool) l : existsb f l = true <-> exists x, x ∈ l /\ f x = true.
Proof. rewrite existsb_exists. by setoid_rewrite list_elem_of_In. Qed.

Lemma grant_active_spec p permission call : grant_active p permission call = true <-> granted p permission call.
Proof.
  unfold grant_active, granted. rewrite !orb_true_iff, contains_spec, !existsb_spec.
  assert (forall A B C A' B' C', (A <-> A') -> (B <-> B') -> (C <-> C') -> ((A \/ B) \/ C <-> A' \/ B' \/ C')) as Hor by tauto.
  apply Hor; [done| |].
  - split.
    + intros (role & Hr & Hp). destruct (alookup (po_roles p) role) as [allow|] eqn:Ha; [|done].
      apply contains_spec in Hp. eauto 6.
    + intros (role & allow & Hr & Ha & Hp). exists role. rewrite Ha. split; [done|]. by apply contains_spec.
  - split; intros (g & Hg & Hp); exists g.
    + bool_inv. split_and!; [done..|lia|lia].
    + destruct Hp as (<- & Ha & Hb). split; [done|].
      rewrite str_eqb_refl, (proj2 (Z.leb_le _ _) Ha), (proj2 (Z.leb_le _ _) Hb). done.
Qed.
Lemma revoked_at_spec p permission call : revoked_at p permission call = true <-> revoked p permission call.
Proof.
  unfold revoked_at, revoked. rewrite existsb_spec. split; intros (r & Hr & Hp); exists r.
  - by bool_inv.
  - destruct Hp as (<- & Hp). rewrite str_eqb_refl, (proj2 (Z.ltb_lt _ _) Hp). done.
Qed.

Lemma grantReason_empty p permission call :
  grantReason p permission call = "" <-> granted p permission call /\ ~ revoked p permission call.
Proof.
  unfold grantReason. rewrite <- grant_active_spec, <- revoked_at_spec.
  destruct (grant_active _ _ _), (revoked_at _ _ _); cbn; split; try done; naive_solver.
Qed.

Section DecideFacts.
Context `{!SqlBind}.

(** The customer a call's resource belongs to, as the query would see it. *)
Definition customer_of (s : DB) (w behavior : string) (args : list (string * goval)) : res err (option string) :=
match CustomerOf w behavior args s with Ok (c, _) => Ok c | Err e => Err e end.

(** Every scope of the policy contains the resource of the call. *)
Definition in_scope (p : Policy) (s : DB) (w behavior : string) (args : list (string * goval)) : Prop :=
broad p behavior = false /\
(forall ids, po_customer_ids p = Some ids ->
 exists c, customer_of s w behavior args = Ok c /\ forall cust, c = Some cust -> cust ∈ ids) /\
(forall ids name, po_channel_ids p = Some ids -> alookup channelArgs behavior = Some name ->
 default "" (as_string (arg args name)) ∈ ids) /\
(forall ids, po_project_ids p = Some ids -> behavior = "ticket.createIssue" ->
 default "" (as_string (arg args "project_id")) ∈ ids) /\
(forall cap, po_refund_max_cents p = Some cap -> behavior = "billing.createRefund" ->
 (wholeNumber (arg args "amount_cents")).2 = true /\ (wholeNumber (arg args "amount_cents")).1 <= cap).

Lemma CustomerOf_respects w b args (R : DB -> DB -> Prop) `{!PreOrder R} : respects R (CustomerOf w b args).
Proof. unfold CustomerOf. respects_tac. Qed.
Lemma CustomerOf_state w b args s c s' : CustomerOf w b args s = Ok (c, s') -> s' = s.
Proof. intros H0. symmetry. revert H0. apply (CustomerOf_respects _ _ _ eq). Qed.

Lemma resourceReason_state p w b args s r s' : resourceReason p w b args s = Ok (r, s') -> s' = s.
Proof.
intros H0. symmetry. revert H0. assert (respects eq (resourceReason p w b args)) as Hr; [|apply Hr].
unfold resourceReason. respects_tac; apply CustomerOf_respects, _.
Qed.

(** The customer scope, as [resourceReason] evaluates it. *)
Definition outside_customers (p : Policy) (w b : string) (args : list (string * goval)) : DbTx bool :=
match po_customer_ids p with
| None => tret false
| Some ids => let* customer := CustomerOf w b args in
    tret (match customer with Some c => negb (contains ids c) | None => false end)
end.
Lemma outside_customers_ok p w b args s :
outside_customers p w b args s = Ok (false, s) <->
(forall ids, po_customer_ids p = Some ids ->
 exists c, customer_of s w b args = Ok c /\ forall cust, c = Some cust -> cust ∈ ids).
Proof.
unfold outside_customers, customer_of. destruct (po_customer_ids p) as [ids|]; [|by split].
unfold tbind. destruct (CustomerOf w b args s) as [[c s']|e] eqn:Hc.
- pose proof (CustomerOf_state _ _ _ _ _ _ Hc) as ->. unfold tret. split.
+ intros [= Hn] ids' [= <-]. exists c. split; [done|]. intros cust ->. apply contains_spec. by apply negb_false_iff.
+ intros Hall. destruct (Hall ids eq_refl) as (c' & [= <-] & Hin). destruct c as [cust|]; [|done].
by rewrite (proj2 (contains_spec _ _) (Hin _ eq_refl)).
- split; [done|]. intros Hall. by destruct (Hall ids eq_refl) as (c' & ? & _).
Qed.

(** A scope on a text, as the code tests it. *)
Lemma scope_test ids v : negb (contains ids v) = false <-> v ∈ ids.
Proof. by rewrite negb_false_iff, contains_spec. Qed.

Lemma channel_clause (n : option string) (o : option (list string)) (f : string -> string) :
match n, o with Some name, Some ids => negb (contains ids (f name)) | _, _ => false end = false <->
(forall ids name, o = Some ids -> n = Some name -> f name ∈ ids).
Proof.
destruct n as [name|], o as [ids|]; [rewrite scope_test; naive_solver|done..].
Qed.
Lemma project_clause b key (o : option (list string)) v :
str_eqb b key && match o with Some ids => negb (contains ids v) | None => false end = false <->
(forall ids, o = Some ids -> b = key -> v ∈ ids).
Proof.
destruct (str_eqb b key) eqn:Hb, o as [ids|]; cbn [andb]; bool_inv; try (split; [by intros|done]).
rewrite scope_test. naive_solver.
Qed.
Lemma refund_clause b key (o : option Z) (v : Z * bool) :
str_eqb b key && match o with Some cap => let '(amount, ok) := v in negb ok || (cap <? amount) | None => false end = false <->
(forall cap, o = Some cap -> b = key -> v.2 = true /\ v.1 <= cap).
Proof.
destruct v as [amount ok], (str_eqb b key) eqn:Hb, o as [cap|]; cbn [andb fst snd]; bool_inv; try (split; [by intros|done]).
rewrite orb_false_iff, negb_false_iff, Z.ltb_ge. naive_solver.
Qed.

(** The checks in their order find no reason exactly when all scopes hold. *)
Lemma resourceReason_empty p w b args s :
resourceReason p w b args s = Ok ("", s) <-> in_scope p s w b args.
Proof.
unfold resourceReason, in_scope. fold (outside_customers p w b args).
destruct (broad p b); [split; [done|by intros [? _]]|].
rewrite <- outside_customers_ok. unfold tbind.
destruct (outside_customers p w b args s) as [[[] s1]|e] eqn:Ho.
{ unfold tret. rewrite !Ok_pair. split; [by intros [? _]|by intros (_ & [? _] & _)]. }
2:{ split; [by intros Hx|by intros (_ & Hx & _)]. }
assert (s1 = s) as ->.
{ unfold outside_customers in Ho. destruct (po_customer_ids p); [|by injection Ho].
apply tbind_ok in Ho as (c & s2 & H2 & H3). apply CustomerOf_state in H2 as ->. by injection H3. }
assert (forall A B C D A' B' C' D' : Prop, A -> A' -> (B <-> B') -> (C <-> C') -> (D <-> D') ->
(B /\ C /\ D <-> A /\ A' /\ B' /\ C' /\ D')) as Hcomb by tauto.
set (c1 := match alookup channelArgs b with Some _ => _ | None => _ end).
set (c2 := str_eqb b "ticket.createIssue" && _). set (c3 := str_eqb b "billing.createRefund" && _).
transitivity (c1 = false /\ c2 = false /\ c3 = false).
{ clearbody c1 c2 c3. unfold tret. destruct c1, c2, c3; rewrite Ok_pair; naive_solver. }
apply Hcomb; [done|done| | |].
- apply channel_clause.
- apply project_clause.
- apply refund_clause.
Qed.

(** A call the policy allows. *)
Definition permitted (p : Policy) (s : DB) (w : string) (op : Operation) (args : list (string * goval)) (call : Z) : Prop :=
handlerValid (op_behavior op) args = true /\
exists permission, Permission op = Some permission /\ granted p permission call /\ ~ revoked p permission call /\
         in_scope p s w (op_behavior op) args.

(** [Screen], when the scope queries succeed: it reads only, names the call it
was asked about, and allows exactly the permitted calls. *)
Lemma Screen_ok w p op args call s d s' :
Screen w p op args call s = Ok (d, s') ->
s' = s /\ d_enforced d = true /\ d_principal d = po_principal_id p /\
d_invalid d = negb (handlerValid (op_behavior op) args) /\
d_call d = (if handlerValid (op_behavior op) args then call else 0) /\
(d_allowed d = true <-> permitted p s w op args call).
Proof.
unfold Screen, permitted. destruct (handlerValid _ _) eqn:Hv; cbn [negb].
2:{ intros [= <- <-]. split_and!; [done..|]. by split; [intros|intros [? _]]. }
destruct (Permission op) as [permission|] eqn:Hp.
2:{ intros [= <- <-]. split_and!; [done..|]. by split; [intros|intros (_ & ? & ? & _)]. }
destruct (str_eqb (grantReason p permission call) "") eqn:Hg; cbn [negb].
2:{ intros [= <- <-]. apply str_eqb_false in Hg. split_and!; [done..|]. cbn. split; [done|].
intros (_ & ? & [= <-] & Hgr & Hre & _). exfalso. apply Hg. by apply grantReason_empty. }
apply str_eqb_true, grantReason_empty in Hg as [Hgr Hre].
intros (r & s1 & Hr & Hd)%tbind_ok. pose proof (resourceReason_state _ _ _ _ _ _ _ Hr) as ->. injection Hd as <- <-.
split_and!; [done..|]. cbn. rewrite str_eqb_true. split.
- intros ->. split; [done|]. exists permission. split_and!; [done..|]. by apply resourceReason_empty.
- intros (_ & ? & [= <-] & _ & _ & Hsc). apply resourceReason_empty in Hsc. congruence.
Qed.

(** The call number the next decision of a run gets. *)
Definition next_call (s : DB) (runID : string) : Z := default 0 (auth_state s !! runID) + 1.
Definition with_call_consumed (runID : string) (s : DB) : DB :=
set_auth_state (fun m => <[runID := default 0 (m !! runID) + 1]> m) s.

(** [Decide] is [Screen] at the next call number, which it consumes. *)
Lemma auth_decide_eq run w op args s p :
load run s = Ok (Some p, s) ->
Decide run w op args s =
if handlerValid (op_behavior op) args
then Screen w p op args (next_call s run) (with_call_consumed run s)
else Ok (MkDecision true true false (po_principal_id p) "" "" 0, s).
Proof.
intros Hl. unfold Decide, tbind at 1. rewrite Hl. destruct (handlerValid _ _) eqn:Hv; [|done]. cbn [negb].
unfold tbind, tmodify, sql_get_row. fold (with_call_consumed run s).
assert (auth_state (with_call_consumed run s) !! run = Some (next_call s run)) as Hn by exact (lookup_insert_eq _ _ _).
by rewrite Hn.
Qed.

Lemma auth_load_respects run (R : DB -> DB -> Prop) `{!PreOrder R} : respects R (load run).
Proof. unfold load. respects_tac. Qed.
Lemma load_state run s p s' : load run s = Ok (p, s') -> s' = s.
Proof. intros H0. symmetry. revert H0. apply (auth_load_respects _ eq). Qed.
(** What is loaded depends on the run's own row. *)
Lemma load_row run s s' o : run_auth s' !! run = run_auth s !! run -> load run s = Ok (o, s) -> load run s' = Ok (o, s').
Proof.
intros He. unfold load, tbind, sql_get, treads. rewrite He. destruct (run_auth s !! run) as [row|]; [|by intros [= <-]].
unfold tassert, tsome, tret, tfail. destruct (str_eqb _ _); [|done].
destruct (match unmarshal_number _ with Some v => policy_of v | None => None end) as [p|]; [|done].
destruct (po_version p =? 1); [|done]. by intros [= <-].
Qed.
Lemma load_auth run s s' o : run_auth s' = run_auth s -> load run s = Ok (o, s) -> load run s' = Ok (o, s').
Proof. intros He. apply load_row. by rewrite He. Qed.
Lemma load_None run s : run_auth s !! run = None <-> load run s = Ok (None, s).
Proof.
unfold load, tbind at 1, sql_get, treads. destruct (run_auth s !! run) as [row|]; [|done]. split; [done|].
intros H0. sql_inv.
Qed.

(** The scope queries read the world's tables only. *)
Definition scope_tables (s : DB) := (charges s, invoices s, crm_accounts s, ticket_issues s, customers s, subscriptions s).
Lemma in_scope_tables p s s' w b args : scope_tables s' = scope_tables s -> in_scope p s' w b args <-> in_scope p s w b args.
Proof.
unfold scope_tables. intros [= H1 H2 H3 H4 H5 H6].
assert (forall c, customer_of s' w b args = Ok c <-> customer_of s w b args = Ok c) as Hc.
{ intros c. unfold customer_of, CustomerOf. destruct (alookup customerLookups b) as [[name query]|] eqn:Hq; [|done].
unfold tbind, tlift. destruct (sql_bind (arg args name)) as [[k|]|]; [|done..]. unfold treads.
assert (query s' w k = query s w k) as ->; [|done].
apply alookup_in in Hq. unfold customerLookups in Hq.
repeat (apply elem_of_cons in Hq as [[= _ _ ->]|Hq];
[unfold itselfCustomer, subscriptionCustomer, invoiceCustomer, chargeCustomer, accountCustomer, issueCustomer;
 by rewrite ?H1, ?H2, ?H3, ?H4, ?H5, ?H6|]). by apply elem_of_nil in Hq. }
unfold in_scope. setoid_rewrite Hc. done.
Qed.
Lemma in_scope_consumed p s run w b args : in_scope p (with_call_consumed run s) w b args <-> in_scope p s w b args.
Proof. by apply in_scope_tables. Qed.
Lemma permitted_tables p s s' w op args call : scope_tables s' = scope_tables s -> permitted p s' w op args call <-> permitted p s w op args call.
Proof. intros Hs. unfold permitted. by setoid_rewrite (in_scope_tables p s s' w (op_behavior op) args Hs). Qed.

(** ** Theorems *)

(** A call the policy does not permit is denied. *)
Lemma decide_denies run w op args s p d s' :
load run s = Ok (Some p, s) -> Decide run w op args s = Ok (d, s') -> ~ permitted p s w op args (next_call s run) ->
d_enforced d = true /\ d_allowed d = false /\ (s' = s \/ s' = with_call_consumed run s).
Proof.
intros Hl Hd Hp. rewrite (auth_decide_eq _ _ _ _ _ _ Hl) in Hd. destruct (handlerValid (op_behavior op) args) eqn:Hv.
- apply Screen_ok in Hd as (-> & H1 & H2 & H3 & H4 & H5). split; [done|]. split; [|by right]. apply not_true_is_false. intros Ha. apply Hp.
apply H5 in Ha. unfold permitted. setoid_rewrite <- in_scope_consumed. exact Ha.
- injection Hd as <- <-. by auto.
Qed.

(** C8. Enforcement implements the policy: for a run with a policy, [Decide]
either rejects arguments the handler would reject, leaving the database
as it was, or consumes exactly the next call number and allows the call if
and only if the policy permits it at that number. *)
Theorem Decide_refines_policy run w op args s p d s' :
load run s = Ok (Some p, s) -> Decide run w op args s = Ok (d, s') ->
d_enforced d = true /\ d_principal d = po_principal_id p /\
(d_allowed d = true <-> permitted p s w op args (next_call s run)) /\
(if d_invalid d then handlerValid (op_behavior op) args = false /\ s' = s
 else d_call d = next_call s run /\ s' = with_call_consumed run s).
Proof.
intros Hl Hd. rewrite (auth_decide_eq _ _ _ _ _ _ Hl) in Hd. destruct (handlerValid (op_behavior op) args) eqn:Hv.
- apply Screen_ok in Hd as (-> & H1 & H2 & H3 & H4 & H5). rewrite Hv in H3, H4. cbn in H3. rewrite H3.
split_and!; [done|done| |done|done]. rewrite H5. unfold permitted. by setoid_rewrite in_scope_consumed.
- injection Hd as <- <-. cbn. split_and!; [done|done| |done|done]. unfold permitted. rewrite Hv. split; [done|by intros [? _]].
Qed.

(** Exposure never hides what enforcement allows, and never shows what no
call could use: for a run with a policy, an operation is offered to the
provider exactly when its permission is held at the next call number and
its behavior is not a broad search the scopes forbid; so every operation
left out would be denied at its next call, whatever its arguments. *)
Theorem Exposed_sound run ops s p out s' w op args d s'' :
load run s = Ok (Some p, s) -> Exposed run ops s = Ok (out, s') -> op ∈ ops ->
Decide run w op args s = Ok (d, s'') ->
s' = s /\ (op ∈ out <-> exists permission, Permission op = Some permission /\ granted p permission (next_call s run) /\
           ~ revoked p permission (next_call s run) /\ broad p (op_behavior op) = false) /\
(op ∉ out -> d_allowed d = false).
Proof.
intros Hl He Hin Hd. unfold Exposed, tbind at 1 in He. rewrite Hl in He. apply tbind_ok in He as (st & s1 & H1 & He).
apply sql_get_ok in H1 as [<- ->]. injection He as <- <-.
assert (op ∈ List.filter (fun op => match Permission op with
| Some permission => str_eqb (grantReason p permission (default 0 (auth_state s !! run) + 1)) "" && negb (broad p (op_behavior op))
| None => false end) ops <->
exists permission, Permission op = Some permission /\ granted p permission (next_call s run) /\
           ~ revoked p permission (next_call s run) /\ broad p (op_behavior op) = false) as Hiff.
{ rewrite list_elem_of_In, filter_In, <- list_elem_of_In. destruct (Permission op) as [permission|]; [|naive_solver].
rewrite andb_true_iff, negb_true_iff, str_eqb_true, grantReason_empty. fold (next_call s run). naive_solver. }
split; [done|]. split; [exact Hiff|]. intros Hout. apply not_true_is_false. intros Hal.
rewrite (auth_decide_eq _ _ _ _ _ _ Hl) in Hd. destruct (handlerValid (op_behavior op) args) eqn:Hv.
- apply Screen_ok in Hd as (_ & _ & _ & _ & _ & H5). apply H5 in Hal as (_ & permission & Hp & Hg & Hr & Hsc & _).
apply Hout, Hiff. eauto.
- by injection Hd as <- _.
Qed.
End DecideFacts.

(** ** An example: a policy that reads charges until call 2, for one customer *)
Module AuthzDemo.
Definition policy : Policy :=
MkPolicyDoc 1 "agent" [] [] [] (Some ["C-1"]) None None None [MkGrant "charges.read" 1 2] [].
Definition policy_text : string := default "" (CanonicalJSON policy).
Definition op : Operation :=
MkOperation "getCharge" "" "GET" "/charges/{id}" "billing.getCharge" ["id"] [("id", "string")].
Definition db : DB :=
set_run_auth (insert "R-1" (MkPolicy policy_text (digest_hex policy_text)))
(set_invoices (insert ("W-1", "INV-1") (MkInvoice "C-1" 500 "SUB-1")) Billing.demo).
Definition call_args : list (string * goval) := [("id", VString "CH-1")].
Lemma policy_loads : load "R-1" db = Ok (Some policy, db).
Proof. vm_compute. reflexivity. Qed.
End AuthzDemo.

Lemma Decide_refines_policy_witness :
  exists d s', Decide "R-1" "W-1" AuthzDemo.op AuthzDemo.call_args AuthzDemo.db = Ok (d, s') /\ d_allowed d = true /\
    permitted AuthzDemo.policy AuthzDemo.db "W-1" AuthzDemo.op AuthzDemo.call_args (next_call AuthzDemo.db "R-1").
Proof.
  destruct (Decide "R-1" "W-1" AuthzDemo.op AuthzDemo.call_args AuthzDemo.db) as [[d s']|e] eqn:Hd;
    [|exfalso; revert Hd; vm_compute; discriminate].
  assert (d_allowed d = true) as Ha.
  { transitivity (match Decide "R-1" "W-1" AuthzDemo.op AuthzDemo.call_args AuthzDemo.db with Ok (d, _) => d_allowed d | Err _ => false end);
      [rewrite Hd; reflexivity|vm_compute; reflexivity]. }
  exists d, s'. split; [reflexivity|]. split; [exact Ha|].
  destruct (Decide_refines_policy "R-1" "W-1" AuthzDemo.op AuthzDemo.call_args AuthzDemo.db AuthzDemo.policy d s'
    AuthzDemo.policy_loads Hd) as (_ & _ & Hiff & _).
  apply Hiff. exact Ha.
Defined.

Lemma Exposed_sound_witness :
  exists out, Exposed "R-1" [AuthzDemo.op] AuthzDemo.db = Ok (out, AuthzDemo.db) /\ AuthzDemo.op ∈ out.
Proof.
  destruct (Decide "R-1" "W-1" AuthzDemo.op AuthzDemo.call_args AuthzDemo.db) as [[d s'']|e] eqn:Hd;
    [|exfalso; revert Hd; vm_compute; discriminate].
  exists [AuthzDemo.op]. split; [vm_compute; reflexivity|].
  refine (proj2 (proj1 (proj2 (Exposed_sound "R-1" [AuthzDemo.op] AuthzDemo.db AuthzDemo.policy [AuthzDemo.op] AuthzDemo.db "W-1" AuthzDemo.op
    AuthzDemo.call_args d s'' AuthzDemo.policy_loads _ _ Hd))) _).
  - vm_compute. reflexivity.
  - left.
  - exists "charges.read". split; [reflexivity|]. split.
    + right. right. exists (MkGrant "charges.read" 1 2). split; [left|]. split; [reflexivity|]. vm_compute. split; discriminate.
    + split; [|reflexivity]. intros (r & Hr & _). by apply elem_of_nil in Hr.
Defined.
