(* ===== verification/AuthzPolicy.v ===== *)
(** * Authorization policies as documents (internal/authz/policy.go, stored.go)

    A policy is written in YAML, checked against the manifest of the world it
    is for, and stored with the run as canonical JSON.  Parsing keeps the
    policy's meaning, and a stored policy is read back as it was parsed. *)

From S2P Require Export Authz World JsonTyped.
Open Scope Z_scope.
Open Scope tx_scope.

(** ** Parsing *)

(** [rawPolicy]; the roles are a map, in an iteration order. *)
Record rawGrant := MkRawGrant { rg_permission : string; rg_starts_at_call : option Z; rg_ends_at_call : option Z }.
Record rawRevocation := MkRawRevocation { rr_permission : string; rr_after_call : option Z }.
Record rawPolicy := MkRawPolicy {
  rp_version : Z; rp_principal_id : string; rp_principal_roles : list string; rp_roles : list (string * list string); rp_allow : list string;
  rp_customer_ids : option (list string); rp_channel_ids : option (list string); rp_project_ids : option (list string);
  rp_refund_max_cents : option Z; rp_grants : list rawGrant; rp_revocations : list rawRevocation }.

(** [^[A-Za-z][A-Za-z0-9_.-]*$] *)
Definition name_matches (s : string) : bool :=
  match bytes_of s with
  | [] => false
  | first :: rest => is_letter first && forallb (fun b => is_letter b || cont b 48 57 || (b =? 95) || (b =? 46) || (b =? 45)) rest
  end.

(** [rejectNulls] *)
Fixpoint rejectNulls (n : ynode) (path : string) : res err unit :=
  match n with
  | YNode ScalarNode tag _ _ =>
      rassert (negb (str_eqb tag "!!null")) (ErrText ("authorization policy field " +:+ path +:+ " must not be empty or null"))
  | YNode MappingNode _ _ content =>
      (fix pairs l := match l with
                      | key :: value :: l' => try* _ := rejectNulls value (path +:+ "." +:+ node_value key) in pairs l'
                      | _ => Ok tt
                      end) content
  | YNode SequenceNode _ _ content =>
      (fix items l := match l with
                      | item :: l' => try* _ := rejectNulls item (path +:+ "[]") in items l'
                      | [] => Ok tt
                      end) content
  | _ => Ok tt
  end.

(** [known] *)
Definition known (permission : string) : bool := existsb (fun bp => str_eqb bp.2 permission) permissions.

(** The first text that stands twice in a sorted list. *)
Fixpoint adjacent (l : list string) : option string :=
  match l with
  | x :: ((y :: _) as l') => if str_eqb y x then Some y else adjacent l'
  | _ => None
  end.
(** [uniqueSorted] *)
Definition uniqueSorted (kind : string) (l : list string) : res err (list string) :=
  let out := sort_strings l in
  match adjacent out with
  | Some x => Err (ErrText ("duplicate " +:+ kind +:+ " " +:+ quote x))
  | None => Ok out
  end.

(** The order of grants: by permission, then by their start. *)
Definition grant_le (a b : TemporaryGrant) : Prop :=
  (tg_permission a <> tg_permission b /\ String.le (tg_permission a) (tg_permission b)) \/
  (tg_permission a = tg_permission b /\ tg_starts_at_call a <= tg_starts_at_call b).
#[export] Instance grant_le_dec : RelDecision grant_le.
Proof. intros a b. unfold grant_le. apply _. Defined.
(** Two neighbours that overlap. *)
Fixpoint grants_overlap (l : list TemporaryGrant) : option TemporaryGrant :=
  match l with
  | prev :: ((next :: _) as l') =>
      if str_eqb (tg_permission prev) (tg_permission next) && (tg_starts_at_call next <=? tg_ends_at_call prev) then Some next else grants_overlap l'
  | _ => None
  end.

Section Parse.
Context (manifest : Manifest).

Definition available (permission : string) : bool :=
existsb (fun op => bool_decide (Permission op = Some permission)) (mf_operations manifest).
Definition checkPermission (permission : string) : res err unit :=
try* _ := rassert (known permission) (ErrText ("unknown permission " +:+ quote permission)) in
rassert (available permission) (ErrText ("permission " +:+ permission +:+ " has no operation in this world")).
Definition allowList (context : string) (l : list string) : res err (list string) :=
try* _ := rfor l (fun permission => rwrap (ErrWrap (context +:+ ": ")) (checkPermission permission)) in
uniqueSorted (context +:+ " allow") l.

Definition parse_role (role : string * list string) : res err (string * list string) :=
try* _ := rassert (name_matches role.1) (ErrText ("invalid role name " +:+ quote role.1)) in
try* allow := allowList ("role " +:+ role.1) role.2 in
Ok (role.1, allow).
Definition parse_scope (kind : string) (ids : option (list string)) : res err (option (list string)) :=
match ids with
| None => Ok None
| Some l =>
try* _ := rfor l (fun id => rassert (negb (str_eqb id "" || negb (str_eqb (trim_space id) id))) (ErrText ("invalid " +:+ kind +:+ " entry " +:+ quote id))) in
try* l := uniqueSorted kind l in
Ok (Some l)
end.
Definition parse_grant (g : rawGrant) : res err TemporaryGrant :=
let bad := ErrText ("temporary grant " +:+ rg_permission g +:+ " requires 1 <= starts_at_call <= ends_at_call") in
try* _ := rwrap (ErrWrap "temporary grant: ") (checkPermission (rg_permission g)) in
match rg_starts_at_call g, rg_ends_at_call g with
| Some a, Some b => try* _ := rassert (negb ((a <? 1) || (b <? a))) bad in Ok (MkGrant (rg_permission g) a b)
| _, _ => Err bad
end.
Definition parse_revocation (seen : list Revocation) (r : rawRevocation) : res err (list Revocation) :=
let bad := ErrText ("revocation " +:+ rr_permission r +:+ " requires nonnegative after_call") in
try* _ := rwrap (ErrWrap "revocation: ") (checkPermission (rr_permission r)) in
try* after := rsome (rr_after_call r) bad in
try* _ := rassert (negb (after <? 0)) bad in
try* _ := rassert (negb (contains (map rv_permission seen) (rr_permission r))) (ErrText ("duplicate revocation for " +:+ rr_permission r)) in
Ok (seen ++ [MkRevocation (rr_permission r) after]).

(** [Parse] after decoding.  The roles of a policy are a map: they are kept in
the order of their names. *)
Definition check_policy (input : rawPolicy) : res err Policy :=
try* _ := rassert (rp_version input =? 1) (ErrText ("unsupported authorization policy version " +:+ itoa (rp_version input))) in
try* _ := rassert (name_matches (rp_principal_id input)) (ErrText ("invalid principal ID " +:+ quote (rp_principal_id input))) in
try* roles := rmap parse_role (rp_roles input) in
try* _ := rfor (rp_principal_roles input) (fun role =>
rassert (contains (map fst roles) role) (ErrText ("principal role " +:+ quote role +:+ " is not defined"))) in
try* principal_roles := uniqueSorted "principal role" (rp_principal_roles input) in
try* allow := allowList "permissions" (rp_allow input) in
try* customers := parse_scope "customer_ids" (rp_customer_ids input) in
try* channels := parse_scope "channel_ids" (rp_channel_ids input) in
try* projects := parse_scope "project_ids" (rp_project_ids input) in
try* _ := rassert (match rp_refund_max_cents input with Some limit => negb (limit <? 0) | None => true end)
  (ErrText "refund_max_cents must be nonnegative") in
try* grants := rmap parse_grant (rp_grants input) in
let grants := merge_sort grant_le grants in
try* _ := match grants_overlap grants with
| Some g => Err (ErrText ("temporary grants for " +:+ tg_permission g +:+ " overlap"))
| None => Ok tt
end in
try* revocations := rfold parse_revocation [] (rp_revocations input) in
let policy := MkPolicyDoc 1 (rp_principal_id input) principal_roles (sort_on fst roles) allow customers channels projects
      (rp_refund_max_cents input) grants (sort_on rv_permission revocations) in
try* _ := rsome (CanonicalJSON policy) json_error in
Ok policy.
End Parse.

Class PolicyYaml := decode_policy : Decoder rawPolicy.

(** [Parse] and [ValidateStored] *)
Section Documents.
Context `{!SqlBind, !YamlNodes, !SpecYaml, !WorldYaml, !PolicyYaml}.

Definition Parse (raw : string) (manifest : Manifest) : res err Policy :=
try* _ := rwrap (ErrWrap "manifest: ") (ValidateManifest manifest) in
try* root := root_mapping "authorization policy" raw in
try* _ := rejectNulls root "policy" in
try* _ := version_is_integer "authorization policy version" root in
try* input := decode_document "authorization policy" decode_policy raw in
check_policy manifest input.

Definition ValidateStored (encoded digest : string) (manifest : Manifest) : res err Policy :=
try* policy := rwrap (ErrWrap "stored authorization policy fails validation: ") (Parse encoded manifest) in
try* _ := rassert (bool_decide (CanonicalJSON policy = Some encoded) && str_eqb (Digest policy) digest)
  (ErrText "stored authorization policy is not canonical or digest differs") in
Ok policy.
End Documents.

(** [CopyRun]: the policy and the call counter of a run, given to another; the
    source may be another database. *)
Definition CopyRun (source : DB) (from to : string) : DbTx unit :=
  match run_auth source !! from with
  | None => tret tt
  | Some row =>
      sql_insert "run_auth" run_auth set_run_auth to row ;;;
      match auth_state source !! from with
      | None => tret tt
      | Some call => sql_insert "auth_state" auth_state set_auth_state to call
      end
  end.

(** ** Facts *)

Lemma elem_sort_strings l x : x ∈ sort_strings l <-> x ∈ l.
Proof. unfold sort_strings. by rewrite merge_sort_Permutation. Qed.
Lemma sort_strings_sorted l : StronglySorted String.le (sort_strings l).
Proof. apply StronglySorted_merge_sort; apply _. Qed.

Lemma adjacent_None l : StronglySorted String.le l -> adjacent l = None <-> NoDup l.
Proof.
  induction 1 as [|x l Hs IH Hall]; cbn; [split; [constructor|done]|]. rewrite NoDup_cons. destruct l as [|y l]; [split; [intros _; split; [by intros ?%elem_of_nil|constructor]|done]|].
  rewrite <- IH. destruct (str_eqb y x) eqn:He.
  - apply str_eqb_true in He as ->. split; [done|]. intros [Hn _]. destruct Hn. left.
  - apply str_eqb_false in He. split; [|by intros []]. intros Hn. split; [|done]. intros [->|Hin]%elem_of_cons; [done|].
    apply He. apply StronglySorted_inv in Hs as [_ Hys]. rewrite Forall_forall in Hys, Hall. apply (anti_symm String.le); [by apply Hys|apply Hall; left].
Qed.
Lemma uniqueSorted_ok kind l out : uniqueSorted kind l = Ok out <-> NoDup l /\ out = sort_strings l.
Proof.
  unfold uniqueSorted. pose proof (adjacent_None _ (sort_strings_sorted l)) as Ha. unfold sort_strings in Ha at 2. rewrite merge_sort_Permutation in Ha.
  rewrite <- Ha. destruct (adjacent _); split; [done|by intros []|by intros [= <-]|by intros [_ ->]].
Qed.

(** What a policy may grant in a world. *)
Definition permitted (m : Manifest) (permission : string) : Prop := known permission = true /\ available m permission = true.
Lemma checkPermission_ok m p u : checkPermission m p = Ok u <-> permitted m p.
Proof. unfold checkPermission, permitted. by rewrite rassert_bind, rassert_ok. Qed.
Lemma allowList_ok m context l out : allowList m context l = Ok out <-> Forall (permitted m) l /\ NoDup l /\ out = sort_strings l.
Proof.
  unfold allowList. rewrite rbind_unit, rfor_ok, uniqueSorted_ok. setoid_rewrite rwrap_ok. setoid_rewrite checkPermission_ok. done.
Qed.

Definition sorted_role (role : string * list string) : string * list string := (role.1, sort_strings role.2).
Definition good_role (m : Manifest) (role : string * list string) : Prop := name_matches role.1 = true /\ Forall (permitted m) role.2 /\ NoDup role.2.
Lemma parse_roles_ok m roles out : rmap (parse_role m) roles = Ok out <-> Forall (good_role m) roles /\ out = map sorted_role roles.
Proof.
  apply rmap_out. intros r r'. unfold parse_role, good_role. rewrite rassert_bind, rbind_ok. setoid_rewrite allowList_ok. split.
  - intros (? & ? & (? & ? & ->) & [= <-]). done.
  - intros ((? & ? & ?) & ->). split; [done|]. by exists (sort_strings r.2).
Qed.

Definition scope_entry (id : string) : Prop := id <> "" /\ trim_space id = id.
Lemma parse_scope_ok kind ids out :
  parse_scope kind ids = Ok out <-> (forall l, ids = Some l -> Forall scope_entry l /\ NoDup l) /\ out = sort_strings <$> ids.
Proof.
  unfold parse_scope, scope_entry. destruct ids as [l|]; [|naive_solver]. rewrite rbind_unit, rfor_ok, rbind_ok. setoid_rewrite uniqueSorted_ok.
  setoid_rewrite rassert_ok. setoid_rewrite negb_true_iff. setoid_rewrite orb_false_iff. setoid_rewrite negb_false_iff.
  setoid_rewrite str_eqb_false. setoid_rewrite str_eqb_true. split.
  - intros (? & ? & (? & ->) & [= <-]). split; [by intros ? [= <-]|done].
  - intros (Hl & ->). destruct (Hl l eq_refl). split; [done|]. exists (sort_strings l). done.
Qed.

(** A grant as declared, and as kept. *)
Definition declares_grant (m : Manifest) (g : rawGrant) (g' : TemporaryGrant) : Prop :=
  permitted m (tg_permission g') /\ rg_permission g = tg_permission g' /\ rg_starts_at_call g = Some (tg_starts_at_call g') /\
  rg_ends_at_call g = Some (tg_ends_at_call g') /\ 1 <= tg_starts_at_call g' <= tg_ends_at_call g'.
Lemma parse_grant_ok m g g' : parse_grant m g = Ok g' <-> declares_grant m g g'.
Proof.
  unfold parse_grant, declares_grant. rewrite rbind_unit, rwrap_ok, checkPermission_ok. split.
  - intros [Hp Hg]. destruct (rg_starts_at_call g) as [a|], (rg_ends_at_call g) as [b|]; try discriminate Hg. res_inv. cbn. bool_inv. split_and!; done || lia.
  - destruct g as [p sa ea], g' as [p' a b]. cbn. intros (Hp & -> & -> & -> & Ha & Hb). split; [done|].
    rewrite (proj2 (Z.ltb_ge a 1)), (proj2 (Z.ltb_ge b a)) by lia. done.
Qed.
Definition declares_revocation (m : Manifest) (r : rawRevocation) (r' : Revocation) : Prop :=
  permitted m (rv_permission r') /\ rr_permission r = rv_permission r' /\ rr_after_call r = Some (rv_after_call r') /\ 0 <= rv_after_call r'.
Definition kept_revocation (r : rawRevocation) : Revocation := MkRevocation (rr_permission r) (default 0 (rr_after_call r)).
Lemma parse_revocations_ok m l out :
  rfold (parse_revocation m) [] l = Ok out <->
  Forall (fun r => declares_revocation m r (kept_revocation r)) l /\ NoDup (map rr_permission l) /\ out = map kept_revocation l.
Proof.
  rewrite (rfold_seen (parse_revocation m) (fun r => declares_revocation m r (kept_revocation r)) kept_revocation rv_permission).
  - rewrite new_keys_nil, map_map. done.
  - intros s1 r s2. unfold parse_revocation, declares_revocation. rewrite rbind_unit, rwrap_ok, checkPermission_ok, rbind_ok. cbn [kept_revocation rv_permission rv_after_call].
    unfold kept_revocation. split.
    + intros (Hp & a & Ha%rsome_ok & Hr). revert Hr. rewrite !rassert_bind, not_contains, negb_true_iff, Z.ltb_ge, Ok_inj. rewrite Ha. cbn. tauto.
    + intros ((Hp & _ & Ha & Hb) & Hn & ->). split; [done|]. destruct (rr_after_call r) as [a|]; [|done]. cbn in *.
      exists a. rewrite !rassert_bind, not_contains, negb_true_iff, Z.ltb_ge. done.
Qed.

#[export] Instance grant_le_total : Total grant_le.
Proof.
  intros a b. unfold grant_le. destruct (decide (tg_permission a = tg_permission b)) as [->|Hne].
  - destruct (Z.le_ge_cases (tg_starts_at_call a) (tg_starts_at_call b)); tauto.
  - destruct (total String.le (tg_permission a) (tg_permission b)); [left|right]; left; split; congruence || done.
Qed.
#[export] Instance grant_le_trans : Transitive grant_le.
Proof.
  intros a b c. unfold grant_le. intros [[Hn1 H1]|[He1 H1]] [[Hn2 H2]|[He2 H2]].
  - left. split; [|by etransitivity]. intros He. rewrite <- He in H2. by apply Hn1, (anti_symm String.le).
  - left. by rewrite <- He2.
  - left. by rewrite He1.
  - right. split; [congruence|lia].
Qed.
(** Neighbours do not overlap, so no two grants of a permission do. *)
Lemma grants_disjoint l : StronglySorted grant_le l -> Forall (fun g => tg_starts_at_call g <= tg_ends_at_call g) l -> grants_overlap l = None ->
  ForallOrdPairs (fun a b => tg_permission a = tg_permission b -> tg_ends_at_call a < tg_starts_at_call b) l.
Proof.
  induction 1 as [|x l Hs IH Hall]; intros Hv Hn; [constructor|]. apply Forall_cons_1 in Hv as [Hx Hv]. cbn in Hn. destruct l as [|y l]; [constructor; constructor|].
  destruct (str_eqb _ _ && _) eqn:Ho; [done|]. specialize (IH Hv Hn). constructor; [|done]. rewrite List.Forall_forall. intros z Hz%list_elem_of_In Hp.
  assert (tg_permission x = tg_permission y) as Hxy.
  { apply elem_of_cons in Hz as [->|Hz]; [done|]. apply StronglySorted_inv in Hs as [_ Hyz]. rewrite Forall_forall in Hyz, Hall. specialize (Hyz z Hz).
    assert (grant_le x y) as Hle by (apply Hall; left). destruct Hle as [[Hne Hle]|[He _]]; [|done]. exfalso. apply Hne. apply (anti_symm String.le); [done|].
    rewrite Hp. destruct Hyz as [[_ ?]|[-> _]]; done. }
  rewrite (proj2 (str_eqb_true _ _) Hxy) in Ho. cbn in Ho. bool_inv. apply elem_of_cons in Hz as [->|Hz]; [done|].
  inversion IH as [|? ? Hyall _]; subst. rewrite List.Forall_forall in Hyall. apply list_elem_of_In in Hz. specialize (Hyall z Hz).
  apply Forall_cons_1 in Hv as [Hy _]. assert (tg_ends_at_call y < tg_starts_at_call z) by (apply Hyall; congruence). lia.
Qed.

(** ** Stored policies *)

(** What the texts and numbers of a policy must be for JSON to keep them:
    valid UTF-8, 64-bit integers. *)
Definition grant_plain (g : TemporaryGrant) : Prop := utf8_text (tg_permission g) /\ in_int64 (tg_starts_at_call g) /\ in_int64 (tg_ends_at_call g).
Definition revocation_plain (r : Revocation) : Prop := utf8_text (rv_permission r) /\ in_int64 (rv_after_call r).
Definition policy_plain (p : Policy) : Prop :=
  in_int64 (po_version p) /\ utf8_text (po_principal_id p) /\ Forall utf8_text (po_principal_roles p) /\
  (NoDup (map fst (po_roles p)) /\ sort_on fst (po_roles p) = po_roles p /\ Forall (fun r => utf8_text r.1 /\ Forall utf8_text r.2) (po_roles p)) /\
  Forall utf8_text (po_allow p) /\
  (forall ids l, ids ∈ [po_customer_ids p; po_channel_ids p; po_project_ids p] -> ids = Some l -> Forall utf8_text l) /\
  (forall c, po_refund_max_cents p = Some c -> in_int64 c) /\
  Forall grant_plain (po_temporary_grants p) /\ Forall revocation_plain (po_revocations p).

Lemma grant_reads g : grant_plain g -> grant_of (decoded (grant_value g)) = Some g.
Proof.
  intros (Hp & Ha & Hb). unfold grant_of, grant_value. cbn [decoded map fst snd].
  rewrite (field_some _ "permission" decode_text "" (decoded (VString (tg_permission g))) (tg_permission g)) by (done || by apply decode_text_decoded).
  rewrite (field_some _ "starts_at_call" decode_int 0 (decoded (VInt (tg_starts_at_call g))) (tg_starts_at_call g)) by (done || by apply decode_int_decoded).
  rewrite (field_some _ "ends_at_call" decode_int 0 (decoded (VInt (tg_ends_at_call g))) (tg_ends_at_call g)) by (done || by apply decode_int_decoded).
  by destruct g.
Qed.
Lemma revocation_reads r : revocation_plain r -> revocation_of (decoded (revocation_value r)) = Some r.
Proof.
  intros (Hp & Ha). unfold revocation_of, revocation_value. cbn [decoded map fst snd].
  rewrite (field_some _ "permission" decode_text "" (decoded (VString (rv_permission r))) (rv_permission r)) by (done || by apply decode_text_decoded).
  rewrite (field_some _ "after_call" decode_int 0 (decoded (VInt (rv_after_call r))) (rv_after_call r)) by (done || by apply decode_int_decoded).
  by destruct r.
Qed.
(** A list that is left out when it is empty. *)
Lemma omitted_list {A} (enc : A -> goval) (dec : goval -> option A) l m key :
  Forall (fun x => dec (decoded (enc x)) = Some x) l ->
  alookup m key = match l with [] => None | _ => Some (decoded (VSlice (map enc l))) end ->
  field (VMap m) key (decode_list dec) [] = Some l.
Proof.
  intros Hl Hm. destruct l as [|x l]; [by apply field_none|]. eapply field_some; [exact Hm|done|]. by apply decode_list_decoded.
Qed.
Lemma role_reads allow : Forall utf8_text allow -> role_of (decoded (role_value allow)) = Some allow.
Proof.
  intros Ha. unfold role_of, role_value. cbn [decoded]. apply (omitted_list VString); [|by destruct allow].
  eapply Forall_impl; [exact Ha|]. apply decode_text_decoded.
Qed.

Lemma encodable_omitted key l : Forall encodable l -> Forall (fun kv => encodable kv.2) (omit_nil key l).
Proof. intros Hl. unfold omit_nil. destruct l; constructor; [by apply encodable_slice|done]. Qed.

Lemma clean_omitted key l : Forall clean l -> Forall (fun kv => clean kv.2) (omit_nil key l).
Proof. intros Hl. unfold omit_nil. destruct l; constructor; [by apply clean_slice|done]. Qed.

Section Reads.
Context (p : Policy) (Hp : policy_plain p).

Lemma scope_reads key ids m : (forall l, ids = Some l -> Forall utf8_text l) ->
alookup m key = match ids with Some l => Some (decoded (VSlice (map VString l))) | None => None end ->
pointer_field (VMap m) key (decode_list decode_text) = Some ids.
Proof.
intros Hu Hm. unfold pointer_field. destruct ids as [l|]; [|by apply field_none]. eapply field_some; [exact Hm|done|].
by rewrite decode_strings by by apply Hu.
Qed.

Definition policy_members : list (string * goval) :=
match policy_value p with VStruct m => map (fun kv => (kv.1, decoded kv.2)) m | _ => [] end.
Lemma policy_members_ok : decoded (policy_value p) = VMap policy_members.
Proof. reflexivity. Qed.

(** The members of the stored object. *)
Ltac member := unfold policy_members, policy_value, omit_nil; destruct (po_roles p), (po_temporary_grants p), (po_revocations p); reflexivity.
Lemma member_version : alookup policy_members "version" = Some (decoded (VInt (po_version p))).
Proof. member. Qed.
Lemma member_principal : alookup policy_members "principal" =
Some (decoded (VStruct ([("id", VString (po_principal_id p))] ++ omit_nil "roles" (map VString (po_principal_roles p))))).
Proof. member. Qed.
Lemma member_roles : alookup policy_members "roles" =
match po_roles p with [] => None | rs => Some (decoded (VMap (map (fun r => (r.1, role_value r.2)) rs))) end.
Proof. member. Qed.
Lemma member_permissions : alookup policy_members "permissions" = Some (decoded (role_value (po_allow p))).
Proof. member. Qed.
Lemma member_resources : alookup policy_members "resources" =
Some (decoded (VStruct (scope_field "customer_ids" (po_customer_ids p) ++ scope_field "channel_ids" (po_channel_ids p) ++ scope_field "project_ids" (po_project_ids p)))).
Proof. member. Qed.
Lemma member_constraints : alookup policy_members "constraints" =
Some (decoded (VStruct match po_refund_max_cents p with Some c => [("refund_max_cents", VInt c)] | None => [] end)).
Proof. member. Qed.
Lemma member_grants : alookup policy_members "temporary_grants" =
match po_temporary_grants p with [] => None | gs => Some (decoded (VSlice (map grant_value gs))) end.
Proof. member. Qed.
Lemma member_revocations : alookup policy_members "revocations" =
match po_revocations p with [] => None | rs => Some (decoded (VSlice (map revocation_value rs))) end.
Proof. member. Qed.

Lemma sub_field_some {A} key (get : goval -> option A) m x :
alookup policy_members key = Some (decoded (VStruct m)) -> get (decoded (VStruct m)) = Some x -> sub_field (VMap policy_members) key get = Some x.
Proof. intros Hm Hg. unfold sub_field. by rewrite (field_some _ key Some empty_object _ (decoded (VStruct m)) Hm). Qed.

Lemma policy_reads : policy_of (decoded (policy_value p)) = Some p.
Proof.
destruct Hp as (Hv & Hid & Hpr & (Hnd & Hs & Hr) & Ha & Hsc & Hc & Hg & Hrv). rewrite policy_members_ok. unfold policy_of.
rewrite (field_some _ "version" decode_int 0 _ (po_version p) member_version) by (done || by apply decode_int_decoded).
rewrite (sub_field_some "principal" _ _ (po_principal_id p) member_principal).
2:{ cbn [decoded]. eapply field_some; [reflexivity|done|by apply decode_text_decoded]. }
rewrite (sub_field_some "principal" _ _ (po_principal_roles p) member_principal).
2:{ cbn [decoded]. apply (omitted_list VString); [eapply Forall_impl; [exact Hpr|apply decode_text_decoded]|by destruct (po_principal_roles p)]. }
assert (field (VMap policy_members) "roles" (decode_map role_of) [] = Some (po_roles p)) as ->.
{ pose proof member_roles as Hm. destruct (po_roles p) as [|r rs] eqn:Hrs; [by apply field_none|]. eapply field_some; [exact Hm|done|].
apply decode_map_decoded; [done..|]. eapply Forall_impl; [exact Hr|]. intros kv [_ Hl]. by apply role_reads. }
rewrite (sub_field_some "permissions" _ _ (po_allow p) member_permissions) by by apply role_reads.
assert (forall key ids, ids ∈ [po_customer_ids p; po_channel_ids p; po_project_ids p] ->
alookup (map (fun kv => (kv.1, decoded kv.2)) (scope_field "customer_ids" (po_customer_ids p) ++ scope_field "channel_ids" (po_channel_ids p) ++
scope_field "project_ids" (po_project_ids p))) key = match ids with Some l => Some (decoded (VSlice (map VString l))) | None => None end ->
sub_field (VMap policy_members) "resources" (fun o => pointer_field o key (decode_list decode_text)) = Some ids) as Hres.
{ intros key ids Hin Hm. eapply sub_field_some; [apply member_resources|]. cbn [decoded]. apply scope_reads; [|exact Hm]. intros l. by apply Hsc. }
rewrite (Hres "customer_ids" (po_customer_ids p)); [|left|by destruct (po_customer_ids p), (po_channel_ids p), (po_project_ids p)].
rewrite (Hres "channel_ids" (po_channel_ids p)); [|right; left|by destruct (po_customer_ids p), (po_channel_ids p), (po_project_ids p)].
rewrite (Hres "project_ids" (po_project_ids p)); [|right; right; left|by destruct (po_customer_ids p), (po_channel_ids p), (po_project_ids p)].
rewrite (sub_field_some "constraints" _ _ (po_refund_max_cents p) member_constraints).
2:{ cbn [decoded]. unfold pointer_field. destruct (po_refund_max_cents p) as [c|]; [|by apply field_none]. eapply field_some; [reflexivity|done|].
change (Some <$> decode_int (decoded (VInt c)) = Some (Some c)). by rewrite (decode_int_decoded c (Hc c eq_refl)). }
rewrite (omitted_list grant_value grant_of (po_temporary_grants p)); [|eapply Forall_impl; [exact Hg|apply grant_reads]|rewrite member_grants; by destruct (po_temporary_grants p)].
rewrite (omitted_list revocation_value revocation_of (po_revocations p)); [|eapply Forall_impl; [exact Hrv|apply revocation_reads]|rewrite member_revocations; by destruct (po_revocations p)].
by destruct p.
Qed.

(** The stored text. *)
Lemma policy_encodable : encodable (policy_value p).
Proof.
unfold policy_value. apply encodable_struct. repeat (apply Forall_app; split); try (repeat constructor; done).
- repeat constructor. cbn [snd]. apply encodable_struct, Forall_app. split; [by repeat constructor|]. apply encodable_omitted, encodable_texts.
- destruct (po_roles p) as [|r rs]; constructor; [|done]. cbn [snd]. apply encodable_map, Forall_fmap, Forall_true. intros r'. cbn.
apply encodable_struct, encodable_omitted, encodable_texts.
- repeat constructor; cbn [snd].
+ apply encodable_struct, encodable_omitted, encodable_texts.
+ apply encodable_struct. repeat (apply Forall_app; split); (destruct (_ : option (list string)); constructor; [apply encodable_slice, encodable_texts|done]).
+ apply encodable_struct. by destruct (po_refund_max_cents p); repeat constructor.
- apply encodable_omitted, Forall_fmap, Forall_true. intros g. by repeat split.
- apply encodable_omitted, Forall_fmap, Forall_true. intros r. by repeat split.
Qed.
Lemma policy_clean : clean (policy_value p).
Proof.
destruct Hp as (_ & _ & _ & (Hnd & _ & Hr) & _). unfold policy_value.
assert (forall l, Forall (fun kv => clean kv.2) (omit_nil "allow" (map VString l))) as Hl by (intros l; apply clean_omitted, clean_texts).
assert (forall l, clean (role_value l)) as Hrole by (intros l; unfold role_value; by destruct l; clean_fields ["allow"]).
assert (clean (VStruct ([("id", VString (po_principal_id p))] ++ omit_nil "roles" (map VString (po_principal_roles p))))) as H1.
{ destruct (po_principal_roles p) eqn:He; clean_fields ["id"; "roles"]; (constructor; [done|]); [done|]. apply clean_omitted, (clean_texts (_ :: _)). }
assert (clean (VStruct (scope_field "customer_ids" (po_customer_ids p) ++ scope_field "channel_ids" (po_channel_ids p)
++ scope_field "project_ids" (po_project_ids p)))) as H2.
{ destruct (po_customer_ids p), (po_channel_ids p), (po_project_ids p); clean_fields ["customer_ids"; "channel_ids"; "project_ids"];
repeat (constructor; [apply clean_slice, clean_texts|]); constructor. }
assert (clean (VStruct match po_refund_max_cents p with Some c => [("refund_max_cents", VInt c)] | None => [] end)) as H3.
{ destruct (po_refund_max_cents p); clean_fields ["refund_max_cents"]; by repeat constructor. }
assert (clean (VMap (map (fun r => (r.1, role_value r.2)) (po_roles p)))) as H4.
{ apply clean_map; [by rewrite map_map|rewrite map_map; apply Forall_fmap; eapply Forall_impl; [exact Hr|by intros r []]|].
apply Forall_fmap, Forall_true. intros r. apply Hrole. }
assert (Forall clean (map grant_value (po_temporary_grants p))) as H5.
{ apply Forall_fmap, Forall_true. intros g. unfold grant_value. clean_fields ["permission"; "starts_at_call"; "ends_at_call"]; by repeat constructor. }
assert (Forall clean (map revocation_value (po_revocations p))) as H6.
{ apply Forall_fmap, Forall_true. intros r. unfold revocation_value. clean_fields ["permission"; "after_call"]; by repeat constructor. }
apply (clean_struct _ ["version"; "principal"; "roles"; "permissions"; "resources"; "constraints"; "temporary_grants"; "revocations"]).
- unfold omit_nil. destruct (po_roles p), (po_temporary_grants p), (po_revocations p); cbn; sublist_keys.
- apply (bool_decide_unpack _). vm_compute. exact I.
- repeat constructor.
- repeat (apply Forall_app; split); [|destruct (po_roles p)| |by apply clean_omitted..].
+ constructor; [done|]. constructor; [exact H1|constructor].
+ constructor.
+ constructor; [exact H4|constructor].
+ constructor; [apply Hrole|]. constructor; [exact H2|]. constructor; [exact H3|constructor].
Qed.

Lemma policy_stored : exists json, CanonicalJSON p = Some json /\ unmarshal_number json = Some (decoded (policy_value p)).
Proof.
destruct (marshal_encodable _ policy_encodable) as [json Hj]. exists json. split; [exact Hj|]. by apply unmarshal_number_marshal; [|apply policy_clean].
Qed.
End Reads.

(** ** What parsing keeps *)

Section Meaning.
Context (manifest : Manifest).

Record accepted (input : rawPolicy) (p : Policy) (grants : list TemporaryGrant) : Prop := {
acc_id : name_matches (rp_principal_id input) = true;
acc_roles : Forall (good_role manifest) (rp_roles input);
acc_defined : forall role, role ∈ rp_principal_roles input -> role ∈ map fst (rp_roles input);
acc_allow : Forall (permitted manifest) (rp_allow input);
acc_scopes : forall ids l, ids ∈ [rp_customer_ids input; rp_channel_ids input; rp_project_ids input] -> ids = Some l -> Forall scope_entry l /\ NoDup l;
acc_distinct : NoDup (rp_principal_roles input) /\ NoDup (rp_allow input);
acc_grants : Forall2 (declares_grant manifest) (rp_grants input) grants;
acc_apart : grants_overlap (merge_sort grant_le grants) = None;
acc_revocations : Forall (fun r => declares_revocation manifest r (kept_revocation r)) (rp_revocations input) /\ NoDup (map rr_permission (rp_revocations input));
acc_policy : p = MkPolicyDoc 1 (rp_principal_id input) (sort_strings (rp_principal_roles input)) (sort_on fst (map sorted_role (rp_roles input)))
(sort_strings (rp_allow input)) (sort_strings <$> rp_customer_ids input) (sort_strings <$> rp_channel_ids input) (sort_strings <$> rp_project_ids input)
(rp_refund_max_cents input) (merge_sort grant_le grants) (sort_on rv_permission (map kept_revocation (rp_revocations input))) }.

Lemma check_policy_accepts input p : check_policy manifest input = Ok p -> exists grants, accepted input p grants.
Proof.
unfold check_policy. rewrite !rassert_bind, rbind_ok. intros (_ & Hid & roles & [Hroles ->]%parse_roles_ok & Hr). revert Hr.
rewrite rbind_unit, rfor_ok, rbind_ok. intros (Hdef & proles & [Hpr ->]%uniqueSorted_ok & Hr). revert Hr.
rewrite rbind_ok. intros (allow & (Ha & Hand & ->)%allowList_ok & Hr). revert Hr.
rewrite rbind_ok. intros (customers & [Hc ->]%parse_scope_ok & Hr). revert Hr.
rewrite rbind_ok. intros (channels & [Hch ->]%parse_scope_ok & Hr). revert Hr.
rewrite rbind_ok. intros (projects & [Hpj ->]%parse_scope_ok & Hr). revert Hr.
rewrite rassert_bind, rbind_ok. intros (_ & grants & Hg%rmap_ok & Hr). revert Hr.
rewrite rbind_unit, rbind_ok. intros (Hap & revs & (Hrv & Hrnd & ->)%parse_revocations_ok & Hr). revert Hr.
rewrite rbind_ok. intros (_ & _ & [= <-]). exists grants. split; try done.
- intros role Hrole. rewrite Forall_forall in Hdef. specialize (Hdef role Hrole). apply rassert_ok, contains_spec in Hdef.
by rewrite map_map in Hdef.
- intros ids l Hin Hl. apply elem_of_cons in Hin as [->|[->|[->|[]%elem_of_nil]%elem_of_cons]%elem_of_cons]; [by apply Hc|by apply Hch|by apply Hpj].
- eapply Forall2_impl; [exact Hg|]. intros g g' Hgg. by apply parse_grant_ok in Hgg.
- by destruct (grants_overlap _).
Qed.

(** What the document declares. *)
Definition declared_grant (input : rawPolicy) (permission : string) (call : Z) : Prop :=
permission ∈ rp_allow input \/
(exists role allow, role ∈ rp_principal_roles input /\ (role, allow) ∈ rp_roles input /\ permission ∈ allow) \/
(exists g a b, g ∈ rp_grants input /\ rg_permission g = permission /\ rg_starts_at_call g = Some a /\ rg_ends_at_call g = Some b /\ a <= call <= b).
Definition declared_revocation (input : rawPolicy) (permission : string) (call : Z) : Prop :=
exists r a, r ∈ rp_revocations input /\ rr_permission r = permission /\ rr_after_call r = Some a /\ a < call.

Context (input : rawPolicy) (p : Policy) (grants : list TemporaryGrant) (Ha : accepted input p grants) (Hnd : NoDup (map fst (rp_roles input))).

Lemma role_lookup role allow : alookup (po_roles p) role = Some allow <-> exists declared, (role, declared) ∈ rp_roles input /\ allow = sort_strings declared.
Proof.
rewrite (acc_policy _ _ _ Ha). cbn [po_roles]. rewrite alookup_Some.
- rewrite sort_on_elem, list_elem_of_fmap. split.
+ intros ([role' declared] & [= -> ->] & Hin). by exists declared.
+ intros (declared & Hin & ->). by exists (role, declared).
- rewrite sort_on_permutation, map_map. exact Hnd.
Qed.
Lemma granted_declared permission call : granted p permission call <-> declared_grant input permission call.
Proof.
unfold granted, declared_grant. pose proof role_lookup as Hroles. pose proof (acc_grants _ _ _ Ha) as Hg. rewrite (acc_policy _ _ _ Ha) in Hroles |- *.
cbn [po_allow po_principal_roles po_roles po_temporary_grants] in *. rewrite elem_sort_strings. setoid_rewrite elem_sort_strings. setoid_rewrite Hroles.
assert (forall A B C B' C', (B <-> B') -> (C <-> C') -> (A \/ B \/ C <-> A \/ B' \/ C')) as Hor by tauto. apply Hor; clear Hor.
- split.
+ intros (role & allow & Hr & (declared & Hin & ->) & Hp). rewrite elem_sort_strings in Hp. eauto.
+ intros (role & declared & Hr & Hin & Hp). exists role, (sort_strings declared). rewrite elem_sort_strings. eauto.
- setoid_rewrite merge_sort_Permutation. split.
+ intros (g' & [i Hi]%list_elem_of_lookup & <- & Hc). destruct (Forall2_lookup_r _ _ _ _ _ Hg Hi) as (g & Hg' & (_ & Hp & Hs & He & _)).
exists g. do 2 eexists. split_and!; try done; [by eapply list_elem_of_lookup_2|lia|lia].
+ intros (g & a & b & [i Hi]%list_elem_of_lookup & <- & Hs & He & Hc). destruct (Forall2_lookup_l _ _ _ _ _ Hg Hi) as (g' & Hg' & (_ & Hp & Hs' & He' & _)).
exists g'. rewrite Hs in Hs'. rewrite He in He'. simplify_eq. split; [by eapply list_elem_of_lookup_2|]. done.
Qed.
Lemma revoked_declared permission call : revoked p permission call <-> declared_revocation input permission call.
Proof.
unfold revoked, declared_revocation. destruct (acc_revocations _ _ _ Ha) as [Hr _]. rewrite (acc_policy _ _ _ Ha). cbn [po_revocations].
setoid_rewrite sort_on_elem. rewrite Forall_forall in Hr. split.
- intros (r' & (r & -> & Hin)%list_elem_of_fmap & <- & Hc). destruct (Hr r Hin) as (_ & _ & Hafter & _). exists r. eexists. split_and!; done.
- intros (r & a & Hin & <- & Hafter & Hc). exists (kept_revocation r). unfold kept_revocation. rewrite Hafter. split; [|done].
apply list_elem_of_fmap. exists r. unfold kept_revocation. by rewrite Hafter.
Qed.
(** Whatever is granted is a permission of the world. *)
Lemma granted_permitted permission call : granted p permission call -> permitted manifest permission.
Proof.
pose proof (acc_allow _ _ _ Ha) as Hallow. pose proof (acc_roles _ _ _ Ha) as Hroles. pose proof (acc_grants _ _ _ Ha) as Hg. rewrite Forall_forall in Hallow. rewrite Forall_forall in Hroles.
intros [Hp|[(role & allow & _ & (declared & Hin & ->)%role_lookup & Hp)|(g' & Hg' & <- & _)]].
- apply Hallow. rewrite (acc_policy _ _ _ Ha) in Hp. cbn [po_allow] in Hp. by rewrite elem_sort_strings in Hp.
- destruct (Hroles _ Hin) as (_ & Hdecl & _). rewrite Forall_forall in Hdecl. apply Hdecl. by rewrite elem_sort_strings in Hp.
- rewrite (acc_policy _ _ _ Ha) in Hg'. cbn [po_temporary_grants] in Hg'. rewrite merge_sort_Permutation in Hg'.
apply list_elem_of_lookup in Hg' as [i Hi]. by destruct (Forall2_lookup_r _ _ _ _ _ Hg Hi) as (g & _ & Hd & _).
Qed.

(** Names and permissions are ASCII, so only scopes and numbers come from
outside. *)
Lemma name_utf8 s : name_matches s = true -> utf8_text s.
Proof.
intros Hm. apply utf8_ascii_text. unfold name_matches in Hm. destruct (bytes_of s) as [|b l]; [done|]. apply andb_true_iff in Hm as [Hb Hl]. cbn.
assert (forall b, is_letter b = true -> (b <? 128) = true) as Hlet by (intros x; unfold is_letter, cont; lia).
rewrite (Hlet b Hb). cbn. rewrite forallb_forall in Hl |- *. intros x Hx. specialize (Hl x Hx).
unfold is_letter, cont in Hl. lia.
Qed.
Lemma permission_utf8 permission : known permission = true -> utf8_text permission.
Proof.
intros (bp & Hin & Heq)%existsb_spec. apply str_eqb_true in Heq as <-. apply utf8_ascii_text.
assert (forallb (fun bp => forallb (fun b => b <? 128) (bytes_of bp.2)) permissions = true) as Hall by (vm_compute; reflexivity).
rewrite forallb_forall in Hall. apply Hall. by apply list_elem_of_In.
Qed.
End Meaning.

(** What the YAML library gives as scopes and numbers: UTF-8 texts and 64-bit
    integers. *)
Definition decoded_input (input : rawPolicy) : Prop :=
  (forall ids l, ids ∈ [rp_customer_ids input; rp_channel_ids input; rp_project_ids input] -> ids = Some l -> Forall utf8_text l) /\
  (forall c, rp_refund_max_cents input = Some c -> in_int64 c) /\
  Forall (fun g => forall a, rg_starts_at_call g = Some a \/ rg_ends_at_call g = Some a -> in_int64 a) (rp_grants input) /\
  Forall (fun r => forall a, rr_after_call r = Some a -> in_int64 a) (rp_revocations input).

Lemma Forall_sort (P : string -> Prop) l : Forall P l -> Forall P (sort_strings l).
Proof. unfold sort_strings. by rewrite merge_sort_Permutation. Qed.

Lemma accepted_plain m input p grants : accepted m input p grants -> NoDup (map fst (rp_roles input)) -> decoded_input input -> policy_plain p.
Proof.
  intros Ha Hnd (Hsc & Hc & Hg & Hr). pose proof (acc_roles _ _ _ _ Ha) as Hroles. pose proof (acc_grants _ _ _ _ Ha) as Hgs.
  destruct (acc_revocations _ _ _ _ Ha) as [Hrv _]. pose proof (acc_allow _ _ _ _ Ha) as Hallow. pose proof (acc_defined _ _ _ _ Ha) as Hdef.
  assert (forall l, Forall (permitted m) l -> Forall utf8_text l) as Hperm.
  { intros l Hl. eapply Forall_impl; [exact Hl|]. intros x []. by apply permission_utf8. }
  rewrite (acc_policy _ _ _ _ Ha). unfold policy_plain.
  cbn [po_version po_principal_id po_principal_roles po_roles po_allow po_customer_ids po_channel_ids po_project_ids po_refund_max_cents po_temporary_grants po_revocations].
  split_and!.
  - done.
  - apply name_utf8, (acc_id _ _ _ _ Ha).
  - apply Forall_sort, Forall_forall. intros role Hrole. apply Hdef, list_elem_of_fmap in Hrole as (r & -> & Hin).
    rewrite Forall_forall in Hroles. by apply name_utf8, Hroles.
  - rewrite sort_on_permutation, map_map. exact Hnd.
  - apply sort_on_unique; [|by rewrite sort_on_permutation]. rewrite sort_on_permutation, map_map. exact Hnd.
  - rewrite sort_on_permutation. apply Forall_fmap. eapply Forall_impl; [exact Hroles|]. intros r (Hn & Hl & _).
    split; [by apply name_utf8|]. by apply Forall_sort, Hperm.
  - by apply Forall_sort, Hperm.
  - intros ids l Hin Hl. assert (exists ids0 l0, ids0 ∈ [rp_customer_ids input; rp_channel_ids input; rp_project_ids input] /\ ids0 = Some l0 /\ l = sort_strings l0)
      as (ids0 & l0 & Hin0 & Hl0 & ->); [|by eapply Forall_sort, Hsc].
    apply elem_of_cons in Hin as [->|[->|[->|[]%elem_of_nil]%elem_of_cons]%elem_of_cons]; apply fmap_Some in Hl as (l0 & Hl0 & ->);
      do 2 eexists; (split; [|split; [exact Hl0|done]]); set_solver.
  - done.
  - rewrite merge_sort_Permutation. clear -Hgs Hg. induction Hgs as [|g g' l l' (Hp & _ & Hs & He & _) _ IH]; constructor; apply Forall_cons_1 in Hg as [Hg1 Hg]; [|by apply IH].
    split_and!; [by apply permission_utf8, Hp|apply Hg1; by left|apply Hg1; by right].
  - rewrite sort_on_permutation. apply Forall_fmap. rewrite Forall_forall in Hrv. rewrite Forall_forall in Hr. apply Forall_forall. intros r Hin. destruct (Hrv r Hin) as (Hp & _ & Hafter & _).
    split; [by apply permission_utf8, Hp|]. by apply (Hr r Hin).
Qed.

(** ** Canonical order *)

(** The canonical form of a list of distinct texts. *)
Definition canonical_list (l out : list string) : Prop := out ≡ₚ l /\ StronglySorted String.le out /\ NoDup out.
Definition canonical_scope (declared kept : option (list string)) : Prop :=
  match declared, kept with Some d, Some l => canonical_list d l | None, None => True | _, _ => False end.
(** Every list of a policy is in canonical order: texts, roles and revocations
    by name, grants by permission and then by start. *)
Record canonical (input : rawPolicy) (p : Policy) : Prop := {
  can_allow : canonical_list (rp_allow input) (po_allow p);
  can_principal_roles : canonical_list (rp_principal_roles input) (po_principal_roles p);
  can_roles : StronglySorted (key_le fst) (po_roles p) /\
    exists roles, po_roles p ≡ₚ roles /\ Forall2 (fun declared role => role.1 = declared.1 /\ canonical_list declared.2 role.2) (rp_roles input) roles;
  can_scopes : canonical_scope (rp_customer_ids input) (po_customer_ids p) /\ canonical_scope (rp_channel_ids input) (po_channel_ids p) /\
    canonical_scope (rp_project_ids input) (po_project_ids p);
  can_grants : StronglySorted grant_le (po_temporary_grants p) /\ exists grants, po_temporary_grants p ≡ₚ grants /\
    Forall2 (fun g g' => rg_permission g = tg_permission g' /\ rg_starts_at_call g = Some (tg_starts_at_call g') /\ rg_ends_at_call g = Some (tg_ends_at_call g')) (rp_grants input) grants;
  can_revocations : StronglySorted (key_le rv_permission) (po_revocations p) /\ exists revocations, po_revocations p ≡ₚ revocations /\
    Forall2 (fun r r' => rr_permission r = rv_permission r' /\ rr_after_call r = Some (rv_after_call r')) (rp_revocations input) revocations }.
(** Two documents that list the same things, in any order. *)
Definition same_scope (a b : option (list string)) : Prop := match a, b with Some l, Some l' => l ≡ₚ l' | None, None => True | _, _ => False end.
Definition same_document (a b : rawPolicy) : Prop :=
  rp_principal_id a = rp_principal_id b /\ rp_refund_max_cents a = rp_refund_max_cents b /\ rp_principal_roles a ≡ₚ rp_principal_roles b /\ rp_allow a ≡ₚ rp_allow b /\
  (exists roles, roles ≡ₚ rp_roles b /\ Forall2 (fun r r' => r.1 = r'.1 /\ r.2 ≡ₚ r'.2) (rp_roles a) roles) /\
  same_scope (rp_customer_ids a) (rp_customer_ids b) /\ same_scope (rp_channel_ids a) (rp_channel_ids b) /\ same_scope (rp_project_ids a) (rp_project_ids b) /\
  rp_grants a ≡ₚ rp_grants b /\ rp_revocations a ≡ₚ rp_revocations b.

Lemma sort_strings_canonical l : NoDup l -> canonical_list l (sort_strings l).
Proof. intros Hl. assert (Hp : sort_strings l ≡ₚ l) by apply merge_sort_Permutation. split; [done|]. split; [apply sort_strings_sorted|by rewrite Hp]. Qed.
Lemma accepted_canonical m input p : check_policy m input = Ok p -> canonical input p.
Proof.
  intros [grants Ha]%check_policy_accepts. destruct (acc_distinct _ _ _ _ Ha) as [Hpr Hal]. rewrite (acc_policy _ _ _ _ Ha). split; cbn.
  - by apply sort_strings_canonical.
  - by apply sort_strings_canonical.
  - split; [apply sort_on_sorted|]. exists (map sorted_role (rp_roles input)). split; [apply sort_on_permutation|]. pose proof (acc_roles _ _ _ _ Ha) as Hr.
    clear -Hr. induction Hr as [|r l (_ & _ & Hnd) _ IH]; constructor; [|done]. split; [done|]. by apply sort_strings_canonical.
  - assert (Hs : forall declared, declared ∈ [rp_customer_ids input; rp_channel_ids input; rp_project_ids input] -> canonical_scope declared (sort_strings <$> declared)).
    { intros [d|] Hin; [|done]. by apply sort_strings_canonical, (acc_scopes _ _ _ _ Ha _ _ Hin). }
    split_and!; apply Hs; set_solver.
  - split; [apply StronglySorted_merge_sort; apply _|]. exists grants. split; [apply merge_sort_Permutation|]. eapply Forall2_impl; [exact (acc_grants _ _ _ _ Ha)|]. by intros g g' (_ & H1 & H2 & H3 & _).
  - split; [apply sort_on_sorted|]. exists (map kept_revocation (rp_revocations input)). split; [apply sort_on_permutation|]. destruct (acc_revocations _ _ _ _ Ha) as [Hr _].
    clear -Hr. induction Hr as [|r l (_ & H1 & H2 & _) _ IH]; constructor; done.
Qed.

(** A grant as it is kept. *)
Definition kept_grant (g : rawGrant) : TemporaryGrant := MkGrant (rg_permission g) (default 0 (rg_starts_at_call g)) (default 0 (rg_ends_at_call g)).
Lemma declared_kept m l grants : Forall2 (declares_grant m) l grants -> grants = map kept_grant l.
Proof.
  induction 1 as [|g g' l l' (_ & H1 & H2 & H3 & _) _ IH]; [done|]. cbn. rewrite IH. unfold kept_grant. rewrite H1, H2, H3. by destruct g'.
Qed.
(** Grants that are apart are ordered by where they start. *)
Lemma apart_antisym l x y : StronglySorted grant_le l -> ForallOrdPairs (fun a b => tg_permission a = tg_permission b -> tg_ends_at_call a < tg_starts_at_call b) l ->
  Forall (fun g => tg_starts_at_call g <= tg_ends_at_call g) l -> x ∈ l -> y ∈ l -> grant_le x y -> grant_le y x -> x = y.
Proof.
  intros _ Hap Hv Hx Hy Hxy Hyx. assert (E : tg_permission x = tg_permission y /\ tg_starts_at_call x = tg_starts_at_call y).
  { destruct Hxy as [[Hn H1]|[E H1]], Hyx as [[Hn' H2]|[E' H2]]; try congruence; [|split; [done|lia]]. by destruct Hn; apply (anti_symm String.le). }
  destruct E as [E1 E2]. induction Hap as [|z l Hall _ IH]; [by apply elem_of_nil in Hx|]. apply Forall_cons_1 in Hv as [Hz Hv]. rewrite List.Forall_forall in Hall. rewrite Forall_forall in Hv.
  apply elem_of_cons in Hx as [->|Hx], Hy as [->|Hy]; [done| | |by apply IH; [apply Forall_forall|..]].
  - pose proof (Hall y ltac:(by apply list_elem_of_In) E1). lia.
  - pose proof (Hall x ltac:(by apply list_elem_of_In) (eq_sym E1)). lia.
Qed.
Lemma same_scope_sorted a b : same_scope a b -> sort_strings <$> a = sort_strings <$> b.
Proof. destruct a, b; cbn; [|done..]. intros Hp. by rewrite (sort_strings_permutation _ _ Hp). Qed.
(** The order in which a document lists things does not matter. *)
Lemma order_irrelevant m a b p q : NoDup (map fst (rp_roles a)) -> same_document a b -> check_policy m a = Ok p -> check_policy m b = Ok q -> p = q.
Proof.
  intros Hnd (E1 & E2 & E3 & E4 & (roles & Hp & Hroles) & E6 & E7 & E8 & E9 & E10) [ga Ha]%check_policy_accepts [gb Hb]%check_policy_accepts.
  rewrite (acc_policy _ _ _ _ Ha), (acc_policy _ _ _ _ Hb). f_equal; [done|by apply sort_strings_permutation| |by apply sort_strings_permutation|by apply same_scope_sorted..|done| |].
  - assert (Em : map sorted_role (rp_roles a) = map sorted_role roles).
    { clear -Hroles. induction Hroles as [|r r' l l' [H1 H2] _ IH]; [done|]. cbn. rewrite IH. f_equal. unfold sorted_role. by rewrite H1, (sort_strings_permutation _ _ H2). }
    rewrite Em. apply sort_on_unique; [|by rewrite Hp]. rewrite <- Em, map_map. exact Hnd.
  - pose proof (acc_grants _ _ _ _ Ha) as Hga. pose proof (declared_kept _ _ _ (acc_grants _ _ _ _ Ha)) as Eg. pose proof (declared_kept _ _ _ (acc_grants _ _ _ _ Hb)) as Egb.
    assert (Hgp : merge_sort grant_le ga ≡ₚ merge_sort grant_le gb) by (rewrite !merge_sort_Permutation, Eg, Egb; by apply Permutation_map).
    assert (Hv : Forall (fun g => tg_starts_at_call g <= tg_ends_at_call g) (merge_sort grant_le ga)).
    { rewrite merge_sort_Permutation. clear -Hga. induction Hga as [|g g' l l' (_ & _ & _ & _ & Hw) _ IH]; constructor; [lia|done]. }
    assert (Hs : StronglySorted grant_le (merge_sort grant_le ga)) by (apply StronglySorted_merge_sort; apply _).
    apply (StronglySorted_unique_strong grant_le); [|done|apply StronglySorted_merge_sort; apply _|done].
    intros x y Hx Hy. rewrite <- Hgp in Hy. apply (apart_antisym (merge_sort grant_le ga)); try done. apply grants_disjoint; [done|done|exact (acc_apart _ _ _ _ Ha)].
  - apply sort_on_unique; [|by apply Permutation_map]. rewrite map_map. destruct (acc_revocations _ _ _ _ Ha) as [_ Hr]. exact Hr.
Qed.

(** ** Theorems *)

(** C20. Parsing keeps a policy's meaning: at every call number the parsed
    policy grants exactly what the document declares, by the principal's
    permissions, its roles or a temporary grant, and has not revoked; it grants
    nothing the world has no operation for; its scopes and cap are the
    document's; and every list of it is in canonical order, so that documents
    which list the same things in different orders have the same policy, and the
    same digest. *)
Theorem parsed_policy_meaning m input p :
  NoDup (map fst (rp_roles input)) -> check_policy m input = Ok p ->
  (forall permission call, grantReason p permission call = "" <-> declared_grant input permission call /\ ~ declared_revocation input permission call) /\
  (forall permission call, grantReason p permission call = "" -> exists op, op ∈ mf_operations m /\ Permission op = Some permission) /\
  (po_principal_id p = rp_principal_id input /\ po_refund_max_cents p = rp_refund_max_cents input /\
   po_customer_ids p = sort_strings <$> rp_customer_ids input /\ po_channel_ids p = sort_strings <$> rp_channel_ids input /\
   po_project_ids p = sort_strings <$> rp_project_ids input) /\
  ForallOrdPairs (fun a b => tg_permission a = tg_permission b -> tg_ends_at_call a < tg_starts_at_call b) (po_temporary_grants p) /\
  canonical input p /\
  (forall other q, same_document input other -> check_policy m other = Ok q -> q = p /\ Digest q = Digest p).
Proof.
  intros Hnd Hc. pose proof (accepted_canonical _ _ _ Hc) as Hcan. pose proof Hc as [grants Ha]%check_policy_accepts. split_and!.
  - intros permission call. by rewrite grantReason_empty, (granted_declared m input p grants Ha Hnd), (revoked_declared m input p grants Ha).
  - intros permission call [Hg _]%grantReason_empty. apply (granted_permitted m input p grants Ha Hnd) in Hg as [_ Hav].
    apply existsb_spec in Hav as (op & Hop & Hp). exists op. by apply bool_decide_eq_true in Hp.
  - by rewrite (acc_policy _ _ _ _ Ha).
  - by rewrite (acc_policy _ _ _ _ Ha).
  - by rewrite (acc_policy _ _ _ _ Ha).
  - by rewrite (acc_policy _ _ _ _ Ha).
  - by rewrite (acc_policy _ _ _ _ Ha).
  - pose proof (acc_grants _ _ _ _ Ha) as Hg. pose proof (acc_apart _ _ _ _ Ha) as Hap. rewrite (acc_policy _ _ _ _ Ha). cbn [po_temporary_grants].
    apply grants_disjoint; [apply StronglySorted_merge_sort; apply _| |exact Hap]. rewrite merge_sort_Permutation.
    clear -Hg. induction Hg as [|g g' l l' (_ & _ & _ & _ & Hb) _ IH]; constructor; [lia|done].
  - done.
  - intros other q Hs Hq. by rewrite (order_irrelevant m input other p q).
Qed.

(** A stored policy is the parsed one: written as canonical JSON with its
    digest and loaded for a call, a policy that was accepted comes back as it
    was, field by field. *)
Theorem stored_policy_loads m input p :
  check_policy m input = Ok p -> NoDup (map fst (rp_roles input)) -> decoded_input input ->
  exists json, CanonicalJSON p = Some json /\
    forall runID s, run_auth s !! runID = Some (MkPolicy json (Digest p)) -> load runID s = Ok (Some p, s).
Proof.
  intros [grants Ha]%check_policy_accepts Hnd Hd. pose proof (accepted_plain _ _ _ _ Ha Hnd Hd) as Hp.
  destruct (policy_stored p Hp) as (json & Hj & Hu). exists json. split; [exact Hj|]. intros runID s Hs.
  unfold load, sql_get, treads, tbind. rewrite Hs. cbn [pol_json pol_digest]. unfold Digest. rewrite Hj, str_eqb_refl. cbn [tassert].
  rewrite Hu, (policy_reads p Hp). cbn. by rewrite (acc_policy _ _ _ _ Ha).
Qed.

(** ** An example: a refund clerk *)
Module PolicyDemo.
Definition manifest : Manifest :=
MkManifest "" [MkOperation "createRefund" "" "POST" "/refunds" "billing.createRefund" [] []; MkOperation "getCharge" "" "GET" "/charges/{id}" "billing.getCharge" [] []] None.
Definition input : rawPolicy :=
MkRawPolicy 1 "clerk" ["support"] [("support", ["charges.read"])] [] (Some ["C-2"; "C-1"]) None None (Some 500)
[MkRawGrant "refunds.create" (Some 3) (Some 5)] [MkRawRevocation "charges.read" (Some 9)].
Lemma parses : match check_policy manifest input with Ok p => grantReason p "refunds.create" 4 = "" /\ grantReason p "charges.read" 10 = ReasonRevoked | Err _ => False end.
Proof. vm_compute. split; reflexivity. Qed.
Lemma roles_distinct : NoDup (map fst (rp_roles input)).
Proof. apply (bool_decide_unpack _). vm_compute. exact I. Qed.
Lemma decoded : decoded_input input.
Proof.
split_and!.
- intros ids l Hin ->. assert (l = ["C-2"; "C-1"]) as ->.
{ cbn in Hin. apply elem_of_cons in Hin as [[= ->]|[?|[?|[]%elem_of_nil]%elem_of_cons]%elem_of_cons]; done. }
repeat (constructor; [by apply utf8_ascii_text|]). constructor.
- intros c [= <-]. vm_compute. split; discriminate.
- constructor; [|constructor]. intros a [[= <-]|[= <-]]; vm_compute; split; discriminate.
- constructor; [|constructor]. intros a [= <-]. vm_compute. split; discriminate.
Qed.
End PolicyDemo.

Lemma parsed_policy_meaning_witness : exists p, check_policy PolicyDemo.manifest PolicyDemo.input = Ok p /\ grantReason p "refunds.create" 4 = "".
Proof.
  destruct (check_policy PolicyDemo.manifest PolicyDemo.input) as [p|e] eqn:Hc; [|exfalso; vm_compute in Hc; discriminate]. exists p. split; [reflexivity|].
  apply (parsed_policy_meaning PolicyDemo.manifest PolicyDemo.input p PolicyDemo.roles_distinct Hc). split.
  - right. right. do 3 eexists. split; [left|]. split_and!; try reflexivity; lia.
  - intros (r & a & Hin & Hp & _). apply elem_of_cons in Hin as [->|Hin]; [discriminate Hp|]. by apply elem_of_nil in Hin.
Defined.
Lemma stored_policy_loads_witness : exists p json, check_policy PolicyDemo.manifest PolicyDemo.input = Ok p /\
  load "R-1" (set_run_auth (insert "R-1" (MkPolicy json (Digest p))) (empty_db 0)) = Ok (Some p, set_run_auth (insert "R-1" (MkPolicy json (Digest p))) (empty_db 0)).
Proof.
  destruct (check_policy PolicyDemo.manifest PolicyDemo.input) as [p|e] eqn:Hc; [|exfalso; vm_compute in Hc; discriminate].
  destruct (stored_policy_loads PolicyDemo.manifest PolicyDemo.input p Hc PolicyDemo.roles_distinct PolicyDemo.decoded) as (json & _ & Hl).
  exists p, json. split; [reflexivity|]. apply Hl. apply lookup_insert_eq.
Defined.
