(* ===== verification/Chaos.v ===== *)
(** * Chaos rules (internal/chaos/policy.go, state.go)

    A run may carry an ordered list of rules, each naming the operations it
    matches, when it is active and what it does to a call.  Deciding advances
    the counters of every matching rule and selects the first active one.
    Stale reads answer from snapshots taken of earlier successful reads. *)

From S2P Require Export Manifest.
Open Scope Z_scope.
Open Scope tx_scope.

Module Chaos.

Record Actor := MkActor { ac_operation : string; ac_arguments : list (string * goval) }.
Record Rule := MkRule {
r_id : string; r_type : string; r_operations : list string; r_status : Z; r_times : Z; r_after_calls : Z;
r_duration_ms : Z; r_body : string; r_actor : option Actor }.
Record Policy := MkChaos { c_version : Z; c_rules : list Rule }.

(** [Policy.CanonicalJSON] and [Policy.Digest] *)
Definition int_field (key : string) (n : Z) : list (string * goval) := if n =? 0 then [] else [(key, VInt n)].
Definition rule_value (r : Rule) : goval :=
VStruct ([("id", VString (r_id r)); ("type", VString (r_type r)); ("operations", strings_value (r_operations r))]
++ int_field "status" (r_status r) ++ int_field "times" (r_times r) ++ int_field "after_calls" (r_after_calls r)
++ int_field "duration_ms" (r_duration_ms r) ++ text_field "body" (r_body r)
++ match r_actor r with
 | Some a => [("actor", VStruct [("operation", VString (ac_operation a)); ("arguments", VMap (ac_arguments a))])]
 | None => []
 end).
Definition policy_value (p : Policy) : goval :=
VStruct [("version", VInt (c_version p)); ("rules", VSlice (map rule_value (c_rules p)))].
Definition CanonicalJSON (p : Policy) : option string := marshal (policy_value p).
Definition Digest (p : Policy) : string := match CanonicalJSON p with Some raw => digest_hex raw | None => "" end.

(** [json.Unmarshal] of a stored policy. *)
Definition actor_of (v : goval) : option Actor :=
match field v "operation" decode_text "", field v "arguments" decode_any_map [] with
| Some op, Some args => Some (MkActor op args)
| _, _ => None
end.
Definition rule_of (v : goval) : option Rule :=
match field v "id" decode_text "", field v "type" decode_text "", field v "operations" (decode_list decode_text) [],
field v "status" decode_int 0, field v "times" decode_int 0, field v "after_calls" decode_int 0 with
| Some id, Some typ, Some ops, Some status, Some times, Some after_calls =>
match field v "duration_ms" decode_int 0, field v "body" decode_text "", pointer_field v "actor" actor_of with
| Some ms, Some body, Some actor => Some (MkRule id typ ops status times after_calls ms body actor)
| _, _, _ => None
end
| _, _, _, _, _, _ => None
end.
Definition policy_of (v : goval) : option Policy :=
match field v "version" decode_int 0, field v "rules" (decode_list rule_of) [] with
| Some version, Some rules => Some (MkChaos version rules)
| _, _ => None
end.

(** The stored policy of a run, as [Decide] reads it. *)
Definition load (runID : string) : DbTx (option Policy) :=
let* row := sql_get run_chaos runID in
match row with
| None => tret None
| Some row =>
tassert (str_eqb (digest_hex (pol_json row)) (pol_digest row)) (ErrText ("chaos policy digest mismatch for run " +:+ runID)) ;;;
let* policy := tsome (match unmarshal_number (pol_json row) with Some v => policy_of v | None => None end) (ErrText "json: stored policy") in
tassert (c_version policy =? 1) (ErrText ("unsupported stored chaos policy version " +:+ itoa (c_version policy))) ;;;
tret (Some policy)
end.

Arguments load : simpl never.

(** ** Snapshots *)

(** [argumentDigest]: the operation, a zero byte, the canonical arguments. *)
Definition argumentDigest (operationID arguments : string) : string :=
digest_hex (operationID +:+ of_bytes [0] +:+ arguments).
Arguments argumentDigest : simpl never.

(** [SaveSnapshot]: the first observation is kept. *)
Definition SaveSnapshot (runID ruleID operationID arguments : string) (status : Z) (body : string) : DbTx unit :=
tassert (json_valid arguments && json_valid body) (ErrText "invalid chaos snapshot JSON") ;;;
sql_insert_or_ignore chaos_snapshots set_chaos_snapshots (runID, ruleID, argumentDigest operationID arguments) (MkOutcome status body).

(** [LoadSnapshot], as a query: [ErrNoRows] when there is none. *)
Definition find_snapshot (runID ruleID operationID arguments : string) (s : DB) : res err OutcomeRow :=
if negb (json_valid arguments) then Err (ErrText "invalid chaos arguments JSON")
else match chaos_snapshots s !! (runID, ruleID, argumentDigest operationID arguments) with
 | Some row => Ok row
 | None => Err ErrNoRows
 end.
Definition LoadSnapshot (runID ruleID operationID arguments : string) : DbTx (Z * string) :=
let* found := treads (find_snapshot runID ruleID operationID arguments) in
let* row := tlift found in
tret (out_status row, out_body row).

Arguments json_valid : simpl never.

(** ** Deciding *)

(** [Decision]; [RuleID] is "" when no rule was selected. *)
Record Decision := MkDecision { RuleID : string; TheRule : option Rule; MatchNumber : Z; CaptureRules : list string }.

Definition matches (operationID : string) (r : Rule) : bool := contains (r_operations r) operationID.
Definition counted (row : option RuleStateRow) : RuleStateRow :=
match row with Some st => MkRuleState (matching_calls st + 1) (injections st) | None => MkRuleState 1 0 end.
Definition with_injection (st : RuleStateRow) : RuleStateRow := MkRuleState (matching_calls st) (injections st + 1).
(** The counters let the rule act on this call. *)
Definition due (r : Rule) (st : RuleStateRow) : bool :=
(r_after_calls r <? matching_calls st) && ((r_times r =? 0) || (injections st <? r_times r)).

(** [selected.RuleID == ""] *)
Definition unselected (selected : option (Rule * Z)) : bool :=
match selected with Some (r, _) => str_eqb (r_id r) "" | None => true end.

(** The body of [Decide]'s loop for one rule. *)
Definition decide_rule (runID operationID arguments : string) (selected : option (Rule * Z)) (r : Rule)
: DbTx (option (Rule * Z)) :=
if negb (matches operationID r) then tret selected
else
tmodify (set_chaos_rule_state (fun m => <[(runID, r_id r) := counted (m !! (runID, r_id r))]> m)) ;;;
let* st := sql_get_row chaos_rule_state (runID, r_id r) in
let active := unselected selected && due r st in
let* snapshot := treads (find_snapshot runID (r_id r) operationID arguments) in
let* active :=
(if active && str_eqb (r_type r) "stale_read" then
 match snapshot with
 | Ok _ => tret true
 | Err ErrNoRows => tret false
 | Err e => tfail e
 end
 else tret active) in
if (active : bool) then
sql_update set_chaos_rule_state (runID, r_id r) with_injection ;;;
tret (Some (r, matching_calls st))
else tret selected.

Definition capture_rules (operationID : string) (rules : list Rule) : list string :=
map r_id (List.filter (fun r => matches operationID r && str_eqb (r_type r) "stale_read") rules).

(** [Decide] *)
Definition Decide (runID operationID arguments : string) : DbTx Decision :=
let* policy := load runID in
match policy with
| None => tret (MkDecision "" None 0 [])
| Some p =>
let* selected := tfold (decide_rule runID operationID arguments) None (c_rules p) in
let captures := capture_rules operationID (c_rules p) in
tret (match selected with
| Some (r, n) => MkDecision (r_id r) (Some r) n captures
| None => MkDecision "" None 0 captures
end)
end.

(** ** What deciding does *)

(** The loop as a function on the counters alone. *)
Section Rules.
Context (snapshot_of : string -> bool) (run op : string).

Definition usable (r : Rule) (st : RuleStateRow) : bool :=
due r st && (negb (str_eqb (r_type r) "stale_read") || snapshot_of (r_id r)).

Fixpoint apply_rules (selected : option (Rule * Z)) (rules : list Rule) (m : gmap (string * string) RuleStateRow)
: option (Rule * Z) * gmap (string * string) RuleStateRow :=
match rules with
| [] => (selected, m)
| r :: rules' =>
if negb (matches op r) then apply_rules selected rules' m
else
let k := (run, r_id r) in
let st := counted (m !! k) in
if unselected selected && usable r st
then apply_rules (Some (r, matching_calls st)) rules' (<[k := with_injection st]> m)
else apply_rules selected rules' (<[k := st]> m)
end.

(** The rule of this call: the first in policy order that matches and is
usable with its counter advanced. *)
Definition candidate (m : gmap (string * string) RuleStateRow) (r : Rule) : bool :=
matches op r && usable r (counted (m !! (run, r_id r))).
Definition first_candidate (m : gmap (string * string) RuleStateRow) (rules : list Rule) : option Rule :=
List.find (candidate m) rules.

Lemma apply_rules_frame selected rules m k :
(forall r, r ∈ rules -> matches op r = true -> k <> (run, r_id r)) -> (apply_rules selected rules m).2 !! k = m !! k.
Proof.
revert selected m. induction rules as [|r rules IH]; intros selected m Hk; cbn; [done|].
assert (forall r', r' ∈ rules -> matches op r' = true -> k <> (run, r_id r')) as Hk' by (intros; apply Hk; [by right|done]).
destruct (matches op r) eqn:Hm; cbn; [|by apply IH].
assert (k <> (run, r_id r)) as Hne by (apply Hk; [left|done]).
case_match; rewrite IH by done; by rewrite lookup_insert_ne.
Qed.

(** Once a rule is selected, later matching rules only count. *)
Lemma apply_rules_selected r0 n rules m :
r_id r0 <> "" -> NoDup (map r_id rules) ->
(apply_rules (Some (r0, n)) rules m).1 = Some (r0, n) /\
forall r, r ∈ rules -> matches op r = true ->
(apply_rules (Some (r0, n)) rules m).2 !! (run, r_id r) = Some (counted (m !! (run, r_id r))).
Proof.
intros Hid. revert m. induction rules as [|r1 rules IH]; intros m Hnd; cbn; [split; [done|]; intros ? Hin; by apply elem_of_nil in Hin|].
apply NoDup_cons in Hnd as [Hn1 Hnd]. rewrite (proj2 (str_eqb_false _ _) Hid). cbn [andb].
destruct (matches op r1) eqn:Hm; cbn [negb].
- destruct (IH (<[(run, r_id r1) := counted (m !! (run, r_id r1))]> m) Hnd) as [H1 H2]. split; [done|].
intros r [->|Hin]%elem_of_cons Hmr.
+ rewrite apply_rules_frame, lookup_insert_eq; [done|]. intros r' Hr' _ [= Heq]. apply Hn1. rewrite Heq. by apply list_elem_of_fmap_2.
+ rewrite H2 by done. rewrite lookup_insert_ne; [done|]. intros [= Heq]. apply Hn1. rewrite Heq. by apply list_elem_of_fmap_2.
- destruct (IH m Hnd) as [H1 H2]. split; [done|]. intros r [->|Hin]%elem_of_cons Hmr; [congruence|auto].
Qed.

Definition selection (m : gmap (string * string) RuleStateRow) (o : option Rule) : option (Rule * Z) :=
(fun r => (r, matching_calls (counted (m !! (run, r_id r))))) <$> o.

Lemma first_candidate_cons m r rules :
first_candidate m (r :: rules) = if candidate m r then Some r else first_candidate m rules.
Proof. done. Qed.
Lemma first_candidate_in m rules r : first_candidate m rules = Some r -> r ∈ rules.
Proof. unfold first_candidate. intros [Hin _]%find_some. by apply list_elem_of_In. Qed.
Lemma first_candidate_ext m m' rules :
(forall r, r ∈ rules -> m' !! (run, r_id r) = m !! (run, r_id r)) -> first_candidate m' rules = first_candidate m rules.
Proof.
induction rules as [|r rules IH]; intros Hm; [done|]. rewrite !first_candidate_cons. unfold candidate.
rewrite (Hm r) by left. case_match; [done|]. apply IH. intros; apply Hm; by right.
Qed.

Definition advanced (m : gmap (string * string) RuleStateRow) (chosen : option Rule) (r : Rule) : RuleStateRow :=
let st := counted (m !! (run, r_id r)) in
if bool_decide (r_id <$> chosen = Some (r_id r)) then with_injection st else st.

Lemma apply_rules_spec rules m :
NoDup (map r_id rules) -> (forall r, r ∈ rules -> r_id r <> "") ->
(apply_rules None rules m).1 = selection m (first_candidate m rules) /\
forall r, r ∈ rules -> matches op r = true ->
(apply_rules None rules m).2 !! (run, r_id r) = Some (advanced m (first_candidate m rules) r).
Proof.
revert m. induction rules as [|r1 rules IH]; intros m Hnd Hid; [split; [done|]; intros ? Hin; by apply elem_of_nil in Hin|].
rewrite first_candidate_cons. cbn [apply_rules map] in *. apply NoDup_cons in Hnd as [Hn1 Hnd].
assert (forall r, r ∈ rules -> r_id r <> "") as Hid' by (intros; apply Hid; by right).
assert (forall r, r ∈ rules -> r_id r <> r_id r1) as Hne.
{ intros r Hin Heq. apply Hn1. rewrite <- Heq. by apply list_elem_of_fmap_2. }
unfold candidate. destruct (matches op r1) eqn:Hm; cbn [negb andb unselected].
2:{ destruct (IH m Hnd Hid') as [H1 H2]. split; [done|]. intros r [->|Hin]%elem_of_cons Hmr; [congruence|auto]. }
set (st1 := counted (m !! (run, r_id r1))).
assert (forall v r, r ∈ rules -> <[(run, r_id r1) := v]> m !! (run, r_id r) = m !! (run, r_id r)) as Hother.
{ intros v r Hin. rewrite lookup_insert_ne; [done|]. intros [= Heq]. by apply (Hne r Hin). }
assert (forall sel v, (apply_rules sel rules (<[(run, r_id r1) := v]> m)).2 !! (run, r_id r1) = Some v) as Hself.
{ intros sel v. rewrite apply_rules_frame, lookup_insert_eq; [done|]. intros r Hin _ [= Heq]. by apply (Hne r Hin). }
destruct (usable r1 st1) eqn:Hu.
- destruct (apply_rules_selected r1 (matching_calls st1) rules (<[(run, r_id r1) := with_injection st1]> m)) as [H1 H2];
[apply Hid; left|done|]. split; [done|]. intros r [->|Hin]%elem_of_cons Hmr; unfold advanced; cbn [fmap option_fmap option_map].
+ rewrite Hself. by rewrite bool_decide_true.
+ rewrite H2, Hother by done. rewrite bool_decide_false; [done|]. intros [= Heq]. by apply (Hne r Hin).
- destruct (IH (<[(run, r_id r1) := st1]> m) Hnd Hid') as [H1 H2].
rewrite (first_candidate_ext m) in H1, H2 by auto. split.
+ rewrite H1. unfold selection. destruct (first_candidate m rules) as [r|] eqn:Hf; [|done]. cbn.
by rewrite Hother by (by eapply first_candidate_in).
+ intros r [->|Hin]%elem_of_cons Hmr; unfold advanced.
* rewrite Hself. rewrite bool_decide_false; [done|]. destruct (first_candidate m rules) as [r'|] eqn:Hf; [|done].
intros [= Heq]. apply (Hne r'); [by eapply first_candidate_in|done].
* rewrite H2 by done. unfold advanced. by rewrite Hother.
Qed.
End Rules.

Definition has_snapshot (s : DB) (run op arguments id : string) : bool :=
bool_decide (is_Some (chaos_snapshots s !! (run, id, argumentDigest op arguments))).

Lemma find_snapshot_valid run id op arguments s : json_valid arguments = true ->
find_snapshot run id op arguments s =
match chaos_snapshots s !! (run, id, argumentDigest op arguments) with Some row => Ok row | None => Err ErrNoRows end.
Proof. intros Hv. unfold find_snapshot. by rewrite Hv. Qed.

Lemma set_rule_state_id s : set_chaos_rule_state (fun _ => chaos_rule_state s) s = s.
Proof. by destruct s. Qed.

(** One round of the loop, on the counters. *)
Lemma decide_rule_eq run op arguments selected r s : json_valid arguments = true ->
decide_rule run op arguments selected r s =
let result := apply_rules (has_snapshot s run op arguments) run op selected [r] (chaos_rule_state s) in
Ok (result.1, set_chaos_rule_state (fun _ => result.2) s).
Proof.
intros Hv. unfold decide_rule. cbn [apply_rules]. destruct (matches op r); cbn [negb fst snd].
2:{ by rewrite set_rule_state_id. }
set (k := (run, r_id r)). set (st := counted (chaos_rule_state s !! k)).
unfold tbind at 1, tmodify. unfold tbind at 1, sql_get_row.
assert (chaos_rule_state (set_chaos_rule_state (fun m => <[k := counted (m !! k)]> m) s) !! k = Some st) as Hk
by exact (lookup_insert_eq _ _ _).
rewrite Hk. unfold tbind at 1, treads. rewrite find_snapshot_valid by done.
change (chaos_snapshots (set_chaos_rule_state (fun m => <[k := counted (m !! k)]> m) s)) with (chaos_snapshots s).
unfold usable, has_snapshot. fold k. fold st.
assert (forall b, (if b : bool then sql_update set_chaos_rule_state k with_injection ;;; tret (Some (r, matching_calls st)) else tret selected)
(set_chaos_rule_state (fun m => <[k := counted (m !! k)]> m) s) =
Ok (if b then Some (r, matching_calls st) else selected,
set_chaos_rule_state (fun _ => if b then <[k := with_injection st]> (chaos_rule_state s) else <[k := st]> (chaos_rule_state s)) s)) as Hfin.
{ intros [|]; [|done]. unfold tbind, sql_update, tmodify, tret. f_equal. f_equal. unfold set_chaos_rule_state. cbn. f_equal.
fold st. apply map_eq. intros k'. destruct (decide (k' = k)) as [->|Hne]; by simplify_map_eq. }
destruct (unselected selected && due r st) eqn:Ha; cbn [andb].
- apply andb_true_iff in Ha as [-> ->]. cbn [andb]. destruct (str_eqb (r_type r) "stale_read"); cbn [negb orb].
+ destruct (chaos_snapshots s !! _) as [row|]; [exact (Hfin true)|exact (Hfin false)].
+ exact (Hfin true).
- apply andb_false_iff in Ha as [Ha|Ha]; rewrite Ha; cbn [andb]; rewrite ?andb_false_r; exact (Hfin false).
Qed.

Lemma apply_rules_cons snap run op selected r rules m :
apply_rules snap run op selected (r :: rules) m =
let first := apply_rules snap run op selected [r] m in apply_rules snap run op first.1 rules first.2.
Proof. cbn. by repeat case_match. Qed.

(** The whole loop. *)
Lemma decide_fold run op arguments rules selected s : json_valid arguments = true ->
tfold (decide_rule run op arguments) selected rules s =
let result := apply_rules (has_snapshot s run op arguments) run op selected rules (chaos_rule_state s) in
Ok (result.1, set_chaos_rule_state (fun _ => result.2) s).
Proof.
intros Hv. revert selected s. induction rules as [|r rules IH]; intros selected s.
- cbn. by rewrite set_rule_state_id.
- rewrite tfold_cons, decide_rule_eq by done. cbv beta iota zeta. rewrite IH, (apply_rules_cons _ _ _ selected r rules). done.
Qed.

(** A stored policy the parser could have produced. *)
Definition rules_ok (p : Policy) : Prop := NoDup (map r_id (c_rules p)) /\ forall r, r ∈ c_rules p -> r_id r <> "".

(** The decision about a call, from the counters and snapshots before it. *)
Definition decided (s : DB) (p : Policy) (run op arguments : string) : option Rule :=
first_candidate (has_snapshot s run op arguments) run op (chaos_rule_state s) (c_rules p).

Lemma chaos_load_row run s s' o : run_chaos s' !! run = run_chaos s !! run -> load run s = Ok (o, s) -> load run s' = Ok (o, s').
Proof.
intros He. unfold load, tbind, sql_get, treads. rewrite He. destruct (run_chaos s !! run) as [row|]; [|by intros [= <-]].
unfold tassert, tsome, tret, tfail. destruct (str_eqb _ _); [|done].
destruct (match unmarshal_number _ with Some v => policy_of v | None => None end) as [p|]; [|done].
destruct (c_version p =? 1); [|done]. by intros [= <-].
Qed.
Lemma chaos_load_respects run (R : DB -> DB -> Prop) `{!PreOrder R} : respects R (load run).
Proof. unfold load. respects_tac. Qed.

Lemma chaos_decide_eq run op arguments s p :
load run s = Ok (Some p, s) -> json_valid arguments = true -> rules_ok p ->
Decide run op arguments s =
Ok (match decided s p run op arguments with
| Some r => MkDecision (r_id r) (Some r) (matching_calls (counted (chaos_rule_state s !! (run, r_id r)))) (capture_rules op (c_rules p))
| None => MkDecision "" None 0 (capture_rules op (c_rules p))
end,
set_chaos_rule_state (fun _ => (apply_rules (has_snapshot s run op arguments) run op None (c_rules p) (chaos_rule_state s)).2) s).
Proof.
intros Hl Hv [Hnd Hid]. unfold Decide, tbind at 1. rewrite Hl. unfold tbind. rewrite decide_fold by done. cbn zeta.
destruct (apply_rules_spec (has_snapshot s run op arguments) run op (c_rules p) (chaos_rule_state s) Hnd Hid) as [H1 _].
rewrite H1. unfold selection, decided. by destruct (first_candidate _ _ _ _ _).
Qed.

(** ** Theorems *)

(** C9. [Decide] is first-match with exact counting: the rule it selects is the
first in policy order that matches the operation, is past its after_calls
with this call counted, has injections left and, for a stale read, has a
snapshot; every matching rule counts this call once, the selected one
counts one injection, no other counter moves, and nothing else changes. *)
Theorem Decide_first_match run op arguments s p d s' :
load run s = Ok (Some p, s) -> json_valid arguments = true -> rules_ok p ->
Decide run op arguments s = Ok (d, s') ->
TheRule d = decided s p run op arguments /\
(forall r, r ∈ c_rules p -> matches op r = true ->
 chaos_rule_state s' !! (run, r_id r) = Some (advanced run (chaos_rule_state s) (TheRule d) r)) /\
(forall k, (forall r, r ∈ c_rules p -> matches op r = true -> k <> (run, r_id r)) ->
 chaos_rule_state s' !! k = chaos_rule_state s !! k) /\
s' = set_chaos_rule_state (fun _ => chaos_rule_state s') s.
Proof.
intros Hl Hv Hok Hd. rewrite (chaos_decide_eq _ _ _ _ _ Hl Hv Hok) in Hd. apply Ok_pair in Hd as [<- <-].
destruct Hok as [Hnd Hid].
destruct (apply_rules_spec (has_snapshot s run op arguments) run op (c_rules p) (chaos_rule_state s) Hnd Hid) as [_ H2].
assert (forall A (x : A) (o : option Rule) (f : Rule -> Decision) g, TheRule (match o with Some r => f r | None => g end) =
match o with Some r => TheRule (f r) | None => TheRule g end) as Hm by (by intros ? ? []).
rewrite (Hm unit tt). cbn [TheRule]. assert (match decided s p run op arguments with Some r => Some r | None => None end = decided s p run op arguments) as ->
by (by destruct (decided _ _ _ _ _)).
split_and!; [done|exact H2| |done]. intros k Hk. exact (apply_rules_frame _ _ _ _ _ _ _ Hk).
Qed.

(** A rule's counters: no more injections than matching calls, and than the
rule's budget. *)
Definition within_budget (r : Rule) (st : RuleStateRow) : Prop :=
0 <= injections st <= matching_calls st /\ (0 < r_times r -> injections st <= r_times r).
Definition counters_ok (s : DB) (run : string) (p : Policy) : Prop :=
forall r st, r ∈ c_rules p -> chaos_rule_state s !! (run, r_id r) = Some st -> within_budget r st.

Lemma counted_budget r o : 0 <= r_times r -> (forall st, o = Some st -> within_budget r st) -> within_budget r (counted o).
Proof.
intros Ht Ho. destruct o as [st|]; unfold within_budget, counted; cbn; [|lia].
destruct (Ho st eq_refl) as ((? & ?) & Hb). split; [lia|done].
Qed.

(** The selected rule of a call is due and matches it. *)
Lemma decided_due s p run op arguments r :
decided s p run op arguments = Some r ->
r ∈ c_rules p /\ matches op r = true /\ due r (counted (chaos_rule_state s !! (run, r_id r))) = true.
Proof.
unfold decided, first_candidate. intros [Hin Hc]%find_some. unfold candidate, usable in Hc. bool_inv.
split; [by apply list_elem_of_In|done].
Qed.

(** C11. Rules stay within their budget: no decision takes a rule past its
times, and a rule is injected at most as often as it matched. *)
Theorem Decide_within_budget run op arguments s p d s' :
load run s = Ok (Some p, s) -> json_valid arguments = true -> rules_ok p -> (forall r, r ∈ c_rules p -> 0 <= r_times r) ->
counters_ok s run p -> Decide run op arguments s = Ok (d, s') ->
counters_ok s' run p /\ forall r, TheRule d = Some r -> exists st, chaos_rule_state s' !! (run, r_id r) = Some st /\ 1 <= injections st.
Proof.
intros Hl Hv Hok Htimes Hc Hd. rewrite (chaos_decide_eq _ _ _ _ _ Hl Hv Hok) in Hd. apply Ok_pair in Hd as [Hdd <-].
destruct Hok as [Hnd Hid]. cbn [chaos_rule_state set_chaos_rule_state].
destruct (apply_rules_spec (has_snapshot s run op arguments) run op (c_rules p) (chaos_rule_state s) Hnd Hid) as [_ H2].
fold (decided s p run op arguments) in H2.
assert (forall r, r ∈ c_rules p -> within_budget r (counted (chaos_rule_state s !! (run, r_id r)))) as Hcount.
{ intros r Hin. apply counted_budget; [by apply Htimes|]. intros st Hst. by apply Hc. }
assert (forall r, r ∈ c_rules p -> within_budget r (advanced run (chaos_rule_state s) (decided s p run op arguments) r)) as Hadv.
{ intros r Hin. unfold advanced. case_bool_decide as Hsel; [|by apply Hcount].
destruct (decided s p run op arguments) as [r'|] eqn:Hde; [|done]. injection Hsel as Heq.
destruct (decided_due _ _ _ _ _ _ Hde) as (Hin' & _ & Hdue). pose proof (NoDup_map_inj _ _ _ _ Hnd Hin' Hin Heq) as ->.
destruct (Hcount r Hin) as ((? & ?) & Hb). unfold due in Hdue. bool_inv. unfold within_budget. cbn.
split; [|destruct (r_times r =? 0) eqn:Hz; bool_inv; lia].
destruct (chaos_rule_state s !! (run, r_id r)) as [st|] eqn:Hst; cbn in *; [|lia]. destruct (Hc _ _ Hin Hst). lia. }
split.
- intros r st Hin Hst. destruct (matches op r) eqn:Hm.
+ assert (Some st = Some (advanced run (chaos_rule_state s) (decided s p run op arguments) r)) as [= ->]
by (rewrite <- Hst; exact (H2 r Hin Hm)). by apply Hadv.
+ apply (Hc r st Hin). etransitivity; [|exact Hst]. symmetry. apply apply_rules_frame. intros r' Hin' Hm' [= Heq].
pose proof (NoDup_map_inj _ _ _ _ Hnd Hin Hin' Heq) as ->. congruence.
- intros r Hr. rewrite <- Hdd in Hr. destruct (decided s p run op arguments) as [r'|] eqn:Hde; [|done]. cbn in Hr. injection Hr as ->.
destruct (decided_due _ _ _ _ _ _ Hde) as (Hin & Hm & _). eexists. split; [exact (H2 r Hin Hm)|].
unfold advanced. rewrite bool_decide_true by done. cbn. destruct (Hcount r Hin) as ((? & _) & _). lia.
Qed.

(** A stale read answers the first observation: whatever is saved later for
the same rule, operation and arguments, loading gives the outcome that was
saved first, and saving for one key leaves the others alone. *)
Theorem snapshot_first_wins run rule op arguments status body s s' :
SaveSnapshot run rule op arguments status body s = Ok (tt, s') ->
LoadSnapshot run rule op arguments s' =
Ok (match chaos_snapshots s !! (run, rule, argumentDigest op arguments) with
| Some row => (out_status row, out_body row)
| None => (status, body)
end, s') /\
(forall k, k <> (run, rule, argumentDigest op arguments) -> chaos_snapshots s' !! k = chaos_snapshots s !! k).
Proof.
unfold SaveSnapshot. intros Hs. apply tbind_ok in Hs as ([] & s1 & H1 & H2). apply tassert_ok in H1 as [Hv [= ->]].
apply andb_true_iff in Hv as [Hv _]. apply sql_insert_or_ignore_ok in H2 as ->.
unfold LoadSnapshot, tbind, treads, tlift. rewrite find_snapshot_valid by done.
destruct (chaos_snapshots s !! (run, rule, argumentDigest op arguments)) as [row|] eqn:Hr.
- rewrite Hr. by destruct row.
- db_simpl. rewrite lookup_insert_eq. split; [done|]. intros k Hk. by rewrite lookup_insert_ne.
Qed.

(** ** An example: the second read of a charge times out *)
Definition demo_rule : Rule := MkRule "slow" "timeout" ["getCharge"] 0 1 1 0 "" None.
Definition demo_policy : Policy := MkChaos 1 [demo_rule].
Definition demo_text : string := default "" (CanonicalJSON demo_policy).
Definition demo : DB :=
set_chaos_rule_state (insert ("R-1", "slow") (MkRuleState 1 0))
(set_run_chaos (insert "R-1" (MkPolicy demo_text (digest_hex demo_text))) (empty_db 0)).
Lemma demo_loads : load "R-1" demo = Ok (Some demo_policy, demo).
Proof. vm_compute. reflexivity. Qed.
Lemma demo_rules_ok : rules_ok demo_policy.
Proof. split; [by apply NoDup_singleton|]. by intros r ->%list_elem_of_singleton. Qed.

Lemma Decide_first_match_witness :
exists d s', Decide "R-1" "getCharge" "{}" demo = Ok (d, s') /\ TheRule d = decided demo demo_policy "R-1" "getCharge" "{}" /\
TheRule d = Some demo_rule.
Proof.
destruct (Decide "R-1" "getCharge" "{}" demo) as [[d s']|e] eqn:Hd; [|exfalso; revert Hd; vm_compute; discriminate].
exists d, s'. split; [reflexivity|].
destruct (Decide_first_match "R-1" "getCharge" "{}" demo demo_policy d s' demo_loads ltac:(vm_compute; reflexivity) demo_rules_ok Hd) as [H _].
split; [exact H|]. rewrite H. vm_compute. reflexivity.
Defined.

Lemma Decide_within_budget_witness :
exists d s', Decide "R-1" "getCharge" "{}" demo = Ok (d, s') /\ counters_ok s' "R-1" demo_policy.
Proof.
destruct (Decide "R-1" "getCharge" "{}" demo) as [[d s']|e] eqn:Hd; [|exfalso; revert Hd; vm_compute; discriminate].
exists d, s'. split; [reflexivity|].
refine (proj1 (Decide_within_budget "R-1" "getCharge" "{}" demo demo_policy d s' demo_loads ltac:(vm_compute; reflexivity) demo_rules_ok _ _ Hd)).
- intros r ->%list_elem_of_singleton. vm_compute. discriminate.
- intros r st ->%list_elem_of_singleton Hst. vm_compute in Hst. injection Hst as <-. unfold within_budget. cbn. lia.
Defined.

Lemma snapshot_first_wins_witness :
exists s', SaveSnapshot "R-1" "slow" "getCharge" "{}" 200 "[1]" demo = Ok (tt, s') /\
LoadSnapshot "R-1" "slow" "getCharge" "{}" s' = Ok ((200, "[1]"), s').
Proof.
destruct (SaveSnapshot "R-1" "slow" "getCharge" "{}" 200 "[1]" demo) as [[[] s']|e] eqn:Hd;
[|exfalso; assert (is_ok (SaveSnapshot "R-1" "slow" "getCharge" "{}" 200 "[1]" demo) = true) as Hok by (vm_compute; reflexivity);
rewrite Hd in Hok; discriminate Hok].
exists s'. split; [reflexivity|].
destruct (snapshot_first_wins "R-1" "slow" "getCharge" "{}" 200 "[1]" demo s' Hd) as [H _].
rewrite H. change (chaos_snapshots demo) with (∅ : gmap (string * string * string) OutcomeRow). by rewrite lookup_empty.
Defined.
End Chaos.
