(* ===== verification/ChaosPolicy.v ===== *)
(** * Chaos policies as documents (internal/chaos/policy.go, copy.go)

    A chaos policy is written in YAML, checked against the manifest of the
    world it is for, and stored with the run as canonical JSON.  A fork gives
    its child the chaos state of the prefix it copied. *)

From S2P Require Export Chaos World JsonTyped.
From S2P Require Import WorldFacts.
Open Scope Z_scope.
Open Scope tx_scope.

Module ChaosPolicy.
Import Chaos.

(** ** Parsing *)

(** [rawPolicy] and [rawRule]; the YAML library decodes the arguments of an
actor into Go values, a whole number into an [int]. *)
Record rawRule := MkRawRule {
rw_id : string; rw_type : string; rw_operations : list string; rw_status : option Z; rw_times : option Z; rw_after_calls : option Z;
rw_duration_ms : option Z; rw_body : option string; rw_actor : option Actor }.
Record rawPolicy := MkRawPolicy { rw_version : Z; rw_rules : list rawRule }.

(** [^[A-Za-z][A-Za-z0-9_-]*$], which is the test of world identifiers. *)
Definition id_matches : string -> bool := validWorldIdentifier.

(** [mutatingBehavior] and [readingBehavior] *)
Definition mutatingBehavior (name : string) : bool :=
contains ["billing.createRefund"; "crm.addAccountNote"; "crm.updateAccountStatus"; "ticket.createIssue"; "ticket.addComment"; "ticket.transitionIssue";
"messaging.postMessage"] name.
Definition readingBehavior (name : string) : bool :=
contains ["billing.getCustomer"; "billing.getSubscription"; "billing.listInvoices"; "billing.listCharges"; "billing.getCharge"; "crm.getAccount";
"crm.searchAccounts"; "ticket.getIssue"; "ticket.searchIssues"; "messaging.listChannels"; "messaging.readChannel"] name.

(** A failed type assertion: the code panics. *)
Definition assertion_panic : err := ErrPanic "interface conversion".
(** Adding context to an error; a panic passes through. *)
Definition unless_panic (context : err -> err) (e : err) : err := if is_panic e then e else context e.

Definition argument_valid (op : Operation) (nv : string * goval) : res err unit :=
let '(name, value) := nv in
let invalid := ErrText ("invalid " +:+ name) in
try* type := rsome (alookup (op_properties op) name) (ErrText ("unexpected " +:+ name)) in
if str_eqb type "string" then rassert (match value with VString text => negb (blank text) | _ => false end) invalid
else if str_eqb type "integer" then rassert (match value with VInt _ => true | _ => false end) invalid
else Err (ErrText ("unsupported argument type " +:+ type)).
Definition one_of (values : list string) (name : string) (v : goval) : res err unit :=
match v with
| VString s => rassert (contains values s) (ErrText ("invalid " +:+ name))
| _ => Err assertion_panic
end.
(** The [switch] on the behavior at the end of [validateArguments]. *)
Definition behavior_arguments (behavior : string) (args : list (string * goval)) : res err unit :=
if str_eqb behavior "billing.createRefund" then
match arg args "amount_cents" with
| VInt n => rassert (negb (n <=? 0)) (ErrText "invalid amount_cents")
| _ => Err assertion_panic
end
else if str_eqb behavior "crm.updateAccountStatus" then one_of ["active"; "needs_followup"; "resolved"] "status" (arg args "status")
else if str_eqb behavior "ticket.createIssue" then one_of ["low"; "medium"; "high"] "priority" (arg args "priority")
else if str_eqb behavior "ticket.transitionIssue" then one_of ["open"; "in_progress"; "resolved"] "status" (arg args "status")
else Ok tt.
(** [validateArguments] *)
Definition validateArguments (op : Operation) (args : list (string * goval)) : res err unit :=
try* _ := rfor (op_required op) (fun name => rassert (bool_decide (is_Some (alookup args name))) (ErrText ("missing " +:+ name))) in
try* _ := rfor (sort_on fst args) (argument_valid op) in
behavior_arguments (op_behavior op) args.

Section Parse.
Context (manifest : Manifest).

Definition behavior_of (id : string) : string := match find_operation manifest id with Some op => op_behavior op | None => "" end.

(** The operations of a rule: compiled, and none twice. *)
Definition check_operation (rule : string) (seen : list string) (id : string) : res err (list string) :=
try* _ := rassert (bool_decide (is_Some (find_operation manifest id)) && negb (contains seen id))
  (ErrText ("rule " +:+ rule +:+ " has unknown or duplicate operation " +:+ quote id)) in
Ok (seen ++ [id]).
Definition at_least (n : Z) (v : option Z) : bool := match v with Some z => n <=? z | None => true end.
Definition given {A} (v : option A) : bool := bool_decide (is_Some v).

(** The [switch] on the type of a rule. *)
Definition check_type (e : rawRule) : res err unit :=
let rule := "rule " +:+ rw_id e in
if str_eqb (rw_type e) "http_error" then
rassert (match rw_status e with Some s => (400 <=? s) && (s <=? 599) | None => false end && given (rw_times e))
(ErrText (rule +:+ " requires HTTP status 400-599 and positive times"))
else if str_eqb (rw_type e) "latency" then rassert (given (rw_duration_ms e)) (ErrText (rule +:+ " requires duration_ms"))
else if contains ["timeout"; "malformed_response"; "concurrent_mutation"; "partial_service_outage"; "timeout_after_commit"] (rw_type e) then
rassert (given (rw_times e)) (ErrText (rule +:+ " requires times"))
else if contains ["rate_limit"; "permission_revocation"] (rw_type e) then rassert (given (rw_after_calls e)) (ErrText (rule +:+ " requires after_calls"))
else if str_eqb (rw_type e) "stale_read" then
rassert (match rw_after_calls e with Some n => 1 <=? n | None => false end) (ErrText (rule +:+ " requires after_calls of at least one"))
else Err (ErrText (rule +:+ " has unsupported type " +:+ quote (rw_type e))).
Definition check_targets (e : rawRule) : res err unit :=
rfor (rw_operations e) (fun id =>
rassert (if str_eqb (rw_type e) "timeout_after_commit" then mutatingBehavior (behavior_of id)
 else if str_eqb (rw_type e) "stale_read" then readingBehavior (behavior_of id) else true)
(ErrText ("rule " +:+ rw_id e +:+ " cannot target behavior " +:+ behavior_of id))).
Definition check_body (e : rawRule) : res err string :=
let rule := "rule " +:+ rw_id e in
if str_eqb (rw_type e) "malformed_response" then
match rw_body e with
| Some body => if str_eqb body "" then Err (ErrText (rule +:+ " requires body")) else Ok body
| None => Err (ErrText (rule +:+ " requires body"))
end
else try* _ := rassert (negb (given (rw_body e))) (ErrText (rule +:+ " does not accept body")) in Ok "".
Definition check_actor (e : rawRule) : res err (option Actor) :=
let rule := "rule " +:+ rw_id e in
if str_eqb (rw_type e) "concurrent_mutation" then
try* actor := rsome (rw_actor e) (ErrText (rule +:+ " requires actor")) in
let bad := ErrText (rule +:+ " actor must use a compiled mutating operation") in
try* op := rsome (find_operation manifest (ac_operation actor)) bad in
try* _ := rassert (mutatingBehavior (op_behavior op)) bad in
try* _ := rwrap (unless_panic (ErrWrap (rule +:+ " actor: "))) (validateArguments op (ac_arguments actor)) in
Ok (Some actor)
else try* _ := rassert (negb (given (rw_actor e))) (ErrText (rule +:+ " does not accept actor")) in Ok None.

(** One rule of [Parse]'s loop. *)
Definition parse_rule (rules : list Rule) (e : rawRule) : res err (list Rule) :=
let id := rw_id e in
let rule := "rule " +:+ id in
let typ := rw_type e in
try* _ := rassert (id_matches id && negb (contains (map r_id rules) id)) (ErrText ("invalid or duplicate chaos rule ID " +:+ quote id)) in
try* _ := rassert (negb (bool_decide (rw_operations e = []))) (ErrText (rule +:+ " requires operations")) in
try* _ := rfold (check_operation id) [] (rw_operations e) in
try* _ := rassert (at_least 1 (rw_times e)) (ErrText (rule +:+ " times must be positive")) in
try* _ := rassert (at_least 0 (rw_after_calls e)) (ErrText (rule +:+ " after_calls must be nonnegative")) in
try* _ := rassert (at_least 1 (rw_duration_ms e)) (ErrText (rule +:+ " duration_ms must be positive")) in
try* _ := check_type e in
try* _ := rassert (str_eqb typ "http_error" || negb (given (rw_status e))) (ErrText (rule +:+ " does not accept status")) in
try* _ := rassert (str_eqb typ "latency" || negb (given (rw_duration_ms e))) (ErrText (rule +:+ " does not accept duration_ms")) in
try* _ := check_targets e in
try* _ := rassert (negb (str_eqb typ "partial_service_outage" && (Z.of_nat (length (rw_operations e)) <? 2))) (ErrText (rule +:+ " requires multiple operations")) in
try* body := check_body e in
try* actor := check_actor e in
Ok (rules ++ [MkRule id typ (rw_operations e) (default 0 (rw_status e)) (default 0 (rw_times e)) (default 0 (rw_after_calls e))
      (default 0 (rw_duration_ms e)) body actor]).

(** [Parse] after decoding. *)
Definition check_policy (input : rawPolicy) : res err Policy :=
try* _ := rassert (rw_version input =? 1) (ErrText ("unsupported chaos policy version " +:+ itoa (rw_version input))) in
try* _ := rassert (negb (bool_decide (rw_rules input = []))) (ErrText "chaos policy requires at least one rule") in
try* rules := rfold parse_rule [] (rw_rules input) in
let policy := MkChaos 1 rules in
try* _ := rsome (CanonicalJSON policy) json_error in
Ok policy.
End Parse.

Class ChaosYaml := decode_policy : Decoder rawPolicy.

Section Documents.
Context `{!SqlBind, !YamlNodes, !WorldYaml, !ChaosYaml}.

(** [Parse] *)
Definition Parse (raw : string) (manifest : Manifest) : res err Policy :=
try* _ := rwrap (ErrWrap "manifest: ") (ValidateManifest manifest) in
try* root := root_mapping "chaos policy" raw in
try* _ := version_is_integer "chaos policy version" root in
try* input := decode_document "chaos policy" decode_policy raw in
check_policy manifest input.

(** A stored rule with the zero count that JSON left out. *)
Definition restore_rule (v : goval) : res err goval :=
match v with
| VMap rule =>
if match arg rule "type" with VString t => contains ["rate_limit"; "permission_revocation"] t | _ => false end
 && negb (bool_decide (is_Some (alookup rule "after_calls")))
then Ok (VMap (map_set rule "after_calls" (VFloat (float_of_int 0)))) else Ok v
| _ => Err (ErrText "invalid stored chaos rule")
end.
Definition restore_document (v : goval) : res err goval :=
match v with
| VMap document =>
match alookup document "rules" with
| Some (VSlice rules) => try* rules := rmap restore_rule rules in Ok (VMap (map_set document "rules" (VSlice rules)))
| _ => Ok v
end
| _ => Ok v
end.
(** [ValidateStored] *)
Definition ValidateStored (encoded digest : string) (manifest : Manifest) : res err Policy :=
try* policy := rsome (match unmarshal_number encoded with Some v => policy_of v | None => None end) json_error in
try* _ := rassert (bool_decide (CanonicalJSON policy = Some encoded) && str_eqb (Digest policy) digest)
  (ErrText "stored chaos policy is not canonical or digest differs") in
try* document := rsome (unmarshal encoded) json_error in
try* document := restore_document document in
try* validatable := rsome (marshal document) json_error in
match Parse validatable manifest with
| Ok validated => try* _ := rassert (str_eqb (Digest validated) digest) (ErrText "stored chaos policy fails validation") in Ok policy
| Err e => Err (unless_panic (fun _ => ErrText "stored chaos policy fails validation") e)
end.
End Documents.

(** ** Copying a run's state *)

(** The rows of a run in a table, without the run. *)
Definition pair_rows {V} (m : gmap (string * string) V) (run : string) : list (string * V) :=
omap (fun kv => if str_eqb kv.1.1 run then Some (kv.1.2, kv.2) else None) (map_to_list m).
Definition rule_rows (s : DB) (run : string) : list (string * RuleStateRow) := pair_rows (chaos_rule_state s) run.
Definition snapshot_rows (s : DB) (run : string) : list (string * string * OutcomeRow) :=
omap (fun kv => if str_eqb kv.1.1.1 run then Some (kv.1.1.2, kv.1.2, kv.2) else None) (map_to_list (chaos_snapshots s)).
Definition hidden_rows (s : DB) (run : string) : list (string * HiddenRow) := pair_rows (chaos_hidden_outcomes s) run.

(** [fmt.Errorf("copy %s: %w", ...)] *)
Definition copying (table : string) (m : DbTx unit) : DbTx unit :=
fun s => match m s with Err e => Err (ErrWrap ("copy " +:+ table +:+ ": ") e) | r => r end.
(** [CopyRun]: the tables in turn; [source] may be another database. *)
Definition CopyRun (source : DB) (from to : string) : DbTx unit :=
copying "run_chaos" match run_chaos source !! from with
          | Some row => sql_insert "run_chaos" run_chaos set_run_chaos to row
          | None => tret tt
          end ;;;
copying "chaos_rule_state"
(tfor (rule_rows source from) (fun row => sql_insert "chaos_rule_state" chaos_rule_state set_chaos_rule_state (to, row.1) row.2)) ;;;
copying "chaos_snapshots"
(tfor (snapshot_rows source from) (fun row => sql_insert "chaos_snapshots" chaos_snapshots set_chaos_snapshots (to, row.1.1, row.1.2) row.2)) ;;;
copying "chaos_hidden_outcomes"
(tfor (hidden_rows source from) (fun row => sql_insert "chaos_hidden_outcomes" chaos_hidden_outcomes set_chaos_hidden_outcomes (to, row.1) row.2)).
(** [CopyRunInTx]: the same within one database. *)
Definition CopyRunInTx (from to : string) : DbTx unit := fun s => CopyRun s from to s.

(** ** What parsing accepts *)

(** A rule as the code that applies it expects it. *)
Record rule_wf (m : Manifest) (r : Rule) : Prop := {
wf_id : id_matches (r_id r) = true;
wf_operations : r_operations r <> [] /\ NoDup (r_operations r) /\ forall id, id ∈ r_operations r -> is_Some (find_operation m id);
wf_counts : 0 <= r_times r /\ 0 <= r_after_calls r;
wf_status : (r_type r = "http_error" -> 400 <= r_status r <= 599) /\ (r_type r <> "http_error" -> r_status r = 0);
wf_latency : (r_type r = "latency" -> 1 <= r_duration_ms r) /\ (r_type r <> "latency" -> r_duration_ms r = 0);
wf_bounded : r_type r ∈ ["http_error"; "timeout"; "malformed_response"; "concurrent_mutation"; "partial_service_outage"; "timeout_after_commit"] -> 1 <= r_times r;
wf_targets : forall id, id ∈ r_operations r ->
(r_type r = "timeout_after_commit" -> mutatingBehavior (behavior_of m id) = true) /\ (r_type r = "stale_read" -> readingBehavior (behavior_of m id) = true);
wf_stale : r_type r = "stale_read" -> 1 <= r_after_calls r;
wf_body : (r_type r = "malformed_response" <-> r_body r <> "");
wf_actor : (r_type r = "concurrent_mutation" <-> is_Some (r_actor r)) /\
forall a, r_actor r = Some a -> exists op, find_operation m (ac_operation a) = Some op /\ mutatingBehavior (op_behavior op) = true /\
validateArguments op (ac_arguments a) = Ok tt }.

Lemma check_operations_ok m rule ops seen :
rfold (check_operation m rule) [] ops = Ok seen <-> (forall id, id ∈ ops -> is_Some (find_operation m id)) /\ NoDup ops /\ seen = ops.
Proof.
rewrite (rfold_seen (check_operation m rule) (fun id => is_Some (find_operation m id)) (fun id => id) (fun id => id)).
- rewrite new_keys_nil, !map_id, Forall_forall. done.
- intros s1 id s2. rewrite map_id. unfold check_operation. rewrite rassert_bind, andb_true_iff, bool_decide_eq_true, not_contains, Ok_inj. tauto.
Qed.

Lemma given_true {A} (v : option A) : given v = true <-> is_Some v.
Proof. unfold given. apply bool_decide_eq_true. Qed.
Lemma given_false {A} (v : option A) : given v = false <-> v = None.
Proof. unfold given. rewrite bool_decide_eq_false, eq_None_not_Some. done. Qed.
Lemma at_least_default n v : at_least n v = true -> v <> None -> n <= default 0 v.
Proof. destruct v; cbn; [intros; by apply Z.leb_le|done]. Qed.
Lemma at_least_zero n v : 0 <= n -> at_least n v = true -> 0 <= default 0 v.
Proof. destruct v; cbn; intros ? Hl; [apply Z.leb_le in Hl; lia|done]. Qed.

(** The types of rules, by what they need. *)
Lemma check_type_ok e : check_type e = Ok tt ->
(rw_type e = "http_error" -> (exists s, rw_status e = Some s /\ 400 <= s <= 599) /\ is_Some (rw_times e)) /\
(rw_type e = "latency" -> is_Some (rw_duration_ms e)) /\
(rw_type e ∈ ["timeout"; "malformed_response"; "concurrent_mutation"; "partial_service_outage"; "timeout_after_commit"] -> is_Some (rw_times e)) /\
(rw_type e = "stale_read" -> exists n, rw_after_calls e = Some n /\ 1 <= n).
Proof.
unfold check_type. intros Hc.
destruct (str_eqb (rw_type e) "http_error") eqn:H1.
{ apply str_eqb_true in H1. rewrite H1. apply rassert_ok, andb_true_iff in Hc as [Hs Ht]. rewrite given_true in Ht.
split_and!; try done; try set_solver. intros _. split; [|done]. destruct (rw_status e) as [s|]; [|done]. bool_inv. exists s. split; [done|lia]. }
destruct (str_eqb (rw_type e) "latency") eqn:H2.
{ apply str_eqb_true in H2. rewrite H2. apply rassert_ok in Hc. rewrite given_true in Hc. split_and!; try done. set_solver. }
apply str_eqb_false in H1, H2.
destruct (contains _ _) eqn:H3.
{ apply contains_spec in H3. apply rassert_ok in Hc. rewrite given_true in Hc. split_and!; try done. intros He. rewrite He in H3. set_solver. }
assert (rw_type e ∉ ["timeout"; "malformed_response"; "concurrent_mutation"; "partial_service_outage"; "timeout_after_commit"]) as Hn.
{ intros Hin. apply contains_spec in Hin. congruence. }
destruct (contains ["rate_limit"; "permission_revocation"] (rw_type e)) eqn:H4.
{ apply contains_spec in H4. split_and!; try done. intros He. exfalso. rewrite He in H4. by apply contains_spec in H4. }
destruct (str_eqb (rw_type e) "stale_read") eqn:H5; [|done]. apply rassert_ok in Hc. split_and!; try done. intros _.
destruct (rw_after_calls e) as [n|]; [|done]. exists n. split; [done|]. by apply Z.leb_le.
Qed.

Lemma check_targets_ok m e : check_targets m e = Ok tt -> forall id, id ∈ rw_operations e ->
(rw_type e = "timeout_after_commit" -> mutatingBehavior (behavior_of m id) = true) /\ (rw_type e = "stale_read" -> readingBehavior (behavior_of m id) = true).
Proof.
unfold check_targets. rewrite rfor_ok, Forall_forall. intros Ht id Hid. specialize (Ht id Hid). apply rassert_ok in Ht. split; intros He; rewrite He in Ht; exact Ht.
Qed.
Lemma check_body_ok e body : check_body e = Ok body -> (rw_type e = "malformed_response" <-> body <> "").
Proof.
unfold check_body. intros Hb. destruct (str_eqb (rw_type e) "malformed_response") eqn:Ht; bool_inv.
- destruct (rw_body e) as [b|]; [|done]. destruct (str_eqb b "") eqn:Hbe; [done|]. bool_inv. by simplify_eq.
- res_inv. done.
Qed.
Lemma check_actor_ok m e actor : check_actor m e = Ok actor ->
(rw_type e = "concurrent_mutation" <-> is_Some actor) /\
forall a, actor = Some a -> exists op, find_operation m (ac_operation a) = Some op /\ mutatingBehavior (op_behavior op) = true /\ validateArguments op (ac_arguments a) = Ok tt.
Proof.
unfold check_actor. intros Ha. destruct (str_eqb (rw_type e) "concurrent_mutation") eqn:Ht; bool_inv; res_inv.
- split; [naive_solver|]. intros x [= <-]. eauto.
- split; [|done]. split; [done|]. by intros [].
Qed.

Lemma parse_rule_ok m rules e rules' : parse_rule m rules e = Ok rules' ->
exists r, rules' = rules ++ [r] /\ rule_wf m r /\ r_id r ∉ map r_id rules /\ r_id r = rw_id e /\ r_type r = rw_type e /\ r_operations r = rw_operations e.
Proof.
unfold parse_rule. rewrite !rassert_bind, !andb_true_iff, not_contains, !negb_true_iff, bool_decide_eq_false, rbind_ok.
intros ((Hid & Hnew) & Hne & seen & (Hops & Hnd & ->)%check_operations_ok & Hr). revert Hr. rewrite !rassert_bind, rbind_unit.
intros (Ht & Ha & Hd & (Hhttp & Hlat & Htimes & Hstale)%check_type_ok & Hr). revert Hr. rewrite !rassert_bind, rbind_unit.
intros (Hs & Hl & Htg & Hr). pose proof (check_targets_ok _ _ Htg) as Htargets. revert Hr. rewrite rassert_bind, rbind_ok.
intros (_ & body & Hb%check_body_ok & Hr). revert Hr. rewrite rbind_ok. intros (actor & Hac & Hr). apply check_actor_ok in Hac. injection Hr as <-.
eexists. split; [done|]. split; [|done]. apply orb_true_iff in Hs, Hl. rewrite !str_eqb_true, !negb_true_iff, !given_false in *.
constructor; cbn [r_id r_type r_operations r_status r_times r_after_calls r_duration_ms r_body r_actor]; try done.
- split; [exact (at_least_zero 1 _ ltac:(lia) Ht)|exact (at_least_zero 0 _ ltac:(lia) Ha)].
- split; [intros He; destruct (Hhttp He) as [(s & -> & Hr) _]; done|]. intros He. destruct Hs as [?| ->]; done.
- split; [intros He; apply at_least_default; [done|]; destruct (Hlat He) as [d ->]; done|]. intros He. destruct Hl as [?| ->]; done.
- intros Hin. apply at_least_default; [done|]. assert (is_Some (rw_times e)) as [t ->]; [|done].
apply elem_of_cons in Hin as [He|Hin]; [by apply Hhttp|by apply Htimes].
- intros He. destruct (Hstale He) as (n & -> & Hn). exact Hn.
Qed.

Lemma parse_rules_ok m es rules rules' : rfold (parse_rule m) rules es = Ok rules' ->
exists new, rules' = rules ++ new /\ Forall (rule_wf m) new /\ new_keys r_id rules new /\ map r_id new = map rw_id es.
Proof.
revert rules. induction es as [|e es IH]; intros rules; cbn [rfold map].
- intros [= <-]. exists []. rewrite app_nil_r. split_and!; [done|done|apply new_keys_empty|done].
- intros (rules1 & (r & -> & Hwf & Hn & Hid & _)%parse_rule_ok & (new & -> & Hnew & Hk & Hids)%IH)%rbind_ok.
exists (r :: new). rewrite <- app_assoc, new_keys_cons. cbn. split_and!; [done|by constructor|done|done|by rewrite Hids, Hid].
Qed.

(** ** Stored policies *)

(** The arguments of an actor as the run sees them: numbers are float64. *)
Definition floated_value (v : goval) : goval := match v with VInt n => VFloat (float_of_int n) | v => v end.
Definition floated_actor (a : Actor) : Actor := MkActor (ac_operation a) (map (fun kv => (kv.1, floated_value kv.2)) (sort_on fst (ac_arguments a))).
Definition floated (r : Rule) : Rule :=
MkRule (r_id r) (r_type r) (r_operations r) (r_status r) (r_times r) (r_after_calls r) (r_duration_ms r) (r_body r) (floated_actor <$> r_actor r).

(** What JSON keeps of a rule: valid UTF-8 and 64-bit integers. *)
Definition argument_plain (v : goval) : Prop := match v with VString t => utf8_text t | VInt n => in_int64 n | _ => False end.
Definition rule_plain (r : Rule) : Prop :=
utf8_text (r_id r) /\ utf8_text (r_type r) /\ Forall utf8_text (r_operations r) /\ utf8_text (r_body r) /\ r_operations r <> [] /\
Forall in_int64 [r_status r; r_times r; r_after_calls r; r_duration_ms r] /\
forall a, r_actor r = Some a -> utf8_text (ac_operation a) /\ NoDup (map fst (ac_arguments a)) /\ Forall utf8_text (map fst (ac_arguments a)) /\
Forall (fun kv => argument_plain kv.2) (ac_arguments a).

Lemma actor_reads a : utf8_text (ac_operation a) -> NoDup (map fst (ac_arguments a)) -> Forall (fun kv => argument_plain kv.2) (ac_arguments a) ->
actor_of (decoded (VStruct [("operation", VString (ac_operation a)); ("arguments", VMap (ac_arguments a))])) = Some (floated_actor a).
Proof.
intros Hop Hnd Hargs. unfold actor_of. cbn [decoded map fst snd].
rewrite (field_some _ "operation" decode_text "" (decoded (VString (ac_operation a))) (ac_operation a)) by (done || by apply decode_text_decoded).
rewrite (field_some _ "arguments" decode_any_map [] (decoded (VMap (ac_arguments a))) (ac_arguments (floated_actor a))); [done|done|done|].
cbn [decoded floated_actor ac_arguments]. unfold decode_any_map, decode_map.
rewrite (sort_on_map (fun kv => (kv.1, decoded kv.2)) fst fst) by done. rewrite map_map. apply opt_all_decoded. cbn [fst snd].
assert (Forall (fun kv => argument_plain kv.2) (sort_on fst (ac_arguments a))) as Hs by by rewrite sort_on_permutation.
induction Hs as [|[k v] l Hv _ IH]; constructor; [|done]. cbn [fst snd]. destruct v as [| |n| | |t| | | |]; try done; cbn [decoded floated_value].
- by rewrite to_floats_int.
- cbn [to_floats]. by rewrite sanitize_text_id.
Qed.

Section Reads.
Context (r : Rule).
Definition rule_members : list (string * goval) :=
match rule_value r with VStruct m => map (fun kv => (kv.1, decoded kv.2)) m | _ => [] end.
Ltac member :=
unfold rule_members, rule_value, int_field, text_field;
destruct (r_status r =? 0), (r_times r =? 0), (r_after_calls r =? 0), (r_duration_ms r =? 0), (str_eqb (r_body r) ""), (r_actor r); reflexivity.
Definition int_member (n : Z) : option goval := if n =? 0 then None else Some (decoded (VInt n)).
Lemma member_id : alookup rule_members "id" = Some (decoded (VString (r_id r))).
Proof. reflexivity. Qed.
Lemma member_type : alookup rule_members "type" = Some (decoded (VString (r_type r))).
Proof. reflexivity. Qed.
Lemma member_operations : alookup rule_members "operations" = Some (decoded (strings_value (r_operations r))).
Proof. reflexivity. Qed.
Lemma member_status : alookup rule_members "status" = int_member (r_status r).
Proof. unfold int_member. member. Qed.
Lemma member_times : alookup rule_members "times" = int_member (r_times r).
Proof. unfold int_member. member. Qed.
Lemma member_after_calls : alookup rule_members "after_calls" = int_member (r_after_calls r).
Proof. unfold int_member. member. Qed.
Lemma member_duration : alookup rule_members "duration_ms" = int_member (r_duration_ms r).
Proof. unfold int_member. member. Qed.
Lemma member_body : alookup rule_members "body" = if str_eqb (r_body r) "" then None else Some (decoded (VString (r_body r))).
Proof. member. Qed.
Lemma member_actor : alookup rule_members "actor" =
(fun a => decoded (VStruct [("operation", VString (ac_operation a)); ("arguments", VMap (ac_arguments a))])) <$> r_actor r.
Proof. member. Qed.

Lemma int_reads key n : alookup rule_members key = int_member n -> in_int64 n -> field (VMap rule_members) key decode_int 0 = Some n.
Proof.
unfold int_member. intros Hm Hn. destruct (n =? 0) eqn:Hz.
- apply Z.eqb_eq in Hz as ->. by apply field_none.
- eapply field_some; [exact Hm|done|by apply decode_int_decoded].
Qed.

Lemma rule_reads : rule_plain r -> rule_of (decoded (rule_value r)) = Some (floated r).
Proof.
intros (Hid & Ht & Hops & Hb & Hne & Hints & Ha). change (decoded (rule_value r)) with (VMap rule_members). unfold rule_of.
rewrite !Forall_cons in Hints. destruct Hints as (Hs & Htm & Hac & Hd & _).
rewrite (field_some _ "id" decode_text "" _ (r_id r) member_id) by (done || by apply decode_text_decoded).
rewrite (field_some _ "type" decode_text "" _ (r_type r) member_type) by (done || by apply decode_text_decoded).
assert (field (VMap rule_members) "operations" (decode_list decode_text) [] = Some (r_operations r)) as ->.
{ pose proof member_operations as Hm. unfold strings_value in Hm. destruct (r_operations r) as [|o os] eqn:Ho; [done|].
eapply field_some; [exact Hm|done|]. by apply decode_strings. }
rewrite (int_reads "status" _ member_status Hs), (int_reads "times" _ member_times Htm), (int_reads "after_calls" _ member_after_calls Hac),
(int_reads "duration_ms" _ member_duration Hd).
assert (field (VMap rule_members) "body" decode_text "" = Some (r_body r)) as ->.
{ pose proof member_body as Hm. destruct (str_eqb (r_body r) "") eqn:He.
- apply str_eqb_true in He. rewrite He. by apply field_none.
- eapply field_some; [exact Hm|done|by apply decode_text_decoded]. }
assert (pointer_field (VMap rule_members) "actor" actor_of = Some (floated_actor <$> r_actor r)) as ->; [|done].
pose proof member_actor as Hm. unfold pointer_field. destruct (r_actor r) as [a|]; [|by apply field_none].
destruct (Ha a eq_refl) as (Hop & Hnd & _ & Hargs). eapply field_some; [exact Hm|done|]. by rewrite actor_reads.
Qed.

Lemma rule_encodable : rule_plain r -> encodable (rule_value r).
Proof.
intros (_ & _ & _ & _ & _ & _ & Ha). apply encodable_struct. unfold int_field, text_field. repeat (apply Forall_app; split).
- repeat constructor. cbn [snd]. unfold strings_value. destruct (r_operations r); [done|]. apply encodable_slice, (encodable_texts (_ :: _)).
- destruct (_ =? _); by repeat constructor.
- destruct (_ =? _); by repeat constructor.
- destruct (_ =? _); by repeat constructor.
- destruct (_ =? _); by repeat constructor.
- destruct (str_eqb _ _); by repeat constructor.
- destruct (r_actor r) as [a|]; [|constructor]. constructor; [|constructor]. cbn [snd]. apply encodable_struct. constructor; [done|]. constructor; [|constructor].
apply encodable_map. destruct (Ha a eq_refl) as (_ & _ & _ & Hargs). eapply Forall_impl; [exact Hargs|]. intros [k v]. cbn. by destruct v.
Qed.
Lemma rule_clean : rule_plain r -> clean (rule_value r).
Proof.
intros (_ & _ & _ & _ & _ & _ & Ha).
assert (clean (strings_value (r_operations r))) as Hops by (unfold strings_value; destruct (r_operations r); [done|apply clean_slice, (clean_texts (_ :: _))]).
assert (forall a, r_actor r = Some a -> clean (VStruct [("operation", VString (ac_operation a)); ("arguments", VMap (ac_arguments a))])) as Hactor.
{ intros a He. destruct (Ha a He) as (_ & Hnd & Hk & Hargs). clean_fields ["operation"; "arguments"]. constructor; [done|]. constructor; [|constructor].
apply clean_map; [done..|]. eapply Forall_impl; [exact Hargs|]. intros [k v]. cbn. by destruct v. }
apply (clean_struct _ ["id"; "type"; "operations"; "status"; "times"; "after_calls"; "duration_ms"; "body"; "actor"]).
- unfold int_field, text_field. destruct (r_status r =? 0), (r_times r =? 0), (r_after_calls r =? 0), (r_duration_ms r =? 0), (str_eqb (r_body r) ""), (r_actor r); cbn; sublist_keys.
- apply (bool_decide_unpack _). vm_compute. exact I.
- repeat constructor.
- unfold int_field, text_field. repeat (apply Forall_app; split).
+ constructor; [done|]. constructor; [done|]. constructor; [exact Hops|constructor].
+ destruct (_ =? _); by repeat constructor.
+ destruct (_ =? _); by repeat constructor.
+ destruct (_ =? _); by repeat constructor.
+ destruct (_ =? _); by repeat constructor.
+ destruct (str_eqb _ _); by repeat constructor.
+ destruct (r_actor r) as [a|]; constructor; [by apply Hactor|constructor].
Qed.
End Reads.

Lemma chaos_policy_stored p : Forall rule_plain (c_rules p) -> exists json, CanonicalJSON p = Some json /\ unmarshal_number json = Some (decoded (policy_value p)).
Proof.
intros Hr. assert (encodable (policy_value p)) as He.
{ apply encodable_struct. constructor; [done|]. constructor; [|constructor]. apply encodable_slice, Forall_fmap. eapply Forall_impl; [exact Hr|apply rule_encodable]. }
assert (clean (policy_value p)) as Hc.
{ unfold policy_value. clean_fields ["version"; "rules"]. constructor; [done|]. constructor; [|constructor]. apply clean_slice, Forall_fmap.
eapply Forall_impl; [exact Hr|apply rule_clean]. }
destruct (marshal_encodable _ He) as [json Hj]. exists json. split; [exact Hj|]. by apply unmarshal_number_marshal.
Qed.
Lemma chaos_policy_reads p : in_int64 (c_version p) -> Forall rule_plain (c_rules p) -> policy_of (decoded (policy_value p)) = Some (MkChaos (c_version p) (map floated (c_rules p))).
Proof.
intros Hv Hr. unfold policy_of, policy_value. cbn [decoded map fst snd].
rewrite (field_some _ "version" decode_int 0 (decoded (VInt (c_version p))) (c_version p)) by (done || by apply decode_int_decoded).
erewrite (field_some _ "rules" (decode_list rule_of) [] (decoded (VSlice (map rule_value (c_rules p))))); [done|done|done|].
cbn [decoded decode_list]. rewrite map_map. apply opt_all_decoded. induction Hr as [|r l Hr' _ IH]; constructor; [by apply rule_reads|done].
Qed.

(** ** Copied state *)

(** A run of one database has the chaos state of a run of another. *)
Record alike (s : DB) (from : string) (t : DB) (to : string) : Prop := {
alike_policy : run_chaos t !! to = run_chaos s !! from;
alike_counts : forall id, chaos_rule_state t !! (to, id) = chaos_rule_state s !! (from, id);
alike_snapshots : forall id digest, chaos_snapshots t !! (to, id, digest) = chaos_snapshots s !! (from, id, digest);
alike_hidden : forall call, chaos_hidden_outcomes t !! (to, call) = chaos_hidden_outcomes s !! (from, call) }.
(** A run without chaos state. *)
Record fresh_run (t : DB) (to : string) : Prop := {
fresh_policy : run_chaos t !! to = None;
fresh_counts : forall id, chaos_rule_state t !! (to, id) = None;
fresh_snapshots : forall id digest, chaos_snapshots t !! (to, id, digest) = None;
fresh_hidden : forall call, chaos_hidden_outcomes t !! (to, call) = None }.

Section InsertRows.
Context {K V A : Type} `{Countable K} (name : string) (get : DB -> gmap K V) (set : (gmap K V -> gmap K V) -> DB -> DB).
Context (Hget : forall f s, get (set f s) = f (get s)) (key : A -> K) (val : A -> V).

(** Rows with new keys are all inserted, and nothing else changes. *)
Lemma insert_rows rows s : NoDup (map key rows) -> (forall row, row ∈ rows -> get s !! key row = None) ->
exists s', tfor rows (fun row => sql_insert name get set (key row) (val row)) s = Ok (tt, s') /\
(forall row, row ∈ rows -> get s' !! key row = Some (val row)) /\ (forall k, k ∉ map key rows -> get s' !! k = get s !! k) /\
forall X (f : DB -> X), (forall g s, f (set g s) = f s) -> f s' = f s.
Proof.
revert s. induction rows as [|row rows IH]; intros s Hnd Hnew.
- exists s. split_and!; [done|by intros row Hr%elem_of_nil|done|done].
- cbn [map] in Hnd. apply NoDup_cons in Hnd as [Hn Hnd]. destruct (IH (set (insert (key row) (val row)) s) Hnd) as (s' & Hs & Hin & Hout & Hf).
{ intros row' Hr. rewrite Hget, lookup_insert_ne; [apply Hnew; by right|]. intros He. apply Hn. rewrite He. by apply list_elem_of_fmap_2. }
exists s'. split_and!.
+ cbn [tfor]. unfold tbind, sql_insert at 1. rewrite Hnew by left. exact Hs.
+ intros row' [->|Hr]%elem_of_cons; [|by apply Hin]. rewrite Hout, Hget by done. apply lookup_insert_eq.
+ intros k Hk. cbn [map] in Hk. rewrite not_elem_of_cons in Hk. destruct Hk as [Hne Hk]. rewrite Hout by done. rewrite Hget. by apply lookup_insert_ne.
+ intros X f Hfr. rewrite (Hf X f Hfr). apply Hfr.
Qed.
End InsertRows.

Lemma pair_rows_in {V} (m : gmap (string * string) V) run row : row ∈ pair_rows m run <-> m !! (run, row.1) = Some row.2.
Proof.
unfold pair_rows. rewrite list_elem_of_omap. split.
- intros ([[r id] st] & Hin%elem_of_map_to_list & He). cbn in He. destruct (str_eqb r run) eqn:Hr; [|done]. apply str_eqb_true in Hr as ->. by injection He as <-.
- intros Hin. destruct row as [id st]. exists ((run, id), st). rewrite elem_of_map_to_list. split; [done|]. cbn. by rewrite str_eqb_refl.
Qed.
Lemma snapshot_rows_in s run row : row ∈ snapshot_rows s run <-> chaos_snapshots s !! (run, row.1.1, row.1.2) = Some row.2.
Proof.
unfold snapshot_rows. rewrite list_elem_of_omap. split.
- intros ([[[r id] d] st] & Hin%elem_of_map_to_list & He). cbn in He. destruct (str_eqb r run) eqn:Hr; [|done]. apply str_eqb_true in Hr as ->. by injection He as <-.
- intros Hin. destruct row as [[id d] st]. exists ((run, id, d), st). rewrite elem_of_map_to_list. split; [done|]. cbn. by rewrite str_eqb_refl.
Qed.
(** The rows of a run have distinct keys. *)
Lemma omap_keys `{Countable K} {V K' B} (m : gmap K V) (f : K * V -> option B) (key : B -> K') :
(forall kv kv' b b', f kv = Some b -> f kv' = Some b' -> key b = key b' -> kv.1 = kv'.1) -> NoDup (map key (omap f (map_to_list m))).
Proof.
intros Hinj. assert (map key (omap f (map_to_list m)) = omap (fun kv => key <$> f kv) (map_to_list m)) as ->.
{ induction (map_to_list m) as [|kv l IH]; cbn; [done|]. destruct (f kv); cbn; by rewrite IH. }
apply NoDup_omap_inj_in; [|apply NoDup_map_to_list].
intros [k v] [k' v'] y Hx Hx' (b & Hb & ->)%fmap_Some (b' & Hb' & Hk)%fmap_Some. pose proof (Hinj _ _ _ _ Hb Hb' Hk) as He. cbn in He. subst k'.
apply elem_of_map_to_list in Hx, Hx'. congruence.
Qed.

(** ** Copied runs decide alike *)

Lemma has_snapshot_alike s from t to op arguments id : alike s from t to -> has_snapshot t to op arguments id = has_snapshot s from op arguments id.
Proof. intros Ha. unfold has_snapshot. by rewrite (alike_snapshots _ _ _ _ Ha). Qed.

(** The rules advance equal counters equally. *)
Lemma apply_rules_alike snap snap' run run' op rules selected m m' :
(forall id, snap' id = snap id) -> (forall id, m' !! (run', id) = m !! (run, id)) ->
(apply_rules snap' run' op selected rules m').1 = (apply_rules snap run op selected rules m).1 /\
forall id, (apply_rules snap' run' op selected rules m').2 !! (run', id) = (apply_rules snap run op selected rules m).2 !! (run, id).
Proof.
intros Hs. revert selected m m'. induction rules as [|r rules IH]; intros selected m m' Hm; cbn [apply_rules]; [done|].
destruct (matches op r); cbn [negb]; [|by apply IH]. rewrite (Hm (r_id r)). unfold usable. rewrite (Hs (r_id r)).
assert (forall (v : RuleStateRow) id, (<[(run', r_id r) := v]> m') !! (run', id) = (<[(run, r_id r) := v]> m) !! (run, id)) as Hins.
{ intros v id. destruct (decide (id = r_id r)) as [->|Hne]; [by rewrite !lookup_insert_eq|]. rewrite !lookup_insert_ne by congruence. done. }
case_match; by apply IH.
Qed.

Lemma load_reads run s p s' : load run s = Ok (p, s') -> s' = s.
Proof. intros Hl. symmetry. exact (chaos_load_respects run eq _ _ _ Hl). Qed.
Lemma load_alike s from t to p : run_chaos t !! to = run_chaos s !! from -> load from s = Ok (p, s) -> load to t = Ok (p, t).
Proof.
intros He. unfold load, tbind, sql_get, treads, tassert, tsome, tret. rewrite He. destruct (run_chaos s !! from) as [row|]; [|by intros [= <-]].
destruct (str_eqb _ _); [|done]. destruct (unmarshal_number (pol_json row)) as [v|]; [|done]. destruct (policy_of v) as [q|]; [|done].
destruct (_ =? _); [|done]. by intros [= <-].
Qed.

Lemma Decide_alike s from t to op arguments d s1 : alike s from t to -> json_valid arguments = true -> Decide from op arguments s = Ok (d, s1) ->
exists t1, Decide to op arguments t = Ok (d, t1) /\ alike s1 from t1 to.
Proof.
intros Ha Hv Hd. unfold Decide in Hd. apply tbind_ok in Hd as (p & s2 & Hl & Hd). pose proof (load_reads _ _ _ _ Hl) as ->.
pose proof (load_alike _ _ _ _ _ (alike_policy _ _ _ _ Ha) Hl) as Hl'. unfold Decide, tbind at 1. rewrite Hl'.
destruct p as [p|]; [|apply Ok_pair in Hd as [<- <-]; by exists t].
unfold tbind in Hd |- *. rewrite decide_fold in Hd |- * by done. cbv zeta in Hd |- *.
destruct (apply_rules_alike _ _ from to op (c_rules p) None (chaos_rule_state s) (chaos_rule_state t)
(fun id => has_snapshot_alike s from t to op arguments id Ha) (alike_counts _ _ _ _ Ha)) as [Hsel Hm].
rewrite Hsel. apply Ok_pair in Hd as [<- <-]. eexists. split; [done|]. constructor; [apply Ha|exact Hm|apply Ha|apply Ha].
Qed.

(** A copied table: the rows of one run under another. *)
Section CopyTable.
Context {K V A : Type} `{Countable K} (name : string) (get : DB -> gmap K V) (set : (gmap K V -> gmap K V) -> DB -> DB).
Context (Hget : forall f s, get (set f s) = f (get s)) (rows : list A) (key : A -> K) (val : A -> V) (source : K -> option V).

Lemma copy_table table s :
NoDup (map key rows) -> (forall k v, source k = Some v -> get s !! k = None) ->
(forall row, row ∈ rows -> source (key row) = Some (val row)) -> (forall k v, source k = Some v -> k ∈ map key rows) ->
exists s', copying table (tfor rows (fun row => sql_insert name get set (key row) (val row))) s = Ok (tt, s') /\
(forall k, get s' !! k = match source k with Some v => Some v | None => get s !! k end) /\
forall X (f : DB -> X), (forall g s, f (set g s) = f s) -> f s' = f s.
Proof.
intros Hnd Hnew Hin Hall.
destruct (insert_rows name get set Hget key val rows s Hnd) as (s' & Hs & Hrows & Hout & Hf); [intros row Hr; eapply Hnew; by apply Hin|].
exists s'. split_and!; [unfold copying; by rewrite Hs| |done]. intros k. destruct (source k) as [v|] eqn:Hsrc.
- destruct (proj1 (list_elem_of_fmap _ _ _) (Hall k v Hsrc)) as (row & -> & Hr). rewrite Hrows by done. rewrite <- Hsrc. symmetry. by apply Hin.
- apply Hout. intros (row & -> & Hr)%list_elem_of_fmap. specialize (Hin _ Hr). congruence.
Qed.
End CopyTable.

(** The rows [CopyRun] writes, by table: those of [from] under [to]. *)
Definition moved {K V} (to : string) (run_of : K -> string) (row : K -> option V) (k : K) : option V :=
if str_eqb (run_of k) to then row k else None.

(** The chaos state of the other runs is untouched. *)
Record others_kept (t t' : DB) (to : string) : Prop := {
kept_policy : forall run, run <> to -> run_chaos t' !! run = run_chaos t !! run;
kept_counts : forall run id, run <> to -> chaos_rule_state t' !! (run, id) = chaos_rule_state t !! (run, id);
kept_snapshots : forall run id d, run <> to -> chaos_snapshots t' !! (run, id, d) = chaos_snapshots t !! (run, id, d);
kept_hidden : forall run c, run <> to -> chaos_hidden_outcomes t' !! (run, c) = chaos_hidden_outcomes t !! (run, c) }.

Lemma copy_policy s from to t : run_chaos t !! to = None ->
exists t', copying "run_chaos" match run_chaos s !! from with
                    | Some row => sql_insert "run_chaos" run_chaos set_run_chaos to row
                    | None => tret tt
                    end t = Ok (tt, t') /\ run_chaos t' !! to = run_chaos s !! from /\ (forall run, run <> to -> run_chaos t' !! run = run_chaos t !! run) /\
forall X (f : DB -> X), (forall g s, f (set_run_chaos g s) = f s) -> f t' = f t.
Proof.
intros Hn. unfold copying. destruct (run_chaos s !! from) as [row|]; [|by exists t].
exists (set_run_chaos (insert to row) t). unfold sql_insert. rewrite Hn. split_and!; [done| | |done]; db_simpl; [by rewrite lookup_insert_eq|].
intros run Hr. by rewrite lookup_insert_ne.
Qed.

(** The tables keyed by run and a name. *)
Lemma copy_pairs {V} (name : string) (get : DB -> gmap (string * string) V) (set : (gmap (string * string) V -> gmap (string * string) V) -> DB -> DB)
(Hget : forall f s, get (set f s) = f (get s)) s from to t :
(forall id, get t !! (to, id) = None) ->
exists t', copying name (tfor (pair_rows (get s) from) (fun row => sql_insert name get set (to, row.1) row.2)) t = Ok (tt, t') /\
(forall id, get t' !! (to, id) = get s !! (from, id)) /\ (forall run id, run <> to -> get t' !! (run, id) = get t !! (run, id)) /\
forall X (f : DB -> X), (forall g s, f (set g s) = f s) -> f t' = f t.
Proof.
intros Hn. destruct (copy_table name get set Hget (pair_rows (get s) from) (fun row => (to, row.1)) snd (moved to fst (fun k => get s !! (from, k.2))) name t)
as (t' & Hs & Hr & Hf); unfold moved in *; cbn [fst snd] in *.
- apply omap_keys. intros [[r id] v] [[r' id'] v'] b b'. cbn. destruct (str_eqb r from) eqn:E, (str_eqb r' from) eqn:E'; try done. bool_inv.
intros [= <-] [= <-]. cbn. congruence.
- intros [r id] v. cbn. destruct (str_eqb r to) eqn:E; [|done]. bool_inv. by subst r.
- intros [id st] Hr%pair_rows_in. by rewrite str_eqb_refl.
- intros [r id] v. cbn. destruct (str_eqb r to) eqn:E; [|done]. bool_inv. subst r. intros Hv. apply list_elem_of_fmap. exists (id, v). by rewrite pair_rows_in.
- exists t'. split_and!; [exact Hs| | |exact Hf].
+ intros id. rewrite Hr. cbn. rewrite str_eqb_refl, Hn. by destruct (get s !! _).
+ intros run id Hne. rewrite Hr. cbn. by rewrite (proj2 (str_eqb_false _ _) Hne).
Qed.
Lemma copy_snapshots s from to t : (forall id d, chaos_snapshots t !! (to, id, d) = None) ->
exists t', copying "chaos_snapshots"
(tfor (snapshot_rows s from) (fun row => sql_insert "chaos_snapshots" chaos_snapshots set_chaos_snapshots (to, row.1.1, row.1.2) row.2)) t = Ok (tt, t') /\
(forall id d, chaos_snapshots t' !! (to, id, d) = chaos_snapshots s !! (from, id, d)) /\
(forall run id d, run <> to -> chaos_snapshots t' !! (run, id, d) = chaos_snapshots t !! (run, id, d)) /\
forall X (f : DB -> X), (forall g s, f (set_chaos_snapshots g s) = f s) -> f t' = f t.
Proof.
intros Hn. destruct (copy_table "chaos_snapshots" chaos_snapshots set_chaos_snapshots (fun f s => eq_refl) (snapshot_rows s from)
(fun row => (to, row.1.1, row.1.2)) snd (moved to (fun k => k.1.1) (fun k => chaos_snapshots s !! (from, k.1.2, k.2))) "chaos_snapshots" t)
as (t' & Hs & Hr & Hf); unfold moved in *; cbn [fst snd] in *.
- apply omap_keys. intros [[[r id] d] v] [[[r' id'] d'] v'] b b'. cbn. destruct (str_eqb r from) eqn:E, (str_eqb r' from) eqn:E'; try done. bool_inv.
intros [= <-] [= <-]. cbn. congruence.
- intros [[r id] d] v. cbn. destruct (str_eqb r to) eqn:E; [|done]. bool_inv. by subst r.
- intros [[id d] st] Hr%snapshot_rows_in. by rewrite str_eqb_refl.
- intros [[r id] d] v. cbn. destruct (str_eqb r to) eqn:E; [|done]. bool_inv. subst r. intros Hv. apply list_elem_of_fmap. exists (id, d, v). by rewrite snapshot_rows_in.
- exists t'. split_and!; [exact Hs| | |exact Hf].
+ intros id d. rewrite Hr. cbn. rewrite str_eqb_refl, Hn. by destruct (chaos_snapshots s !! _).
+ intros run id d Hne. rewrite Hr. cbn. by rewrite (proj2 (str_eqb_false _ _) Hne).
Qed.

Lemma copy_chaos s from to t : fresh_run t to -> exists t', CopyRun s from to t = Ok (tt, t') /\ alike s from t' to /\ others_kept t t' to.
Proof.
intros [Hp Hc Hs Hh]. destruct (copy_policy s from to t Hp) as (t1 & H1 & Hp1 & Ho1 & Hf1).
destruct (copy_pairs "chaos_rule_state" chaos_rule_state set_chaos_rule_state (fun f s => eq_refl) s from to t1) as (t2 & H2 & Hr2 & Ho2 & Hf2).
{ by rewrite (Hf1 _ chaos_rule_state). }
destruct (copy_snapshots s from to t2) as (t3 & H3 & Hr3 & Ho3 & Hf3); [by rewrite (Hf2 _ chaos_snapshots), (Hf1 _ chaos_snapshots)|].
destruct (copy_pairs "chaos_hidden_outcomes" chaos_hidden_outcomes set_chaos_hidden_outcomes (fun f s => eq_refl) s from to t3) as (t4 & H4 & Hr4 & Ho4 & Hf4).
{ by rewrite (Hf3 _ chaos_hidden_outcomes), (Hf2 _ chaos_hidden_outcomes), (Hf1 _ chaos_hidden_outcomes). }
exists t4. split; [unfold CopyRun, tbind; rewrite H1; unfold rule_rows; rewrite H2, H3; exact H4|].
pose proof (Hf4 _ run_chaos (fun _ _ => eq_refl)) as P4. rewrite (Hf3 _ run_chaos), (Hf2 _ run_chaos) in P4 by done.
pose proof (Hf4 _ chaos_rule_state (fun _ _ => eq_refl)) as C4. rewrite (Hf3 _ chaos_rule_state) in C4 by done.
pose proof (Hf4 _ chaos_snapshots (fun _ _ => eq_refl)) as S4.
split; constructor; intros *; rewrite ?P4, ?C4, ?S4; try done.
- apply Ho1.
- intros Hr. rewrite Ho2 by done. by rewrite (Hf1 _ chaos_rule_state).
- intros Hr. rewrite Ho3 by done. by rewrite (Hf2 _ chaos_snapshots), (Hf1 _ chaos_snapshots).
- intros Hr. rewrite Ho4 by done. by rewrite (Hf3 _ chaos_hidden_outcomes), (Hf2 _ chaos_hidden_outcomes), (Hf1 _ chaos_hidden_outcomes).
Qed.

(** ** Theorems *)

(** A chaos policy the parser accepts is one the run can apply: its rule IDs
are those of the document, distinct and nonempty, every rule names compiled
operations of the manifest, each once, and has exactly the parameters of
its type within their bounds (a status from 400 to 599, a positive
duration or count), a commit is only hidden from a mutation, a stale
answer only given to a read, and an actor is a compiled mutation with
arguments that pass its contract. *)
Theorem parsed_chaos_rules m input p :
check_policy m input = Ok p ->
c_version p = 1 /\ c_rules p <> [] /\ rules_ok p /\ Forall (rule_wf m) (c_rules p) /\ map r_id (c_rules p) = map rw_id (rw_rules input).
Proof.
unfold check_policy. rewrite !rassert_bind, rbind_ok. intros (_ & Hne & rules & Hr & Hp). apply rbind_ok in Hp as (json & _ & [= <-]).
apply parse_rules_ok in Hr as (new & -> & Hwf & Hk & Hids). cbn. split_and!; try done.
- apply negb_true_iff, bool_decide_eq_false in Hne. destruct (rw_rules input); [done|]. by destruct new.
- split; [by apply new_keys_nil in Hk|]. intros r Hr He. rewrite Forall_forall in Hwf. pose proof (wf_id _ _ (Hwf r Hr)) as Hid. by rewrite He in Hid.
Qed.

(** The policy stored with a run is the policy the run applies: a version 1
policy encodes to JSON, and the row with that JSON and its digest loads as
the same rules, where the whole numbers among the arguments of an actor
have become float64. *)
Theorem stored_chaos_policy_loads p :
c_version p = 1 -> Forall rule_plain (c_rules p) ->
exists json, CanonicalJSON p = Some json /\
forall s run, run_chaos s !! run = Some (MkPolicy json (Digest p)) -> load run s = Ok (Some (MkChaos 1 (map floated (c_rules p))), s).
Proof.
intros Hv Hr. destruct (chaos_policy_stored p Hr) as (json & Hj & Hu). exists json. split; [done|]. intros s run Hrow.
unfold load, tbind, sql_get, treads, tassert, tsome, tret. rewrite Hrow. cbn [pol_json pol_digest]. unfold Digest. rewrite Hj, str_eqb_refl, Hu.
rewrite chaos_policy_reads by (done || by rewrite Hv). rewrite Hv. reflexivity.
Qed.

(** The decisions of a run on a sequence of calls. *)
Definition decide_all (run : string) (calls : list (string * string)) : DbTx (list Decision) :=
tfold (fun ds call => let* d := Decide run call.1 call.2 in tret (ds ++ [d])) [] calls.

Lemma decide_all_alike s from t to calls ds ds' s1 : alike s from t to -> Forall (fun call => json_valid call.2 = true) calls ->
tfold (fun ds call => let* d := Decide from call.1 call.2 in tret (ds ++ [d])) ds calls s = Ok (ds', s1) ->
exists t1, tfold (fun ds call => let* d := Decide to call.1 call.2 in tret (ds ++ [d])) ds calls t = Ok (ds', t1) /\ alike s1 from t1 to.
Proof.
intros Ha Hv. revert s t ds Ha. induction Hv as [|[op args] calls Hv _ IH]; intros s t ds Ha Hd; [injection Hd as <- <-; by exists t|].
rewrite tfold_cons in Hd. rewrite tfold_cons. cbn [fst snd] in *. unfold tbind at 1 in Hd. unfold tbind at 1.
destruct (Decide from op args s) as [[d s2]|e] eqn:Hs; [|done]. destruct (Decide_alike _ _ _ _ _ _ _ _ Ha Hv Hs) as (t2 & -> & Ha2).
cbn in Hd |- *. by apply (IH s2 t2).
Qed.

(** C21. A forked run continues the chaos of its parent: copying a run's state into
a run that has none succeeds, leaves the other runs' state alone, and from
then on the child's decisions about any sequence of calls are the ones the
parent would make, counters, snapshots and hidden outcomes included. *)
Theorem copied_run_decides_alike s from to t :
fresh_run t to ->
exists t', CopyRun s from to t = Ok (tt, t') /\ others_kept t t' to /\
forall calls ds s1, Forall (fun call => json_valid call.2 = true) calls -> decide_all from calls s = Ok (ds, s1) ->
exists t1, decide_all to calls t' = Ok (ds, t1) /\ alike s1 from t1 to.
Proof.
intros Hf. destruct (copy_chaos s from to t Hf) as (t' & Hc & Ha & Ho). exists t'. split_and!; [done|done|].
intros calls ds s1 Hv Hd. by eapply decide_all_alike.
Qed.

(** The behaviors that look at an argument again, and the type their routes give it. *)
Definition inspected : list (string * (string * string)) :=
[("billing.createRefund", ("amount_cents", "integer")); ("crm.updateAccountStatus", ("status", "string"));
 ("ticket.createIssue", ("priority", "string")); ("ticket.transitionIssue", ("status", "string"))].
Lemma routes_declare_inspected id route nt :
alookup routes id = Some route -> alookup inspected (ct_behavior route) = Some nt -> nt ∈ ct_properties route.
Proof.
intros Hr%alookup_in Hi.
assert (forallb (fun r => match alookup inspected (ct_behavior r.2) with Some nt => bool_decide (nt ∈ ct_properties r.2) | None => true end) routes = true) as Hall
by (vm_compute; reflexivity).
rewrite forallb_forall in Hall. specialize (Hall (id, route) (proj1 (list_elem_of_In _ _) Hr)). cbn [fst snd] in Hall. rewrite Hi in Hall.
by apply bool_decide_eq_true in Hall.
Qed.

Lemma argument_typed op args name typ :
rfor (op_required op) (fun name => rassert (bool_decide (is_Some (alookup args name))) (ErrText ("missing " +:+ name))) = Ok tt ->
rfor (sort_on fst args) (argument_valid op) = Ok tt -> alookup (op_properties op) name = Some typ -> name ∈ op_required op ->
(typ = "integer" -> exists n, arg args name = VInt n) /\ (typ = "string" -> exists t, arg args name = VString t).
Proof.
rewrite !rfor_ok, !Forall_forall. intros Hreq Hargs Hp Hin. specialize (Hreq name Hin). apply rassert_ok, bool_decide_eq_true in Hreq as [v Hv].
assert (argument_valid op (name, v) = Ok tt) as Ha by (apply Hargs; rewrite sort_on_permutation; by apply alookup_in).
unfold argument_valid in Ha. rewrite Hp in Ha. cbn [rsome] in Ha. unfold rbind in Ha. unfold arg. rewrite Hv. cbn [default].
split; intros ->; cbn in Ha; destruct v; try discriminate; eauto.
Qed.

Definition ordinary (r : res err unit) : Prop := r <> Err assertion_panic.
Lemma rbind_ordinary (m : res err unit) (k : unit -> res err unit) : ordinary m -> (m = Ok tt -> ordinary (k tt)) -> ordinary (rbind m k).
Proof. unfold ordinary, rbind. destruct m as [[]|e]; [auto|]. by intros Hm _ [= ->]. Qed.
Lemma rfor_ordinary {A} (l : list A) f : (forall x, ordinary (f x)) -> ordinary (rfor l f).
Proof. intros Hf. induction l as [|x l IH]; [done|]. cbn. by apply rbind_ordinary. Qed.

(** Checking an actor's arguments does not panic for an operation that keeps
to the built-in contract: by the time the amount, status or priority is
looked at again, it is known to be present and of the asserted type. *)
Theorem contract_arguments_never_panic op args :
validateContract op = Ok tt -> validateArguments op args <> Err assertion_panic.
Proof.
intros (route & Hr & Hb & _ & _ & Hprops)%validateContract_ok. unfold validateArguments. apply rbind_ordinary.
{ apply rfor_ordinary. intros name. unfold ordinary, rassert. by case_match. }
intros Hreq. apply rbind_ordinary.
{ apply rfor_ordinary. intros [name v]. unfold ordinary, argument_valid, rsome, rbind, rassert. repeat case_match; simplify_eq; done. }
intros Hargs.
assert (forall name typ, alookup inspected (op_behavior op) = Some (name, typ) ->
(typ = "integer" -> exists n, arg args name = VInt n) /\ (typ = "string" -> exists t, arg args name = VString t)) as Ht.
{ intros name typ Hi. rewrite Hb in Hi. destruct (Hprops _ _ (routes_declare_inspected _ _ _ Hr Hi)). by eapply argument_typed. }
unfold ordinary, behavior_arguments, one_of, rassert.
destruct (str_eqb (op_behavior op) "billing.createRefund") eqn:H1.
{ apply str_eqb_true in H1. rewrite H1 in Ht. destruct (proj1 (Ht _ _ eq_refl) eq_refl) as [n Hn]. rewrite Hn. cbn beta iota. by destruct (negb _). }
clear H1. destruct (str_eqb (op_behavior op) "crm.updateAccountStatus") eqn:H1.
{ apply str_eqb_true in H1. rewrite H1 in Ht. destruct (proj2 (Ht _ _ eq_refl) eq_refl) as [n Hn]. rewrite Hn. cbn beta iota. by destruct (contains _ _). }
clear H1. destruct (str_eqb (op_behavior op) "ticket.createIssue") eqn:H1.
{ apply str_eqb_true in H1. rewrite H1 in Ht. destruct (proj2 (Ht _ _ eq_refl) eq_refl) as [n Hn]. rewrite Hn. cbn beta iota. by destruct (contains _ _). }
clear H1. destruct (str_eqb (op_behavior op) "ticket.transitionIssue") eqn:H1; [|done].
apply str_eqb_true in H1. rewrite H1 in Ht. destruct (proj2 (Ht _ _ eq_refl) eq_refl) as [n Hn]. rewrite Hn. cbn beta iota. by destruct (contains _ _).
Qed.

(** ** An example: a world that renames an account's status change *)
Module ChaosDemo.
Import WorldDemo.
(** Nothing ties a world's operation to the arguments of its behavior. *)
Definition touch : Operation := MkOperation "touchAccount" "crm" "POST" "/touch" "crm.updateAccountStatus" ["account_id"] [("account_id", "string")].
Definition service : ServiceManifest :=
MkServiceManifest "crm" "crm" (digest_of (digestService (MkServiceManifest "crm" "crm" "" [note; get; touch]))) [note; get; touch].
Definition world : WorldMetadata := MkWorldMetadata sorted [service].
Definition manifest : Manifest := MkManifest (digest_of (digestWorld (MkManifest "" [note; get; touch] (Some world)))) [note; get; touch] (Some world).
Lemma touch_world_valid : ValidateManifest manifest = Ok tt.
Proof. vm_compute. reflexivity. Qed.
Definition meddle (op : string) (args : list (string * goval)) : rawRule :=
MkRawRule "meddle" "concurrent_mutation" ["getNote"] None (Some 1) None None None (Some (MkActor op args)).
Definition stale : rawRule := MkRawRule "stale" "stale_read" ["getNote"] None None (Some 1) None None None.
Definition input : rawPolicy := MkRawPolicy 1 [stale; meddle "addNote" [("body", VString "x"); ("account_id", VString "A-1")]].
Definition policy : Policy := match check_policy manifest input with Ok p => p | Err _ => MkChaos 0 [] end.
Lemma parsed : check_policy manifest input = Ok policy.
Proof. vm_compute. reflexivity. Qed.
Definition policy_text : string := default "" (CanonicalJSON policy).
(** A parent run that has read a note once, and a child to be. *)
Definition parent : DB :=
set_chaos_snapshots (insert ("R-1", "stale", argumentDigest "getNote" "{}") (MkOutcome 200 "{}"))
(set_chaos_rule_state (insert ("R-1", "stale") (MkRuleState 1 0)) (set_run_chaos (insert "R-1" (MkPolicy policy_text (Digest policy))) (empty_db 0))).
(** The arguments of an actor are checked after those the operation declares:
in a valid world whose operation leaves out the status its behavior needs,
a policy document makes the parser panic. *)
Lemma world_actor_panics :
ValidateManifest manifest = Ok tt /\
check_policy manifest (MkRawPolicy 1 [meddle "touchAccount" [("account_id", VString "A-1")]]) = Err assertion_panic.
Proof. split; [exact touch_world_valid|]. vm_compute. reflexivity. Qed.
Lemma fresh : fresh_run parent "R-2".
Proof. constructor; intros; unfold parent; db_simpl; rewrite ?lookup_insert_ne by congruence; apply lookup_empty. Qed.
Definition calls : list (string * string) := [("getNote", "{}"); ("getNote", "{}")].
Lemma calls_valid : Forall (fun call => json_valid call.2 = true) calls.
Proof. repeat constructor; vm_compute; reflexivity. Qed.
Lemma parent_decisions : match decide_all "R-1" calls parent with Ok (ds, _) => map RuleID ds | Err _ => [] end = ["stale"; "stale"].
Proof. vm_compute. reflexivity. Qed.
(** The note on the account has an ASCII text, an operation and a limit. *)
Lemma demo_rules_plain : Forall rule_plain (c_rules policy).
Proof.
change (c_rules policy) with
[MkRule "stale" "stale_read" ["getNote"] 0 0 1 0 "" None;
 MkRule "meddle" "concurrent_mutation" ["getNote"] 0 1 0 0 "" (Some (MkActor "addNote" [("body", VString "x"); ("account_id", VString "A-1")]))].
assert (forall z, (0 <=? z) && (z <=? 10) = true -> in_int64 z) as Hint by (intros z Hz; bool_inv; unfold in_int64, int64_min, int64_max; lia).
constructor; [|constructor; [|constructor]]; unfold rule_plain; cbn; split_and!;
try discriminate; try (apply utf8_ascii_text; reflexivity); try (repeat constructor; first [apply Hint|apply utf8_ascii_text]; reflexivity).
intros a [= <-]. cbn. split_and!; [by apply utf8_ascii_text|apply (bool_decide_unpack _); vm_compute; exact I| |]; repeat constructor; by apply utf8_ascii_text.
Qed.
End ChaosDemo.

Lemma parsed_chaos_rules_witness : rules_ok ChaosDemo.policy /\ map r_id (c_rules ChaosDemo.policy) = ["stale"; "meddle"].
Proof.
destruct (parsed_chaos_rules ChaosDemo.manifest ChaosDemo.input ChaosDemo.policy ChaosDemo.parsed) as (_ & _ & Hok & _ & Hids).
split; [exact Hok|]. rewrite Hids. reflexivity.
Defined.
Lemma stored_chaos_policy_loads_witness :
exists json, CanonicalJSON ChaosDemo.policy = Some json /\ load "R-1" ChaosDemo.parent = Ok (Some (MkChaos 1 (map floated (c_rules ChaosDemo.policy))), ChaosDemo.parent).
Proof.
destruct (stored_chaos_policy_loads ChaosDemo.policy) as (json & Hj & Hl); [vm_compute; reflexivity|exact ChaosDemo.demo_rules_plain|]. exists json. split; [exact Hj|].
apply Hl. unfold ChaosDemo.parent, ChaosDemo.policy_text. rewrite Hj. reflexivity.
Defined.
Lemma copied_run_decides_alike_witness :
exists t', CopyRun ChaosDemo.parent "R-1" "R-2" ChaosDemo.parent = Ok (tt, t') /\ exists ds t1, decide_all "R-2" ChaosDemo.calls t' = Ok (ds, t1) /\ map RuleID ds = ["stale"; "stale"].
Proof.
destruct (copied_run_decides_alike ChaosDemo.parent "R-1" "R-2" ChaosDemo.parent) as (t' & Hc & _ & Hd);
[exact ChaosDemo.fresh|]. exists t'. split; [exact Hc|].
pose proof ChaosDemo.parent_decisions as Hids.
destruct (decide_all "R-1" ChaosDemo.calls ChaosDemo.parent) as [[ds s1]|e] eqn:Hs; [|discriminate Hids].
destruct (Hd ChaosDemo.calls ds s1) as (t1 & Ht & _); [exact ChaosDemo.calls_valid|exact Hs|].
exists ds, t1. split; [exact Ht|exact Hids].
Defined.
Lemma contract_arguments_never_panic_witness :
validateArguments (MkOperation "crmUpdateAccountStatus" "" "POST" "/crm/accounts/status" "crm.updateAccountStatus" ["account_id"; "status"]
[("account_id", "string"); ("status", "string")]) [("account_id", VString "A-1")] <> Err assertion_panic.
Proof. apply contract_arguments_never_panic. vm_compute. reflexivity. Defined.
End ChaosPolicy.
