(* ===== verification/Dispatch.v ===== *)
(** * Tool calls (internal/dispatch/dispatch.go, internal/crashpoint)

    [Invoke] runs one tool call of a run in one transaction: it proves the
    caller's fence, answers a repeated call from [tool_results], validates the
    arguments, asks the authorization policy and the chaos rules, runs the
    behavior's handler, and records the events, the result and the transcript
    entry.  The body is split along the code's own stages. *)

From S2P Require Export Authz Chaos Logs.
Open Scope Z_scope.
Open Scope tx_scope.

(** ** Crash points *)

Definition BeforeModelRequest := "before-model-request".
Definition AfterModelRequest := "after-model-request".
Definition AfterModelResponse := "after-model-response".
Definition BeforeToolCommit := "before-tool-commit".
Definition AfterToolCommit := "after-tool-commit".
Definition BeforeCompletion := "before-completion".
Definition AfterCompletion := "after-completion".
Definition points : list string :=
  [BeforeModelRequest; AfterModelRequest; AfterModelResponse; BeforeToolCommit; AfterToolCommit; BeforeCompletion; AfterCompletion].

(** [ParsePoint] *)
Definition ParsePoint (s : string) : res err string :=
  if contains points s then Ok s
  else Err (ErrText ("unknown crash point " +:+ quote s +:+ "; valid points: " +:+ join_with ", " points)).

(** [crashpoint.Site] and [Hook]; a nil hook is [None], and an error of the
    hook is [Some]. *)
Record Site := MkSite { si_point : string; si_run_id : string; si_step : Z; si_call_id : string; si_operation_id : string }.
Definition Hook : Type := option (Site -> option string).
(** [Fire] *)
Definition Fire (h : Hook) (site : Site) : option err :=
  match h with
  | None => None
  | Some f => match f site with Some _ => Some (ErrCrashed (si_point site)) | None => None end
  end.

(** ** Argument validation *)

Definition error_body (message : string) : goval := VMap [("error", VString message)].

(** The [switch typ] of [validate]. *)
Definition valid_value (typ : string) (v : goval) : bool :=
  if str_eqb typ "string" then match v with VString s => negb (str_eqb s "") | _ => false end
  else if str_eqb typ "integer" then match v with VInt _ | VNumber _ => true | VFloat f => float_is_int f | _ => false end
  else true.

(** One round of the loop over the argument names. *)
Definition argument_problem (op : Operation) (args : list (string * goval)) (name : string) : option string :=
  match alookup (op_properties op) name with
  | None => Some ("unexpected " +:+ name)
  | Some typ => if valid_value typ (arg args name) then None else Some ("invalid " +:+ name)
  end.

(** [validate]: status 0 when the arguments fit the operation's schema. *)
Definition validate (op : Operation) (args : list (string * goval)) : Z * goval :=
  match List.find (fun name => negb (contains (map fst args) name)) (op_required op) with
  | Some name => (400, error_body ("missing " +:+ name))
  | None =>
      match head (omap (argument_problem op args) (sort_strings (map fst args))) with
      | Some problem => (400, error_body problem)
      | None => (0, VNil)
      end
  end.

(** ** The dispatcher *)

(** [dispatch.Result] *)
Record Result := MkResult { result_status : Z; result_body : string }.

(** [dispatch.Dispatcher]; the store is the database the calls run on. *)
Record Dispatcher := MkDispatcher {
  dp_manifest : Manifest; dp_registry : option Registry; dp_fence : option Fence; dp_clock : Clock; dp_crash : Hook }.

(** [status >= 200 && status < 300] *)
Definition success (status : Z) : bool := (200 <=? status) && (status <? 300).

Section Invoke.
Context `{!SqlBind} (d : Dispatcher).

(** [d.Registry], or the built-in one when nil. *)
Definition registry_of : res err Registry := match dp_registry d with Some r => Ok r | None => Builtin end.
Definition lookup_handler (behavior : string) (missing : err) : DbTx Handler :=
let* registry := tlift registry_of in
tsome (Registry.Lookup registry behavior) missing.

(** The fence check of [Invoke]. *)
Definition guard_call : DbTx unit :=
match dp_fence d with
| Some f => let* now := treads (Clock_Now (dp_clock d)) in GuardFenceTx f now
| None => tret tt
end.

(** *** Authorization *)

(** [None] lets the call through; [Some] is the answer it gets instead. *)
Definition authorize (runID callID worldID operationID : string) (op : Operation) (args : list (string * goval)) : DbTx (option (Z * goval)) :=
let* auth := Decide runID worldID op args in
if d_invalid auth then tret (Some (400, error_body "invalid arguments"))
else if d_enforced auth then
let audit := [("call_id", VString callID); ("operation_id", VString operationID); ("principal_id", VString (d_principal auth));
      ("permission", VString (d_permission auth)); ("call_index", VInt (d_call auth))] in
if d_allowed auth then
AppendEventTx runID "authorization.allowed" (VMap audit) ;;;
tret None
else
AppendEventTx runID "authorization.denied" (VMap (audit ++ [("reason", VString (d_reason auth))])) ;;;
tret (Some (403, VMap [("error", VString "authorization denied"); ("reason", VString (d_reason auth))]))
else tret None.

(** *** Chaos *)

(** [invokeActor] *)
Definition invokeActor (worldID runID : string) (decision : Chaos.Decision) (rule : Chaos.Rule) : DbTx unit :=
let* actor := tsome (Chaos.r_actor rule) (ErrText ("chaos rule " +:+ Chaos.RuleID decision +:+ " has no actor")) in
let unavailable := ErrText ("chaos actor operation " +:+ quote (Chaos.ac_operation actor) +:+ " is unavailable") in
let* op := tsome (find_operation (dp_manifest d) (Chaos.ac_operation actor)) unavailable in
tassert (str_eqb (op_method op) "POST") unavailable ;;;
let* handler := lookup_handler (op_behavior op) (ErrText ("chaos actor behavior " +:+ quote (op_behavior op) +:+ " is unavailable")) in
let actorCallID := Chaos.RuleID decision +:+ "-" +:+ itoa (Chaos.MatchNumber decision) in
let* '(status, _, mutation) := handler worldID (runID +:+ "-chaos-actor") actorCallID (op_behavior op) (Chaos.ac_arguments actor) in
match mutation with
| Some m =>
tassert (success status) (ErrText ("chaos actor " +:+ Chaos.ac_operation actor +:+ " did not mutate successfully: HTTP " +:+ itoa status)) ;;;
AppendEventTx runID "chaos.actor_mutation"
(VMap [("rule_id", VString (Chaos.RuleID decision)); ("operation_id", VString (Chaos.ac_operation actor));
   ("status", VInt status); ("mutation", m)])
| None => tfail (ErrText ("chaos actor " +:+ Chaos.ac_operation actor +:+ " did not mutate successfully: HTTP " +:+ itoa status))
end.

(** What a selected rule does: the answer it gives instead of the handler, its
fields of the event payload, and whether it acts after the handler
([postEffect]) or through its actor ([actorPending]). *)
Record Effect := MkEffect { ef_answer : option (Z * goval); ef_fields : list (string * goval); ef_post : bool; ef_actor : bool }.
Definition answering (status : Z) (message : string) : Effect :=
MkEffect (Some (status, error_body message)) [("status", VInt status)] false false.

(** The [switch decision.Rule.Type] of [Invoke]. *)
Definition rule_effect (runID operationID arguments : string) (decision : Chaos.Decision) (rule : Chaos.Rule) : DbTx Effect :=
let typ := Chaos.r_type rule in
if str_eqb typ "http_error" then tret (answering (Chaos.r_status rule) "simulated HTTP failure")
else if str_eqb typ "timeout" then tret (MkEffect (Some (0, error_body "simulated transport timeout")) [] false false)
else if str_eqb typ "rate_limit" then tret (answering 429 "simulated rate limit")
else if str_eqb typ "permission_revocation" then tret (answering 403 "simulated permission revocation")
else if str_eqb typ "partial_service_outage" then tret (answering 503 "simulated service outage")
else if str_eqb typ "latency" then tret (MkEffect None [("duration_ms", VInt (Chaos.r_duration_ms rule))] false false)
else if str_eqb typ "stale_read" then
let* '(status, body) := Chaos.LoadSnapshot runID (Chaos.RuleID decision) operationID arguments in
tret (MkEffect (Some (status, VRaw body)) [] false false)
else if str_eqb typ "timeout_after_commit" || str_eqb typ "malformed_response" then tret (MkEffect None [] true false)
else if str_eqb typ "concurrent_mutation" then tret (MkEffect None [] false true)
else tfail (ErrText ("chaos effect " +:+ typ +:+ " is not implemented")).

(** The chaos stage: what it decided, the answer it forces, and the payload of
the event still to be written when its effect comes after the handler. *)
Record Injected := MkInjected { in_decision : Chaos.Decision; in_answer : option (Z * goval); in_post : option (Chaos.Rule * goval) }.
Definition no_decision : Chaos.Decision := Chaos.MkDecision "" None 0 [].

Definition inject (runID callID worldID operationID arguments : string) : DbTx Injected :=
let* decision := Chaos.Decide runID operationID arguments in
match Chaos.TheRule decision with
| Some rule =>
if str_eqb (Chaos.RuleID decision) "" then tret (MkInjected decision None None)
else
let* effect := rule_effect runID operationID arguments decision rule in
let payload := VMap ([("rule_id", VString (Chaos.RuleID decision)); ("type", VString (Chaos.r_type rule)); ("call_id", VString callID);
                  ("operation_id", VString operationID); ("matching_call", VInt (Chaos.MatchNumber decision))]
                 ++ ef_fields effect) in
(if ef_post effect then tret tt else AppendEventTx runID "chaos.injected" payload) ;;;
(if ef_actor effect then invokeActor worldID runID decision rule else tret tt) ;;;
tret (MkInjected decision (ef_answer effect) (if ef_post effect then Some (rule, payload) else None))
| None => tret (MkInjected decision None None)
end.

(** *** The handler *)

(** [status], [response], [mutation] and [handlerRan]. *)
Record Outcome := MkOutcomeOf { oc_status : Z; oc_response : goval; oc_mutation : option goval; oc_ran : bool }.
Definition answered (a : Z * goval) : Outcome := MkOutcomeOf a.1 a.2 None false.

Definition retry_recorded (runID : string) (s : DB) : bool := existsb (fun e => str_eqb (e_type e) "retry") (Events runID s).

Definition run_handler (runID callID : string) (run : RunRow) (op : Operation) (operationID : string) (args : list (string * goval))
: DbTx Outcome :=
let faulty := str_eqb (run_fault_operation run) operationID in
if faulty && (run_fault_consumed run =? 0) then
update_run runID with_fault_consumed ;;;
AppendEventTx runID "error" (VMap [("call_id", VString callID); ("kind", VString "injected_503")]) ;;;
tret (answered (503, error_body "injected temporary unavailability"))
else
(if faulty && (run_fault_consumed run =? 1) then
 let* seen := treads (retry_recorded runID) in
 if (seen : bool) then tret tt
 else AppendEventTx runID "retry" (VMap [("call_id", VString callID); ("operation_id", VString operationID)])
 else tret tt) ;;;
let* handler := lookup_handler (op_behavior op) (ErrText ("unsupported behavior " +:+ quote (op_behavior op))) in
let* '(status, response, mutation) := handler (run_world_id run) runID callID (op_behavior op) args in
tret (MkOutcomeOf status response mutation true).

(** Successful reads are kept for the stale-read rules that match. *)
Definition capture (runID operationID arguments : string) (op : Operation) (decision : Chaos.Decision) (oc : Outcome) : DbTx unit :=
if oc_ran oc && success (oc_status oc) && str_eqb (op_method op) "GET" then
let* actual := tsome (marshal (oc_response oc)) json_error in
tfor (Chaos.CaptureRules decision) (fun ruleID => Chaos.SaveSnapshot runID ruleID operationID arguments (oc_status oc) actual)
else tret tt.

(** The effects that hide the handler's outcome. *)
Definition refund_injection (st : RuleStateRow) : RuleStateRow := MkRuleState (matching_calls st) (injections st - 1).
Definition settle (runID callID : string) (inj : Injected) (oc : Outcome) : DbTx (Z * goval) :=
match in_post inj with
| None => tret (oc_status oc, oc_response oc)
| Some (rule, payload) =>
let ruleID := Chaos.RuleID (in_decision inj) in
let after_commit := str_eqb (Chaos.r_type rule) "timeout_after_commit" in
tassert (oc_ran oc) (ErrText ("chaos rule " +:+ ruleID +:+ " handler did not run")) ;;;
if after_commit && negb (success (oc_status oc) && bool_decide (is_Some (oc_mutation oc))) then
sql_update set_chaos_rule_state (runID, ruleID) refund_injection ;;;
tret (oc_status oc, oc_response oc)
else
let* actual := tsome (marshal (oc_response oc)) json_error in
sql_insert "chaos_hidden_outcomes" chaos_hidden_outcomes set_chaos_hidden_outcomes (runID, callID)
(MkHidden ruleID (oc_status oc) actual) ;;;
AppendEventTx runID "chaos.injected" payload ;;;
tret (if after_commit then (0, error_body "simulated transport timeout") else (oc_status oc, VString (Chaos.r_body rule)))
end.

(** *** Recording *)

(** [[]map[string]any] decoded from a transcript. *)
Definition decode_message (v : goval) : option goval :=
match v with VNil => Some VNil | VMap _ => to_floats v | _ => None end.
Definition decode_transcript (text : string) : option (list goval) :=
match unmarshal_number text with Some v => decode_list decode_message v | None => None end.
Definition tool_message (callID operationID content : string) (status : Z) : goval :=
VMap ([("role", VString "tool"); ("call_id", VString callID); ("operation_id", VString operationID); ("content", VString content)]
++ if status =? 0 then [] else [("status", VInt status)]).

Definition record_result (runID callID operationID arguments transcript : string) (mutation : option goval) (answer : Z * goval)
: DbTx Result :=
let '(status, response) := answer in
let* encoded := tsome (marshal response) json_error in
match mutation with Some m => AppendEventTx runID "state.mutation" m | None => tret tt end ;;;
AppendEventTx runID "tool.response"
(VMap [("call_id", VString callID); ("operation_id", VString operationID); ("status", VInt status); ("body", response)]) ;;;
sql_insert "tool_results" tool_results set_tool_results (runID, callID) (MkToolResult operationID arguments status encoded) ;;;
let* messages := tsome (decode_transcript transcript) (ErrText "json: transcript") in
let* next := tsome (marshal (VSlice (messages ++ [tool_message callID operationID encoded status]))) json_error in
update_run runID (with_transcript next) ;;;
tret (MkResult status encoded).

(** *** The transaction *)

(** How the transaction ends: a saved result is returned without a commit. *)
Inductive Ending := Replayed (r : Result) | Committed (r : Result).
Definition ending_result (e : Ending) : Result := match e with Replayed r | Committed r => r end.

Definition dispatch (runID callID operationID : string) (op : Operation) (args : list (string * goval)) (arguments : string)
(run : RunRow) : DbTx Result :=
AppendEventTx runID "tool.request"
(VMap [("call_id", VString callID); ("operation_id", VString operationID); ("arguments", VMap args)]) ;;;
let '(status, problem) := validate op args in
let* refused := if status =? 0 then authorize runID callID (run_world_id run) operationID op args else tret (Some (status, problem)) in
let* inj := match refused with
  | None => inject runID callID (run_world_id run) operationID arguments
  | Some answer => tret (MkInjected no_decision (Some answer) None)
  end in
let* oc := match in_answer inj with
 | None => run_handler runID callID run op operationID args
 | Some answer => tret (answered answer)
 end in
capture runID operationID arguments op (in_decision inj) oc ;;;
let* answer := settle runID callID inj oc in
record_result runID callID operationID arguments (run_transcript run) (oc_mutation oc) answer.

Definition site (point runID callID operationID : string) : Site := MkSite point runID 0 callID operationID.

Definition invokeTx (runID callID operationID : string) (args : list (string * goval)) : DbTx Ending :=
guard_call ;;;
let* arguments := tsome (marshal (VMap args)) json_error in
let* saved := sql_get tool_results (runID, callID) in
match saved with
| Some row =>
tassert (str_eqb (tr_operation_id row) operationID && str_eqb (tr_arguments row) arguments)
(ErrText ("call ID " +:+ callID +:+ " reused with different request")) ;;;
tret (Replayed (MkResult (tr_status row) (tr_body row)))
| None =>
let* op := tsome (find_operation (dp_manifest d) operationID) (ErrText ("operation " +:+ operationID +:+ " is not compiled")) in
let* run := sql_get_row runs runID in
let* result := dispatch runID callID operationID op args arguments run in
match Fire (dp_crash d) (site BeforeToolCommit runID callID operationID) with
| Some e => tfail e
| None => tret (Committed result)
end
end.

(** [Dispatcher.Invoke]: the deferred rollback undoes everything unless the
transaction committed. *)
Definition Invoke (runID callID operationID : string) (args : list (string * goval)) : DbIO Result := fun s =>
match invokeTx runID callID operationID args s with
| Err e => (Err e, s)
| Ok (Replayed result, _) => (Ok result, s)
| Ok (Committed result, s') =>
match Fire (dp_crash d) (site AfterToolCommit runID callID operationID) with
| Some e => (Err e, s')
| None => (Ok result, s')
end
end.
End Invoke.

(** ** What a call may touch *)

(** Every handler of the registry keeps the service contract and the world's
    integrity; the built-in registry does. *)
Definition sound_registry (r : Registry) : Prop :=
  forall key h, Registry.Lookup r key = Some h ->
    Service h /\ forall w run call b args, respects (keeps world_integrity) (h w run call b args).
Definition sound_dispatcher `{!SqlBind} (d : Dispatcher) : Prop := forall r, registry_of d = Ok r -> sound_registry r.

Lemma builtin_sound `{!SqlBind} d : dp_registry d = None -> sound_dispatcher d.
Proof. intros Hn r. unfold registry_of. rewrite Hn. intros Hb key h Hk. by eapply Builtin_handlers. Qed.

(** The tables no stage writes. *)
Definition untouched (s : DB) :=
  ((wall s, worlds s, customers s, invoices s, subscriptions s, crm_contacts s, ticket_projects s),
   (message_workspaces s, message_channels s, message_members s),
   (run_chaos s, run_auth s, run_leases s, work_queue s, workers s, run_ownership_log s),
   (checkpoints s, fork_lineage s, fork_observations s)).

(** A run's row keeps everything but its transcript and consumed fault. *)
Definition row_identity (r : RunRow) :=
  (run_world_id r, run_scenario r, run_provider r, run_model r, run_task r, run_status r, run_step r, run_fault_operation r, run_principal_id r).

(** What call [call] of run [run] of world [w] may change: its own run's row,
    log, counters and call records, and the service tables of its world. *)
Record call_frame (run call w : string) (s s' : DB) : Prop := {
  frame_untouched : same untouched s s';
  frame_logs : logs_grow s s';
  frame_runs : forall r, r <> run -> runs s' !! r = runs s !! r /\ log_rows r (events s') = log_rows r (events s) /\
                        auth_state s' !! r = auth_state s !! r;
  frame_row : row_identity <$> runs s' !! run = row_identity <$> runs s !! run;
  frame_worlds : forall w', w' <> w -> same_world w' s s';
  frame_calls : forall k, k <> (run, call) -> tool_results s' !! k = tool_results s !! k /\
                        chaos_hidden_outcomes s' !! k = chaos_hidden_outcomes s !! k;
  frame_counters : forall r id, r <> run -> chaos_rule_state s' !! (r, id) = chaos_rule_state s !! (r, id);
  frame_snapshots : forall r id x, r <> run -> chaos_snapshots s' !! (r, id, x) = chaos_snapshots s !! (r, id, x) }.

#[export] Instance call_frame_preorder run call w : PreOrder (call_frame run call w).
Proof.
  split.
  - intros s. by split.
  - intros s1 s2 s3 [A1 B1 C1 D1 E1 F1 G1 H1] [A2 B2 C2 D2 E2 F2 G2 H2]. split.
    + by etransitivity.
    + by etransitivity.
    + intros r Hr. destruct (C1 r Hr) as (? & ? & ?), (C2 r Hr) as (? & ? & ?). split_and!; congruence.
    + congruence.
    + intros w' Hw. etransitivity; [by apply E1|by apply E2].
    + intros k Hk. destruct (F1 k Hk), (F2 k Hk). split; congruence.
    + intros r id Hr. by rewrite (G2 _ _ Hr), (G1 _ _ Hr).
    + intros r id x Hr. by rewrite (H2 _ _ _ Hr), (H1 _ _ _ Hr).
Qed.

(** A statement on one table: the other fields of the frame hold by
    computation. *)
Ltac frame_statement :=
  split; try done;
  [ try (split; done)
  | let r := fresh "r" in intros r ?; split_and!; try done
  | | | | | ]; try done; try (intros; done).

Section Frames.
Context (run call w : string).

Lemma append_frame typ payload : respects (call_frame run call w) (AppendEventTx run typ payload).
Proof.
apply append_respects. intros s row. split; try done.
- split; [apply append_grows|done].
- intros r Hr. split_and!; [done| |done]. by apply log_rows_append_ne.
Qed.
Lemma update_run_frame f : (forall r, row_identity (f r) = row_identity r) -> respects (call_frame run call w) (update_run run f).
Proof.
intros Hf. apply update_respects. intros s. split; try done.
- intros r Hr. split_and!; [|done..]. cbn. by rewrite lookup_alter_ne.
- cbn. rewrite lookup_alter_eq. destruct (runs s !! run); cbn; [|done]. by rewrite Hf.
Qed.
Lemma service_frame s s' : service_step w s s' -> call_frame run call w s s'.
Proof.
intros [Ho Hw]. unfold same, outside_services in Ho. injection Ho; clear Ho; intros.
split; unfold same, untouched; try apply same_logs_grow; unfold same, logs;
try (by repeat match goal with H : _ s' = _ |- _ => rewrite H; clear H end); try done; intros; split_and!;
by repeat match goal with H : _ s' = _ |- _ => rewrite H; clear H end.
Qed.
Lemma counter_frame f : (forall m r id, r <> run -> f m !! (r, id) = m !! (r, id)) ->
forall s, call_frame run call w s (set_chaos_rule_state f s).
Proof. intros Hf s. split; try done. intros r id Hr. by apply Hf. Qed.
Lemma decide_rule_frame op arguments selected r : respects (call_frame run call w) (Chaos.decide_rule run op arguments selected r).
Proof.
unfold Chaos.decide_rule. respects_tac; try apply respects_modify; intros; apply counter_frame; intros m r' id Hr.
- rewrite lookup_insert_ne; [done|]. congruence.
- rewrite lookup_alter_ne; [done|]. congruence.
Qed.
Lemma chaos_decide_frame op arguments : respects (call_frame run call w) (Chaos.Decide run op arguments).
Proof.
unfold Chaos.Decide. respects_tac; [apply Chaos.chaos_load_respects, _|]. intros. apply decide_rule_frame.
Qed.
Lemma snapshot_frame rule op arguments st body : respects (call_frame run call w) (Chaos.SaveSnapshot run rule op arguments st body).
Proof.
unfold Chaos.SaveSnapshot. respects_tac. intros s [] s' ->%sql_insert_or_ignore_ok. case_match; [done|].
split; try done. intros r id x Hr. cbn. rewrite lookup_insert_ne; [done|]. congruence.
Qed.
Lemma hidden_frame row : respects (call_frame run call w)
(sql_insert "chaos_hidden_outcomes" chaos_hidden_outcomes set_chaos_hidden_outcomes (run, call) row).
Proof.
intros s [] s' [_ ->]%sql_insert_ok. split; try done. intros k Hk. split; [done|]. cbn. by rewrite lookup_insert_ne.
Qed.
Lemma result_frame row : respects (call_frame run call w) (sql_insert "tool_results" tool_results set_tool_results (run, call) row).
Proof.
intros s [] s' [_ ->]%sql_insert_ok. split; try done. intros k Hk. split; [|done]. cbn. by rewrite lookup_insert_ne.
Qed.
Lemma consumed_frame s : call_frame run call w s (with_call_consumed run s).
Proof. split; try done. intros r Hr. split_and!; [done..|]. cbn. by rewrite lookup_insert_ne. Qed.
Lemma refund_frame rule : respects (call_frame run call w) (sql_update set_chaos_rule_state (run, rule) refund_injection).
Proof. apply respects_modify. intros s. apply counter_frame. intros m r id Hr. rewrite lookup_alter_ne; [done|]. congruence. Qed.
End Frames.

(** A property of state changes that the statements of a call have; it then
    holds of every stage. *)
Record call_relation (run : string) (R : DB -> DB -> Prop) : Prop := {
  rel_append typ payload : respects R (AppendEventTx run typ payload);
  rel_run f : (forall r, row_identity (f r) = row_identity r) -> respects R (update_run run f);
  rel_rule op arguments selected r : respects R (Chaos.decide_rule run op arguments selected r);
  rel_refund rule : respects R (sql_update set_chaos_rule_state (run, rule) refund_injection);
  rel_snapshot rule op arguments st body : respects R (Chaos.SaveSnapshot run rule op arguments st body);
  rel_consumed s : R s (with_call_consumed run s) }.
(** The same of the rows a call adds. *)
Record rows_relation (run call : string) (R : DB -> DB -> Prop) : Prop := {
  rel_hidden row : respects R (sql_insert "chaos_hidden_outcomes" chaos_hidden_outcomes set_chaos_hidden_outcomes (run, call) row);
  rel_result row : respects R (sql_insert "tool_results" tool_results set_tool_results (run, call) row) }.
(** The same of the handlers, called for world [w]. *)
Definition handler_relation (w : string) (R : DB -> DB -> Prop) : Prop :=
  forall h : Handler, Service h -> (forall w run call b args, respects (keeps world_integrity) (h w run call b args)) ->
    forall run' call' b args, respects R (h w run' call' b args).

Lemma frame_relation run call w : call_relation run (call_frame run call w).
Proof.
  split.
  - apply append_frame.
  - apply update_run_frame.
  - apply decide_rule_frame.
  - apply refund_frame.
  - apply snapshot_frame.
  - apply consumed_frame.
Qed.
Lemma frame_rows run call w : rows_relation run call (call_frame run call w).
Proof. split; [apply hidden_frame|apply result_frame]. Qed.
Lemma frame_handlers run call w : handler_relation w (call_frame run call w).
Proof. intros h Hs _ run' call' b args s x s' Hr. eapply service_frame, (service_writes (h := h)), Hr. Qed.

Section Stages.
Context `{!SqlBind} (d : Dispatcher) (Hd : sound_dispatcher d).
Context (run call w : string) (R : DB -> DB -> Prop) `{!PreOrder R} (HR : call_relation run R).

Lemma lookup_respects {A} behavior e (k : Handler -> DbTx A) :
(forall h, Service h -> (forall w run call b args, respects (keeps world_integrity) (h w run call b args)) -> respects R (k h)) ->
respects R (let* h := lookup_handler d behavior e in k h).
Proof.
intros Hk s a s' (h & s1 & Hl & Hr)%tbind_ok. unfold lookup_handler in Hl.
apply tbind_ok in Hl as (r & s2 & H1 & H2). apply tlift_ok in H1 as [Hreg ->]. apply tsome_ok in H2 as [Hl ->].
destruct (Hd _ Hreg _ _ Hl) as [Hs Hi]. by eapply Hk.
Qed.

Lemma authorize_respects operationID op args : respects R (authorize run call w operationID op args).
Proof.
unfold authorize. apply respects_bind; [apply _| |intros; respects_tac; apply HR].
unfold Decide. respects_tac; [apply auth_load_respects, _|apply respects_modify, HR|].
intros s dec s' Hs. apply Screen_ok in Hs as [-> _]. reflexivity.
Qed.

Lemma chaos_decide_respects operationID arguments : respects R (Chaos.Decide run operationID arguments).
Proof. unfold Chaos.Decide. respects_tac; [apply Chaos.chaos_load_respects, _|]. intros. apply HR. Qed.

Lemma capture_respects operationID arguments op decision oc : respects R (capture run operationID arguments op decision oc).
Proof. unfold capture. respects_tac. intros. apply HR. Qed.

Context (HH : handler_relation w R).

Lemma actor_respects decision rule : respects R (invokeActor d w run decision rule).
Proof.
unfold invokeActor. do 3 (apply respects_bind; [apply _|respects_tac|intros]).
apply lookup_respects. intros h Hs Hi. respects_tac. apply HR.
Qed.

Lemma inject_respects operationID arguments : respects R (inject d run call w operationID arguments).
Proof.
unfold inject. apply respects_bind; [apply _|apply chaos_decide_respects|]. intros decision.
respects_tac; try apply HR; try apply actor_respects. unfold rule_effect, Chaos.LoadSnapshot. respects_tac.
Qed.

Lemma run_handler_respects row op operationID args :
run_world_id row = w -> respects R (run_handler d run call row op operationID args).
Proof.
intros <-. unfold run_handler. cbv zeta. case_match; [respects_tac; by apply HR|].
apply respects_bind; [apply _|respects_tac; apply HR|intros _].
apply lookup_respects. intros h Hs Hi. respects_tac.
Qed.

Context (HC : rows_relation run call R).

Lemma settle_respects inj oc : respects R (settle run call inj oc).
Proof. unfold settle. respects_tac; first [apply HR | apply HC]. Qed.

Lemma record_respects operationID arguments transcript mutation answer :
respects R (record_result run call operationID arguments transcript mutation answer).
Proof. unfold record_result. respects_tac; first [apply HC | apply HR; done]. Qed.

Lemma dispatch_respects operationID op args arguments row :
run_world_id row = w -> respects R (dispatch d run call operationID op args arguments row).
Proof.
intros Hw. unfold dispatch. rewrite Hw. apply respects_bind; [apply _|apply HR|intros _]. destruct (validate op args) as [st problem].
apply respects_bind; [apply _| |intros refused].
{ destruct (st =? 0); [apply authorize_respects|respects_tac]. }
apply respects_bind; [apply _| |intros inj].
{ destruct refused; [respects_tac|apply inject_respects]. }
apply respects_bind; [apply _| |intros oc].
{ destruct (in_answer inj); [respects_tac|by apply run_handler_respects]. }
apply respects_bind; [apply _|apply capture_respects|intros _].
apply respects_bind; [apply _|apply settle_respects|intros answer]. apply record_respects.
Qed.
End Stages.

(** World integrity is one such property. *)
Lemma integrity_relation run : call_relation run (keeps world_integrity).
Proof.
  assert (forall s s', charges s' = charges s -> refunds s' = refunds s -> crm_accounts s' = crm_accounts s ->
    ticket_issues s' = ticket_issues s -> keeps world_integrity s s') as Hsame.
  { intros s s' H1 H2 H3 H4 (Hb & Ha & Hi). split_and!; [by eapply books_same|by eapply accounts_same|by eapply issues_same]. }
  split; try (intros; first [apply append_respects | apply update_respects | apply respects_modify]; intros; by apply Hsame).
  - intros op arguments selected r. unfold Chaos.decide_rule. respects_tac; apply respects_modify; intros; by apply Hsame.
  - intros rule op arguments st body. unfold Chaos.SaveSnapshot. respects_tac. intros s [] s' ->%sql_insert_or_ignore_ok.
    case_match; [done|by apply Hsame].
  - intros s. by apply Hsame.
Qed.
Lemma integrity_rows run call : rows_relation run call (keeps world_integrity).
Proof. split; intros row s [] s' [_ ->]%sql_insert_ok Hi; exact Hi. Qed.
Lemma integrity_handlers w : handler_relation w (keeps world_integrity).
Proof. intros h _ Hi run' call' b args. apply Hi. Qed.

(** ** What a committed call leaves *)

Lemma guard_call_leases `{!SqlBind} d s u s' : guard_call d s = Ok (u, s') -> exists f, s' = set_run_leases f s.
Proof.
  unfold guard_call. destruct (dp_fence d) as [f|]; [|intros [= _ <-]; exists id; by destruct s].
  intros (now & s1 & H1 & H2)%tbind_ok. injection H1 as <- <-. unfold GuardFenceTx in H2. sql_cases; [|by eauto].
  exists id. match goal with |- ?x = _ => by destruct x end.
Qed.

(** The rows of a finished call. *)
Definition saved (s : DB) (run call operationID : string) (args : list (string * goval)) (res : Result) : Prop :=
  exists arguments, marshal (VMap args) = Some arguments /\
    tool_results s !! (run, call) = Some (MkToolResult operationID arguments (result_status res) (result_body res)).

Lemma record_ok run call operationID arguments transcript mutation answer s res s' :
  record_result run call operationID arguments transcript mutation answer s = Ok (res, s') ->
  tool_results s' !! (run, call) = Some (MkToolResult operationID arguments (result_status res) (result_body res)) /\
  result_status res = answer.1 /\ marshal answer.2 = Some (result_body res) /\
  (exists messages next, decode_transcript transcript = Some messages /\
     marshal (VSlice (messages ++ [tool_message call operationID (result_body res) (result_status res)])) = Some next /\
     runs s' !! run = with_transcript next <$> runs s !! run) /\
  (exists mid e, Events run s' = Events run s ++ mid ++ [e] /\ e_type e = "tool.response" /\
     map e_type mid = match mutation with Some _ => ["state.mutation"] | None => [] end).
Proof.
  unfold record_result. destruct answer as [st response]. intros Hr.
  apply tbind_ok in Hr as (encoded & s1 & H1 & Hr). apply tsome_ok in H1 as [Hm ->].
  apply tbind_ok in Hr as ([] & s2 & H2 & Hr).
  apply tbind_ok in Hr as ([] & s3 & (row & Hrow & ->)%AppendEventTx_ok & Hr).
  apply tbind_ok in Hr as ([] & s4 & [_ ->]%sql_insert_ok & Hr).
  apply tbind_ok in Hr as (messages & s5 & H5 & Hr). apply tsome_ok in H5 as [Hdec ->].
  apply tbind_ok in Hr as (next & s6 & H6 & Hr). apply tsome_ok in H6 as [Hnext ->].
  apply tbind_ok in Hr as ([] & s7 & ->%sql_update_ok & Hr). injection Hr as <- <-. cbn [result_status result_body fst snd].
  assert (runs s2 !! run = runs s !! run /\ exists mid, Events run s2 = Events run s ++ mid /\
    map e_type mid = match mutation with Some _ => ["state.mutation"] | None => [] end) as (Hruns & mid & Hmid & Htypes).
  { destruct mutation as [m|]; [|injection H2 as <-; split; [done|exists []; by rewrite app_nil_r]].
    apply AppendEventTx_ok in H2 as (row2 & Hrow2 & ->). split; [done|]. rewrite Events_append. eexists. split; [done|]. cbn.
    by destruct (event_row_fields _ _ _ _ _ Hrow2) as [-> _]. }
  split_and!; [by apply lookup_insert_eq|done|done| |].
  - exists messages, next. split_and!; [done..|]. cbn. by rewrite lookup_alter_eq, Hruns.
  - exists mid. eexists. split; [|split; [|done]].
    + etransitivity; [exact (Events_append s2 run row)|]. by rewrite Hmid, <- app_assoc.
    + cbn. by destruct (event_row_fields _ _ _ _ _ Hrow) as [-> _].
Qed.

(** The stages of a dispatched call, with the states between them. *)
Lemma dispatch_ok `{!SqlBind} d run call operationID op args arguments row s res s' :
  dispatch d run call operationID op args arguments row s = Ok (res, s') ->
  exists s1 refused s2 inj s3 oc s4 s5 answer s6,
    AppendEventTx run "tool.request"
      (VMap [("call_id", VString call); ("operation_id", VString operationID); ("arguments", VMap args)]) s = Ok (tt, s1) /\
    (if (validate op args).1 =? 0 then authorize run call (run_world_id row) operationID op args
     else tret (Some (validate op args))) s1 = Ok (refused, s2) /\
    match refused with
    | None => inject d run call (run_world_id row) operationID arguments
    | Some a => tret (MkInjected no_decision (Some a) None)
    end s2 = Ok (inj, s3) /\
    match in_answer inj with
    | None => run_handler d run call row op operationID args
    | Some a => tret (answered a)
    end s3 = Ok (oc, s4) /\
    capture run operationID arguments op (in_decision inj) oc s4 = Ok (tt, s5) /\
    settle run call inj oc s5 = Ok (answer, s6) /\
    record_result run call operationID arguments (run_transcript row) (oc_mutation oc) answer s6 = Ok (res, s').
Proof.
  unfold dispatch. intros Hr. apply tbind_ok in Hr as ([] & s1 & H1 & Hr). destruct (validate op args) as [st problem].
  apply tbind_ok in Hr as (refused & s2 & H2 & Hr). apply tbind_ok in Hr as (inj & s3 & H3 & Hr).
  apply tbind_ok in Hr as (oc & s4 & H4 & Hr). apply tbind_ok in Hr as ([] & s5 & H5 & Hr).
  apply tbind_ok in Hr as (answer & s6 & H6 & Hr). by exists s1, refused, s2, inj, s3, oc, s4, s5, answer, s6.
Qed.

(** The stages between the request and the response move along any such
    relation. *)
Lemma middle_respects `{!SqlBind} d run call operationID op args arguments row (R : DB -> DB -> Prop) `{!PreOrder R}
    s1 refused s2 inj s3 oc s4 s5 answer s6 :
  sound_dispatcher d -> call_relation run R -> handler_relation (run_world_id row) R -> rows_relation run call R ->
  (if (validate op args).1 =? 0 then authorize run call (run_world_id row) operationID op args
   else tret (Some (validate op args))) s1 = Ok (refused, s2) ->
  match refused with
  | None => inject d run call (run_world_id row) operationID arguments
  | Some a => tret (MkInjected no_decision (Some a) None)
  end s2 = Ok (inj, s3) ->
  match in_answer inj with
  | None => run_handler d run call row op operationID args
  | Some a => tret (answered a)
  end s3 = Ok (oc, s4) ->
  capture run operationID arguments op (in_decision inj) oc s4 = Ok (tt, s5) ->
  settle run call inj oc s5 = Ok (answer, s6) ->
  R s1 s6.
Proof.
  intros Hd HR HH HC H2 H3 H4 H5 H6.
  transitivity s2; [|transitivity s3; [|transitivity s4; [|transitivity s5]]].
  - destruct (_ =? 0); [by eapply authorize_respects|injection H2 as _ <-; reflexivity].
  - destruct refused; [injection H3 as _ <-; reflexivity|by eapply inject_respects].
  - destruct (in_answer inj); [injection H4 as _ <-; reflexivity|by eapply run_handler_respects].
  - by eapply capture_respects.
  - by eapply settle_respects.
Qed.

(** How [Invoke] ends. *)
Inductive invoked `{!SqlBind} (d : Dispatcher) (run call operationID : string) (args : list (string * goval)) (s : DB)
    : res err Result -> DB -> Prop :=
| invoked_failed e : invoked d run call operationID args s (Err e) s
| invoked_replayed r : saved s run call operationID args r -> invoked d run call operationID args s (Ok r) s
| invoked_committed arguments op row sg r s' out :
    guard_call d s = Ok (tt, sg) -> marshal (VMap args) = Some arguments -> tool_results s !! (run, call) = None ->
    find_operation (dp_manifest d) operationID = Some op -> runs s !! run = Some row ->
    dispatch d run call operationID op args arguments row sg = Ok (r, s') ->
    out = match Fire (dp_crash d) (site AfterToolCommit run call operationID) with Some e => Err e | None => Ok r end ->
    invoked d run call operationID args s out s'.

Lemma Invoke_ends `{!SqlBind} d run call operationID args s out s' :
  Invoke d run call operationID args s = (out, s') -> invoked d run call operationID args s out s'.
Proof.
  unfold Invoke. destruct (invokeTx _ _ _ _ _ s) as [[ending s1]|e] eqn:Hi; [|intros [= <- <-]; constructor].
  unfold invokeTx in Hi. apply tbind_ok in Hi as ([] & sg & Hg & Hi). apply tbind_ok in Hi as (arguments & s2 & H2 & Hi).
  apply tsome_ok in H2 as [Hm ->]. apply tbind_ok in Hi as (row & s3 & H3 & Hi). apply sql_get_ok in H3 as [Hrow ->].
  destruct (guard_call_leases _ _ _ _ Hg) as [g Hsg].
  assert (tool_results sg = tool_results s) as Htr by (by rewrite Hsg). assert (runs sg = runs s) as Hru by (by rewrite Hsg).
  destruct row as [row|].
  - apply tbind_ok in Hi as ([] & s4 & H4 & Hi). apply tassert_ok in H4 as [Hsame [= ->]]. injection Hi as <- <-.
    intros [= <- <-]. bool_inv. apply invoked_replayed. exists arguments. split; [done|]. rewrite <- Htr, Hrow. subst. by destruct row.
  - apply tbind_ok in Hi as (op & s4 & H4 & Hi). apply tsome_ok in H4 as [Hop ->].
    apply tbind_ok in Hi as (r & s5 & H5 & Hi). apply sql_get_row_ok in H5 as [Hr ->].
    apply tbind_ok in Hi as (result & s6 & H6 & Hi). destruct (Fire _ (site BeforeToolCommit _ _ _)); [done|]. injection Hi as <- <-.
    intros Hout. rewrite Htr in Hrow. rewrite Hru in Hr.
    destruct (Fire (dp_crash d) (site AfterToolCommit run call operationID)) as [e|] eqn:Hf; injection Hout as <- <-;
      (eapply invoked_committed; [done..|]); by rewrite Hf.
Qed.

Lemma dispatch_saves `{!SqlBind} d run call operationID op args arguments row s res s' :
  dispatch d run call operationID op args arguments row s = Ok (res, s') -> marshal (VMap args) = Some arguments ->
  saved s' run call operationID args res.
Proof.
  intros (s1 & refused & s2 & inj & s3 & oc & s4 & s5 & answer & s6 & _ & _ & _ & _ & _ & _ & Hrec)%dispatch_ok Hm.
  exists arguments. split; [done|]. by apply record_ok in Hrec as [? _].
Qed.
