(* ===== verification/Interrupt.v ===== *)
(** * Interrupted provider calls (internal/agent/interrupt.go)

    An attempt at a model turn can fail in a way a second attempt may cure: it
    passed its deadline, was cut short, was rate limited, or met a server or
    transport failure.  Such a failure is a [CallInterrupted]; its recorded
    form is an [Interruption]. *)

From S2P Require Export Dispatch.
Open Scope Z_scope.

(** ** Durations *)

Definition microsecond : duration := 1000.

(** [fmtFrac]: the [prec] low digits of [v] as a fraction without trailing
    zeros, and the rest of [v]. *)
Definition fraction_of (prec : nat) (v : Z) : string :=
  let f := v mod 10 ^ Z.of_nat prec in
  if f =? 0 then "" else "." +:+ trim_zeros prec f "".

(** [Duration.String] *)
Definition duration_text (d : duration) : string :=
  let u := Z.abs d in
  let text :=
    if u <? second then
      if u =? 0 then "0s"
      else if u <? microsecond then itoa u +:+ "ns"
      else if u <? millisecond then itoa (u / microsecond) +:+ fraction_of 3 u +:+ of_bytes [194; 181] +:+ "s"
      else itoa (u / millisecond) +:+ fraction_of 6 u +:+ "ms"
    else
      let secs := u / second in
      let mins := secs / 60 in
      (if 0 <? mins then (if 0 <? mins / 60 then itoa (mins / 60) +:+ "h" else "") +:+ itoa (mins mod 60) +:+ "m" else "")
      +:+ itoa (secs mod 60) +:+ fraction_of 9 u +:+ "s" in
  if d <? 0 then "-" +:+ text else text.

(** ** The constants *)

Definition DefaultCallTimeout : duration := 90 * second.
Definition InterruptTimeout := "timeout".
Definition InterruptTruncated := "truncated".
Definition InterruptRateLimited := "rate_limited".
Definition InterruptServerError := "server_error".
Definition InterruptTransport := "transport".
Definition MaxRetryAfter : duration := 30 * second.
Definition defaultRetryWait : duration := second.

(** ** CallInterrupted *)

(** [agent.CallInterrupted]; [ci_err] is the text of the wrapped error. *)
Record CallInterrupted := MkCallInterrupted {
  ci_kind : string; ci_reason : string; ci_deadline : duration; ci_status : Z; ci_retry_after : duration; ci_err : option string }.

(** [CallInterrupted.Error]; fmt prints a nil error as "<nil>". *)
Definition CallInterrupted_Error (e : CallInterrupted) : string :=
  if str_eqb (ci_kind e) InterruptTimeout then
    "provider call passed its " +:+ duration_text (ci_deadline e) +:+ " deadline: " +:+ default "<nil>" (ci_err e)
  else if str_eqb (ci_kind e) InterruptRateLimited || str_eqb (ci_kind e) InterruptServerError then
    match ci_err e with
    | Some text => text
    | None => "provider answered HTTP " +:+ itoa (ci_status e)
    end
  else if str_eqb (ci_kind e) InterruptTransport then
    match ci_err e with
    | Some text => "provider request failed: " +:+ text
    | None => "provider request failed"
    end
  else if negb (str_eqb (ci_reason e) "") then "provider cut the completion short (" +:+ ci_reason e +:+ ")"
  else "provider cut the completion short".

(** [agent.Interruption] *)
Record Interruption := MkInterruption {
  in_kind : string; in_attempt : Z; in_reason : string; in_deadline_ms : Z; in_status : Z; in_retry_after_ms : Z }.

(** [CallInterrupted.Record]; Go's division truncates. *)
Definition Record_interruption (e : CallInterrupted) (attempt : Z) : Interruption :=
  MkInterruption (ci_kind e) attempt (ci_reason e) (Z.quot (ci_deadline e) millisecond) (ci_status e)
    (Z.quot (Z.min (Z.max (ci_retry_after e) 0) MaxRetryAfter) millisecond).

(** [CallInterrupted.wait] *)
Definition wait (e : CallInterrupted) : duration :=
  if str_eqb (ci_kind e) InterruptRateLimited || str_eqb (ci_kind e) InterruptServerError || str_eqb (ci_kind e) InterruptTransport then
    if 0 <? ci_retry_after e then Z.min (ci_retry_after e) MaxRetryAfter else defaultRetryWait
  else 0.

(** ** Errors of a provider *)

(** What [Provider.Next] can return: an error with its text, and the
    [CallInterrupted] that [errors.As] finds in it. *)
Record ProviderError := MkProviderError { pe_text : string; pe_interrupt : option CallInterrupted }.
Definition plain_error (text : string) : ProviderError := MkProviderError text None.
Definition interrupt_error (e : CallInterrupted) : ProviderError := MkProviderError (CallInterrupted_Error e) (Some e).

(** [ctx.Err()] *)
Inductive ContextErr := Canceled | DeadlineExceeded.
#[export] Instance context_err_eq_dec : EqDecision ContextErr.
Proof. solve_decision. Defined.

(** [callDeadline] *)
Definition callDeadline (configured : duration) : duration := if configured <=? 0 then DefaultCallTimeout else configured.

(** [interrupted]: only the attempt's own deadline is a timeout. *)
Definition interrupted (caller attempt : option ContextErr) (deadline : duration) (err : ProviderError) : ProviderError :=
  if bool_decide (caller = None) && bool_decide (attempt = Some DeadlineExceeded)
  then interrupt_error (MkCallInterrupted InterruptTimeout "" deadline 0 0 (Some (pe_text err))) else err.

(** [requestFailed]; the error of [http.Client.Do] is not itself a
    [CallInterrupted]. *)
Definition requestFailed (caller attempt : option ContextErr) (deadline : duration) (text : string) : ProviderError :=
  let err := interrupted caller attempt deadline (plain_error text) in
  if bool_decide (is_Some (pe_interrupt err)) || bool_decide (is_Some caller) then err
  else interrupt_error (MkCallInterrupted InterruptTransport "" 0 0 0 (Some (pe_text err))).

(** [truncatedCompletion] *)
Definition truncatedCompletion (reason : string) : ProviderError :=
  interrupt_error (MkCallInterrupted InterruptTruncated reason 0 0 0 None).

(** ** Bounds *)

(** A wait is never negative and never longer than [MaxRetryAfter], whatever
    the server asked for; the recorded wait is the same one, in milliseconds. *)
Lemma wait_bounds e : 0 <= wait e <= MaxRetryAfter.
Proof.
  unfold wait, defaultRetryWait. assert (second <= MaxRetryAfter /\ 0 <= second) as [? ?] by (vm_compute; split; discriminate).
  repeat case_match; bool_inv; lia.
Qed.

Lemma recorded_wait_bounds e n :
  0 <= in_retry_after_ms (Record_interruption e n) <= 30000 /\
  (0 < ci_retry_after e -> 0 < wait e -> in_retry_after_ms (Record_interruption e n) = Z.quot (wait e) millisecond).
Proof.
  unfold Record_interruption, wait. cbn [in_retry_after_ms]. change MaxRetryAfter with 30000000000. change millisecond with 1000000.
  split.
  - rewrite Z.quot_div_nonneg by lia. split; [apply Z.div_pos; lia|]. apply Z.lt_succ_r, Z.div_lt_upper_bound; lia.
  - intros Hr. rewrite Z.max_l by lia. apply Z.ltb_lt in Hr as ->. case_match; [done|lia].
Qed.

(** A cancelled caller is never retried, and a live one whose attempt failed
    before any answer always is. *)
Lemma requestFailed_retryable caller attempt deadline text :
  is_Some (pe_interrupt (requestFailed caller attempt deadline text)) <-> caller = None.
Proof.
  unfold requestFailed, interrupted. destruct caller as [c|]; repeat case_bool_decide; cbn in *; naive_solver.
Qed.
