(* ===== verification/Messages.v ===== *)
(** * The conversation of a run (internal/agent/runner.go: ToolCall, Message)

    A run's transcript is the JSON of a list of messages.  The runner reads it
    as [Message]s, decides what is still to be done from them, and writes back
    the list with the next turn added. *)

From S2P Require Export Interrupt JsonTyped.
Open Scope Z_scope.

(** ** Messages *)

(** [agent.ToolCall]; a nil argument map is an empty one. *)
Record ToolCall := MkToolCall { tc_id : string; tc_operation_id : string; tc_arguments : list (string * goval) }.
(** [agent.Usage] *)
Record Usage := MkUsage { us_input_tokens : Z; us_output_tokens : Z; us_total_tokens : Z }.
(** [agent.Message]; a raw output is the text of a JSON value. *)
Record Message := MkMessageOf {
  ms_role : string; ms_content : string; ms_tool_calls : list ToolCall; ms_call_id : string; ms_operation_id : string;
  ms_status : Z; ms_raw_output : list string; ms_raw_body : string; ms_usage : option Usage;
  ms_response_id : string; ms_server_model : string; ms_finish_reason : string; ms_http_status : Z;
  ms_interruptions : list Interruption }.

(** *** JSON forms *)

(** Fields marked "omitempty". *)
Definition int_field (key : string) (z : Z) : list (string * goval) := if z =? 0 then [] else [(key, VInt z)].
Definition list_field {A} (key : string) (f : A -> goval) (l : list A) : list (string * goval) :=
  match l with [] => [] | _ => [(key, VSlice (map f l))] end.

Definition call_value (c : ToolCall) : goval :=
  VStruct [("id", VString (tc_id c)); ("operation_id", VString (tc_operation_id c)); ("arguments", VMap (tc_arguments c))].
Definition usage_value (u : Usage) : goval :=
  VStruct [("input_tokens", VInt (us_input_tokens u)); ("output_tokens", VInt (us_output_tokens u)); ("total_tokens", VInt (us_total_tokens u))].
Definition interruption_value (i : Interruption) : goval :=
  VStruct (concat [ [("kind", VString (in_kind i))]; [("attempt", VInt (in_attempt i))]; text_field "reason" (in_reason i);
                    int_field "deadline_ms" (in_deadline_ms i); int_field "status" (in_status i); int_field "retry_after_ms" (in_retry_after_ms i) ]).
Definition message_fields (m : Message) : list (list (string * goval)) :=
  [ [("role", VString (ms_role m))];
    text_field "content" (ms_content m);
    list_field "tool_calls" call_value (ms_tool_calls m);
    text_field "call_id" (ms_call_id m);
    text_field "operation_id" (ms_operation_id m);
    int_field "status" (ms_status m);
    list_field "raw_output" VRaw (ms_raw_output m);
    text_field "raw_body" (ms_raw_body m);
    match ms_usage m with Some u => [("usage", usage_value u)] | None => [] end;
    text_field "response_id" (ms_response_id m);
    text_field "server_model" (ms_server_model m);
    text_field "finish_reason" (ms_finish_reason m);
    int_field "http_status" (ms_http_status m);
    list_field "interruptions" interruption_value (ms_interruptions m) ].
Definition message_value (m : Message) : goval := VStruct (concat (message_fields m)).
Definition history_value (h : list Message) : goval := VSlice (map message_value h).

(** *** Decoding *)

(** [num] is how a number among the arguments is decoded: [json.Unmarshal]
    makes it a float64, a decoder with UseNumber keeps its text. *)
Definition call_with (num : goval -> option goval) (v : goval) : option ToolCall :=
  id ← field v "id" decode_text "";
  operation ← field v "operation_id" decode_text "";
  arguments ← field v "arguments" (decode_map num) [];
  Some (MkToolCall id operation arguments).
Definition call_of : goval -> option ToolCall := call_with to_floats.
Definition usage_of (v : goval) : option Usage :=
  input ← field v "input_tokens" decode_int 0;
  output ← field v "output_tokens" decode_int 0;
  total ← field v "total_tokens" decode_int 0;
  Some (MkUsage input output total).
Definition interruption_of (v : goval) : option Interruption :=
  kind ← field v "kind" decode_text "";
  attempt ← field v "attempt" decode_int 0;
  reason ← field v "reason" decode_text "";
  deadline ← field v "deadline_ms" decode_int 0;
  status ← field v "status" decode_int 0;
  retry ← field v "retry_after_ms" decode_int 0;
  Some (MkInterruption kind attempt reason deadline status retry).

(** The raw texts of the field [key], whose value in [v] is [x], from the text
    of the object itself. *)
Definition raw_field (text key : string) (v : goval) : option (list string) :=
  field v key (fun x => match x with
                        | VSlice _ => ms ← raw_object text; t ← alookup (rev ms) key; raw_list t
                        | _ => None
                        end) [].

Definition message_with (num : goval -> option goval) (v : goval) (text : string) : option Message :=
  role ← field v "role" decode_text "";
  content ← field v "content" decode_text "";
  calls ← field v "tool_calls" (decode_list (call_with num)) [];
  call_id ← field v "call_id" decode_text "";
  operation ← field v "operation_id" decode_text "";
  status ← field v "status" decode_int 0;
  raw ← raw_field text "raw_output" v;
  body ← field v "raw_body" decode_text "";
  usage ← pointer_field v "usage" usage_of;
  response ← field v "response_id" decode_text "";
  model ← field v "server_model" decode_text "";
  reason ← field v "finish_reason" decode_text "";
  http ← field v "http_status" decode_int 0;
  interruptions ← field v "interruptions" (decode_list interruption_of) [];
  Some (MkMessageOf role content calls call_id operation status raw body usage response model reason http interruptions).
Definition message_of : goval -> string -> option Message := message_with to_floats.

(** [json.Unmarshal(transcript, &history)] *)
Definition history_with (num : goval -> option goval) (text : string) : option (list Message) :=
  match unmarshal_number text with
  | Some VNil => Some []
  | Some (VSlice vs) => ts ← raw_list text; opt_all (zip_with (message_with num) vs ts)
  | _ => None
  end.
Definition decode_history : string -> option (list Message) := history_with to_floats.

(** ** What is still to be done *)

Definition is_role (role : string) (m : Message) : bool := str_eqb (ms_role m) role.
(** The calls the assistant made, and the calls a tool message answers. *)
Definition all_calls (h : list Message) : list ToolCall := flat_map ms_tool_calls (List.filter (is_role "assistant") h).
Definition answered_ids (h : list Message) : list string := map ms_call_id (List.filter (is_role "tool") h).

(** [pending] *)
Definition pending (h : list Message) : option ToolCall :=
  List.find (fun c => negb (contains (answered_ids h) (tc_id c))) (all_calls h).

Lemma elem_of_answered h id : id ∈ answered_ids h <-> exists m, m ∈ h /\ ms_role m = "tool" /\ ms_call_id m = id.
Proof.
  unfold answered_ids. rewrite list_elem_of_fmap. split.
  - intros (m & -> & Hm). apply list_elem_of_In, filter_In in Hm as [Hm%list_elem_of_In Hr%str_eqb_true]. eauto.
  - intros (m & Hm & Hr & <-). exists m. split; [done|]. apply list_elem_of_In, filter_In. split; [by apply list_elem_of_In|]. by apply str_eqb_true.
Qed.

(** The first unanswered call, in the order the assistant made them. *)
Lemma pending_Some h c :
  pending h = Some c <->
  exists before after, all_calls h = before ++ c :: after /\ tc_id c ∉ answered_ids h /\ Forall (fun c' => tc_id c' ∈ answered_ids h) before.
Proof.
  unfold pending. induction (all_calls h) as [|x l IH]; cbn [List.find].
  - split; [done|]. by intros ([|? ?] & ? & ? & ?).
  - destruct (contains (answered_ids h) (tc_id x)) eqn:Hx; cbn [negb].
    + apply contains_spec in Hx. rewrite IH. split.
      * intros (before & after & -> & Hc & Hb). exists (x :: before), after. split; [done|]. split; [done|]. by constructor.
      * intros (before & after & Heq & Hc & Hb). destruct before as [|y before]; [by injection Heq as -> _|].
        injection Heq as -> ->. exists before, after. apply Forall_cons_1 in Hb as [_ Hb]. done.
    + assert (tc_id x ∉ answered_ids h) as Hn by (by rewrite <- contains_spec, Hx). split.
      * intros [= <-]. by exists [], l.
      * intros (before & after & Heq & Hc & Hb). destruct before as [|y before]; [by injection Heq as -> _|].
        injection Heq as -> _. by apply Forall_cons_1 in Hb as [? _].
Qed.
Lemma pending_None h : pending h = None <-> Forall (fun c => tc_id c ∈ answered_ids h) (all_calls h).
Proof.
  unfold pending. split.
  - intros Hf. apply Forall_forall. intros c Hc%list_elem_of_In. pose proof (List.find_none _ _ Hf _ Hc) as Hn.
    apply negb_false_iff in Hn. by apply contains_spec.
  - intros Hall. destruct (List.find _ _) as [c|] eqn:Hf; [|done]. apply List.find_some in Hf as [Hc%list_elem_of_In Hn].
    rewrite Forall_forall in Hall. apply Hall, contains_spec in Hc. by rewrite Hc in Hn.
Qed.
