(* ===== verification/Transcript.v ===== *)
(** * Transcripts through both of their readers

    Dispatch reads a transcript as maps and writes it back with a tool message
    added; the runner reads the same text as messages.  Whatever the
    re-encoding does to numbers and raw output, roles, call IDs and the
    assistant's calls survive it. *)

From S2P Require Export Messages.
Open Scope Z_scope.

(** ** A value re-encoded through float64 *)

(** [v'] is what is read back after [v] was read into an [any] and written. *)
Definition renders (v v' : goval) : Prop := parsed v /\ exists w, to_floats v = Some w /\ v' = decoded w.

Lemma renders_nil v v' : renders v v' -> v = VNil <-> v' = VNil.
Proof.
  intros (_ & w & Hw & ->). destruct v; cbn [to_floats] in Hw; try (by injection Hw as <-).
  - destruct (parse_number _) as [[n [|]]|]; try done. unfold number_value in Hw. repeat case_match; by simplify_eq.
  - destruct (opt_all _); [|done]. by injection Hw as <-.
  - destruct (opt_all _); [|done]. by injection Hw as <-.
Qed.
Lemma renders_text v v' t t' : renders v v' -> decode_text v = Some t -> decode_text v' = Some t' -> t = t' /\ utf8_text t.
Proof.
  intros (Hp & w & Hw & ->). destruct v; try done; cbn [to_floats decode_text] in *; injection Hw as <-; cbn [decoded decode_text].
  - intros [= <-] [= <-]. split; [done|]. constructor.
  - intros [= <-] [= <-]. cbn in Hp. by rewrite sanitize_text_id.
Qed.
Lemma renders_slice l v' : renders (VSlice l) v' -> exists l', v' = VSlice l' /\ Forall2 renders l l'.
Proof.
  intros (Hp & w & Hw & ->). cbn [to_floats] in Hw. destruct (opt_all (map to_floats l)) as [ws|] eqn:Hl; [|done]. injection Hw as <-.
  apply opt_all_map in Hl. apply parsed_slice in Hp. exists (map decoded ws). split; [done|]. revert Hp.
  induction Hl as [|x y l ws Hx _ IH]; [constructor|]. intros [H1 H2]%Forall_cons_1. constructor; [|by apply IH]. split; [done|]. eauto.
Qed.
Lemma renders_map m v' : renders (VMap m) v' -> exists m', v' = VMap m' /\
  forall k, match alookup m k, alookup m' k with Some x, Some x' => renders x x' | None, None => True | _, _ => False end.
Proof.
  intros (Hp & w & Hw & ->). cbn [to_floats] in Hw. destruct (opt_all _) as [ws|] eqn:Hm; [|done]. injection Hw as <-.
  apply opt_all_members in Hm. apply parsed_map in Hp as [Hnd Hp]. cbn [decoded].
  exists (sort_on fst (map (fun kv => (kv.1, decoded kv.2)) ws)). split; [done|]. intros k.
  assert (NoDup (map fst (map (fun kv : string * goval => (kv.1, decoded kv.2)) ws))) as Hnd'
    by (rewrite map_map; change (NoDup (map fst ws)); by rewrite (members_keys _ _ _ Hm)).
  rewrite <- (alookup_permutation _ (sort_on fst (map (fun kv => (kv.1, decoded kv.2)) ws)) k Hnd') by (by rewrite sort_on_permutation).
  clear Hnd Hnd'. revert Hp. induction Hm as [|[k1 x] [k2 y] m ws [Hk Hx] _ IH]; [done|]. cbn [fst snd map alookup] in *. subst k2.
  intros [[_ Hx1] Hp]%Forall_cons_1. destruct (str_eqb k k1); [|by apply IH]. split; [done|]. eauto.
Qed.

(** A field read from both. *)
Lemma renders_field {A B} (R : A -> B -> Prop) v v' key decA decB zA zB a b :
  renders v v' -> field v key decA zA = Some a -> field v' key decB zB = Some b -> R zA zB ->
  (forall x x', renders x x' -> decA x = Some a -> decB x' = Some b -> R a b) -> R a b.
Proof.
  intros Hr Ha Hb Hz Hdec. destruct v; try done.
  - rewrite (proj1 (renders_nil _ _ Hr) eq_refl) in Hb. cbn in Ha, Hb. by simplify_eq.
  - destruct (renders_map _ _ Hr) as (m' & -> & Hl). specialize (Hl key). cbn [field] in Ha, Hb.
    destruct (alookup m key) as [x|], (alookup m' key) as [x'|]; try done; [|by simplify_eq].
    pose proof (renders_nil _ _ Hl) as Hn. assert (x = VNil \/ x <> VNil) as [->|Hx] by (destruct x; (by left) || (by right)).
    + rewrite (proj1 Hn eq_refl) in Hb. by simplify_eq.
    + assert (x' <> VNil) as Hx' by tauto. eapply Hdec; [exact Hl|by destruct x|by destruct x'].
Qed.
Lemma renders_text_field v v' key t t' :
  renders v v' -> field v key decode_text "" = Some t -> field v' key decode_text "" = Some t' -> t = t' /\ utf8_text t.
Proof.
  intros Hr Ht Ht'. apply (renders_field (fun t t' => t = t' /\ utf8_text t) v v' key decode_text decode_text "" "" t t' Hr Ht Ht').
  - split; [done|constructor].
  - intros x x' Hx H1 H2. by eapply renders_text.
Qed.

(** ** Messages *)

(** What the runner's decisions depend on. *)
Definition view (m : Message) : string * string * list string := (ms_role m, ms_call_id m, map tc_id (ms_tool_calls m)).

Lemma call_of_ok v c : call_of v = Some c -> field v "id" decode_text "" = Some (tc_id c).
Proof. unfold call_of, call_with. intros H. repeat (apply bind_Some in H as (? & ? & H)). by simplify_eq. Qed.
Lemma message_of_ok v text m : message_of v text = Some m ->
  field v "role" decode_text "" = Some (ms_role m) /\ field v "call_id" decode_text "" = Some (ms_call_id m) /\
  field v "tool_calls" (decode_list call_of) [] = Some (ms_tool_calls m).
Proof. unfold message_of, message_with. intros H. repeat (apply bind_Some in H as (? & ? & H)). by simplify_eq. Qed.

Lemma renders_calls x x' l l' :
  renders x x' -> decode_list call_of x = Some l -> decode_list call_of x' = Some l' ->
  map tc_id l = map tc_id l' /\ Forall utf8_text (map tc_id l).
Proof.
  intros Hr. destruct x; try done.
  - rewrite (proj1 (renders_nil _ _ Hr) eq_refl). cbn. intros [= <-] [= <-]. split; [done|constructor].
  - destruct (renders_slice _ _ Hr) as (vs & -> & Hvs). cbn [decode_list]. rewrite !opt_all_map. clear Hr.
    revert l l'. induction Hvs as [|v v' vs1 vs2 Hv _ IH]; intros l l' Hl Hl'.
    + apply Forall2_nil_inv_l in Hl as ->. apply Forall2_nil_inv_l in Hl' as ->. split; [done|constructor].
    + apply Forall2_cons_inv_l in Hl as (c & cs & Hc & Hcs & ->). apply Forall2_cons_inv_l in Hl' as (c' & cs' & Hc' & Hcs' & ->).
      destruct (IH _ _ Hcs Hcs') as [Heq Hall]. apply call_of_ok in Hc, Hc'. destruct (renders_text_field _ _ _ _ _ Hv Hc Hc') as [Hid Hu].
      cbn. split; [by rewrite Heq, Hid|by constructor].
Qed.

Lemma renders_message v v' text text' m m' :
  renders v v' -> message_of v text = Some m -> message_of v' text' = Some m' ->
  view m = view m' /\ Forall utf8_text (map tc_id (ms_tool_calls m)).
Proof.
  intros Hr (H1 & H2 & H3)%message_of_ok (H1' & H2' & H3')%message_of_ok.
  destruct (renders_text_field _ _ _ _ _ Hr H1 H1') as [E1 _]. destruct (renders_text_field _ _ _ _ _ Hr H2 H2') as [E2 _].
  assert (map tc_id (ms_tool_calls m) = map tc_id (ms_tool_calls m') /\ Forall utf8_text (map tc_id (ms_tool_calls m))) as [E3 Hu].
  { apply (renders_field (fun a b => map tc_id a = map tc_id b /\ Forall utf8_text (map tc_id a)) v v' _ _ _ _ _ _ _ Hr H3 H3').
    - split; [done|constructor].
    - intros x x' Hx Hd Hd'. by eapply renders_calls. }
  unfold view. split; [by rewrite E1, E2, E3|exact Hu].
Qed.

(** ** Transcripts *)

Lemma zip_with_messages vs ts h : opt_all (zip_with message_of vs ts) = Some h -> length vs = length ts ->
  Forall2 (fun v m => exists text, message_of v text = Some m) vs h.
Proof.
  rewrite opt_all_Forall2. revert ts h. induction vs as [|v vs IH]; intros [|t ts] h Hh Hl; try discriminate Hl; cbn in Hh.
  - apply Forall2_nil_inv_l in Hh as ->. constructor.
  - apply Forall2_cons_inv_l in Hh as (m & h' & Hm & Hh & ->). constructor; [by exists t|]. eapply IH; [exact Hh|by injection Hl].
Qed.

(** A field of a written map. *)
Lemma field_decoded {A} m key (dec : goval -> option A) zero : NoDup (map fst m) ->
  field (decoded (VMap m)) key dec zero =
  match alookup m key with
  | Some x => match decoded x with VNil => Some zero | y => dec y end
  | None => Some zero
  end.
Proof.
  intros Hnd. cbn [decoded field].
  assert (NoDup (map fst (map (fun kv : string * goval => (kv.1, decoded kv.2)) m))) as Hnd' by (by rewrite map_map).
  rewrite <- (alookup_permutation _ (sort_on fst (map (fun kv => (kv.1, decoded kv.2)) m)) key Hnd') by (by rewrite sort_on_permutation).
  assert (alookup (map (fun kv : string * goval => (kv.1, decoded kv.2)) m) key = decoded <$> alookup m key) as ->.
  { clear. induction m as [|[k x] m IH]; cbn; [done|]. by destruct (str_eqb key k). }
  by destruct (alookup m key) as [[]|].
Qed.

Lemma tool_message_keys call operation body st :
  exists m, tool_message call operation body st = VMap m /\ NoDup (map fst m) /\ Forall utf8_text (map fst m) /\ Forall (fun kv => clean kv.2) m /\
    alookup m "role" = Some (VString "tool") /\ alookup m "call_id" = Some (VString call) /\ alookup m "tool_calls" = None.
Proof.
  unfold tool_message. eexists. split; [reflexivity|].
  destruct (st =? 0); cbn [app map fst]; (split; [by apply (bool_decide_unpack _)|]);
    (split; [repeat (constructor; [by apply utf8_ascii_text|]); constructor|]); (split; [repeat constructor|]); done.
Qed.

Lemma tool_message_view call operation body st text m :
  message_of (decoded (tool_message call operation body st)) text = Some m -> view m = ("tool", sanitize_text call, []).
Proof.
  destruct (tool_message_keys call operation body st) as (fs & -> & Hnd & _ & _ & H1 & H2 & H3).
  intros (E1 & E2 & E3)%message_of_ok. rewrite field_decoded in E1 by done. rewrite field_decoded in E2 by done. rewrite field_decoded in E3 by done. rewrite H1 in E1. rewrite H2 in E2. rewrite H3 in E3.
  cbn [decoded decode_text] in *. injection E1 as E1. injection E2 as E2. injection E3 as E3. unfold view. by rewrite <- E1, <- E2, <- E3.
Qed.

(** The messages dispatch reads from parsed text. *)
Lemma decode_messages_ok vs ws : Forall parsed vs -> opt_all (map decode_message vs) = Some ws ->
  Forall2 (fun v w => renders v (decoded w) /\ clean w) vs ws.
Proof.
  rewrite opt_all_map. intros Hp H. revert Hp. induction H as [|v w vs ws Hv _ IH]; [constructor|]. intros [Hp1 Hp2]%Forall_cons_1.
  constructor; [|by apply IH]. assert (to_floats v = Some w) as Hw by (by destruct v). split; [split; [done|eauto]|].
  by eapply plain_clean, to_floats_plain.
Qed.

Lemma decoded_messages vs ws ts h : Forall parsed vs -> opt_all (map decode_message vs) = Some ws ->
  Forall2 (fun v m => exists text, message_of v text = Some m) vs h ->
  Forall2 (fun v m => exists text, message_of v text = Some m) (map decoded ws) ts ->
  map view h = map view ts /\ Forall (fun m => Forall utf8_text (map tc_id (ms_tool_calls m))) h.
Proof.
  intros Hp Hw Hh Ht. pose proof (decode_messages_ok _ _ Hp Hw) as Hall. clear Hp Hw. revert h ts Hh Ht.
  induction Hall as [|v w vs ws [Hr _] _ IH]; intros h ts Hh Ht.
  - apply Forall2_nil_inv_l in Hh as ->. apply Forall2_nil_inv_l in Ht as ->. split; [done|constructor].
  - apply Forall2_cons_inv_l in Hh as (m & h1 & [t1 Hm] & Hh & ->). apply Forall2_cons_inv_l in Ht as (m' & ts1 & [t2 Hm'] & Ht & ->).
    destruct (IH _ _ Hh Ht) as [Heq Hu]. destruct (renders_message _ _ _ _ _ _ Hr Hm Hm') as [Hv Hu1]. cbn. split; [by rewrite Heq, Hv|by constructor].
Qed.

(** Dispatch adds one tool message to what the runner reads. *)
Lemma transcript_extended text h messages call operation body st next h' :
  decode_history text = Some h -> decode_transcript text = Some messages ->
  marshal (VSlice (messages ++ [tool_message call operation body st])) = Some next -> decode_history next = Some h' ->
  map view h' = map view h ++ [("tool", sanitize_text call, [])] /\ Forall (fun m => Forall utf8_text (map tc_id (ms_tool_calls m))) h.
Proof.
  unfold decode_history, history_with, decode_transcript. destruct (unmarshal_number text) as [v|] eqn:Hv; [|done]. pose proof (unmarshal_number_parsed _ _ Hv) as Hp.
  intros Hh Hm Hnext Hh'.
  assert (exists vs, Forall parsed vs /\ opt_all (map decode_message vs) = Some messages /\
    Forall2 (fun v m => exists text, message_of v text = Some m) vs h) as (vs & Hvs & Hms & Hhs).
  { destruct v; try done.
    - injection Hh as <-. injection Hm as <-. exists []. split_and!; [constructor|done|constructor].
    - apply bind_Some in Hh as (ts & Hts & Hh). exists l. apply parsed_slice in Hp. split_and!; [done|done|].
      eapply zip_with_messages; [exact Hh|by eapply raw_list_length]. }
  assert (clean (VSlice (messages ++ [tool_message call operation body st]))) as Hclean.
  { cbn [clean]. rewrite all_props_Forall. apply Forall_app. split.
    - eapply Forall2_Forall_r; [by eapply decode_messages_ok|]. apply Forall_forall. by intros x _ y [_ ?].
    - constructor; [|constructor]. destruct (tool_message_keys call operation body st) as (fs & -> & H1 & H2 & H3 & _). cbn [clean].
      by rewrite all_props_Forall. }
  rewrite (unmarshal_number_marshal _ _ Hnext Hclean) in Hh'. cbn [decoded] in Hh'. apply bind_Some in Hh' as (ts' & Hts' & Hh').
  apply zip_with_messages in Hh'; [|by eapply raw_list_length; [apply (unmarshal_number_marshal _ _ Hnext Hclean)|]].
  rewrite map_app in Hh'. apply Forall2_app_inv_l in Hh' as (h1 & h2 & H1 & H2 & ->).
  destruct (decoded_messages _ _ _ _ Hvs Hms Hhs H1) as [Heq Hu]. split; [|done]. rewrite map_app, <- Heq. f_equal.
  apply Forall2_cons_inv_l in H2 as (m & l & [t Hm2] & Hl & ->). apply Forall2_nil_inv_l in Hl as ->. cbn. by rewrite (tool_message_view _ _ _ _ _ _ Hm2).
Qed.

(** ** The runner's own writing *)

Lemma text_field_clean key value : Forall (fun kv => clean kv.2) (text_field key value).
Proof. unfold text_field. case_match; repeat constructor. Qed.
Lemma int_field_clean key z : Forall (fun kv => clean kv.2) (int_field key z).
Proof. unfold int_field. case_match; repeat constructor. Qed.
Lemma list_field_clean {A} key (f : A -> goval) l : Forall (fun x => clean (f x)) l -> Forall (fun kv => clean kv.2) (list_field key f l).
Proof. intros Hl. unfold list_field. destruct l; [constructor|]. constructor; [|constructor]. cbn [snd clean]. by rewrite all_props_Forall, Forall_fmap. Qed.

(** Optional fields, by their names. *)
Definition optional (f : list (string * goval)) (name : string) : Prop := f = [] \/ exists v, f = [(name, v)].
Lemma text_optional key value : optional (text_field key value) key.
Proof. unfold optional, text_field. case_match; eauto. Qed.
Lemma int_optional key z : optional (int_field key z) key.
Proof. unfold optional, int_field. case_match; eauto. Qed.
Lemma list_optional {A} key (f : A -> goval) l : optional (list_field key f l) key.
Proof. unfold optional, list_field. case_match; eauto. Qed.
Lemma one_optional key v : optional [(key, v)] key.
Proof. right. eauto. Qed.

Lemma optional_fields fs names : Forall2 optional fs names ->
  (forall k, k ∈ map fst (concat fs) -> k ∈ names) /\ (NoDup names -> NoDup (map fst (concat fs))).
Proof.
  induction 1 as [|f n fs names Hf _ [IH1 IH2]]; cbn [concat map]; [split; [done|constructor]|]. rewrite map_app. split.
  - intros k [Hk|Hk]%elem_of_app; [|right; auto]. destruct Hf as [->|[v ->]]; [by apply elem_of_nil in Hk|].
    apply list_elem_of_singleton in Hk as ->. left.
  - intros [Hn Hnd]%NoDup_cons. destruct Hf as [->|[v ->]]; [by apply IH2|]. cbn. apply NoDup_cons. split; [|by apply IH2]. auto.
Qed.
Lemma clean_message_fields names (fs : list (list (string * goval))) :
  Forall2 optional fs names -> NoDup names -> Forall utf8_text names -> Forall (fun kv => clean kv.2) (concat fs) -> clean (VStruct (concat fs)).
Proof.
  intros Hf Hnd Hu Hc. destruct (optional_fields _ _ Hf) as [H1 H2]. cbn [clean]. rewrite all_props_Forall. split_and!; [by apply H2| |done].
  apply Forall_forall. intros k Hk%H1. rewrite Forall_forall in Hu. by apply Hu.
Qed.

(** Reading an optional field of a struct back. *)
Lemma alookup_struct (fs : list (list (string * goval))) names key f :
  Forall2 optional fs names -> NoDup names -> (f, key) ∈ zip fs names ->
  alookup (map (fun kv : string * goval => (kv.1, decoded kv.2)) (concat fs)) key =
  match f with (_, x) :: _ => Some (decoded x) | [] => None end.
Proof.
  intros Hf Hnd Hin. revert Hnd Hin. induction Hf as [|g n fs names Hg Hfs IH]; intros Hnd Hin; cbn [zip concat] in *; [by apply elem_of_nil in Hin|].
  apply NoDup_cons in Hnd as [Hn Hnd]. rewrite map_app. apply elem_of_cons in Hin as [[= -> ->]|Hin].
  - destruct Hg as [->|[v ->]]; cbn; [|by rewrite str_eqb_refl]. apply alookup_None. rewrite map_map. cbn.
    intros Hk. apply Hn. by apply (proj1 (optional_fields _ _ Hfs)).
  - assert (key <> n) as Hkn. { intros ->. apply Hn. apply elem_of_zip_r in Hin. done. }
    destruct Hg as [->|[v ->]]; cbn; [by apply IH|]. apply str_eqb_false in Hkn as ->. by apply IH.
Qed.
Lemma field_struct {A} (fs : list (list (string * goval))) names key (dec : goval -> option A) zero f :
  Forall2 optional fs names -> NoDup names -> (f, key) ∈ zip fs names ->
  field (decoded (VStruct (concat fs))) key dec zero =
  match f with (_, x) :: _ => match decoded x with VNil => Some zero | y => dec y end | [] => Some zero end.
Proof.
  intros Hf Hnd Hin. cbn [decoded field]. rewrite (alookup_struct fs names key f) by done. by destruct f as [|[? []] ?].
Qed.

Definition message_names : list string :=
  ["role"; "content"; "tool_calls"; "call_id"; "operation_id"; "status"; "raw_output"; "raw_body"; "usage"; "response_id"; "server_model";
   "finish_reason"; "http_status"; "interruptions"].
Lemma message_names_ok : NoDup message_names /\ Forall utf8_text message_names.
Proof. split; [by apply (bool_decide_unpack _)|]. repeat (constructor; [by apply utf8_ascii_text|]). constructor. Qed.
Lemma message_shape m : Forall2 optional (message_fields m) message_names.
Proof.
  unfold message_fields, message_names.
  repeat (apply Forall2_cons; split; [first [apply text_optional | apply int_optional | apply list_optional | apply one_optional | idtac]|]);
    [|constructor].
  destruct (ms_usage m); [right; eauto|by left].
Qed.

(** What the view of a written message becomes. *)
Definition sanitize_view (v : string * string * list string) : string * string * list string :=
  (sanitize_text v.1.1, sanitize_text v.1.2, map sanitize_text v.2).
Lemma sanitize_empty : sanitize_text "" = "".
Proof. done. Qed.

Lemma call_of_written c c' : call_of (decoded (call_value c)) = Some c' -> tc_id c' = sanitize_text (tc_id c).
Proof. intros H%call_of_ok. cbn in H. by injection H. Qed.

(** A field among those of a message. *)
Ltac listed := apply list_elem_of_In; cbn; tauto.

Lemma written_message_view m text m' : message_of (decoded (message_value m)) text = Some m' -> view m' = sanitize_view (view m).
Proof.
  intros (E1 & E2 & E3)%message_of_ok. pose proof (message_shape m) as Hs. destruct message_names_ok as [Hnd _]. unfold message_value in *.
  rewrite (field_struct _ _ _ _ _ [("role", VString (ms_role m))] Hs Hnd) in E1 by listed.
  rewrite (field_struct _ _ _ _ _ (text_field "call_id" (ms_call_id m)) Hs Hnd) in E2 by listed.
  rewrite (field_struct _ _ _ _ _ (list_field "tool_calls" call_value (ms_tool_calls m)) Hs Hnd) in E3 by listed.
  unfold view, sanitize_view. cbn [fst snd]. f_equal; [f_equal|].
  - cbn in E1. by injection E1.
  - unfold text_field in E2. destruct (str_eqb (ms_call_id m) "") eqn:He; cbn in E2.
    + apply str_eqb_true in He. rewrite He, sanitize_empty. by injection E2.
    + by injection E2.
  - destruct (ms_tool_calls m) as [|c l]; cbn -[decoded call_of] in E3; [by injection E3 as <-|].
    cbn [decoded] in E3. change (decode_list call_of (VSlice (map decoded (map call_value (c :: l)))) = Some (ms_tool_calls m')) in E3.
    cbn [decode_list] in E3. apply opt_all_map in E3. remember (c :: l) as cs eqn:Hcs. clear Hcs. rewrite map_map. revert E3.
    generalize (ms_tool_calls m') as cs'. induction cs as [|x cs IH]; intros cs' Hf; cbn [map] in Hf.
    + apply Forall2_nil_inv_l in Hf as ->. done.
    + apply Forall2_cons_inv_l in Hf as (y & ys & Hy & Hys & ->). cbn. rewrite (call_of_written _ _ Hy). f_equal. by apply IH.
Qed.

(** *** Decoded messages *)

Lemma field_parsed {A} (P : A -> Prop) v key dec zero a :
  parsed v -> field v key dec zero = Some a -> P zero -> (forall x, parsed x -> dec x = Some a -> P a) -> P a.
Proof.
  intros Hp Hf Hz Hd. destruct v; try done; cbn [field] in Hf; [by injection Hf as <-|].
  destruct (alookup m key) as [x|] eqn:Hx; [|by injection Hf as <-]. apply alookup_in in Hx. apply parsed_map in Hp as [_ Hp].
  rewrite Forall_forall in Hp. destruct (Hp _ Hx) as [_ Hpx]. cbn in Hpx. destruct x; try (by eapply Hd); by injection Hf as <-.
Qed.
Lemma text_parsed v key t : parsed v -> field v key decode_text "" = Some t -> utf8_text t.
Proof.
  intros Hp Hf. eapply (field_parsed utf8_text); [exact Hp|exact Hf|constructor|]. intros [| | | | |s| | | |]; try done; cbn; [intros _ [= <-]; constructor|by intros ? [= <-]].
Qed.

Lemma call_of_parsed v c : parsed v -> call_of v = Some c -> utf8_text (tc_id c) /\ clean (call_value c).
Proof.
  intros Hp Hc. pose proof (call_of_ok _ _ Hc) as Hid. split; [by eapply text_parsed|]. unfold call_of, call_with in Hc.
  repeat (apply bind_Some in Hc as (? & ? & Hc)). injection Hc as <-. rename select (field v "arguments" _ _ = _) into Ha.
  unfold call_value. apply (clean_message_fields ["id"; "operation_id"; "arguments"] [[_]; [_]; [_]]).
  - repeat (apply Forall2_cons; split; [apply one_optional|]). constructor.
  - by apply (bool_decide_unpack _).
  - repeat (constructor; [by apply utf8_ascii_text|]). constructor.
  - cbn [concat app]. repeat (constructor; [done|]). constructor; [|constructor]. cbn [snd]. apply plain_clean.
    eapply (field_parsed (fun m => plain (VMap m))); [exact Hp|exact Ha|by split_and!; constructor|].
    intros y Hy Hd. unfold decode_any_map, decode_map in Hd. destruct y; try done; [injection Hd as <-; split_and!; constructor|].
    apply (to_floats_plain (VMap m)); [done|]. cbn [to_floats]. rewrite Hd. done.
Qed.

Lemma interruption_clean i : clean (interruption_value i).
Proof.
  apply (clean_message_fields ["kind"; "attempt"; "reason"; "deadline_ms"; "status"; "retry_after_ms"]).
  - repeat (apply Forall2_cons; split; [first [apply text_optional | apply int_optional | apply one_optional]|]). constructor.
  - by apply (bool_decide_unpack _).
  - repeat (constructor; [by apply utf8_ascii_text|]). constructor.
  - cbn [concat]. repeat (apply Forall_app; split); first [apply text_field_clean | apply int_field_clean | repeat constructor].
Qed.
Lemma usage_clean u : clean (usage_value u).
Proof.
  apply (clean_message_fields ["input_tokens"; "output_tokens"; "total_tokens"] [[_]; [_]; [_]]).
  - repeat (apply Forall2_cons; split; [apply one_optional|]). constructor.
  - by apply (bool_decide_unpack _).
  - repeat (constructor; [by apply utf8_ascii_text|]). constructor.
  - repeat constructor.
Qed.

(** A message without raw output, whose calls' arguments are clean. *)
Lemma message_clean m : Forall (fun c => clean (call_value c)) (ms_tool_calls m) -> ms_raw_output m = [] -> clean (message_value m).
Proof.
  intros Hc Hr. destruct message_names_ok as [Hnd Hu]. apply (clean_message_fields message_names); [apply message_shape|done|done|].
  unfold message_fields. rewrite Hr. cbn [concat].
  repeat (apply Forall_app; split); try first [apply text_field_clean | apply int_field_clean | by repeat constructor].
  - by apply list_field_clean.
  - destruct (ms_usage m); [|constructor]. constructor; [apply usage_clean|constructor].
  - apply list_field_clean. apply Forall_forall. intros i _. apply interruption_clean.
Qed.

Lemma message_of_parsed v text m : parsed v -> message_of v text = Some m ->
  Forall (fun c => clean (call_value c)) (ms_tool_calls m) /\ sanitize_view (view m) = view m.
Proof.
  intros Hp (E1 & E2 & E3)%message_of_ok.
  assert (Forall (fun c => utf8_text (tc_id c) /\ clean (call_value c)) (ms_tool_calls m)) as Hall.
  { eapply (field_parsed (Forall (fun c => utf8_text (tc_id c) /\ clean (call_value c)))); [exact Hp|exact E3|constructor|].
    intros x Hx Hd. destruct x; try done; cbn [decode_list] in Hd; [by injection Hd as <-|]. apply opt_all_map in Hd. apply parsed_slice in Hx.
    clear E3. revert Hx. induction Hd as [|y c l cs Hy _ IH]; [constructor|]. intros [Hy1 Hy2]%Forall_cons_1. constructor; [by eapply call_of_parsed|by apply IH]. }
  apply Forall_and in Hall as [Hids Hargs]. split; [done|]. unfold sanitize_view, view. cbn [fst snd].
  rewrite !sanitize_text_id by (by eapply text_parsed). f_equal. rewrite <- (map_id (map tc_id _)) at 2. rewrite !map_map. apply map_ext_in.
  intros c Hc%list_elem_of_In. rewrite Forall_forall in Hids. by apply sanitize_text_id, Hids.
Qed.

(** *** The next turn *)

(** No message of the transcript carries raw output. *)
Definition no_raw (v : goval) : Prop := match v with VMap m => alookup m "raw_output" = None \/ alookup m "raw_output" = Some VNil | _ => True end.
Definition plain_transcript (text : string) : Prop :=
  match unmarshal_number text with Some (VSlice vs) => Forall no_raw vs | _ => True end.

Lemma no_raw_message v text m : no_raw v -> message_of v text = Some m -> ms_raw_output m = [].
Proof.
  intros Hn Hm. unfold message_of, message_with in Hm. repeat (apply bind_Some in Hm as (? & ? & Hm)). injection Hm as <-. cbn.
  rename select (raw_field _ _ _ = _) into Hr. unfold raw_field in Hr. destruct v; try done; cbn in Hn, Hr; [by injection Hr as <-|].
  destruct Hn as [Hn|Hn]; rewrite Hn in Hr; by injection Hr as <-.
Qed.
Lemma renders_no_raw v v' : renders v v' -> no_raw v -> no_raw v'.
Proof.
  intros Hr Hn. destruct v; try (destruct Hr as (Hp & w & Hw & ->); cbn in Hw; try done; simplify_eq; done).
  - destruct Hr as (_ & w & Hw & ->). cbn in Hw. destruct (parse_number _) as [[n [|]]|]; try done. destruct n as [[neg q] k]. cbn in Hw. repeat case_match; by simplify_eq.
  - destruct (renders_slice _ _ Hr) as (l' & -> & _). done.
  - destruct (renders_map _ _ Hr) as (m' & -> & Hl). specialize (Hl "raw_output"). cbn in Hn |- *. destruct Hn as [Hn|Hn]; rewrite Hn in Hl.
    + destruct (alookup m' "raw_output"); [done|by left].
    + destruct (alookup m' "raw_output") as [x|]; [|done]. right. f_equal. by apply (renders_nil _ _ Hl).
Qed.

Lemma written_no_raw m : ms_raw_output m = [] -> no_raw (decoded (message_value m)).
Proof.
  intros Hr. pose proof (message_shape m) as Hs. destruct message_names_ok as [Hnd _]. unfold message_value. cbn [decoded no_raw]. left.
  rewrite (alookup_struct _ _ _ (list_field "raw_output" VRaw (ms_raw_output m)) Hs Hnd) by listed. by rewrite Hr.
Qed.

(** The messages of a transcript, with the values they were read from. *)
Lemma decode_history_ok text h : decode_history text = Some h -> exists vs, Forall parsed vs /\
  (plain_transcript text -> Forall no_raw vs) /\ Forall2 (fun v m => exists text, message_of v text = Some m) vs h.
Proof.
  unfold decode_history, history_with, plain_transcript. destruct (unmarshal_number text) as [v|] eqn:Hv; [|done]. pose proof (unmarshal_number_parsed _ _ Hv) as Hp.
  intros Hh. destruct v; try done.
  - injection Hh as <-. exists []. split_and!; [constructor|constructor|constructor].
  - apply bind_Some in Hh as (ts & Hts & Hh). exists l. apply parsed_slice in Hp. split_and!; [done|done|].
    eapply zip_with_messages; [exact Hh|by eapply raw_list_length].
Qed.

Lemma decoded_history_clean text h : decode_history text = Some h -> plain_transcript text ->
  Forall (fun m => clean (message_value m) /\ sanitize_view (view m) = view m /\ ms_raw_output m = []) h.
Proof.
  intros Hh Hpl. destruct (decode_history_ok _ _ Hh) as (vs & Hp & Hn & Hf). specialize (Hn Hpl). clear Hh Hpl. revert Hp Hn.
  induction Hf as [|v m vs h [t Hm] _ IH]; [constructor|]. intros [Hp1 Hp2]%Forall_cons_1 [Hn1 Hn2]%Forall_cons_1. constructor; [|by apply IH].
  destruct (message_of_parsed _ _ _ Hp1 Hm) as [Hc Hs]. pose proof (no_raw_message _ _ _ Hn1 Hm) as Hr. split_and!; [by apply message_clean|done|done].
Qed.

(** What is read back from written values. *)
Lemma written_values ws next h' :
  clean (VSlice ws) -> marshal (VSlice ws) = Some next -> decode_history next = Some h' ->
  Forall2 (fun w m => exists text, message_of (decoded w) text = Some m) ws h'.
Proof.
  intros Hc Hm Hh. unfold decode_history, history_with in Hh. pose proof (unmarshal_number_marshal _ _ Hm Hc) as Hu. rewrite Hu in Hh. cbn [decoded] in Hh, Hu.
  apply bind_Some in Hh as (ts & Hts & Hh). apply zip_with_messages in Hh; [|by eapply raw_list_length]. by apply Forall2_fmap_l in Hh.
Qed.

(** The runner adds the provider's turn, whose texts are sanitized. *)
Section Turn.
Context (text : string) (h : list Message) (turn : Message) (next : string).
Context (Hh : decode_history text = Some h) (Hpl : plain_transcript text) (Hct : clean (message_value turn)) (Hrt : ms_raw_output turn = []).
Context (Hm : marshal (history_value (h ++ [turn])) = Some next).

Lemma turn_clean : clean (VSlice (map message_value (h ++ [turn]))).
Proof.
cbn [clean]. rewrite all_props_Forall, Forall_fmap. apply Forall_app. split; [|constructor; [exact Hct|constructor]].
eapply Forall_impl; [by eapply decoded_history_clean|]. by intros m [? _].
Qed.
Lemma turn_written h' : decode_history next = Some h' -> map view h' = map view h ++ [sanitize_view (view turn)].
Proof.
intros Hh'. pose proof (written_values _ _ _ turn_clean Hm Hh') as Hw. apply Forall2_fmap_l in Hw.
apply Forall2_app_inv_l in Hw as (h1 & h2 & H1 & H2 & ->). rewrite map_app. f_equal.
- pose proof (decoded_history_clean _ _ Hh Hpl) as Hall. revert Hall. clear -H1.
induction H1 as [|m m' h h1 [t Hm] _ IH]; [done|]. intros [(_ & Hv & _) Hall]%Forall_cons_1. cbn.
by rewrite (written_message_view _ _ _ Hm), Hv, IH.
- apply Forall2_cons_inv_l in H2 as (m & l & [t Hm2] & Hl & ->). apply Forall2_nil_inv_l in Hl as ->. cbn. by rewrite (written_message_view _ _ _ Hm2).
Qed.
Lemma turn_plain : plain_transcript next.
Proof.
unfold plain_transcript. rewrite (unmarshal_number_marshal _ _ Hm turn_clean). unfold history_value. cbn [decoded]. rewrite map_map, Forall_fmap. apply Forall_app. split.
- eapply Forall_impl; [by eapply decoded_history_clean|]. intros m (_ & _ & Hr). by apply written_no_raw.
- constructor; [by apply written_no_raw|constructor].
Qed.
End Turn.

Lemma plain_extended text messages call operation body st next :
  plain_transcript text -> decode_transcript text = Some messages ->
  marshal (VSlice (messages ++ [tool_message call operation body st])) = Some next -> plain_transcript next.
Proof.
  unfold decode_transcript. intros Hpl Hm Hnext. unfold plain_transcript in Hpl. destruct (unmarshal_number text) as [v|] eqn:Hv; [|done].
  pose proof (unmarshal_number_parsed _ _ Hv) as Hp. destruct (tool_message_keys call operation body st) as (fs & Hfs & H1 & H2 & H3 & _).
  assert (exists vs, Forall parsed vs /\ Forall no_raw vs /\ opt_all (map decode_message vs) = Some messages) as (vs & Hvs & Hn & Hms).
  { destruct v; try done; [injection Hm as <-; exists []; split_and!; [constructor|constructor|done]|]. exists l. apply parsed_slice in Hp. done. }
  pose proof (decode_messages_ok _ _ Hvs Hms) as Hall.
  assert (clean (VSlice (messages ++ [tool_message call operation body st]))) as Hclean.
  { cbn [clean]. rewrite all_props_Forall. apply Forall_app. split.
    - eapply Forall2_Forall_r; [exact Hall|]. apply Forall_forall. by intros x _ y [_ ?].
    - constructor; [|constructor]. rewrite Hfs. cbn [clean]. by rewrite all_props_Forall. }
  unfold plain_transcript. rewrite (unmarshal_number_marshal _ _ Hnext Hclean). cbn [decoded]. rewrite map_app. apply Forall_app. split.
  - apply Forall_fmap. clear -Hall Hn. revert Hn. induction Hall as [|v w vs ws [Hr _] _ IH]; [constructor|]. intros [Hn1 Hn2]%Forall_cons_1.
    constructor; [by eapply renders_no_raw|by apply IH].
  - constructor; [|constructor]. unfold tool_message. cbn [decoded no_raw]. left. apply alookup_None. rewrite sort_on_permutation, map_map.
    cbn [fst]. destruct (st =? 0); cbn; rewrite !not_elem_of_cons; split_and!; try done; apply not_elem_of_nil.
Qed.

(** ** Pending calls, by views *)

Definition ids_of (v : string * string * list string) : list string := if str_eqb v.1.1 "assistant" then v.2 else [].
Definition answer_of (v : string * string * list string) : list string := if str_eqb v.1.1 "tool" then [v.1.2] else [].

Lemma all_calls_view h : map tc_id (all_calls h) = flat_map ids_of (map view h).
Proof.
  unfold all_calls, is_role. induction h as [|m h IH]; [done|]. cbn [List.filter map flat_map]. unfold ids_of at 1. cbn [view fst snd].
  destruct (str_eqb (ms_role m) "assistant"); [|done]. cbn [flat_map]. by rewrite map_app, IH.
Qed.
Lemma answered_view h : answered_ids h = flat_map answer_of (map view h).
Proof.
  unfold answered_ids, is_role. induction h as [|m h IH]; [done|]. cbn [List.filter map flat_map]. unfold answer_of at 1. cbn [view fst snd].
  destruct (str_eqb (ms_role m) "tool"); [|done]. cbn. by rewrite IH.
Qed.

(** How many calls wait for an answer. *)
Definition open_calls (h : list Message) : nat :=
  length (List.filter (fun id => negb (contains (answered_ids h) id)) (map tc_id (all_calls h))).

Lemma filter_length_lt {A} (p q : A -> bool) l x :
  (forall y, q y = true -> p y = true) -> x ∈ l -> p x = true -> q x = false -> (length (List.filter q l) < length (List.filter p l))%nat.
Proof.
  intros Hqp Hx Hp Hq. assert (forall m, (length (List.filter q m) <= length (List.filter p m))%nat) as Hle.
  { induction m as [|y m IH]; cbn; [lia|]. destruct (q y) eqn:Hy; [rewrite (Hqp _ Hy); cbn; lia|]. destruct (p y); cbn; lia. }
  induction l as [|y l IH]; [by apply elem_of_nil in Hx|]. apply elem_of_cons in Hx as [<-|Hx]; cbn.
  - rewrite Hp, Hq. cbn. specialize (Hle l). lia.
  - specialize (IH Hx). destruct (q y) eqn:Hy; [rewrite (Hqp _ Hy); cbn; lia|]. destruct (p y); cbn; lia.
Qed.

(** An answer to the pending call leaves fewer calls open. *)
Lemma answer_closes h h' c : pending h = Some c -> sanitize_text (tc_id c) = tc_id c ->
  map view h' = map view h ++ [("tool", sanitize_text (tc_id c), [])] -> (open_calls h' < open_calls h)%nat.
Proof.
  intros Hp Hs Hv. unfold open_calls. apply pending_Some in Hp as (before & after & Hcalls & Hn & _).
  assert (map tc_id (all_calls h') = map tc_id (all_calls h)) as ->.
  { rewrite !all_calls_view, Hv, flat_map_app. cbn. by rewrite app_nil_r. }
  assert (answered_ids h' = answered_ids h ++ [tc_id c]) as Ha.
  { rewrite !answered_view, Hv, flat_map_app, Hs. done. }
  apply (filter_length_lt _ _ _ (tc_id c)).
  - intros y. rewrite Ha. unfold contains. rewrite existsb_app. destruct (existsb _ (answered_ids h)); done.
  - rewrite Hcalls, map_app. set_solver.
  - apply negb_true_iff. apply not_true_is_false. by rewrite contains_spec.
  - apply negb_false_iff, contains_spec. rewrite Ha. set_solver.
Qed.
