(* ===== verification/Runner.v ===== *)
(** * Executing a run (internal/agent/runner.go)

    [Execute] drives a run to a stopping point: it dispatches the calls the
    assistant still waits for, asks the provider for the next turn, and records
    every step.  Other processes may commit transactions between any two of its
    own: [env n] is what they do before its [n]-th access to the database. *)

From S2P Require Export Messages Queue.
Open Scope Z_scope.
Open Scope tx_scope.

(** ** The provider *)

(** [Provider.Next]; the number counts the calls made so far, since a provider
    may answer each differently. *)
Definition Provider : Type := nat -> string -> list Message -> list Operation -> Message * option ProviderError.

(** [agent.Runner]; the store is the database of the execution. *)
Record Runner := MkRunner {
  rn_dispatch : Dispatcher; rn_manifest : Manifest; rn_provider : option Provider; rn_fence : option Fence;
  rn_clock : Clock; rn_crash : Hook; rn_sleep : duration -> option err }.

(** The state of an execution: the database, how often it was accessed, and
    how often the provider was called. *)
Record Exec := MkExec { ex_db : DB; ex_accesses : nat; ex_calls : nat }.
Abbreviation RunIO := (IO Exec err).

Definition with_interruptions (m : Message) (l : list Interruption) : Message :=
  MkMessageOf (ms_role m) (ms_content m) (ms_tool_calls m) (ms_call_id m) (ms_operation_id m) (ms_status m) (ms_raw_output m)
    (ms_raw_body m) (ms_usage m) (ms_response_id m) (ms_server_model m) (ms_finish_reason m) (ms_http_status m) l.

Definition providerAttempts : Z := 2.

(** [interruptionPayloads] *)
Definition interruptionPayloads (l : list Interruption) : list goval := map interruption_value l.

(** [reflect.DeepEqual] of decoded values; it does not see the order of map
    keys, no decoded number is a NaN, and a number kept as its text is compared
    as text. *)
Fixpoint deep_equal (a b : goval) : bool :=
  match a, b with
  | VNil, VNil => true
  | VBool x, VBool y => Bool.eqb x y
  | VFloat x, VFloat y => SpecFloat.SFeqb x y
  | VString x, VString y => str_eqb x y
  | VNumber x, VNumber y => str_eqb x y
  | VSlice l, VSlice l' =>
      (fix go l l' := match l, l' with
                      | [], [] => true
                      | x :: l, y :: l' => deep_equal x y && go l l'
                      | _, _ => false
                      end) l l'
  | VMap m, VMap m' =>
      bool_decide (length m = length m') &&
      (fix go m := match m with
                   | [] => true
                   | (k, x) :: m => match alookup m' k with Some y => deep_equal x y | None => false end && go m
                   end) m
  | _, _ => false
  end.
(** [equalJSON] *)
Definition equalJSON (a b : string) : bool :=
  match unmarshal a, unmarshal b with Some x, Some y => deep_equal x y | _, _ => false end.

(** The payload of a model request. *)
Definition request_value (run : RunRow) (history : list Message) (ops : list Operation) : goval :=
  VMap [("task", VString (run_task run)); ("provider", VString (run_provider run)); ("model", VString (run_model run));
        ("history", history_value history); ("operations", VSlice (map operation_value ops))].

(** [Store.Run] *)
Definition Run (runID : string) : DbIO RunRow := fun s => (match runs s !! runID with Some r => Ok r | None => Err ErrNoRows end, s).

Section Runner.
Context `{!SqlBind} (env : nat -> DB -> DB) (err_text : err -> string) (r : Runner).

(** One access to the database. *)
Definition access {A} (m : DbIO A) : RunIO A := fun x =>
let '(out, s') := m (env (ex_accesses x) (ex_db x)) in (out, MkExec s' (S (ex_accesses x)) (ex_calls x)).

Definition fire (point runID : string) (step : Z) : RunIO unit :=
iolift (match Fire (rn_crash r) (MkSite point runID step "" "") with Some e => Err e | None => Ok tt end).

(** The loop of [validateCalls] over the calls of a turn; its errors as texts. *)
Fixpoint call_problem (seen inTurn : list string) (calls : list ToolCall) : option string :=
match calls with
| [] => None
| call :: rest =>
if str_eqb (tc_id call) "" || bool_decide (find_operation (rn_manifest r) (tc_operation_id call) = None)
then Some "provider returned invalid tool call"
else if contains inTurn (tc_id call)
then Some ("provider returned invalid tool call: call ID " +:+ quote (tc_id call) +:+ " appears twice in one turn")
else if contains seen (tc_id call)
then Some ("provider reused call ID " +:+ quote (tc_id call) +:+ " from an earlier turn")
else call_problem seen (tc_id call :: inTurn) rest
end.
Definition validateCalls (history : list Message) (next : Message) : res err unit :=
match call_problem (map tc_id (all_calls history)) [] (ms_tool_calls next) with Some text => Err (ErrText text) | None => Ok tt end.

(** The loop of [callProvider]: [left] attempts remain. *)
Fixpoint provider_attempts (left : nat) (attempt : Z) (recorded : list Interruption) (provider : Provider)
(task : string) (history : list Message) (ops : list Operation) : Exec -> (Message * option err) * Exec := fun x =>
match left with
| O => ((with_interruptions (MkMessageOf "" "" [] "" "" 0 [] "" None "" "" "" 0 []) recorded, None), x)
| S left' =>
let '(next, failure) := provider (ex_calls x) task history ops in
let x := MkExec (ex_db x) (ex_accesses x) (S (ex_calls x)) in
match failure with
| None => ((with_interruptions next (recorded ++ ms_interruptions next), None), x)
| Some e =>
match pe_interrupt e with
| None => ((with_interruptions next (recorded ++ ms_interruptions next), Some (ErrText (pe_text e))), x)
| Some interrupt =>
  let recorded := recorded ++ [Record_interruption interrupt attempt] in
  if providerAttempts <=? attempt then
    ((with_interruptions next recorded,
      Some (ErrWrap ("provider interrupted on " +:+ itoa (Z.of_nat (length recorded)) +:+ " of " +:+ itoa providerAttempts +:+ " attempts: ")
              (ErrText (pe_text e)))), x)
  else if 0 <? wait interrupt then
    match rn_sleep r (wait interrupt) with
    | Some sleepErr => ((with_interruptions next recorded, Some sleepErr), x)
    | None => provider_attempts left' (attempt + 1) recorded provider task history ops x
    end
  else provider_attempts left' (attempt + 1) recorded provider task history ops x
end
end
end.
Definition callProvider (provider : Provider) (task : string) (history : list Message) (ops : list Operation) : RunIO (Message * option err) :=
fun x => let '(answer, x') := provider_attempts (Z.to_nat providerAttempts) 1 [] provider task history ops x in (Ok answer, x').

(** [startModelCall] *)
Definition startModelCall (runID : string) (request : goval) : RunIO unit :=
match marshal request with
| None => iofail json_error
| Some encoded =>
io* lastEvent := access (ioreads (LastEvent runID)) in
let append := access (AppendGuarded (rn_fence r) (rn_clock r) runID "model.request" request) in
match lastEvent with
| Some e =>
if str_eqb (e_type e) "model.request" then
if equalJSON (e_payload e) encoded then ioret tt
else iofail (ErrText ("run " +:+ runID +:+ " has an abandoned model request that differs from the reconstructed one; the run cannot be resumed safely"))
else append
| None => append
end
end.

(** *** The loop *)

(** How a round of the loop ends: the loop goes on, having used so many model
turns, or [Execute] returns. *)
Inductive Round := Again (used : Z) | Stop (run : RunRow).

Definition status_payload (run : RunRow) : goval := VMap [("step", VInt (run_step run))].
Definition dispatch_payload (call : ToolCall) (e : err) : goval :=
VMap [("kind", VString "dispatch"); ("call_id", VString (tc_id call)); ("operation_id", VString (tc_operation_id call));
("message", VString (err_text e))].

(** A failed turn is recorded, and its error returned. *)
Definition fail_turn {A} (what runID : string) (next : Message) (e : err) : RunIO A :=
iotry (access (FailModelTurnGuarded (rn_fence r) (rn_clock r) runID (message_value next) (interruptionPayloads (ms_interruptions next)) (err_text e)))
(fun out => match out with
    | Err saveErr => iofail (ErrWrap (what +:+ " error: " +:+ err_text e +:+ "; recording error: ") saveErr)
    | Ok _ => iofail e
    end).

(** The run's pending call. *)
Definition dispatch_call (runID : string) (call : ToolCall) : RunIO unit :=
iotry (access (Invoke (rn_dispatch r) runID (tc_id call) (tc_operation_id call) (tc_arguments call)))
(fun out => match out with
    | Ok _ => ioret tt
    | Err e =>
        if is_crashed e then iofail e
        else iotry (access (SaveStatusGuarded (rn_fence r) (rn_clock r) runID "failed" "error" (dispatch_payload call e)))
               (fun saved => match saved with
                             | Err saveErr => iofail (ErrWrap ("dispatch error: " +:+ err_text e +:+ "; recording error: ") saveErr)
                             | Ok _ => iofail e
                             end)
    end).

(** The end of a run, or a pause. *)
Definition stop (runID status typ : string) (run : RunRow) : RunIO Round :=
io* _ := access (SaveStatusGuarded (rn_fence r) (rn_clock r) runID status typ (status_payload run)) in
io* final := access (Run runID) in
ioret (Stop final).

(** What becomes of the provider's answer. *)
Definition conclude_turn (runID : string) (run : RunRow) (history : list Message) (next : Message) (failure : option err) : RunIO unit :=
match failure with
| Some e => fail_turn "provider" runID next e
| None =>
match (if str_eqb (ms_role next) "assistant" then validateCalls history next
 else Err (ErrText ("provider returned role " +:+ quote (ms_role next)))) with
| Err e => fail_turn "validation" runID next e
| Ok _ =>
match marshal (history_value (history ++ [next])) with
| None => iofail json_error
| Some transcript =>
  io* _ := access (SaveTurnGuarded (rn_fence r) (rn_clock r) runID (run_step run + 1) transcript (message_value next)
                     (interruptionPayloads (ms_interruptions next))) in
  fire AfterModelResponse runID (run_step run)
end
end
end.

(** One model turn. *)
Definition model_turn (provider : Provider) (runID : string) (run : RunRow) (history : list Message) : RunIO unit :=
io* operations := access (atomically (Exposed runID (mf_operations (rn_manifest r)))) in
io* _ := fire BeforeModelRequest runID (run_step run) in
io* _ := startModelCall runID (request_value run history operations) in
io* _ := fire AfterModelRequest runID (run_step run) in
io* '(next, failure) := callProvider provider (run_task run) history operations in
conclude_turn runID run history next failure.

(** Whether the last message is an assistant's, without calls. *)
Definition finished (history : list Message) : bool :=
match last history with
| Some m => is_role "assistant" m && bool_decide (ms_tool_calls m = [])
| None => false
end.

(** One round of the loop of [Execute]. *)
Definition round (provider : Provider) (runID : string) (maxSteps used : Z) : RunIO Round :=
io* run := access (Run runID) in
if str_eqb (run_status run) "completed" then ioret (Stop run)
else
io* history := iolift (match decode_history (run_transcript run) with Some h => Ok h | None => Err (ErrText "json: transcript") end) in
match pending history with
| Some call => io* _ := dispatch_call runID call in ioret (Again used)
| None =>
if finished history then
io* _ := fire BeforeCompletion runID (run_step run) in
stop runID "completed" "execution.completed" run
else if maxSteps <=? used then stop runID "paused" "execution.paused" run
else io* _ := model_turn provider runID run history in ioret (Again (used + 1))
end.

(** [None] when [fuel] rounds were not enough. *)
Fixpoint execute_loop (fuel : nat) (provider : Provider) (runID : string) (maxSteps used : Z) (x : Exec) : option (res err RunRow * Exec) :=
match fuel with
| O => None
| S fuel' =>
match round provider runID maxSteps used x with
| (Err e, x') => Some (Err e, x')
| (Ok (Stop run), x') => Some (Ok run, x')
| (Ok (Again used'), x') => execute_loop fuel' provider runID maxSteps used' x'
end
end.

(** [Runner.Execute] *)
Definition Execute (fuel : nat) (runID : string) (maxSteps : Z) (x : Exec) : option (res err RunRow * Exec) :=
if maxSteps <? 1 then Some (Err (ErrText "maxSteps must be positive"), x)
else match rn_provider r with
 | None => Some (Err (ErrText "provider is required"), x)
 | Some provider => execute_loop fuel provider runID maxSteps 0 x
 end.
End Runner.
