(* ===== verification/Worker.v ===== *)
(** * Workers (internal/worker/worker.go)

    A worker claims a run, executes it while its lease is renewed alongside,
    and settles the claim: finished, requeued, failed, or fenced when the run
    is no longer its own.  Between any two accesses to the database other
    processes may commit, an access may fail without effect, and the worker may
    be told to stop; a [Surroundings] says what happens when. *)

From S2P Require Export Interrupt Queue Logs Sha256.
Open Scope Z_scope.
Open Scope tx_scope.

(** ** Configuration *)

Definition DefaultLeaseTTL : duration := 30 * second.
Definition DefaultPollInterval : duration := second.
Definition DefaultBackoff : duration := 5 * second.
Definition DefaultMaxAttempts : Z := 3.
Definition minRenewEvery : duration := 100 * millisecond.
Definition IdleHeartbeatEvery : duration := minute.

(** [worker.Config]; the logger is left out, and [OnRenew] only observes. *)
Record Config := MkConfig {
  cf_id : string; cf_host : string; cf_lease_ttl : duration; cf_renew_every : duration; cf_poll_interval : duration;
  cf_backoff : duration; cf_max_attempts : Z; cf_clock : Clock; cf_export_trace : bool }.

(** [Config.withDefaults], for a process of a host (empty when unknown). *)
Definition withDefaults (hostname : string) (pid : Z) (c : Config) : Config :=
  let id := if str_eqb (cf_id c) "" then (if str_eqb hostname "" then "unknown" else hostname) +:+ "-" +:+ itoa pid else cf_id c in
  let host := if str_eqb (cf_host c) "" then hostname else cf_host c in
  let ttl := if cf_lease_ttl c <=? 0 then DefaultLeaseTTL else cf_lease_ttl c in
  let renew := if cf_renew_every c <=? 0 then
                 let third := Z.quot ttl 3 in
                 if (third <? minRenewEvery) && (minRenewEvery <=? Z.quot ttl 2) then minRenewEvery else third
               else cf_renew_every c in
  MkConfig id host ttl renew
    (if cf_poll_interval c <=? 0 then DefaultPollInterval else cf_poll_interval c)
    (if cf_backoff c <=? 0 then DefaultBackoff else cf_backoff c)
    (if cf_max_attempts c <=? 0 then DefaultMaxAttempts else cf_max_attempts c)
    (cf_clock c) (cf_export_trace c).

(** [Config.Validate] *)
Definition Validate (hostname : string) (pid : Z) (c : Config) : res err unit :=
  let c := withDefaults hostname pid c in
  if cf_lease_ttl c <=? cf_renew_every c then
    Err (ErrText ("renew interval " +:+ duration_text (cf_renew_every c) +:+ " must be shorter than the lease TTL " +:+
                  duration_text (cf_lease_ttl c) +:+ ": the first renewal would run after the lease had expired"))
  else Ok tt.

(** ** Outcomes *)

(** [worker.Disposition] *)
Inductive Disposition := Finished | Requeued | Failed | Fenced.
#[export] Instance disposition_eq_dec : EqDecision Disposition.
Proof. solve_decision. Defined.

(** [trace.TraceIDFor] *)
Definition TraceIDFor (runID : string) : string := String.substring 0 32 (digest_hex ("twinwright-trace:" +:+ runID)).

(** [worker.Outcome], without the measured duration; the zero value has no
    disposition. *)
Record Outcome := MkClaimOutcome {
  ou_worker_id : string; ou_run_id : string; ou_fence : Z; ou_attempt : Z; ou_disposition : option Disposition;
  ou_run_status : string; ou_takeover : bool; ou_err : string; ou_trace_id : string; ou_trace_export_queued : bool }.
Definition ended (o : Outcome) (d : Disposition) (err : string) : Outcome :=
  MkClaimOutcome (ou_worker_id o) (ou_run_id o) (ou_fence o) (ou_attempt o) (Some d) (ou_run_status o) (ou_takeover o) err (ou_trace_id o)
    (ou_trace_export_queued o).
Definition with_run_status (status : string) (o : Outcome) : Outcome :=
  MkClaimOutcome (ou_worker_id o) (ou_run_id o) (ou_fence o) (ou_attempt o) (ou_disposition o) status (ou_takeover o) (ou_err o) (ou_trace_id o)
    (ou_trace_export_queued o).
Definition with_export (o : Outcome) : Outcome :=
  MkClaimOutcome (ou_worker_id o) (ou_run_id o) (ou_fence o) (ou_attempt o) (ou_disposition o) (ou_run_status o) (ou_takeover o) (ou_err o)
    (ou_trace_id o) true.

(** ** The worker *)

(** What happens around the worker at its [n]-th access to the database: what
    others commit before it, whether it fails without effect, whether the
    worker's context has ended, and whether a trace export has ended. *)
Record Surroundings := MkSurroundings {
  su_others : nat -> DB -> DB; su_fault : nat -> option err; su_stopped : nat -> option err; su_export_done : nat -> bool }.

(** A worker between two accesses: [ws_heartbeat] is [heartbeatAt], zero for
    never, [ws_in_flight] whether an export runs, [ws_observed] the outcomes
    given to [Observer]. *)
Record WState := MkWState { ws_db : DB; ws_accesses : nat; ws_heartbeat : Z; ws_in_flight : bool; ws_observed : list Outcome }.
Abbreviation WorkIO := (IO WState err).

(** The end of [Execute] and of the renewals that ran alongside it: the run's
    status, the error, and the [leaseLoss]. *)
Record Execution := MkExecution { xc_status : string; xc_err : option err; xc_lost : bool; xc_cause : option err }.

Section Worker.
Context (env : Surroundings) (err_text : err -> string) (cfg : Config).

Definition w_access {A} (m : DbIO A) : WorkIO A := fun w =>
let s := su_others env (ws_accesses w) (ws_db w) in
let next := fun s' => MkWState s' (S (ws_accesses w)) (ws_heartbeat w) (ws_in_flight w) (ws_observed w) in
match su_fault env (ws_accesses w) with
| Some e => (Err e, next s)
| None => let '(out, s') := m s in (out, next s')
end.
(** The clock and the context, as they are now. *)
Definition now : WorkIO time := fun w => (Ok (Clock_Now (cf_clock cfg) (ws_db w)), w).
Definition stopped : WorkIO (option err) := fun w => (Ok (su_stopped env (ws_accesses w)), w).
(** Best effort: the error is only logged. *)
Definition attempt {A} (m : WorkIO A) : WorkIO unit := iotry m (fun _ => ioret tt).

Definition observe (o : Outcome) : WorkIO Outcome := fun w =>
(Ok o, MkWState (ws_db w) (ws_accesses w) (ws_heartbeat w) (ws_in_flight w) (ws_observed w ++ [o])).

(** [exportTrace]: at most one export runs at a time. *)
Definition exportTrace (o : Outcome) : WorkIO Outcome := fun w =>
if negb (cf_export_trace cfg) || negb (bool_decide (ou_disposition o = Some Finished)) || negb (str_eqb (ou_run_status o) "completed") then (Ok o, w)
else if ws_in_flight w && negb (su_export_done env (ws_accesses w)) then (Ok o, w)
else (Ok (with_export o), MkWState (ws_db w) (ws_accesses w) (ws_heartbeat w) true (ws_observed w)).

(** [idleHeartbeat]; a time is its nanoseconds. *)
Definition idleHeartbeat (at_ : time) : WorkIO unit := fun w =>
if negb (ws_heartbeat w =? 0) && (at_ - ws_heartbeat w <? IdleHeartbeatEvery) then (Ok tt, w)
else match w_access (TouchWorker (cf_id cfg) at_) w with
 | (Err _, w') => (Ok tt, w')
 | (Ok _, w') => (Ok tt, MkWState (ws_db w') (ws_accesses w') at_ (ws_in_flight w') (ws_observed w'))
 end.

(** [unsettled] *)
Definition reject_note (lease : RunLease) (reason : string) : WorkIO unit :=
io* at_ := now in attempt (w_access (RecordFenceRejection (FenceOf lease) at_ reason)).
Definition unsettled (lease : RunLease) (o : Outcome) (cause failure : err) : WorkIO (Outcome * option err) :=
if is_fenced cause then
io* _ := reject_note lease (err_text cause) in
io* o := observe (ended o Fenced (err_text cause)) in
ioret (o, None)
else ioret (o, Some failure).

(** A closing write, and what follows it. *)
Definition close (lease : RunLease) (o : Outcome) (write : time -> DbIO unit) (wrap : err -> err) (done : WorkIO (Outcome * option err))
: WorkIO (Outcome * option err) :=
io* at_ := now in
iotry (w_access (write at_)) (fun out =>
match out with
| Err e => unsettled lease o e (wrap e)
| Ok _ => done
end).
Definition report (o : Outcome) : WorkIO (Outcome * option err) := io* o := observe o in ioret (o, None).

(** [settleOverDelivered] *)
Definition settleOverDelivered (lease : RunLease) (entry : QueueEntry) (o : Outcome) : WorkIO (Outcome * option err) :=
iotry (w_access (fun s => (match runs s !! lease_run_id lease with Some r => Ok r | None => Err ErrNoRows end, s))) (fun found =>
match found with
| Err e => ioret (o, Some (ErrWrap "read run past delivery limit: " e))
| Ok run =>
let o := with_run_status (run_status run) o in
if str_eqb (run_status run) "completed" then
let o := ended o Finished (ou_err o) in
close lease o (FinishRun lease) (ErrWrap "mark run finished: ") (io* o := exportTrace o in report o)
else
let o := ended o Failed (DeliveryLimitReason (en_attempts entry) (cf_max_attempts cfg)) in
close lease o (fun at_ => FailRunAtDeliveryLimit lease at_ (en_attempts entry) (cf_max_attempts cfg))
(ErrWrap "fail run at delivery limit: ") (report (with_run_status "failed" o))
end).

(** The [switch] at the end of [ClaimAndRun]. *)
Definition settle_claim (lease : RunLease) (entry : QueueEntry) (o : Outcome) (x : Execution) : WorkIO (Outcome * option err) :=
let o := with_run_status (xc_status x) o in
let fenced e := match e with Some e => is_fenced e | None => false end in
io* halted := stopped in
if fenced (xc_err x) || xc_lost x then
let reason := match xc_cause x, xc_err x with
      | Some cause, _ => err_text cause
      | None, Some e => err_text e
      | None, None => "lease lost during execution"
      end in
io* _ := (if fenced (xc_cause x) || fenced (xc_err x) then reject_note lease reason else ioret tt) in
report (ended o Fenced reason)
else match xc_err x with
| Some e =>
if bool_decide (is_Some halted) && is_cancellation e then
let reason := "worker stopped; the run was returned to the queue" in
io* at_ := now in
iotry (w_access (ReleaseClaim lease at_ reason)) (fun out =>
match out with
| Err e => report (ended o Requeued ("worker stopped; releasing the claim failed, so its lease lapses on its own: " +:+ err_text e))
| Ok _ => report (ended o Requeued reason)
end)
else
let reason := err_text e in
if cf_max_attempts cfg <=? en_attempts entry then
close lease (ended o Failed (ou_err o)) (fun at_ => FailRun lease at_ reason)
(fun w => ErrWrap "mark run failed: " (ErrWrap ("(original error: " +:+ reason +:+ ") ") w)) (report (ended o Failed reason))
else
close lease (ended o Requeued (ou_err o)) (fun at_ => RequeueRun lease at_ (at_ + cf_backoff cfg) reason)
(fun w => ErrWrap "requeue run: " (ErrWrap ("(original error: " +:+ reason +:+ ") ") w)) (report (ended o Requeued reason))
| None =>
close lease (ended o Finished (ou_err o)) (FinishRun lease) (ErrWrap "mark run finished: ")
(io* o := exportTrace (ended o Finished (ou_err o)) in report o)
end.

(** [ClaimAndRun]; [execute] is the execution with its renewals. *)
Definition claim_outcome (lease : RunLease) (entry : QueueEntry) : Outcome :=
MkClaimOutcome (cf_id cfg) (lease_run_id lease) (lease_token lease) (en_attempts entry) None "" (en_takeover entry) ""
(TraceIDFor (lease_run_id lease)) false.
Definition no_outcome : Outcome := MkClaimOutcome (cf_id cfg) "" 0 0 None "" false "" "" false.

Definition ClaimAndRun (config_err : option err) (execute : RunLease -> QueueEntry -> WorkIO Execution) : WorkIO (Outcome * option err) :=
match config_err with
| Some e => ioret (no_outcome, Some e)
| None =>
io* at_ := now in
iotry (w_access (ClaimRun (cf_id cfg) (cf_lease_ttl cfg) at_)) (fun claimed =>
match claimed with
| Err e =>
io* _ := (if is_no_work e then idleHeartbeat at_ else ioret tt) in
ioret (no_outcome, Some e)
| Ok (lease, entry) =>
let o := claim_outcome lease entry in
if cf_max_attempts cfg <? en_attempts entry then settleOverDelivered lease entry o
else io* x := execute lease entry in settle_claim lease entry o x
end)
end.

(** *** Renewal *)

(** A tick of the renewal loop: it goes on with the lease it holds now, ends
because the execution did, or gives the lease up. *)
Inductive Renewal := Renewed (l : RunLease) | RenewalEnded | LeaseLost (cause : err).

Definition lease_expired_error (l : RunLease) (e : err) : err :=
ErrWrap ("lease on run " +:+ lease_run_id l +:+ " expired at " +:+ format_rfc3339nano (lease_expires_at l) +:+ " while renewals were failing: ") e.

(** One round of [renew]. *)
Definition renew_tick (current : RunLease) : WorkIO Renewal :=
io* halted := stopped in
if bool_decide (is_Some halted) then ioret RenewalEnded
else
io* at_ := now in
iotry (w_access (RenewRunLease current (cf_lease_ttl cfg) at_)) (fun out =>
match out with
| Err e =>
io* halted := stopped in
if bool_decide (is_Some halted) then ioret RenewalEnded
else if is_fenced e then ioret (LeaseLost e)
else
io* at_ := now in
if before at_ (lease_expires_at current) then ioret (Renewed current)
else ioret (LeaseLost (lease_expired_error current e))
| Ok renewed =>
io* at_ := now in
io* _ := attempt (w_access (TouchWorker (cf_id cfg) at_)) in
ioret (Renewed renewed)
end).

(** [renew] for a number of ticks. *)
Fixpoint renew (ticks : nat) (current : RunLease) : WorkIO Renewal :=
match ticks with
| O => ioret (Renewed current)
| S ticks' =>
io* out := renew_tick current in
match out with
| Renewed l => renew ticks' l
| out => ioret out
end
end.

(** *** Serving *)

(** [Register] and [Close] *)
Definition Register : WorkIO unit := io* at_ := now in w_access (RegisterWorker (cf_id cfg) (cf_host cfg) at_).
Definition Close : WorkIO unit := io* at_ := now in attempt (w_access (RemoveWorker (cf_id cfg) at_)).

(** The loop of [Serve]; [None] when it was still running after so many
rounds.  Waiting takes no access. *)
Fixpoint serve_loop (rounds : nat) (execute : RunLease -> QueueEntry -> WorkIO Execution) (w : WState) : option WState :=
match rounds with
| O => None
| S rounds' =>
if bool_decide (is_Some (su_stopped env (ws_accesses w))) then Some w
else match ClaimAndRun None execute w with
 | (Ok (_, Some e), w') =>
   if is_no_work e then (if bool_decide (is_Some (su_stopped env (ws_accesses w'))) then Some w' else serve_loop rounds' execute w')
   else if is_cancellation e then Some w'
   else if bool_decide (is_Some (su_stopped env (ws_accesses w'))) then Some w' else serve_loop rounds' execute w'
 | (_, w') => serve_loop rounds' execute w'
 end
end.

(** [Serve] *)
Definition Serve (rounds : nat) (config_err : option err) (execute : RunLease -> QueueEntry -> WorkIO Execution) (w : WState)
: option (res err unit * WState) :=
match config_err with
| Some e => Some (Err e, w)
| None =>
match Register w with
| (Err e, w') => Some (Err (ErrWrap "register worker: " e), w')
| (Ok _, w') => match serve_loop rounds execute w' with
          | Some w'' => Some (Close w'')
          | None => None
          end
end
end.
End Worker.
