(* ===== verification/DispatchFacts.v ===== *)
(** * What tool calls guarantee (internal/dispatch/dispatch.go)

    Theorems about [Invoke] as a whole: atomicity, records, accounting of
    effects, refusals, hidden outcomes and fencing. *)

From S2P Require Export Dispatch.
Open Scope Z_scope.
Open Scope tx_scope.

(** ** Theorems *)

Section Theorems.
Context `{!SqlBind}.

(** A tool call is all or nothing: it either leaves the database exactly as
it was, or commits one result row for a call that had none, together with
its effect; an error after the commit is a simulated process death, and
the effect it leaves is the saved one. *)
Theorem tool_call_atomic d run call operationID args s out s' :
Invoke d run call operationID args s = (out, s') ->
s' = s \/
exists res, tool_results s !! (run, call) = None /\ saved s' run call operationID args res /\
(out = Ok res \/ exists e, out = Err e /\ is_crashed e = true).
Proof.
intros [e|r Hr|arguments op row sg r s1 o Hg Hm Hn Hop Hrow Hd ->]%Invoke_ends; [by left..|]. right. exists r.
split_and!; [done|by eapply dispatch_saves|]. unfold Fire. repeat case_match; simplify_eq; eauto.
Qed.

(** A saved call is answered from its row. *)
Lemma saved_replays d run call operationID args res s :
saved s run call operationID args res -> guard_call d s = Ok (tt, s) \/ is_ok (guard_call d s) = true ->
Invoke d run call operationID args s = (Ok res, s).
Proof.
intros (arguments & Hm & Hrow) Hg. unfold Invoke, invokeTx, tbind at 1.
destruct (guard_call d s) as [[[] sg]|e] eqn:Hgd; [|by destruct Hg]. destruct (guard_call_leases _ _ _ _ Hgd) as [g ->].
unfold tbind at 1. rewrite Hm. cbn [tsome tret]. unfold tbind at 1, sql_get, treads. db_simpl. rewrite Hrow. cbn [tr_operation_id tr_arguments].
rewrite !str_eqb_refl. by destruct res.
Qed.

Lemma saved_refuses d run call operationID args res s operationID' args' :
saved s run call operationID args res -> operationID' <> operationID \/ marshal (VMap args') <> marshal (VMap args) ->
exists e, Invoke d run call operationID' args' s = (Err e, s).
Proof.
intros (arguments & Hm & Hrow) Hne. unfold Invoke, invokeTx, tbind at 1.
destruct (guard_call d s) as [[[] sg]|e] eqn:Hgd; [|by eauto]. destruct (guard_call_leases _ _ _ _ Hgd) as [g ->].
unfold tbind at 1. destruct (marshal (VMap args')) as [arguments'|]; [|by eauto]. cbn [tsome tret].
unfold tbind at 1, sql_get, treads. db_simpl. rewrite Hrow. cbn [tr_operation_id tr_arguments].
assert (str_eqb operationID operationID' && str_eqb arguments arguments' = false) as ->; [|by eauto].
apply andb_false_iff. rewrite !str_eqb_false. destruct Hne as [?|?]; [left|right]; congruence.
Qed.

(** The frame of a whole call. *)
Lemma Invoke_frame d run call operationID args s out s' :
sound_dispatcher d -> Invoke d run call operationID args s = (out, s') ->
exists g w, call_frame run call w (set_run_leases g s) s' /\
(tool_results s !! (run, call) = None \/ s' = s) /\ (forall row, runs s !! run = Some row -> run_world_id row = w).
Proof.
intros Hd [e|r Hr|arguments op row sg r s1 o Hg Hm Hn Hop Hrow Hds ->]%Invoke_ends.
- exists id, (default "" (run_world_id <$> runs s !! run)). split; [by destruct s|]. split; [by right|]. by intros row ->.
- exists id, (default "" (run_world_id <$> runs s !! run)). split; [by destruct s|]. split; [by right|]. by intros row ->.
- destruct (guard_call_leases _ _ _ _ Hg) as [g ->]. exists g, (run_world_id row). split; [|split; [by left|]].
+ eapply dispatch_respects; [done|apply _|apply frame_relation|apply frame_handlers|apply frame_rows|done|exact Hds].
+ intros row'. rewrite Hrow. by intros [= <-].
Qed.

(** Saved results stay, whichever calls follow. *)
Lemma Invoke_keeps_results d run call operationID args s out s' k v :
sound_dispatcher d -> Invoke d run call operationID args s = (out, s') ->
tool_results s !! k = Some v -> tool_results s' !! k = Some v.
Proof.
intros Hd Hi Hk. destruct (Invoke_frame _ _ _ _ _ _ _ _ Hd Hi) as (g & w & Hf & Hn & _).
destruct (decide (k = (run, call))) as [->|Hne].
- destruct Hn as [Hn|Hn]; [congruence|]. by rewrite Hn.
- destruct (frame_calls _ _ _ _ _ Hf k Hne) as [Ht _]. rewrite Ht. exact Hk.
Qed.

Lemma events_prefix run s s' : logs_grow s s' -> Events run s `prefix_of` Events run s'.
Proof. intros [He _]. unfold Events. apply map_prefix, He. Qed.

(** C10. What a call leaves on record: exactly one result row, for this call; a
ledger of the run that starts with the request and ends with the response
of the saved status; a transcript extended by the tool message with the
saved body; and nothing in any other run or world. *)
Theorem tool_call_recorded d run call operationID args s res s' :
sound_dispatcher d -> tool_results s !! (run, call) = None -> Invoke d run call operationID args s = (Ok res, s') ->
saved s' run call operationID args res /\
(exists req mid resp, Events run s' = Events run s ++ req :: mid ++ [resp] /\
 e_type req = "tool.request" /\ e_type resp = "tool.response") /\
(exists row messages next, runs s !! run = Some row /\ decode_transcript (run_transcript row) = Some messages /\
 marshal (VSlice (messages ++ [tool_message call operationID (result_body res) (result_status res)])) = Some next /\
 (run_transcript <$> runs s' !! run) = Some next) /\
(exists w, forall w', w' <> w -> same_world w' s s') /\
(forall r, r <> run -> runs s' !! r = runs s !! r /\ Events r s' = Events r s).
Proof.
intros Hd Hn Hi. pose proof (Invoke_ends _ _ _ _ _ _ _ _ Hi) as He.
inversion He as [|r Hr|arguments op row sg r s1 o Hg Hm _ Hop Hrow Hds Hout]; subst.
{ destruct Hr as (? & _ & Hr). congruence. }
assert (r = res) as -> by (destruct (Fire _ _) in Hout; congruence). clear Hout He Hi.
destruct (guard_call_leases _ _ _ _ Hg) as [g ->].
assert (call_frame run call (run_world_id row) (set_run_leases g s) s') as Hf
by (eapply dispatch_respects; [done|apply _|apply frame_relation|apply frame_handlers|apply frame_rows|done|exact Hds]).
split_and!.
- by eapply dispatch_saves.
- apply dispatch_ok in Hds as (s1 & refused & s2 & inj & s3 & oc & s4 & s5 & answer & s6 & H1 & H2 & H3 & H4 & H5 & H6 & H7).
apply AppendEventTx_ok in H1 as (erow & Herow & ->).
apply record_ok in H7 as (_ & _ & _ & _ & mid & resp & -> & Hresp & _).
assert (logs_grow (set_events (append_log run erow) (set_run_leases g s)) s6) as Hgrow.
{ eapply (frame_logs run call (run_world_id row)), middle_respects; [apply _|done|apply frame_relation|apply frame_handlers|apply frame_rows|done..]. }
apply (events_prefix run) in Hgrow as [l Hl]. rewrite Events_append in Hl.
eexists _, (l ++ mid), resp. split; [|split; [|done]].
+ rewrite Hl. rewrite <- !app_assoc. cbn [app]. reflexivity.
+ cbn. by destruct (event_row_fields _ _ _ _ _ Herow) as [-> _].
- assert (call_frame run call (run_world_id row) (set_run_leases g s) s') as Hf' by exact Hf.
apply dispatch_ok in Hds as (s1 & refused & s2 & inj & s3 & oc & s4 & s5 & answer & s6 & _ & _ & _ & _ & _ & _ & H7).
apply record_ok in H7 as (_ & _ & _ & (messages & next & Hdec & Hnext & Hruns) & _).
exists row, messages, next. split_and!; [done..|].
assert (is_Some (runs s' !! run)) as [r' Hr'].
{ apply frame_row in Hf. db_simpl. rewrite Hrow in Hf. destruct (runs s' !! run); [by eauto|done]. }
rewrite Hruns in Hr' |- *. destruct (runs s6 !! run); done.
- exists (run_world_id row). intros w' Hw'. exact (frame_worlds _ _ _ _ _ Hf w' Hw').
- intros r Hr. destruct (frame_runs _ _ _ _ _ Hf r Hr) as (H1 & H2 & _). split; [exact H1|]. unfold Events. by rewrite H2.
Qed.

(** *** Effects are on record *)

(** The tables of the twins' own data. *)
Definition world_tables (s : DB) :=
(charges s, refunds s, crm_accounts s, crm_notes s, ticket_issues s, ticket_comments s, message_messages s).
Definition is_mutation (e : Event) : bool := contains ["state.mutation"; "chaos.actor_mutation"] (e_type e).
(** A mutation event was appended between two states. *)
Definition recorded (run : string) (s s' : DB) : Prop :=
exists pre e post, Events run s' = Events run s ++ pre ++ e :: post /\ is_mutation e = true.
Definition accounted (run : string) (s s' : DB) : Prop := world_tables s' = world_tables s \/ recorded run s s'.

Lemma recorded_later run s1 s2 s3 : recorded run s1 s2 -> logs_grow s2 s3 -> recorded run s1 s3.
Proof.
intros (pre & e & post & He & Hm) [l Hl]%(events_prefix run). exists pre, e, (post ++ l). split; [|done].
rewrite Hl, He. by rewrite <- !app_assoc.
Qed.
Lemma recorded_earlier run s1 s2 s3 : logs_grow s1 s2 -> recorded run s2 s3 -> recorded run s1 s3.
Proof.
intros [l Hl]%(events_prefix run) (pre & e & post & He & Hm). exists (l ++ pre), e, post. split; [|done].
rewrite He, Hl. by rewrite <- !app_assoc.
Qed.
Lemma recorded_append run typ payload s u s' :
AppendEventTx run typ payload s = Ok (u, s') -> contains ["state.mutation"; "chaos.actor_mutation"] typ = true -> recorded run s s'.
Proof.
intros (row & Hrow & ->)%AppendEventTx_ok Ht. exists [], (event_of run (max_seq run (events s) + 1, row)), [].
split; [apply Events_append|]. unfold is_mutation. cbn. by destruct (event_row_fields _ _ _ _ _ Hrow) as [-> _].
Qed.

(** Statements leave the twins' data alone. *)
Lemma tables_relation run : call_relation run (same world_tables).
Proof.
split; try (intros; first [apply append_respects | apply update_respects | apply respects_modify]; intros; done).
- intros op arguments selected r. unfold Chaos.decide_rule. respects_tac; by apply respects_modify.
- intros rule op arguments st body. unfold Chaos.SaveSnapshot. respects_tac. intros s [] s' ->%sql_insert_or_ignore_ok.
by case_match.
- done.
Qed.
Lemma tables_rows run call : rows_relation run call (same world_tables).
Proof. by split; intros row s [] s' [_ ->]%sql_insert_ok. Qed.

Lemma lookup_handler_ok d behavior e s h s' :
sound_dispatcher d -> lookup_handler d behavior e s = Ok (h, s') -> s' = s /\ Service h.
Proof.
intros Hd. unfold lookup_handler. intros (r & s1 & H1 & H2)%tbind_ok. apply tlift_ok in H1 as [Hr ->].
apply tsome_ok in H2 as [Hl ->]. split; [done|]. by eapply Hd.
Qed.

(** A call's handler changes the twins only with a mutation record. *)
Lemma run_handler_accounted d run call row op operationID args s oc s' :
sound_dispatcher d -> run_handler d run call row op operationID args s = Ok (oc, s') ->
same world_tables s s' \/ is_Some (oc_mutation oc).
Proof.
intros Hd. unfold run_handler. cbv zeta. destruct (_ && (run_fault_consumed row =? 0)).
{ intros Hr. left. apply tbind_ok in Hr as ([] & s1 & ->%sql_update_ok & Hr). apply tbind_ok in Hr as ([] & s2 & H2 & Hr).
injection Hr as _ <-. apply (rel_append run _ (tables_relation run)) in H2. exact H2. }
intros Hr. apply tbind_ok in Hr as ([] & s1 & H1 & Hr). apply tbind_ok in Hr as (h & s2 & H2 & Hr).
apply (lookup_handler_ok _ _ _ _ _ _ Hd) in H2 as [-> Hs]. apply tbind_ok in Hr as ([[st body] m] & s3 & H3 & Hr). injection Hr as <- <-.
cbn [oc_mutation]. destruct m as [m|]; [right; by eauto|left]. apply (service_reads (h := h)) in H3 as ->.
revert H1. destruct (_ && _); [|by intros [= <-]].
intros (seen & s4 & H4 & H5)%tbind_ok. injection H4 as _ <-. destruct seen; [by injection H5 as <-|].
by apply (rel_append run _ (tables_relation run)) in H5.
Qed.

(** An actor that runs is always on record. *)
Lemma actor_recorded d w run decision rule s u s' :
sound_dispatcher d -> invokeActor d w run decision rule s = Ok (u, s') -> recorded run s s'.
Proof.
intros Hd. unfold invokeActor. intros Hr. apply tbind_ok in Hr as (actor & s1 & H1 & Hr). apply tsome_ok in H1 as [_ ->].
apply tbind_ok in Hr as (op & s1 & H1 & Hr). apply tsome_ok in H1 as [_ ->].
apply tbind_ok in Hr as ([] & s1 & H1 & Hr). apply tassert_ok in H1 as [_ [= ->]].
apply tbind_ok in Hr as (h & s1 & H1 & Hr). apply (lookup_handler_ok _ _ _ _ _ _ Hd) in H1 as [-> Hs].
apply tbind_ok in Hr as ([[st body] m] & s1 & H1 & Hr). destruct m as [m|]; [|done].
apply tbind_ok in Hr as ([] & s2 & H2 & Hr). apply tassert_ok in H2 as [_ [= ->]].
eapply recorded_earlier; [|by eapply recorded_append].
eapply (frame_logs run "" w), service_frame, (service_writes (h := h)), H1.
Qed.

Lemma inject_accounted d run call w operationID arguments s inj s' :
sound_dispatcher d -> inject d run call w operationID arguments s = Ok (inj, s') -> accounted run s s'.
Proof.
intros Hd. unfold inject. intros Hr. apply tbind_ok in Hr as (decision & s1 & H1 & Hr).
pose proof (chaos_decide_respects run (same world_tables) (tables_relation run) operationID arguments _ _ _ H1) as Ht1.
pose proof (frame_logs _ _ _ _ _ (chaos_decide_respects run _ (frame_relation run call w) operationID arguments _ _ _ H1)) as Hl1.
destruct (Chaos.TheRule decision) as [rule|]; [|injection Hr as _ <-; by left].
destruct (str_eqb _ _); [injection Hr as _ <-; by left|].
apply tbind_ok in Hr as (effect & s2 & H2 & Hr).
assert (s2 = s1) as ->.
{ revert H2. assert (respects eq (rule_effect run operationID arguments decision rule)) as He; [|intros H2; by apply He in H2].
unfold rule_effect, Chaos.LoadSnapshot. respects_tac. }
apply tbind_ok in Hr as ([] & s3 & H3 & Hr). apply tbind_ok in Hr as ([] & s4 & H4 & Hr). injection Hr as _ <-.
assert (same world_tables s1 s3 /\ logs_grow s1 s3) as [Ht3 Hl3].
{ destruct (ef_post effect); [by injection H3 as <-|].
split; [by apply (rel_append run _ (tables_relation run)) in H3|by apply append_logs in H3]. }
destruct (ef_actor effect).
- right. apply actor_recorded in H4; [|done]. eapply recorded_earlier; [|exact H4]. by etransitivity.
- injection H4 as <-. left. unfold same in *. congruence.
Qed.

(** [stage L] closes a step of a relation by the lemma of its stage. *)
Ltac stage L := solve [eapply L; try apply _; try eassumption; done].

(** C3. No effect without a record: whatever a tool call, the chaos rules and
their actors do to the data of the twins in one [Invoke], the same
transaction appends a mutation event to the run's ledger. *)
Theorem no_unrecorded_effect d run call operationID args s out s' :
sound_dispatcher d -> Invoke d run call operationID args s = (out, s') ->
world_tables s' = world_tables s \/
exists pre e post, Events run s' = Events run s ++ pre ++ e :: post /\
(e_type e = "state.mutation" \/ e_type e = "chaos.actor_mutation").
Proof.
intros Hd [e|r Hr|arguments op row sg r s1 o Hg Hm _ Hop Hrow Hds Hout]%Invoke_ends; [by left..|].
destruct (guard_call_leases _ _ _ _ Hg) as [g ->].
assert (accounted run (set_run_leases g s) s1) as [Ht|(pre & e & post & He & Hmut)].
2:{ by left. }
2:{ right. exists pre, e, post. split; [exact He|]. unfold is_mutation in Hmut. apply contains_spec in Hmut.
apply elem_of_cons in Hmut as [Hmut|Hmut]; [by left|right]. by apply list_elem_of_singleton in Hmut. }
apply dispatch_ok in Hds as (sa & refused & sb & inj & sc & oc & sd & se & answer & sf & H1 & H2 & H3 & H4 & H5 & H6 & H7).
pose proof (tables_relation run) as HT. pose proof (tables_rows run call) as HTR.
pose proof (frame_rows run call (run_world_id row)) as HFR. pose proof (frame_relation run call (run_world_id row)) as HF.
pose proof (frame_handlers run call (run_world_id row)) as HH.
assert (same world_tables (set_run_leases g s) sb /\ logs_grow (set_run_leases g s) sb) as [Htb Hlb].
{ split.
- transitivity sa; [by apply (rel_append _ _ HT) in H1|].
destruct (_ =? 0); [stage authorize_respects|injection H2 as _ <-; reflexivity].
- eapply (frame_logs run call (run_world_id row)). transitivity sa; [by apply (rel_append _ _ HF) in H1|].
destruct (_ =? 0); [stage authorize_respects|injection H2 as _ <-; reflexivity]. }
assert (logs_grow sc sd) as Hld.
{ eapply (frame_logs run call (run_world_id row)).
destruct (in_answer inj); [injection H4 as _ <-; reflexivity|stage run_handler_respects]. }
assert (logs_grow sd sf) as Hlf.
{ eapply (frame_logs run call (run_world_id row)). transitivity se; [stage capture_respects|stage settle_respects]. }
assert (logs_grow sf s1) as Hl1.
{ eapply (frame_logs run call (run_world_id row)). stage record_respects. }
assert (accounted run sb sc) as [Htc|Hrec].
{ destruct refused; [injection H3 as _ <-; by left|by eapply inject_accounted]. }
2:{ right. eapply recorded_earlier; [exact Hlb|]. eapply recorded_later; [exact Hrec|].
transitivity sd; [done|]. by transitivity sf. }
assert (same world_tables sd s1) as Htd1.
{ transitivity se; [stage capture_respects|]. transitivity sf; [stage settle_respects|stage record_respects]. }
assert (same world_tables sc sd \/ is_Some (oc_mutation oc)) as [Htd|[m Hmut]].
{ destruct (in_answer inj); [injection H4 as _ <-; by left|by eapply run_handler_accounted]. }
- left. unfold same in *. congruence.
- right. apply record_ok in H7 as (_ & _ & _ & _ & mid & e & Hev & _ & Htypes). rewrite Hmut in Htypes.
destruct mid as [|e1 [|]]; try discriminate Htypes. injection Htypes as Ht1.
eapply recorded_earlier; [|exists [], e1, [e]; split; [exact Hev|]; unfold is_mutation; by rewrite Ht1].
etransitivity; [exact Hlb|]. transitivity sc; [|by transitivity sd].
destruct refused; [injection H3 as _ <-; reflexivity|].
eapply (frame_logs run call (run_world_id row)). stage inject_respects.
Qed.

(** *** Refused calls *)

(** Whatever a call's rows and log say, its effects live in these tables. *)
Definition effect_tables (s : DB) := (world_tables s, chaos_rule_state s, chaos_snapshots s, chaos_hidden_outcomes s).

Lemma refused_stages d run call operationID op args arguments row s1 a s2 inj s3 oc s4 s5 answer s6 :
(if (validate op args).1 =? 0 then authorize run call (run_world_id row) operationID op args
 else tret (Some (validate op args))) s1 = Ok (Some a, s2) ->
match Some a with
| None => inject d run call (run_world_id row) operationID arguments
| Some a => tret (MkInjected no_decision (Some a) None)
end s2 = Ok (inj, s3) ->
match in_answer inj with
| None => run_handler d run call row op operationID args
| Some a => tret (answered a)
end s3 = Ok (oc, s4) ->
capture run operationID arguments op (in_decision inj) oc s4 = Ok (tt, s5) ->
settle run call inj oc s5 = Ok (answer, s6) ->
answer = a /\ s6 = s2 /\ oc_mutation oc = None.
Proof.
intros _ H3 H4 H5 H6. injection H3 as <- <-. injection H4 as <- <-. unfold capture in H5. cbn in H5. injection H5 as <-.
unfold settle in H6. cbn in H6. injection H6 as <- <-. by destruct a.
Qed.

Lemma record_effects run call operationID arguments transcript mutation answer :
respects (same effect_tables) (record_result run call operationID arguments transcript mutation answer).
Proof.
unfold record_result. respects_tac; try (apply append_same; done); first [by apply update_respects | by intros ? [] ? [_ ->]%sql_insert_ok].
Qed.

Lemma authorize_denied run call w operationID op args s a s' p :
load run s = Ok (Some p, s) -> ~ permitted p s w op args (next_call s run) ->
authorize run call w operationID op args s = Ok (a, s') ->
(exists body, a = Some (400, body) \/ a = Some (403, body)) /\ effect_tables s' = effect_tables s.
Proof.
intros Hl Hp. unfold authorize. intros (d & s1 & H1 & Hr)%tbind_ok.
destruct (decide_denies _ _ _ _ _ _ _ _ Hl H1 Hp) as (He & Ha & Hst).
assert (effect_tables s1 = effect_tables s) as Het by (by destruct Hst as [-> | ->]).
destruct (d_invalid d); [injection Hr as <- <-; by eauto|]. rewrite He, Ha in Hr.
apply tbind_ok in Hr as ([] & s2 & H2 & Hr). injection Hr as <- <-. split; [by eauto|].
apply (append_same effect_tables) in H2; [|done]. congruence.
Qed.

(** A refused call has no effect: when the arguments do not fit the
operation's schema, or the run's policy does not permit the call at its
call number, the caller gets status 400 or 403 and neither the twins' data
nor the chaos counters, snapshots or hidden outcomes change. *)
Theorem refused_call_no_effect d run call operationID args s res s' op row :
tool_results s !! (run, call) = None -> find_operation (dp_manifest d) operationID = Some op -> runs s !! run = Some row ->
Invoke d run call operationID args s = (Ok res, s') ->
(validate op args).1 <> 0 \/
(exists p, load run s = Ok (Some p, s) /\ ~ permitted p s (run_world_id row) op args (next_call s run)) ->
(result_status res = 400 \/ result_status res = 403) /\ effect_tables s' = effect_tables s.
Proof.
intros Hn Hop Hrow Hi Href. apply Invoke_ends in Hi.
inversion Hi as [|r Hr|arguments op' row' sg r s1 o Hg Hm _ Hop' Hrow' Hds Hout]; subst.
{ destruct Hr as (? & _ & Hr). congruence. }
assert (r = res) as -> by (destruct (Fire _ _) in Hout; congruence). clear Hout Hi.
rewrite Hop in Hop'. injection Hop' as <-. rewrite Hrow in Hrow'. injection Hrow' as <-.
destruct (guard_call_leases _ _ _ _ Hg) as [g ->].
apply dispatch_ok in Hds as (sa & refused & sb & inj & sc & oc & sd & se & answer & sf & H1 & H2 & H3 & H4 & H5 & H6 & H7).
apply AppendEventTx_ok in H1 as (erow & _ & ->).
assert ((exists body, refused = Some (400, body) \/ refused = Some (403, body)) /\ effect_tables sb = effect_tables s) as [(body & Hb) Hsb].
{ pose proof H2 as H2'. destruct (Z.eqb_spec (validate op args).1 0) as [Hz|Hz] in H2.
- destruct Href as [?|(p & Hl & Hp)]; [done|].
refine (authorize_denied _ _ _ _ _ _ _ _ _ _ _ _ H2).
+ by eapply load_auth; [|exact Hl].
+ intros Hper. apply Hp. revert Hper. apply permitted_tables. reflexivity.
- injection H2 as <- <-. split; [|done]. revert Hz. unfold validate. repeat case_match; cbn; intros; eauto; done. }
assert (exists a, refused = Some a /\ (a.1 = 400 \/ a.1 = 403)) as (a & -> & Ha) by (destruct Hb as [-> | ->]; eauto).
destruct (refused_stages _ _ _ _ _ _ _ _ _ _ _ _ _ _ _ _ _ _ H2 H3 H4 H5 H6) as (-> & -> & Hmut).
pose proof (record_effects _ _ _ _ _ _ _ _ _ _ H7) as Heff. apply record_ok in H7 as (_ & Hst & _).
split; [by rewrite Hst|]. unfold same in Heff. congruence.
Qed.

(** *** Hidden outcomes *)

Definition timeout_body : string := default "" (marshal (error_body "simulated transport timeout")).

(** How the effects after the handler end. *)
Lemma settle_ok run call inj oc s answer s' :
settle run call inj oc s = Ok (answer, s') ->
(chaos_hidden_outcomes s' = chaos_hidden_outcomes s /\ answer = (oc_status oc, oc_response oc)) \/
exists rule payload actual, in_post inj = Some (rule, payload) /\ oc_ran oc = true /\ marshal (oc_response oc) = Some actual /\
chaos_hidden_outcomes s' !! (run, call) = Some (MkHidden (Chaos.RuleID (in_decision inj)) (oc_status oc) actual) /\
if str_eqb (Chaos.r_type rule) "timeout_after_commit"
then success (oc_status oc) = true /\ is_Some (oc_mutation oc) /\ answer = (0, error_body "simulated transport timeout")
else answer = (oc_status oc, VString (Chaos.r_body rule)).
Proof.
unfold settle. destruct (in_post inj) as [[rule payload]|]; [|intros [= <- <-]; by left].
intros Hr. apply tbind_ok in Hr as ([] & s1 & H1 & Hr). apply tassert_ok in H1 as [Hran [= ->]].
destruct (str_eqb (Chaos.r_type rule) "timeout_after_commit" && _) eqn:Hkeep.
{ apply tbind_ok in Hr as ([] & s1 & ->%sql_update_ok & Hr). injection Hr as <- <-. by left. }
apply tbind_ok in Hr as (actual & s1 & H1 & Hr). apply tsome_ok in H1 as [Hact ->].
apply tbind_ok in Hr as ([] & s1 & [_ ->]%sql_insert_ok & Hr).
apply tbind_ok in Hr as ([] & s2 & (erow & _ & ->)%AppendEventTx_ok & Hr). injection Hr as <- <-.
right. exists rule, payload, actual. split_and!; [done..|by apply lookup_insert_eq|].
destruct (str_eqb (Chaos.r_type rule) "timeout_after_commit"); [|done]. cbn [andb] in Hkeep.
apply negb_false_iff, andb_true_iff in Hkeep as [Hs Hm]. by apply bool_decide_eq_true in Hm.
Qed.

(** Before that, no stage adds a hidden outcome. *)
Lemma hidden_relation run : call_relation run (same chaos_hidden_outcomes).
Proof.
split; try (intros; first [apply append_respects | apply update_respects | apply respects_modify]; intros; done).
- intros op arguments selected r. unfold Chaos.decide_rule. respects_tac; by apply respects_modify.
- intros rule op arguments st body. unfold Chaos.SaveSnapshot. respects_tac. intros s [] s' ->%sql_insert_or_ignore_ok.
by case_match.
- done.
Qed.
Lemma hidden_handlers w : handler_relation w (same chaos_hidden_outcomes).
Proof.
intros h Hs _ run' call' b args s x s' Hr. destruct (service_writes (h := h) _ _ _ _ _ _ _ _ Hr) as [Ho _].
unfold same, outside_services in *. by injection Ho.
Qed.
Lemma record_hidden run call operationID arguments transcript mutation answer :
respects (same chaos_hidden_outcomes) (record_result run call operationID arguments transcript mutation answer).
Proof.
unfold record_result. respects_tac; try (apply append_same; done); first [by apply update_respects | by intros ? [] ? [_ ->]%sql_insert_ok].
Qed.

(** A timeout after the commit hides an effect, never loses one: when a
call adds a hidden outcome, either the caller saw a transport timeout
while the handler's 2xx answer was kept and its mutation recorded in the
same transaction, or (a malformed response) the caller saw the handler's
own status. *)
Theorem hidden_outcome_is_committed d run call operationID args s res s' h :
sound_dispatcher d -> tool_results s !! (run, call) = None -> chaos_hidden_outcomes s !! (run, call) = None ->
Invoke d run call operationID args s = (Ok res, s') -> chaos_hidden_outcomes s' !! (run, call) = Some h ->
(res = MkResult 0 timeout_body /\ success (hid_status h) = true /\
 exists e, e ∈ Events run s' /\ e_type e = "state.mutation") \/
result_status res = hid_status h.
Proof.
intros Hd Hn Hnh Hi Hh. apply Invoke_ends in Hi.
inversion Hi as [|r Hr|arguments op row sg r s1 o Hg Hm _ Hop Hrow Hds Hout]; subst.
{ destruct Hr as (? & _ & Hr). congruence. }
assert (r = res) as -> by (destruct (Fire _ _) in Hout; congruence). clear Hout Hi.
destruct (guard_call_leases _ _ _ _ Hg) as [g ->].
apply dispatch_ok in Hds as (sa & refused & sb & inj & sc & oc & sd & se & answer & sf & H1 & H2 & H3 & H4 & H5 & H6 & H7).
pose proof (hidden_relation run) as HR. pose proof (hidden_handlers (run_world_id row)) as HH.
assert (same chaos_hidden_outcomes (set_run_leases g s) se) as Hsame.
{ transitivity sa; [by apply (rel_append _ _ HR) in H1|]. transitivity sb.
{ destruct (_ =? 0); [stage authorize_respects|injection H2 as _ <-; reflexivity]. }
transitivity sc. { destruct refused; [injection H3 as _ <-; reflexivity|stage inject_respects]. }
transitivity sd. { destruct (in_answer inj); [injection H4 as _ <-; reflexivity|stage run_handler_respects]. }
stage capture_respects. }
pose proof (record_hidden _ _ _ _ _ _ _ _ _ _ H7) as Hrec. unfold same in Hsame, Hrec.
rewrite Hrec in Hh. apply record_ok in H7 as (_ & Hst & Hbody & _ & mid & e & Hev & _ & Htypes).
apply settle_ok in H6 as [[Hx _]|(rule & payload & actual & _ & _ & Hact & Hx & Hans)].
{ rewrite Hx, Hsame in Hh. db_simpl. congruence. }
rewrite Hx in Hh. injection Hh as <-. cbn [hid_status].
destruct (str_eqb (Chaos.r_type rule) "timeout_after_commit"); [left|right; by rewrite Hst, Hans].
destruct Hans as (Hsucc & [m Hmut] & ->). cbn [fst snd] in *. split; [|split; [done|]].
- destruct res as [st body]. cbn in *. subst st. f_equal. unfold timeout_body. by rewrite Hbody.
- rewrite Hmut in Htypes. destruct mid as [|e1 [|]]; try discriminate Htypes. injection Htypes as Ht.
exists e1. split; [|done]. rewrite Hev. apply elem_of_app. right. left.
Qed.

(** *** Fencing *)

Lemma lost_lease_rejected d f run call operationID args s :
leases_ok s -> dp_fence d = Some f -> fence_run_id f <> "" -> fence_owner f <> "" -> valid_time (Clock_Now (dp_clock d) s) ->
(forall lease e, run_leases s !! fence_run_id f = Some lease -> ls_owner lease = fence_owner f -> ls_fence lease = fence_token f ->
 ls_expires_at lease = CoordinationTime e -> valid_time e -> e <= Clock_Now (dp_clock d) s) ->
exists e, Invoke d run call operationID args s = (Err e, s) /\ is_fenced e = true.
Proof.
intros Hok Hf Hr Ho Hnow Hlost. unfold Invoke, invokeTx, tbind at 1, guard_call. rewrite Hf. unfold tbind at 1, treads.
destruct (GuardFenceTx f (Clock_Now (dp_clock d) s) s) as [[u s1]|e] eqn:Hg.
- apply guard_ok_iff in Hg as (_ & _ & lease & e & Hl & Hown & Htok & Hexp & Hve & Hlt & _); [|done..].
pose proof (Hlost _ _ Hl Hown Htok Hexp Hve). lia.
- exists e. split; [done|]. by eapply guard_err_fenced.
Qed.

(** A worker that lost its run cannot dispatch: unless the fence it calls
under is the run's current one and still live, the call fails as fenced
out, whatever it asks for, and nothing is read or written. *)
Theorem fenced_out_call_rejected d f run call operationID args s :
leases_ok s -> dp_fence d = Some f -> fence_run_id f <> "" -> fence_owner f <> "" -> valid_time (Clock_Now (dp_clock d) s) ->
(forall lease e, run_leases s !! fence_run_id f = Some lease -> ls_owner lease = fence_owner f -> ls_fence lease = fence_token f ->
 ls_expires_at lease = CoordinationTime e -> valid_time e -> e <= Clock_Now (dp_clock d) s) ->
exists e, Invoke d run call operationID args s = (Err e, s) /\ is_fenced e = true.
Proof. apply lost_lease_rejected. Qed.

(** *** Validation *)

(** A value of a declared type. *)
Definition fits (typ : string) (v : goval) : Prop :=
(typ = "string" -> exists s, v = VString s /\ s <> "") /\
(typ = "integer" -> (exists z, v = VInt z) \/ (exists lit, v = VNumber lit) \/ exists f, v = VFloat f /\ float_is_int f = true).

Lemma valid_value_fits typ v : valid_value typ v = true <-> fits typ v.
Proof.
unfold valid_value, fits. destruct (str_eqb typ "string") eqn:Hs; bool_inv.
{ subst. split.
- destruct v; try done. intros Hne. bool_inv. split; [by eauto|done].
- intros [Hv _]. destruct (Hv eq_refl) as (s & -> & Hne). by apply negb_true_iff, str_eqb_false. }
destruct (str_eqb typ "integer") eqn:Hi; bool_inv.
{ subst. split.
- destruct v; try done; intros; (split; [done|]); eauto 6.
- intros [_ Hv]. by destruct (Hv eq_refl) as [[z ->]|[[lit ->]|(f & -> & Hf)]]. }
split; [|done]. by split.
Qed.

Lemma argument_problem_None op args name :
argument_problem op args name = None <-> exists typ, alookup (op_properties op) name = Some typ /\ fits typ (arg args name).
Proof.
unfold argument_problem. destruct (alookup (op_properties op) name) as [typ|]; [|naive_solver].
split.
- destruct (valid_value typ _) eqn:Hv; [|done]. intros _. exists typ. split; [done|by apply valid_value_fits].
- intros (t & [= <-] & Ht%valid_value_fits). by rewrite Ht.
Qed.

Lemma omap_nil_iff {A B} (f : A -> option B) l : head (omap f l) = None <-> forall x, x ∈ l -> f x = None.
Proof.
induction l as [|x l IH]; cbn; [split; [intros _ x Hx; by apply elem_of_nil in Hx|done]|].
destruct (f x) as [y|] eqn:Hf; cbn.
- split; [done|]. intros Hall. specialize (Hall x (list_elem_of_here _ _)). congruence.
- rewrite IH. split; [|intros Hall y Hy; apply Hall; by right]. by intros Hall y [->|Hy]%elem_of_cons; [|apply Hall].
Qed.

Lemma sort_strings_elem l x : x ∈ sort_strings l <-> x ∈ l.
Proof. unfold sort_strings. by rewrite merge_sort_Permutation. Qed.

(** C12. Schema validation is exact: a call passes exactly when every required
name is present and every argument is declared and fits its type (a
nonempty string, or an integer in any of its Go forms); otherwise the
answer is 400 and does not depend on the order of the argument map. *)
Theorem validate_exact op args :
((validate op args).1 = 0 <->
 (forall n, n ∈ op_required op -> n ∈ map fst args) /\
 (forall n, n ∈ map fst args -> exists typ, alookup (op_properties op) n = Some typ /\ fits typ (arg args n))) /\
((validate op args).1 = 0 \/ (validate op args).1 = 400) /\
(forall args', NoDup (map fst args) -> args' ≡ₚ args -> validate op args' = validate op args).
Proof.
split; [|split].
- unfold validate. destruct (List.find _ (op_required op)) as [n|] eqn:Hreq; cbn.
+ apply find_some in Hreq as [Hin Hn]. split; [done|]. intros [Hall _]. bool_inv.
specialize (Hall n (proj2 (list_elem_of_In _ _) Hin)). apply contains_spec in Hall. congruence.
+ assert (forall n, n ∈ op_required op -> n ∈ map fst args) as Hall.
{ intros n Hn. apply contains_spec. pose proof (find_none _ _ Hreq n (proj1 (list_elem_of_In _ _) Hn)) as Hc. by apply negb_false_iff in Hc. }
assert (head (omap (argument_problem op args) (sort_strings (map fst args))) = None <->
forall n, n ∈ map fst args -> exists typ, alookup (op_properties op) n = Some typ /\ fits typ (arg args n)) as Hh.
{ rewrite omap_nil_iff. setoid_rewrite sort_strings_elem. by setoid_rewrite argument_problem_None. }
destruct (head _); cbn; [split; [done|]|by split; [split; [|apply Hh]|]]. intros [_ Hfit]. by apply Hh in Hfit.
- unfold validate. repeat case_match; cbn; tauto.
- intros args' Hnd Hp. unfold validate.
assert (forall n, arg args' n = arg args n) as Harg.
{ intros n. unfold arg. f_equal. symmetry. apply alookup_permutation; [done|by symmetry]. }
assert (map fst args' ≡ₚ map fst args) as Hpm by (by apply Permutation_map).
assert (forall n, contains (map fst args') n = contains (map fst args) n) as Hcon.
{ intros n. apply eq_true_iff_eq. by rewrite !contains_spec, Hpm. }
assert (forall n, argument_problem op args' n = argument_problem op args n) as Hpr.
{ intros n. unfold argument_problem. by rewrite Harg. }
rewrite (sort_strings_permutation _ _ Hpm).
assert (List.find (fun n => negb (contains (map fst args') n)) (op_required op) =
List.find (fun n => negb (contains (map fst args) n)) (op_required op)) as ->.
{ induction (op_required op) as [|n l IH]; cbn; [done|]. rewrite (Hcon n). by destruct (contains (map fst args) n). }
assert (omap (argument_problem op args') (sort_strings (map fst args)) = omap (argument_problem op args) (sort_strings (map fst args))) as ->;
[|done].
apply list_omap_ext. by apply Forall_Forall2_diag, Forall_true.
Qed.
End Theorems.

(** ** An example: one refund, plain and behind a timeout *)
Module DispatchDemo.
Definition refund_op : Operation :=
MkOperation "createRefund" "" "POST" "/refunds" "billing.createRefund" ["charge_id"; "amount_cents"; "reason"]
[("charge_id", "string"); ("amount_cents", "integer"); ("reason", "string")].
Definition dispatcher (fence : option Fence) : Dispatcher := MkDispatcher (MkManifest "" [refund_op] None) None fence None None.
Definition db : DB :=
set_runs (insert "R-1" (MkRun "W-1" "billing" "scripted" "" "task" "running" 1 "[]" "" 0 "")) Billing.demo.
Definition slow_rule : Chaos.Rule := Chaos.MkRule "slow" "timeout_after_commit" ["createRefund"] 0 1 0 0 "" None.
Definition slow_text : string := default "" (Chaos.CanonicalJSON (Chaos.MkChaos 1 [slow_rule])).
Definition slow_db : DB := set_run_chaos (insert "R-1" (MkPolicy slow_text (digest_hex slow_text))) db.
Definition call (args : list (string * goval)) (s : DB) : res err Result * DB :=
Invoke (dispatcher None) "R-1" "call-1" "createRefund" args s.
Lemma sound f : sound_dispatcher (dispatcher f).
Proof. by apply builtin_sound. Qed.
Lemma ok s args : is_ok (call args s).1 = true -> exists res s', call args s = (Ok res, s').
Proof. destruct (call args s) as [[res|e] s']; [by eauto|done]. Qed.
Lemma refund_ok : is_ok (call (Billing.demo_args 300) db).1 = true.
Proof. vm_compute. reflexivity. Qed.
Lemma slow_ok : is_ok (call (Billing.demo_args 300) slow_db).1 = true.
Proof. vm_compute. reflexivity. Qed.
Lemma refused_ok : is_ok (call [] db).1 = true.
Proof. vm_compute. reflexivity. Qed.
Lemma leases_empty : leases_ok db.
Proof. intros r row Hr. change ((∅ : gmap string LeaseRow) !! r = Some row) in Hr. by rewrite lookup_empty in Hr. Qed.
End DispatchDemo.

Lemma tool_call_atomic_witness :
  exists res s', DispatchDemo.call (Billing.demo_args 300) DispatchDemo.db = (Ok res, s') /\
    (s' = DispatchDemo.db \/ saved s' "R-1" "call-1" "createRefund" (Billing.demo_args 300) res).
Proof.
  destruct (DispatchDemo.ok _ _ DispatchDemo.refund_ok) as (res & s' & Hc). exists res, s'. split; [exact Hc|].
  destruct (tool_call_atomic (DispatchDemo.dispatcher None) "R-1" "call-1" "createRefund" (Billing.demo_args 300) DispatchDemo.db _ _ Hc)
    as [Hs|(r & _ & Hs & [Ho|(e & Ho & _)])]; [left; exact Hs| |discriminate Ho].
  right. injection Ho as ->. exact Hs.
Defined.

Lemma tool_call_recorded_witness :
  exists res s', DispatchDemo.call (Billing.demo_args 300) DispatchDemo.db = (Ok res, s') /\
    saved s' "R-1" "call-1" "createRefund" (Billing.demo_args 300) res.
Proof.
  destruct (DispatchDemo.ok _ _ DispatchDemo.refund_ok) as (res & s' & Hc). exists res, s'. split; [exact Hc|].
  exact (proj1 (tool_call_recorded (DispatchDemo.dispatcher None) "R-1" "call-1" "createRefund" (Billing.demo_args 300) DispatchDemo.db
    res s' (DispatchDemo.sound None) (lookup_empty _) Hc)).
Defined.

Lemma no_unrecorded_effect_witness :
  exists res s' e, DispatchDemo.call (Billing.demo_args 300) DispatchDemo.db = (Ok res, s') /\ e ∈ Events "R-1" s' /\ is_mutation e = true.
Proof.
  destruct (DispatchDemo.ok _ _ DispatchDemo.refund_ok) as (res & s' & Hc).
  destruct (no_unrecorded_effect (DispatchDemo.dispatcher None) "R-1" "call-1" "createRefund" (Billing.demo_args 300) DispatchDemo.db
    _ _ (DispatchDemo.sound None) Hc) as [Hsame|(pre & e & post & Hev & Ht)].
  - exfalso. assert (chg_refunded_cents <$> charges s' !! ("W-1", "CH-1") = Some 300) as Hp.
    { transitivity (chg_refunded_cents <$> charges (DispatchDemo.call (Billing.demo_args 300) DispatchDemo.db).2 !! ("W-1", "CH-1"));
        [rewrite Hc; reflexivity|vm_compute; reflexivity]. }
    apply (f_equal (fun t => t.1.1.1.1.1.1)) in Hsame. cbn in Hsame. rewrite Hsame in Hp. vm_compute in Hp. discriminate Hp.
  - exists res, s', e. split; [exact Hc|]. split; [rewrite Hev; apply elem_of_app; right; apply elem_of_app; right; left|].
    unfold is_mutation. destruct Ht as [-> | ->]; reflexivity.
Defined.

Lemma refused_call_no_effect_witness :
  exists res s', DispatchDemo.call [] DispatchDemo.db = (Ok res, s') /\ effect_tables s' = effect_tables DispatchDemo.db.
Proof.
  destruct (DispatchDemo.ok _ _ DispatchDemo.refused_ok) as (res & s' & Hc). exists res, s'. split; [exact Hc|].
  refine (proj2 (refused_call_no_effect (DispatchDemo.dispatcher None) "R-1" "call-1" "createRefund" [] DispatchDemo.db res s'
    DispatchDemo.refund_op _ (lookup_empty _) eq_refl eq_refl Hc _)). left. vm_compute. discriminate.
Defined.

Lemma hidden_outcome_is_committed_witness :
  exists res s', DispatchDemo.call (Billing.demo_args 300) DispatchDemo.slow_db = (Ok res, s') /\ res = MkResult 0 timeout_body /\
    exists e, e ∈ Events "R-1" s' /\ e_type e = "state.mutation".
Proof.
  destruct (DispatchDemo.ok _ _ DispatchDemo.slow_ok) as (res & s' & Hc). exists res, s'. split; [exact Hc|].
  assert (hid_status <$> chaos_hidden_outcomes s' !! ("R-1", "call-1") = Some 201 /\ result_status res = 0) as [Hh Hst].
  { split.
    - transitivity (hid_status <$> chaos_hidden_outcomes (DispatchDemo.call (Billing.demo_args 300) DispatchDemo.slow_db).2 !! ("R-1", "call-1"));
        [rewrite Hc; reflexivity|vm_compute; reflexivity].
    - transitivity (match (DispatchDemo.call (Billing.demo_args 300) DispatchDemo.slow_db).1 with Ok r => result_status r | Err _ => 1 end);
        [rewrite Hc; reflexivity|vm_compute; reflexivity]. }
  destruct (chaos_hidden_outcomes s' !! ("R-1", "call-1")) as [h|] eqn:Hrow; [|discriminate Hh]. injection Hh as Hh.
  destruct (hidden_outcome_is_committed (DispatchDemo.dispatcher None) "R-1" "call-1" "createRefund" (Billing.demo_args 300) DispatchDemo.slow_db
    res s' h (DispatchDemo.sound None) (lookup_empty _) (lookup_empty _) Hc Hrow) as [(Hr & _ & He)|He]; [split; [exact Hr|exact He]|].
  exfalso. rewrite Hst, Hh in He. discriminate He.
Defined.

Lemma fenced_out_call_rejected_witness :
  exists e, Invoke (DispatchDemo.dispatcher (Some (MkFence "R-1" "w-1" 1))) "R-1" "call-1" "createRefund" [] DispatchDemo.db
            = (Err e, DispatchDemo.db) /\ is_fenced e = true.
Proof.
  refine (fenced_out_call_rejected (DispatchDemo.dispatcher (Some (MkFence "R-1" "w-1" 1))) (MkFence "R-1" "w-1" 1) "R-1" "call-1" "createRefund" []
    DispatchDemo.db DispatchDemo.leases_empty eq_refl ltac:(discriminate) ltac:(discriminate) _ _).
  - vm_compute. split; [discriminate|reflexivity].
  - intros lease e Hl. change ((∅ : gmap string LeaseRow) !! "R-1" = Some lease) in Hl. rewrite lookup_empty in Hl. discriminate Hl.
Defined.
