(* ===== verification/System.v ===== *)
(** * Workers, control plane and tool calls together

    A step of the system is any store operation of internal/store or any tool
    call of internal/dispatch, by any worker, under any fence, in any order;
    each is one transaction, and a crash loses the process but not what it
    committed.  The theorems are about every sequence of such steps. *)

From S2P Require Export DispatchFacts Coordination.
Open Scope Z_scope.
Open Scope tx_scope.

(** The tables the store operations never write. *)
Definition call_tables (s : DB) :=
  ((worlds s, customers s, invoices s, subscriptions s, crm_contacts s, ticket_projects s, message_workspaces s),
   (message_channels s, message_members s, world_tables s), (tool_results s, run_chaos s, chaos_rule_state s, chaos_snapshots s),
   (chaos_hidden_outcomes s, run_auth s, auth_state s)).

(** What a run is created with. *)
Definition run_config (r : RunRow) :=
  (run_world_id r, run_scenario r, run_provider r, run_model r, run_task r, run_fault_operation r, run_principal_id r).
(** The store operations' effect on a part [f] of the database: none. *)
Class Blind {X} (f : DB -> X) : Prop := {
  blind_events g s : f (set_events g s) = f s;
  blind_runs r h s : (forall row, run_config (h row) = run_config row) -> f (set_runs (alter h r) s) = f s;
  blind_leases g s : f (set_run_leases g s) = f s;
  blind_queue g s : f (set_work_queue g s) = f s;
  blind_workers g s : f (set_workers g s) = f s;
  blind_log g s : f (set_run_ownership_log g s) = f s }.
#[export] Instance call_tables_blind : Blind call_tables.
Proof. by split. Qed.
#[export] Instance wall_blind : Blind wall.
Proof. by split. Qed.
(** How the runs are configured: what they were created with, and their
    policies. *)
Definition configuration (s : DB) := (run_config <$> runs s, run_auth s, run_chaos s).
#[export] Instance configuration_blind : Blind configuration.
Proof.
  split; try done. intros r h s Hh. unfold configuration. db_simpl. f_equal. f_equal. apply map_eq. intros k. rewrite !lookup_fmap, lookup_alter.
  case_decide; [subst|done]. destruct (runs s !! k); cbn; [by rewrite Hh|done].
Qed.

Section Blindness.
Context {X} (f : DB -> X) `{!Blind f}.

Lemma append_blind run typ payload : respects (same f) (AppendEventTx run typ payload).
Proof. apply append_same. intros. apply blind_events. Qed.
Lemma own_blind r kind owner fence now detail : respects (same f) (appendOwnershipTx r kind owner fence now detail).
Proof. apply own_respects. intros. apply blind_log. Qed.
Lemma lease_blind r cond h : respects (same f) (update_lease_where r cond h).
Proof. intros s b s'. unfold update_lease_where. repeat case_match; intros [= <- <-]; [apply blind_leases|done..]. Qed.
Lemma modify_blind g : (forall s, f (g s) = f s) -> respects (same f) (tmodify (E:=err) g).
Proof. intros Hg. apply respects_modify. exact Hg. Qed.
#[local] Hint Resolve append_blind own_blind lease_blind : tx.
#[local] Hint Extern 2 (respects (same f) (sql_update _ _ _)) => (apply modify_blind; intros; first [apply blind_runs; reflexivity | apply blind_leases | apply blind_queue | apply blind_workers]) : tx.
#[local] Hint Extern 2 (respects (same f) (update_run _ _)) => (apply modify_blind; intros; first [apply blind_runs; reflexivity | apply blind_leases | apply blind_queue | apply blind_workers]) : tx.
#[local] Hint Extern 2 (respects (same f) (touch_worker _ _ _)) => (apply modify_blind; intros; first [apply blind_runs; reflexivity | apply blind_leases | apply blind_queue | apply blind_workers]) : tx.
#[local] Hint Extern 2 (respects (same f) (tmodify _)) => (apply modify_blind; intros; first [apply blind_runs; reflexivity | apply blind_leases | apply blind_queue | apply blind_workers]) : tx.

Lemma saveTurnTx_blind run step transcript response ints : respects (same f) (saveTurnTx run step transcript response ints).
Proof. unfold saveTurnTx, appendInterruptionsTx. respects_tac. Qed.
Lemma failModelTurnTx_blind run response message : respects (same f) (failModelTurnTx run response message).
Proof. unfold failModelTurnTx. respects_tac. Qed.
Lemma saveStatusTx_blind run status typ payload : respects (same f) (saveStatusTx run status typ payload).
Proof. unfold saveStatusTx. respects_tac. Qed.
Lemma guard_blind fence now : respects (same f) (GuardFenceTx fence now).
Proof. unfold GuardFenceTx. respects_tac. Qed.
Lemma acquire_blind r owner ttl now tk : respects (same f) (acquireRunLeaseTx r owner ttl now tk).
Proof. unfold acquireRunLeaseTx. respects_tac. intros s u s' ->%sql_insert_or_ignore_ok. case_match; [done|apply blind_leases]. Qed.
Lemma complete_blind l now state kind reason availableAt :
respects (same f) (completeQueueEntryTx l now state kind reason availableAt).
Proof. unfold completeQueueEntryTx. respects_tac. Qed.
#[local] Hint Resolve saveTurnTx_blind failModelTurnTx_blind saveStatusTx_blind guard_blind acquire_blind complete_blind : tx.
Lemma claimOnce_blind owner ttl now skip : respects (same f) (claimOnce owner ttl now skip).
Proof. unfold claimOnce. respects_tac. Qed.

Lemma atomically_blind {A} (m : DbTx A) s : respects (same f) m -> same f s (snd (atomically m s)).
Proof. intros Hm. destruct (atomically m s) as [r s'] eqn:H. eapply atomically_respects; [apply _|done|done]. Qed.
Lemma claim_loop_blind n owner ttl now skip s : same f s (snd (claim_loop n owner ttl now skip s)).
Proof.
revert skip s. induction n as [|n IH]; intros skip s; cbn [claim_loop]; [done|]. unfold iotry.
pose proof (atomically_blind _ s (claimOnce_blind owner ttl now skip)) as H1.
destruct (atomically (claimOnce owner ttl now skip) s) as [r1 s1]. cbn in H1.
destruct r1 as [a|[]]; try done. etransitivity; [exact H1|apply IH].
Qed.

(** Every store operation but the tick of the clock. *)
Lemma exec_same op s : (forall t, op <> OpTick t) -> same f s (snd (exec op s)).
Proof.
intros Ht. destruct op; cbn [exec]; unfold void; cbn [snd]; try (apply atomically_blind; respects_tac; done).
- unfold ClaimRun. destruct (str_eqb owner ""); [done|apply claim_loop_blind].
- apply atomically_blind. unfold appendInterruptionsTx. respects_tac.
- unfold RemoveWorker, atomically. destruct (_ && _); [|done]. apply blind_workers.
- by destruct (Ht t).
Qed.
End Blindness.

(** Store operations leave the calls' tables alone, and only a tick moves the
    clock, to an instant the layouts can carry. *)
Lemma exec_blind op s : same call_tables s (snd (exec op s)).
Proof.
  assert ((exists t, op = OpTick t) \/ forall t, op <> OpTick t) as [[t ->]|Ht] by (destruct op; naive_solver); [done|].
  by apply exec_same; [apply _|].
Qed.
Lemma exec_wall op s : op_ok s op -> valid_time (wall s) -> valid_time (wall (snd (exec op s))).
Proof.
  intros Hop Hw. assert ((exists t, op = OpTick t) \/ forall t, op <> OpTick t) as [[t ->]|Ht] by (destruct op; naive_solver); [done|].
  pose proof (exec_same wall op s Ht) as Hs. unfold same in Hs. by rewrite Hs.
Qed.

(** ** Steps *)

Section System.
Context `{!SqlBind}.

Inductive sys_step (s : DB) : DB -> Prop :=
| step_store op : op_ok s op -> sys_step s (snd (exec op s))
| step_call d run call operationID args out s' :
sound_dispatcher d -> valid_time (Clock_Now (dp_clock d) s) ->
Invoke d run call operationID args s = (out, s') -> sys_step s s'.
Definition sys_steps : DB -> DB -> Prop := rtc sys_step.

(** *** Coordination under tool calls *)

Lemma guard_call_coord d s u s' :
valid_time (Clock_Now (dp_clock d) s) -> guard_call d s = Ok (u, s') -> coord_evolves s s' /\ logs_grow s s' /\ same call_tables s s'.
Proof.
unfold guard_call. intros Hn. destruct (dp_fence d) as [f|].
- intros (now & s1 & H1 & Hg)%tbind_ok. injection H1 as <- <-. split_and!.
+ split; [by eapply guard_evolves|]. eapply frame_queue_evolves, Hg. apply guard_queue.
+ by eapply guard_logs.
+ by eapply guard_blind.
- intros [= _ <-]. split_and!; reflexivity.
Qed.

Lemma dom_fmap_row (m m' : gmap string RunRow) (f : RunRow -> _) run :
(forall r, r <> run -> m' !! r = m !! r) -> (f <$> m' !! run = f <$> m !! run :> option (string * string * string * string * string * string * Z * string * string)) ->
dom m' = dom m.
Proof.
intros Ho Hr. apply set_eq. intros k. rewrite !elem_of_dom. destruct (decide (k = run)) as [->|Hk]; [|by rewrite Ho].
destruct (m' !! run), (m !! run); try done; split; by eauto.
Qed.

(** How the runs are configured never changes. *)
Lemma call_frame_configuration run call w s s' : call_frame run call w s s' -> configuration s' = configuration s.
Proof.
intros Hf. pose proof (frame_untouched _ _ _ _ _ Hf) as Hu. unfold same, untouched in Hu. injection Hu; clear Hu; intros. unfold configuration. f_equal; [f_equal|done]; [|done].
apply map_eq. intros k. rewrite !lookup_fmap. destruct (decide (k = run)) as [->|Hk]; [|by destruct (frame_runs _ _ _ _ _ Hf k Hk) as [-> _]].
pose proof (frame_row _ _ _ _ _ Hf) as Hr. destruct (runs s !! run), (runs s' !! run); cbn in *; try done. unfold row_identity in Hr. injection Hr; intros. unfold run_config. congruence.
Qed.
Lemma sys_step_configuration s s' : sys_step s s' -> configuration s' = configuration s.
Proof.
intros [op Hop|d run call operationID args out s1 Hd Hn Hi].
- assert ((exists t, op = OpTick t) \/ forall t, op <> OpTick t) as [[t ->]|Ht] by (destruct op; naive_solver); [done|]. by apply (exec_same configuration).
- destruct (Invoke_ends _ _ _ _ _ _ _ _ Hi) as [e|r Hr|arguments op row sg r s2 o Hg Hm _ Hop Hrow Hds _]; [done..|].
assert (call_frame run call (run_world_id row) sg s2) as Hf
by (eapply dispatch_respects; [done|apply _|apply frame_relation|apply frame_handlers|apply frame_rows|done|exact Hds]).
rewrite (call_frame_configuration _ _ _ _ _ Hf). by destruct (guard_call_leases _ _ _ _ Hg) as [g ->].
Qed.
Lemma call_frame_coord run call w s s' : call_frame run call w s s' -> coord_evolves s s'.
Proof.
intros Hf. pose proof (frame_untouched _ _ _ _ _ Hf) as Hu. unfold same, untouched in Hu. injection Hu; clear Hu; intros.
apply frame_coord; [done|]. unfold same, queue_view. f_equal; [done|].
apply (dom_fmap_row _ _ row_identity run); [|apply Hf]. intros r Hr. by destruct (frame_runs _ _ _ _ _ Hf r Hr).
Qed.

(** What one call does to the shared state. *)
Lemma call_step d run call operationID args s out s' :
sound_dispatcher d -> valid_time (Clock_Now (dp_clock d) s) -> Invoke d run call operationID args s = (out, s') ->
coord_evolves s s' /\ logs_grow s s' /\ keeps world_integrity s s'.
Proof.
intros Hd Hn [e|r Hr|arguments op row sg r s1 o Hg Hm _ Hop Hrow Hds _]%Invoke_ends; [split_and!; by try reflexivity..|].
destruct (guard_call_coord _ _ _ _ Hn Hg) as (Hc & Hl & Hs).
assert (call_frame run call (run_world_id row) sg s1) as Hf
by (eapply dispatch_respects; [done|apply _|apply frame_relation|apply frame_handlers|apply frame_rows|done|exact Hds]).
split_and!.
- etransitivity; [exact Hc|by eapply call_frame_coord].
- etransitivity; [exact Hl|apply Hf].
- transitivity sg.
+ destruct (guard_call_leases _ _ _ _ Hg) as [g ->]. intros Hi. exact Hi.
+ eapply dispatch_respects; [done|apply _|apply integrity_relation|apply integrity_handlers|apply integrity_rows|done|exact Hds].
Qed.

Lemma exec_integrity op s : keeps world_integrity s (snd (exec op s)).
Proof.
pose proof (exec_blind op s) as Hb. unfold same, call_tables, world_tables in Hb. injection Hb; clear Hb; intros.
intros (Hbk & Hac & His). split_and!; [by eapply books_same|by eapply accounts_same|by eapply issues_same].
Qed.

Lemma sys_step_evolves s s' : sys_step s s' -> coord_evolves s s' /\ logs_grow s s' /\ keeps world_integrity s s'.
Proof.
intros [op Hop|d run call operationID args out s1 Hd Hn Hi]; [|by eapply call_step].
split_and!; [by apply exec_evolves|apply exec_logs|apply exec_integrity].
Qed.
Lemma sys_steps_evolve s s' : sys_steps s s' -> coord_evolves s s' /\ logs_grow s s' /\ keeps world_integrity s s'.
Proof.
induction 1 as [|s1 s2 s3 H12 H23 (IH1 & IH2 & IH3)]; [split_and!; reflexivity|].
apply sys_step_evolves in H12 as (H1 & H2 & H3). split_and!; by etransitivity.
Qed.

(** The clock only ever shows instants the layouts can carry. *)
Lemma sys_step_wall s s' : sys_step s s' -> valid_time (wall s) -> valid_time (wall s').
Proof.
intros [op Hop|d run call operationID args out s1 Hd Hn Hi] Hw; [by apply exec_wall|].
destruct (Invoke_ends _ _ _ _ _ _ _ _ Hi) as [e|r Hr|arguments op row sg r s2 o Hg Hm _ Hop Hrow Hds _]; [done..|].
assert (call_frame run call (run_world_id row) sg s2) as Hf
by (eapply dispatch_respects; [done|apply _|apply frame_relation|apply frame_handlers|apply frame_rows|done|exact Hds]).
pose proof (frame_untouched _ _ _ _ _ Hf) as Hu. unfold same, untouched in Hu. injection Hu; clear Hu; intros.
destruct (guard_call_leases _ _ _ _ Hg) as [g ->]. rename select (wall s2 = _) into Hs2. by rewrite Hs2.
Qed.
Lemma sys_steps_wall s s' : sys_steps s s' -> valid_time (wall s) -> valid_time (wall s').
Proof. induction 1 as [|s1 s2 s3 H12 H23 IH]; [done|]. intros Hw. apply IH. by eapply sys_step_wall. Qed.

Lemma sys_steps_results s s' k v : sys_steps s s' -> tool_results s !! k = Some v -> tool_results s' !! k = Some v.
Proof.
induction 1 as [|s1 s2 s3 H12 H23 IH]; [done|]. intros Hk. apply IH. clear IH H23.
destruct H12 as [op Hop|d run call operationID args out s4 Hd Hn Hi]; [|by eapply Invoke_keeps_results].
pose proof (exec_blind op s1) as Hb. unfold same, call_tables in Hb. injection Hb; clear Hb; intros.
rename select (tool_results (snd _) = _) into Ht. by rewrite Ht.
Qed.

(** ** Theorems *)

(** C1. Exactly once: once a tool call has an effect or an answer, its result
is fixed.  However many workers crash, are fenced out, retry or run other
calls afterwards, whoever may make the call again gets that same result
and changes nothing, and any other request under the call's id is refused
and changes nothing. *)
Theorem tool_call_exactly_once d run call operationID args s out s1 :
Invoke d run call operationID args s = (out, s1) -> s1 <> s \/ is_ok out = true ->
exists res, (out = Ok res \/ exists e, out = Err e /\ is_crashed e = true) /\
forall s2 d2, sys_steps s1 s2 ->
(is_ok (guard_call d2 s2) = true -> Invoke d2 run call operationID args s2 = (Ok res, s2)) /\
(forall operationID' args', operationID' <> operationID \/ marshal (VMap args') <> marshal (VMap args) ->
 exists e, Invoke d2 run call operationID' args' s2 = (Err e, s2)).
Proof.
intros Hi Hdone.
assert (exists res, saved s1 run call operationID args res /\ (out = Ok res \/ exists e, out = Err e /\ is_crashed e = true)) as (res & Hs & Hout).
{ pose proof (Invoke_ends _ _ _ _ _ _ _ _ Hi) as He.
destruct He as [e|r Hr|arguments op row sg r s3 o Hg Hm Hn Hop Hrow Hd ->]; [by destruct Hdone|by eauto|].
exists r. split; [by eapply dispatch_saves|]. unfold Fire. repeat case_match; simplify_eq; eauto. }
exists res. split; [done|]. intros s2 d2 Hsteps.
assert (saved s2 run call operationID args res) as Hs2.
{ destruct Hs as (arguments & Hm & Hrow). exists arguments. split; [done|]. by eapply sys_steps_results. }
split; [intros Hg; eapply saved_replays; [done|by right]|]. intros operationID' args' Hne. by eapply saved_refuses.
Qed.

(** C4. Invariants of the whole system: whatever is executed and called, leases
and queue stay well formed, the books balance and accounts and issues keep
legal statuses, and every run's ledger and ownership history only grow at
the end, numbered 1, 2, 3, ... *)
Theorem system_invariants s s' r :
coord_ok s -> world_integrity s -> logs_dense s -> sys_steps s s' ->
coord_ok s' /\ world_integrity s' /\
Events r s `prefix_of` Events r s' /\ e_seq <$> Events r s' = seqZ 1 (Z.of_nat (length (Events r s'))) /\
Ownership r s `prefix_of` Ownership r s' /\ oe_seq <$> Ownership r s' = seqZ 1 (Z.of_nat (length (Ownership r s'))).
Proof.
intros Hok Hw Hd Hs. destruct (sys_steps_evolve _ _ Hs) as (He & Hg & Hi).
destruct (logs_grow_dense _ _ Hg Hd r) as [Hde Hdo].
split_and!; [by eapply coord_evolves_ok|by apply Hi|apply map_prefix, Hg| |apply map_prefix, Hg|].
- exact (dense_log_numbers r (events s') (event_of r) e_seq (fun _ => eq_refl) Hde).
- exact (dense_log_numbers r (run_ownership_log s') (fun row => MkOwnershipEvent r row.1 row.2) oe_seq (fun _ => eq_refl) Hdo).
Qed.

(** C2. A superseded worker is out for good: once a run's fence has passed the
one a worker holds, every store write and every tool call it makes under
that fence fails as fenced out and changes nothing, at any later point of
any execution of the system. *)
Theorem superseded_worker_is_out s s' f :
coord_ok s -> fence_run_id f <> "" -> fence_owner f <> "" -> fence_token f < fence_of s (fence_run_id f) -> sys_steps s s' ->
(forall op, op_fence op = Some f -> op_ok s' op -> exists e, exec op s' = (Err e, s') /\ is_fenced e = true) /\
(forall d run call operationID args, dp_fence d = Some f -> valid_time (Clock_Now (dp_clock d) s') ->
 exists e, Invoke d run call operationID args s' = (Err e, s') /\ is_fenced e = true).
Proof.
intros Hok Hr Ho Hlt Hs. destruct (sys_steps_evolve _ _ Hs) as (He & _ & _).
pose proof (coord_evolves_ok _ _ He Hok) as (Hl & _). pose proof (coord_evolves_fences _ _ He Hok (fence_run_id f)) as Hm.
assert (fence_token f < fence_of s' (fence_run_id f)) as Hlt' by lia. split.
- intros op Hf Hop. destruct (exec_guarded _ _ s' Hf) as [body ->]. apply stale_guard; [done| |done..]. by eapply op_now_ok.
- intros d run call operationID args Hf Hn. apply (lost_lease_rejected d f); [done..|].
intros lease e Hlease _ Htok. unfold fence_of in Hlt'. rewrite Hlease in Hlt'. lia.
Qed.
End System.

(** ** An example: a refund, a claim by another worker, and the same refund *)
Module SystemDemo.
Definition refund (s : DB) : res err Result * DB := DispatchDemo.call (Billing.demo_args 300) s.
Definition db : DB := set_wall (fun _ => Demo.t0) DispatchDemo.db.
Lemma refund_returns : is_ok (refund db).1 = true.
Proof. vm_compute. reflexivity. Qed.
Lemma ran : exists res s1, refund db = (Ok res, s1).
Proof. pose proof refund_returns as H. destruct (refund db) as [[res|e] s1]; [by eauto|done]. Qed.
Lemma db_balanced : Billing.books_balanced db.
Proof. exact Billing.demo_balanced. Qed.
Lemma db_integrity : world_integrity db.
Proof.
split; [exact db_balanced|]. split.
- intros k a Ha. change ((∅ : gmap (string * string) AccountRow) !! k = Some a) in Ha. by rewrite lookup_empty in Ha.
- intros k i Hi. change ((∅ : gmap (string * string) IssueRow) !! k = Some i) in Hi. by rewrite lookup_empty in Hi.
Qed.
Lemma db_coord : coord_ok db.
Proof.
split_and!.
- intros r row Hr. change ((∅ : gmap string LeaseRow) !! r = Some row) in Hr. by rewrite lookup_empty in Hr.
- intros r q Hq. change ((∅ : gmap string QueueRow) !! r = Some q) in Hq. by rewrite lookup_empty in Hq.
- reflexivity.
Qed.
Lemma refund_step res s1 : refund db = (Ok res, s1) -> sys_step db s1.
Proof.
intros Hc. apply (step_call db (DispatchDemo.dispatcher None) "R-1" "call-1" "createRefund" (Billing.demo_args 300) (Ok res) s1);
[apply DispatchDemo.sound| |exact Hc]. vm_compute. split; [discriminate|reflexivity].
Qed.
End SystemDemo.

Lemma tool_call_exactly_once_witness :
  exists res s1, SystemDemo.refund SystemDemo.db = (Ok res, s1) /\
    let s2 := snd (exec (OpEnqueue "R-1" 20 Demo.t0) s1) in SystemDemo.refund s2 = (Ok res, s2).
Proof.
  destruct SystemDemo.ran as (res & s1 & Hc). exists res, s1. split; [exact Hc|].
  destruct (tool_call_exactly_once (DispatchDemo.dispatcher None) "R-1" "call-1" "createRefund" (Billing.demo_args 300) SystemDemo.db _ s1 Hc
    (or_intror eq_refl)) as (r & [Hr|(e & He & _)] & Hlater); [|discriminate He].
  injection Hr as <-. apply (Hlater _ (DispatchDemo.dispatcher None)); [|reflexivity].
  apply rtc_once, step_store. vm_compute. split; [discriminate|reflexivity].
Defined.

Lemma system_invariants_witness :
  exists res s1, SystemDemo.refund SystemDemo.db = (Ok res, s1) /\ Billing.books_balanced s1 /\
    e_seq <$> Events "R-1" s1 = seqZ 1 (Z.of_nat (length (Events "R-1" s1))).
Proof.
  destruct SystemDemo.ran as (res & s1 & Hc). exists res, s1. split; [exact Hc|].
  destruct (system_invariants SystemDemo.db s1 "R-1" SystemDemo.db_coord SystemDemo.db_integrity) as (_ & [Hb _] & _ & He & _).
  - intros r. split; apply dense_empty.
  - apply rtc_once. exact (SystemDemo.refund_step _ _ Hc).
  - split; [exact Hb|exact He].
Defined.

Lemma superseded_worker_is_out_witness :
  exists e, Invoke (DispatchDemo.dispatcher (Some (FenceOf Demo.first_lease))) "R-1" "call-1" "createRefund" [] Demo.second_claim
            = (Err e, Demo.second_claim) /\ is_fenced e = true.
Proof.
  refine (proj2 (superseded_worker_is_out Demo.second_claim Demo.second_claim (FenceOf Demo.first_lease)
    (coord_reachable_ok _ Demo.second_reachable) _ _ _ (rtc_refl _ _)) (DispatchDemo.dispatcher (Some (FenceOf Demo.first_lease)))
    "R-1" "call-1" "createRefund" [] eq_refl _).
  - discriminate.
  - discriminate.
  - vm_compute. reflexivity.
  - vm_compute. split; [discriminate|reflexivity].
Defined.
