(* ===== verification/RunnerFacts.v ===== *)
(** * Facts about the runner

    An execution touches the database only through the store's operations and
    tool calls, so every theorem on sequences of those holds during and after
    it, whatever other processes do in between.  It ends, asks the provider a
    bounded number of times, and never lets a call ID be used twice. *)

From S2P Require Export Runner System.
Open Scope Z_scope.
Open Scope tx_scope.

(** ** Executions as steps of the system *)

(** The clocks a runner uses, and what other processes may do. *)
Definition clock_ok (c : Clock) : Prop := forall s, valid_time (wall s) -> valid_time (Clock_Now c s).

Section Execution.
Context `{!SqlBind} (env : nat -> DB -> DB) (err_text : err -> string) (r : Runner).

Lemma Exposed_reads runID ops s : snd (atomically (Exposed runID ops) s) = s.
Proof.
unfold atomically. destruct (Exposed runID ops s) as [[out s']|e] eqn:He; [|done]. cbn. revert s out s' He.
change (respects (fun s s' : DB => s' = s) (Exposed runID ops)). assert (PreOrder (fun s s' : DB => s' = s)) by (split; [done|congruence]).
unfold Exposed. respects_tac. apply auth_load_respects, _.
Qed.

(** The provider sees the database only through what it is told. *)
Lemma provider_attempts_frame left attempt recorded provider task history ops x :
let x' := snd (provider_attempts r left attempt recorded provider task history ops x) in
ex_db x' = ex_db x /\ ex_accesses x' = ex_accesses x /\ (ex_calls x <= ex_calls x' <= ex_calls x + left)%nat.
Proof.
revert attempt recorded x. induction left as [|left IH]; intros attempt recorded x; cbn -[Nat.add]; [split_and!; try done; lia|].
destruct (provider (ex_calls x) task history ops) as [next failure].
assert (forall a' rec', let x' := snd (provider_attempts r left a' rec' provider task history ops (MkExec (ex_db x) (ex_accesses x) (S (ex_calls x)))) in
ex_db x' = ex_db x /\ ex_accesses x' = ex_accesses x /\ (ex_calls x <= ex_calls x' <= ex_calls x + S left)%nat) as Hnext.
{ intros a' rec'. specialize (IH a' rec' (MkExec (ex_db x) (ex_accesses x) (S (ex_calls x)))). cbn -[Nat.add] in IH |- *.
destruct IH as (H1 & H2 & H3). split_and!; try done; lia. }
repeat case_match; cbn -[Nat.add]; first [apply Hnext | split_and!; try done; lia].
Qed.
Lemma callProvider_frame provider task history ops x :
let x' := snd (callProvider r provider task history ops x) in
ex_db x' = ex_db x /\ ex_accesses x' = ex_accesses x /\ (ex_calls x <= ex_calls x' <= ex_calls x + 2)%nat.
Proof.
unfold callProvider. pose proof (provider_attempts_frame (Z.to_nat providerAttempts) 1 [] provider task history ops x) as Hf.
destruct (provider_attempts _ _ _ _ _ _ _ _ _) as [a x']. exact Hf.
Qed.

(** What the accesses of an execution of a run may do to the database; an
execution then moves along it as a whole. *)
Section Along.
Context (runID : string) (R : DB -> DB -> Prop) `{!PreOrder R}.
Record runner_relation : Prop := {
rr_env n s : R s (env n s);
rr_append typ payload s : R s (snd (AppendGuarded (rn_fence r) (rn_clock r) runID typ payload s));
rr_turn step transcript response ints s : R s (snd (SaveTurnGuarded (rn_fence r) (rn_clock r) runID step transcript response ints s));
rr_fail response ints message s : R s (snd (FailModelTurnGuarded (rn_fence r) (rn_clock r) runID response ints message s));
rr_status status typ payload s : R s (snd (SaveStatusGuarded (rn_fence r) (rn_clock r) runID status typ payload s));
rr_invoke call operationID args s : R s (snd (Invoke (rn_dispatch r) runID call operationID args s)) }.
Context (HR : runner_relation).

Definition moves {A} (m : RunIO A) : Prop := forall x, R (ex_db x) (ex_db (snd (m x))).
Lemma moves_ret {A} (a : A) : moves (ioret a).
Proof. intros x. reflexivity. Qed.
Lemma moves_fail {A} (e : err) : moves (iofail (A:=A) e).
Proof. intros x. reflexivity. Qed.
Lemma moves_lift {A} (o : res err A) : moves (iolift o).
Proof. intros x. reflexivity. Qed.
Lemma moves_bind {A B} (m : RunIO A) (k : A -> RunIO B) : moves m -> (forall a, moves (k a)) -> moves (iobind m k).
Proof.
intros Hm Hk x. unfold iobind. specialize (Hm x). destruct (m x) as [[a|e] x1]; cbn in *; [|done]. etransitivity; [exact Hm|apply Hk].
Qed.
Lemma moves_try {A B} (m : RunIO A) (k : res err A -> RunIO B) : moves m -> (forall a, moves (k a)) -> moves (iotry m k).
Proof.
intros Hm Hk x. unfold iotry. specialize (Hm x). destruct (m x) as [o x1]; cbn in *. etransitivity; [exact Hm|apply Hk].
Qed.
(** One access is what the others did, then the run's own. *)
Lemma moves_access {A} (m : DbIO A) : (forall s, R s (snd (m s))) -> moves (access env m).
Proof.
intros Hm x. unfold access. specialize (Hm (env (ex_accesses x) (ex_db x))). destruct (m (env _ _)) as [o s']. cbn in *.
etransitivity; [apply (rr_env HR)|exact Hm].
Qed.
Lemma moves_read {A} (m : DbIO A) : (forall s, snd (m s) = s) -> moves (access env m).
Proof. intros Hm. apply moves_access. intros s. by rewrite Hm. Qed.
Lemma moves_append typ payload : moves (access env (AppendGuarded (rn_fence r) (rn_clock r) runID typ payload)).
Proof. apply moves_access, HR. Qed.
Lemma moves_turn step transcript response ints : moves (access env (SaveTurnGuarded (rn_fence r) (rn_clock r) runID step transcript response ints)).
Proof. apply moves_access, HR. Qed.
Lemma moves_fail_turn response ints message : moves (access env (FailModelTurnGuarded (rn_fence r) (rn_clock r) runID response ints message)).
Proof. apply moves_access, HR. Qed.
Lemma moves_status status typ payload : moves (access env (SaveStatusGuarded (rn_fence r) (rn_clock r) runID status typ payload)).
Proof. apply moves_access, HR. Qed.
Lemma moves_invoke call operationID args : moves (access env (Invoke (rn_dispatch r) runID call operationID args)).
Proof. apply moves_access, HR. Qed.
#[local] Hint Resolve moves_ret moves_fail moves_lift moves_append moves_turn moves_fail_turn moves_status moves_invoke : moves.

Ltac moves_step :=
match goal with
| |- moves (iobind _ _) => apply moves_bind; [|intros]
| |- moves (iotry _ _) => apply moves_try; [|intros]
| |- moves (if ?b then _ else _) => destruct b
| |- moves (match ?x with _ => _ end) => destruct x
| |- moves (access _ (ioreads _)) => by apply moves_read
| |- moves (access _ (Run _)) => by apply moves_read
end.
Ltac moves_tac := repeat (moves_step; cbn beta zeta); auto with moves.

Lemma moves_start request : moves (startModelCall env r runID request).
Proof. unfold startModelCall. moves_tac. Qed.
Lemma moves_fail_turn_of {A} what next e : moves (fail_turn env err_text r (A:=A) what runID next e).
Proof. unfold fail_turn. moves_tac. Qed.
Lemma moves_dispatch call : moves (dispatch_call env err_text r runID call).
Proof. unfold dispatch_call. moves_tac. Qed.
Lemma moves_stop status typ run : moves (stop env r runID status typ run).
Proof. unfold stop. moves_tac. Qed.
Lemma moves_fire point step : moves (fire r point runID step).
Proof. apply moves_lift. Qed.
Lemma moves_provider provider task history ops : moves (callProvider r provider task history ops).
Proof. intros x. destruct (callProvider_frame provider task history ops x) as (-> & _ & _). reflexivity. Qed.
#[local] Hint Resolve moves_start moves_fail_turn_of moves_dispatch moves_stop moves_fire moves_provider : moves.

Lemma moves_conclude run history next failure : moves (conclude_turn env err_text r runID run history next failure).
Proof. unfold conclude_turn. moves_tac. Qed.
#[local] Hint Resolve moves_conclude : moves.
Lemma moves_model_turn provider run history : moves (model_turn env err_text r provider runID run history).
Proof. unfold model_turn. moves_tac. apply moves_read. intros s. apply Exposed_reads. Qed.
#[local] Hint Resolve moves_model_turn : moves.
Lemma moves_round provider maxSteps used : moves (round env err_text r provider runID maxSteps used).
Proof. unfold round. moves_tac. Qed.
Lemma execute_loop_along fuel provider maxSteps used x out x' :
execute_loop env err_text r fuel provider runID maxSteps used x = Some (out, x') -> R (ex_db x) (ex_db x').
Proof.
revert used x. induction fuel as [|fuel IH]; intros used x; cbn [execute_loop]; [done|].
pose proof (moves_round provider maxSteps used x) as Hr. destruct (round _ _ _ _ _ _ _ x) as [[[used'|run]|e] x1]; cbn in Hr.
- intros He. etransitivity; [exact Hr|by eapply IH].
- by intros [= _ <-].
- by intros [= _ <-].
Qed.
Lemma Execute_along fuel maxSteps x out x' : Execute env err_text r fuel runID maxSteps x = Some (out, x') -> R (ex_db x) (ex_db x').
Proof.
unfold Execute. destruct (maxSteps <? 1); [by intros [= _ <-]|]. destruct (rn_provider r); [|by intros [= _ <-]]. apply execute_loop_along.
Qed.
End Along.

(** The steps of the system are one such relation. *)
Section Advance.
Context (Henv : forall n s, valid_time (wall s) -> sys_steps s (env n s)).
Context (Hclock : clock_ok (rn_clock r)) (Hdclock : clock_ok (dp_clock (rn_dispatch r))) (Hsound : sound_dispatcher (rn_dispatch r)).
Definition steps_of (s s' : DB) : Prop := valid_time (wall s) -> sys_steps s s'.
#[local] Instance steps_preorder : PreOrder steps_of.
Proof.
split; [intros s _; reflexivity|]. intros s1 s2 s3 H12 H23 Hw. etransitivity; [by apply H12|]. apply H23. eapply sys_steps_wall; [by apply H12|done].
Qed.
Lemma op_steps (op : coord_op) (m : DbIO unit) :
(forall s, valid_time (wall s) -> op_ok s op) -> (forall s, snd (exec op s) = snd (m s)) -> forall s, steps_of s (snd (m s)).
Proof. intros Hok Hm s Hw. rewrite <- Hm. apply rtc_once, step_store. by apply Hok. Qed.
Lemma steps_relation runID : runner_relation runID steps_of.
Proof.
split.
- exact Henv.
- intros typ payload. by apply (op_steps (OpAppend (rn_fence r) (rn_clock r) runID typ payload)).
- intros step transcript response ints. by apply (op_steps (OpSaveTurn (rn_fence r) (rn_clock r) runID step transcript response ints)).
- intros response ints message. by apply (op_steps (OpFailTurn (rn_fence r) (rn_clock r) runID response ints message)).
- intros status typ payload. by apply (op_steps (OpSaveStatus (rn_fence r) (rn_clock r) runID status typ payload)).
- intros call operationID args s Hw. destruct (Invoke _ _ _ _ _ s) as [out s'] eqn:Hi. apply rtc_once.
by eapply step_call; [exact Hsound|apply Hdclock|exact Hi].
Qed.
Definition advance (x x' : Exec) : Prop := steps_of (ex_db x) (ex_db x').
Lemma execute_loop_advances fuel provider runID maxSteps used x out x' :
execute_loop env err_text r fuel provider runID maxSteps used x = Some (out, x') -> advance x x'.
Proof. apply execute_loop_along; [apply _|apply steps_relation]. Qed.
End Advance.

(** ** How often the provider is asked *)

(** [asks n m]: [m] calls the provider at most [n] times. *)
Definition asks {A} (n : nat) (m : RunIO A) : Prop := forall x, (ex_calls x <= ex_calls (snd (m x)) <= ex_calls x + n)%nat.
Lemma asks_bind {A B} a b (m : RunIO A) (k : A -> RunIO B) : asks a m -> (forall v, asks b (k v)) -> asks (a + b) (iobind m k).
Proof.
intros Hm Hk x. unfold iobind. specialize (Hm x). destruct (m x) as [[v|e] x1]; cbn in *; [|lia]. specialize (Hk v x1). lia.
Qed.
Lemma asks_try {A B} a b (m : RunIO A) (k : res err A -> RunIO B) : asks a m -> (forall v, asks b (k v)) -> asks (a + b) (iotry m k).
Proof. intros Hm Hk x. unfold iotry. specialize (Hm x). destruct (m x) as [v x1]; cbn in *. specialize (Hk v x1). lia. Qed.
Lemma asks_same {A} (m : RunIO A) : (forall x, ex_calls (snd (m x)) = ex_calls x) -> asks 0 m.
Proof. intros Hm x. rewrite Hm. lia. Qed.
Lemma asks_ret {A} (a : A) : asks 0 (ioret a).
Proof. by apply asks_same. Qed.
Lemma asks_fail {A} (e : err) : asks 0 (iofail (A:=A) e).
Proof. by apply asks_same. Qed.
Lemma asks_lift {A} (o : res err A) : asks 0 (iolift o).
Proof. by apply asks_same. Qed.
Lemma asks_access {A} (m : DbIO A) : asks 0 (access env m).
Proof. apply asks_same. intros x. unfold access. by destruct (m _). Qed.
#[local] Hint Resolve asks_ret asks_fail asks_lift asks_access : asks.
Ltac asks_step :=
match goal with
| |- asks 0 (iobind _ _) => apply (asks_bind 0 0); [|intros]
| |- asks 0 (iotry _ _) => apply (asks_try 0 0); [|intros]
| |- asks _ (if ?b then _ else _) => destruct b
| |- asks _ (match ?x with _ => _ end) => destruct x
end.
Ltac asks_tac := repeat (asks_step; cbn beta zeta); auto with asks.

Lemma asks_model_turn provider runID run history : asks 2 (model_turn env err_text r provider runID run history).
Proof.
unfold model_turn. apply (asks_bind 0 2); [apply asks_access|intros operations]. apply (asks_bind 0 2); [apply asks_lift|intros _].
apply (asks_bind 0 2); [unfold startModelCall; asks_tac|intros _]. apply (asks_bind 0 2); [apply asks_lift|intros _].
apply (asks_bind 2 0); [|intros [next failure]; unfold conclude_turn, fail_turn, fire; asks_tac].
intros x. by destruct (callProvider_frame provider (run_task run) history operations x) as (_ & _ & Hc).
Qed.

(** A round that goes on has dispatched a call, or used one model turn. *)
Lemma round_again provider runID maxSteps used x used' x' :
round env err_text r provider runID maxSteps used x = (Ok (Again used'), x') ->
(used' = used /\ ex_calls x' = ex_calls x) \/
(used < maxSteps /\ used' = used + 1 /\ (ex_calls x' <= ex_calls x + 2)%nat).
Proof.
unfold round, iobind at 1. pose proof (asks_access (Run runID) x) as H1. destruct (access env (Run runID) x) as [[run|e] x1]; [|done]. cbn in H1.
destruct (str_eqb _ _); [done|]. unfold iobind at 1, iolift. destruct (decode_history _) as [history|]; [|done].
destruct (pending history) as [call|].
- unfold iobind. assert (asks 0 (dispatch_call env err_text r runID call)) as Hd by (unfold dispatch_call; asks_tac).
specialize (Hd x1). destruct (dispatch_call _ _ _ _ _ x1) as [[[]|e] x2]; [|done]. intros [= -> <-]. left. cbn in Hd. split; [done|lia].
- destruct (finished history).
{ unfold iobind at 1. destruct (fire _ _ _ _ x1) as [[[]|e] x2]; [|done]. unfold stop, iobind.
repeat match goal with |- context [access env ?m ?y] => destruct (access env m y) as [[?|?] ?] end; done. }
destruct (Z.leb_spec maxSteps used).
{ unfold stop, iobind. repeat match goal with |- context [access env ?m ?y] => destruct (access env m y) as [[?|?] ?] end; done. }
unfold iobind at 1. pose proof (asks_model_turn provider runID run history x1) as Hm.
destruct (model_turn _ _ _ _ _ _ _ x1) as [[[]|e] x2]; [|done]. intros [= <- <-]. right. cbn in Hm. split_and!; [done..|lia].
Qed.
Lemma asks_weaken {A} a b (m : RunIO A) : asks a m -> (a <= b)%nat -> asks b m.
Proof. intros Hm Hab x. specialize (Hm x). lia. Qed.
Lemma asks_round provider runID maxSteps used : asks (if used <? maxSteps then 2 else 0) (round env err_text r provider runID maxSteps used).
Proof.
unfold round. apply (asks_bind 0 _); [apply asks_access|intros run].
destruct (str_eqb _ _); [apply (asks_weaken 0); [apply asks_ret|lia]|]. apply (asks_bind 0 _); [apply asks_lift|intros history].
destruct (pending history) as [call|]; [apply (asks_weaken 0); [unfold dispatch_call; asks_tac|lia]|].
destruct (finished history); [apply (asks_weaken 0); [unfold stop, fire; asks_tac|lia]|].
destruct (Z.leb_spec maxSteps used), (Z.ltb_spec used maxSteps); try lia; [unfold stop; asks_tac|].
apply (asks_bind 2 0); [apply asks_model_turn|intros; asks_tac].
Qed.

(** Counted over the whole loop. *)
Lemma execute_loop_calls fuel provider runID maxSteps used x out x' :
used <= maxSteps -> execute_loop env err_text r fuel provider runID maxSteps used x = Some (out, x') ->
Z.of_nat (ex_calls x') <= Z.of_nat (ex_calls x) + 2 * (maxSteps - used).
Proof.
revert used x. induction fuel as [|fuel IH]; intros used x Hu; cbn [execute_loop]; [done|].
pose proof (asks_round provider runID maxSteps used x) as Ha. destruct (round _ _ _ _ _ _ _ x) as [[[used'|run]|e] x1] eqn:Hr; cbn in Ha.
- destruct (round_again _ _ _ _ _ _ _ Hr) as [[-> Hc]|(Hlt & -> & Hc)]; intros He; apply IH in He; lia.
- intros [= _ <-]. destruct (Z.ltb_spec used maxSteps); lia.
- intros [= _ <-]. destruct (Z.ltb_spec used maxSteps); lia.
Qed.
Lemma execute_loop_asks fuel provider runID maxSteps used x out x' :
execute_loop env err_text r fuel provider runID maxSteps used x = Some (out, x') -> Z.of_nat (ex_calls x) <= Z.of_nat (ex_calls x').
Proof.
revert used x. induction fuel as [|fuel IH]; intros used x; cbn [execute_loop]; [done|].
pose proof (asks_round provider runID maxSteps used x) as Ha. destruct (round _ _ _ _ _ _ _ x) as [[[used'|run]|e] x1]; cbn in Ha.
- intros He%IH. lia.
- intros [= _ <-]. lia.
- intros [= _ <-]. lia.
Qed.
End Execution.

(** ** Call IDs *)

Lemma call_problem_None r seen inTurn calls :
  call_problem r seen inTurn calls = None <->
  Forall (fun c => tc_id c <> "" /\ is_Some (find_operation (rn_manifest r) (tc_operation_id c))) calls /\
  NoDup (map tc_id calls) /\ (forall c, c ∈ calls -> tc_id c ∉ inTurn /\ tc_id c ∉ seen).
Proof.
  revert inTurn. induction calls as [|c calls IH]; intros inTurn; cbn [call_problem map].
  - split; [|done]. intros _. split_and!; [constructor|constructor|by intros c ?%elem_of_nil].
  - rewrite Forall_cons, NoDup_cons. destruct (str_eqb (tc_id c) "") eqn:He; cbn [orb].
    { split; [done|]. apply str_eqb_true in He. naive_solver. }
    apply str_eqb_false in He. case_bool_decide as Hop; [split; [done|]; rewrite Hop; intros ([[_ [? Hs]] _] & _); discriminate Hs|].
    apply not_eq_None_Some in Hop. destruct (contains inTurn (tc_id c)) eqn:Hi.
    { apply contains_spec in Hi. split; [done|]. intros (_ & _ & Hall). destruct (Hall c); [left|]. done. }
    destruct (contains seen (tc_id c)) eqn:Hs.
    { apply contains_spec in Hs. split; [done|]. intros (_ & _ & Hall). destruct (Hall c); [left|]. done. }
    apply not_true_iff_false in Hi, Hs. rewrite contains_spec in Hi, Hs. rewrite IH. split.
    + intros (H1 & H2 & H3). split_and!; [done..| |done|].
      * intros (c' & Hc' & Hin)%list_elem_of_fmap. destruct (H3 c' Hin) as [Hn _]. apply Hn. rewrite <- Hc'. left.
      * intros c' [->|Hin]%elem_of_cons; [done|]. destruct (H3 c' Hin) as [Hn Hs']. split; [|done]. intros Hx. apply Hn. by right.
    + intros ([_ H1] & [Hn H2] & H3). split_and!; [done..|]. intros c' Hin. destruct (H3 c' ltac:(by right)) as [Hi' Hs']. split; [|done].
      intros [Hx|Hx]%elem_of_cons; [|done]. apply Hn. rewrite <- Hx. by apply list_elem_of_fmap_2.
Qed.

(** A turn's calls are accepted exactly when each has an ID and a compiled
    operation, and no ID is used twice, in the turn or before; so the IDs of a
    run's calls stay distinct. *)
Theorem validateCalls_exact r history next :
  (validateCalls r history next = Ok tt <->
   Forall (fun c => tc_id c <> "" /\ is_Some (find_operation (rn_manifest r) (tc_operation_id c))) (ms_tool_calls next) /\
   NoDup (map tc_id (ms_tool_calls next)) /\ (forall c, c ∈ ms_tool_calls next -> tc_id c ∉ map tc_id (all_calls history))) /\
  (NoDup (map tc_id (all_calls history)) -> validateCalls r history next = Ok tt -> NoDup (map tc_id (all_calls (history ++ [next])))).
Proof.
  assert (validateCalls r history next = Ok tt <-> call_problem r (map tc_id (all_calls history)) [] (ms_tool_calls next) = None) as Hv
    by (unfold validateCalls; destruct (call_problem _ _ _ _); naive_solver).
  rewrite Hv, call_problem_None. split.
  - split; intros (H1 & H2 & H3); split_and!; try done; intros c Hc; specialize (H3 c Hc); [tauto|]. split; [apply not_elem_of_nil|done].
  - intros Hnd (_ & H2 & H3). unfold all_calls. rewrite List.filter_app, flat_map_app, map_app. fold (all_calls history).
    apply NoDup_app. split; [done|]. cbn [List.filter]. destruct (is_role "assistant" next); cbn [flat_map].
    + rewrite app_nil_r. split; [|done]. intros id Hid (c & -> & Hc)%list_elem_of_fmap. by destruct (H3 c Hc).
    + split; [|constructor]. intros id _ Hx. by apply elem_of_nil in Hx.
Qed.

(** ** Resuming a model call *)

Lemma SFeqb_refl f : f <> SpecFloat.S754_nan -> SpecFloat.SFeqb f f = true.
Proof. unfold SpecFloat.SFeqb, SpecFloat.SFcompare. destruct f as [[]|[]| |[] m e]; try done; intros _; rewrite Z.compare_refl, Pos.compare_cont_refl; done. Qed.

Lemma deep_equal_refl v : plain v -> deep_equal v v = true.
Proof.
  induction v as [|b|z|f|lit|s|raw|l IH|m IH|m IH] using goval_nested_ind; try done.
  - intros _. apply Bool.eqb_reflx.
  - intros Hf. by apply SFeqb_refl.
  - intros _. apply str_eqb_refl.
  - rewrite plain_slice. intros Hp. cbn [deep_equal]. induction IH as [|x l Hx _ IHl]; [done|]. apply Forall_cons_1 in Hp as [Hp1 Hp2].
    rewrite Hx by done. by apply IHl.
  - rewrite plain_map. intros [Hnd Hp]. cbn [deep_equal]. rewrite bool_decide_true by done. cbn [andb].
    assert (forall m', m' ⊆ m -> Forall (fun kv => plain kv.2 -> deep_equal kv.2 kv.2 = true) m' ->
      (fix go m0 := match m0 with [] => true | (k, x) :: m0 => match alookup m k with Some y => deep_equal x y | None => false end && go m0 end) m' = true) as Hall.
    { induction m' as [|[k x] m' IHm]; [done|]. intros Hsub [H1 H2]%Forall_cons_1.
      assert ((k, x) ∈ m) as Hin by (apply Hsub; left). rewrite (proj2 (alookup_Some m k x Hnd) Hin).
      rewrite Forall_forall in Hp. destruct (Hp _ Hin) as [_ Hpx]. cbn in H1; rewrite H1 by done. apply IHm; [|done]. intros y Hy. apply Hsub. by right. }
    by apply Hall.
Qed.

(** A written request equals itself when it can be read back. *)
Lemma equalJSON_refl s : is_Some (unmarshal s) -> equalJSON s s = true.
Proof. intros [v Hv]. unfold equalJSON. rewrite Hv. by eapply deep_equal_refl, unmarshal_plain. Qed.

(** C7. Resuming a model call: once a request has been recorded, starting the
    same call again, by this process or by the one that resumes after a crash,
    recognizes it and changes nothing, so the ledger never holds two requests
    for one response; a different request after an unanswered one is an error
    and changes nothing either. *)
Theorem model_request_resumed r runID request encoded x x1 :
  marshal request = Some encoded -> is_Some (unmarshal encoded) ->
  startModelCall (fun _ s => s) r runID request x = (Ok tt, x1) ->
  (exists e, LastEvent runID (ex_db x1) = Some e /\ e_type e = "model.request" /\ equalJSON (e_payload e) encoded = true) /\
  (forall r2 x2, ex_db x2 = ex_db x1 ->
     exists x3, startModelCall (fun _ s => s) r2 runID request x2 = (Ok tt, x3) /\ ex_db x3 = ex_db x1) /\
  (forall r2 x2 other encoded', ex_db x2 = ex_db x1 -> marshal other = Some encoded' ->
     (forall e, LastEvent runID (ex_db x1) = Some e -> equalJSON (e_payload e) encoded' = false) ->
     exists e x3, startModelCall (fun _ s => s) r2 runID other x2 = (Err e, x3) /\ ex_db x3 = ex_db x1).
Proof.
  intros Hm Hu Hs.
  assert (exists e, LastEvent runID (ex_db x1) = Some e /\ e_type e = "model.request" /\ equalJSON (e_payload e) encoded = true) as (e & He & Ht & Heq).
  { unfold startModelCall in Hs. rewrite Hm in Hs. unfold iobind, access, ioreads in Hs. cbn [ex_db ex_accesses] in Hs.
    assert (forall db acc calls, access (fun _ s => s) (AppendGuarded (rn_fence r) (rn_clock r) runID "model.request" request) (MkExec db acc calls) = (Ok tt, x1) ->
      exists e, LastEvent runID (ex_db x1) = Some e /\ e_type e = "model.request" /\ equalJSON (e_payload e) encoded = true) as Happ.
    { intros db acc calls. unfold access. cbn [ex_db ex_accesses]. destruct (AppendGuarded _ _ _ _ _ db) as [[[]|?] s'] eqn:Ha; [|done]. intros [= <-].
      cbn [ex_db]. unfold AppendGuarded, guarded in Ha. apply atomically_ok in Ha.
      assert (exists s1, AppendEventTx runID "model.request" request s1 = Ok (tt, s')) as [s1 H1].
      { destruct (rn_fence r); [|by exists db]. apply tbind_ok in Ha as (now & s2 & _ & Ha). apply tbind_ok in Ha as ([] & s3 & _ & Ha). by exists s3. }
      apply AppendEventTx_ok in H1 as (row & Hrow & ->). apply event_row_fields in Hrow as [Htyp Hpay]. unfold LastEvent. rewrite Events_append, last_snoc.
      eexists. split; [reflexivity|]. cbn. split; [done|]. rewrite Hm in Hpay. injection Hpay as <-. by apply equalJSON_refl. }
    destruct (LastEvent runID (ex_db x)) as [e|] eqn:Hlast; [|exact (Happ _ _ _ Hs)].
    destruct (str_eqb (e_type e) "model.request") eqn:Htyp; [|exact (Happ _ _ _ Hs)]. destruct (equalJSON (e_payload e) encoded) eqn:Heq; [|done].
    injection Hs as <-. exists e. apply str_eqb_true in Htyp. done. }
  split; [by eauto|]. split.
  - intros r2 x2 Hdb. unfold startModelCall. rewrite Hm. unfold iobind, access, ioreads. rewrite Hdb, He, Ht. cbn [str_eqb]. rewrite str_eqb_refl, Heq.
    eexists. split; [reflexivity|done].
  - intros r2 x2 other encoded' Hdb Hm' Hne. unfold startModelCall. rewrite Hm'. unfold iobind, access, ioreads. rewrite Hdb, He, Ht, str_eqb_refl, (Hne _ He).
    eexists _, _. split; [reflexivity|done].
Qed.
