(* ===== verification/Termination.v ===== *)
(** * Executions end

    Every round of the runner's loop that goes on either answers a call that
    was waiting or uses up one of the allowed model turns.  The first relies on
    a saved result always having its message in the transcript, which tool
    calls and turns preserve. *)

From S2P Require Export Transcript RunnerFacts.
Open Scope Z_scope.
Open Scope tx_scope.

(** ** What a call and a turn do to the run's row *)

(** The parts of the database progress depends on. *)
Definition run_parts (s : DB) := (runs s, tool_results s).

Lemma append_parts runID typ payload : respects (same run_parts) (AppendEventTx runID typ payload).
Proof. by apply append_same. Qed.
Lemma guard_parts f now : respects (same run_parts) (GuardFenceTx f now).
Proof. unfold GuardFenceTx. respects_tac. by apply respects_modify. Qed.

Lemma guarded_ok f clock body s s' :
  guarded f clock body s = (Ok tt, s') -> exists s1, same run_parts s s1 /\ body s1 = Ok (tt, s').
Proof.
  unfold guarded. intros H%atomically_ok. destruct f as [f|]; [|by exists s].
  apply tbind_ok in H as (now & s1 & H1 & H). injection H1 as <- <-. apply tbind_ok in H as ([] & s2 & H2 & H).
  exists s2. split; [|done]. by eapply guard_parts.
Qed.

Lemma append_guarded_parts f clock runID typ payload s s' :
  AppendGuarded f clock runID typ payload s = (Ok tt, s') -> same run_parts s s'.
Proof. intros (s1 & H1 & H2)%guarded_ok. etransitivity; [exact H1|]. by eapply append_parts. Qed.

Lemma save_turn_parts f clock runID step transcript response ints s s' :
  SaveTurnGuarded f clock runID step transcript response ints s = (Ok tt, s') ->
  runs s' !! runID = with_turn step transcript <$> runs s !! runID /\ tool_results s' = tool_results s.
Proof.
  intros (s1 & H1 & H)%guarded_ok. unfold saveTurnTx in H. apply tbind_ok in H as ([] & s2 & H2 & H). apply tbind_ok in H as ([] & s3 & H3 & H).
  apply sql_update_ok in H as ->. assert (same run_parts s1 s2) as H12.
  { refine ((_ : respects (same run_parts) (appendInterruptionsTx runID ints)) _ _ _ H2). unfold appendInterruptionsTx. respects_tac. apply append_parts. }
  apply append_parts in H3. assert (run_parts s3 = run_parts s) as Hs by (unfold same in *; congruence). unfold run_parts in Hs. injection Hs as Hr Ht.
  cbn. by rewrite lookup_alter_eq, Hr, Ht.
Qed.

(** A call that returned: its result was there already, or it was added to the
    transcript. *)
Lemma invoke_progress `{!SqlBind} d run call operationID args s res s' :
  sound_dispatcher d -> Invoke d run call operationID args s = (Ok res, s') ->
  (s' = s /\ is_Some (tool_results s !! (run, call))) \/
  (exists row row' messages body st, runs s !! run = Some row /\ runs s' !! run = Some row' /\
     decode_transcript (run_transcript row) = Some messages /\
     marshal (VSlice (messages ++ [tool_message call operationID body st])) = Some (run_transcript row') /\
     forall id, id <> call -> tool_results s' !! (run, id) = tool_results s !! (run, id)).
Proof.
  intros Hd Hi. apply Invoke_ends in Hi. remember (Ok res) as out eqn:Hout.
  destruct Hi as [e|r Hr|arguments op row sg r s1 o Hg Hm Hn Hop Hrow Hds Ho]; [done| |]; subst.
  - left. split; [done|]. destruct Hr as (a & _ & Ht). by rewrite Ht.
  - right. destruct (guard_call_leases _ _ _ _ Hg) as [g Hsg].
    assert (call_frame run call (run_world_id row) sg s1) as Hf
      by (eapply dispatch_respects; [done|apply _|apply frame_relation|apply frame_handlers|apply frame_rows|done|exact Hds]).
    pose proof (frame_row _ _ _ _ _ Hf) as Hrw. assert (runs sg = runs s) as Hrs by (by rewrite Hsg). rewrite Hrs, Hrow in Hrw.
    destruct (runs s1 !! run) as [row'|] eqn:Hrow'; [|done].
    apply dispatch_ok in Hds as (s1' & refused & s2 & inj & s3 & oc & s4 & s5 & answer & s6 & _ & _ & _ & _ & _ & _ & Hrec).
    apply record_ok in Hrec as (_ & _ & _ & (messages & next & Hdec & Hnext & Hruns) & _). rewrite Hrow' in Hruns.
    destruct (runs s6 !! run) as [row6|]; [|done]. injection Hruns as ->.
    exists row, (with_transcript next row6), messages, (result_body r), (result_status r). split_and!; [done..|].
    intros id Hid. destruct (frame_calls _ _ _ _ _ Hf (run, id)) as [Ht _]; [congruence|]. rewrite Ht. by rewrite Hsg.
Qed.

(** ** Progress *)

(** Every saved result of the run has its tool message. *)
Definition results_answered (runID : string) (s : DB) : Prop :=
  forall row, runs s !! runID = Some row ->
    plain_transcript (run_transcript row) /\
    forall h id, decode_history (run_transcript row) = Some h -> is_Some (tool_results s !! (runID, id)) -> id ∈ answered_ids h.

(** The part of [results_answered] one run's rows decide. *)
Lemma results_answered_same runID s s' :
  runs s' !! runID = runs s !! runID -> (forall id, tool_results s' !! (runID, id) = tool_results s !! (runID, id)) ->
  results_answered runID s -> results_answered runID s'.
Proof.
  intros Hr Ht Hok row Hrow. rewrite Hr in Hrow. destruct (Hok row Hrow) as [Hp Ha]. split; [done|]. intros h id Hh Hid.
  rewrite Ht in Hid. by eapply Ha.
Qed.

(** How many calls of the run wait; 0 when its transcript cannot be read. *)
Definition waiting (runID : string) (s : DB) : nat :=
  match runs s !! runID with
  | Some row => match decode_history (run_transcript row) with Some h => S (open_calls h) | None => 0 end
  | None => 0
  end.

Lemma history_sanitized text h : decode_history text = Some h -> Forall (fun c => sanitize_text (tc_id c) = tc_id c) (all_calls h).
Proof.
  intros Hh. destruct (decode_history_ok _ _ Hh) as (vs & Hp & _ & Hf). apply Forall_forall. intros c Hc.
  unfold all_calls in Hc. apply list_elem_of_In, in_flat_map in Hc as (m & Hm & Hc). apply filter_In in Hm as [Hm%list_elem_of_In _].
  apply list_elem_of_In in Hc. clear Hh. revert Hp Hm. induction Hf as [|v m' vs h [t Hv] _ IH]; [by intros _ ?%elem_of_nil|].
  intros [Hp1 Hp2]%Forall_cons_1 [->|Hin]%elem_of_cons; [|by apply IH]. destruct (message_of_parsed _ _ _ Hp1 Hv) as [_ Hs].
  unfold sanitize_view, view in Hs. injection Hs as _ _ Hs. clear -Hs Hc. induction (ms_tool_calls m') as [|x l IH]; [by apply elem_of_nil in Hc|].
  cbn in Hs. injection Hs as Hx Hl. apply elem_of_cons in Hc as [->|Hc]; [done|by apply IH].
Qed.

Section Progress.
Context `{!SqlBind} (env : nat -> DB -> DB) (err_text : err -> string) (r : Runner) (provider : Provider) (runID : string).
Context (Hsound : sound_dispatcher (rn_dispatch r)).

(** Other processes leave this run alone. *)
Definition quiet : Prop := forall n s, runs (env n s) !! runID = runs s !! runID /\
forall id, tool_results (env n s) !! (runID, id) = tool_results s !! (runID, id).
(** The provider's turns carry no raw output, and their arguments are JSON. *)
Definition plain_message (m : Message) : Prop := Forall (fun c => clean (call_value c)) (ms_tool_calls m) /\ ms_raw_output m = [].
Definition plain_provider : Prop := forall n task h ops, plain_message (fst (provider n task h ops)).

Context (Hquiet : quiet) (Hplain : plain_provider).

Lemma callProvider_plain task h ops x : match fst (callProvider r provider task h ops x) with Ok (m, _) => plain_message m | Err _ => True end.
Proof.
unfold callProvider.
assert (forall left attempt recorded y, plain_message (fst (fst (provider_attempts r left attempt recorded provider task h ops y)))) as Hall.
{ induction left as [|left IH]; intros attempt recorded y; cbn [provider_attempts]; [split; [constructor|done]|].
pose proof (Hplain (ex_calls y) task h ops) as Hm. destruct (provider (ex_calls y) task h ops) as [m failure]. cbn in Hm.
repeat case_match; try apply IH; exact Hm. }
specialize (Hall (Z.to_nat providerAttempts) 1 [] x). destruct (provider_attempts _ _ _ _ _ _ _ _ x) as [[m e] x']. exact Hall.
Qed.

(** An access that keeps the run's rows. *)
Definition same_run (s s' : DB) : Prop := runs s' !! runID = runs s !! runID /\ forall id, tool_results s' !! (runID, id) = tool_results s !! (runID, id).
#[local] Instance same_run_preorder : PreOrder same_run.
Proof. split; [done|]. intros s1 s2 s3 [A1 B1] [A2 B2]. split; [congruence|]. intros id. by rewrite B2. Qed.
Lemma same_run_waiting s s' : same_run s s' -> waiting runID s' = waiting runID s.
Proof. intros [Hr _]. unfold waiting. by rewrite Hr. Qed.
Lemma same_run_ok s s' : same_run s s' -> results_answered runID s -> results_answered runID s'.
Proof. intros [Hr Ht]. by apply results_answered_same. Qed.
Lemma parts_same_run s s' : same run_parts s s' -> same_run s s'.
Proof. unfold same, run_parts. intros [= Hr Ht]. split; [by rewrite Hr|]. intros. by rewrite Ht. Qed.

Lemma access_ok {A} (m : DbIO A) x a x' : access env m x = (Ok a, x') -> exists s, same_run (ex_db x) s /\ m s = (Ok a, ex_db x').
Proof.
unfold access. destruct (m (env (ex_accesses x) (ex_db x))) as [out s'] eqn:Hm. intros [= -> <-].
exists (env (ex_accesses x) (ex_db x)). split; [apply Hquiet|exact Hm].
Qed.
Lemma iobind_ok {A B} (m : RunIO A) (k : A -> RunIO B) x b x' :
iobind m k x = (Ok b, x') -> exists a x1, m x = (Ok a, x1) /\ k a x1 = (Ok b, x').
Proof. unfold iobind. destruct (m x) as [[a|e] x1]; [|done]. eauto. Qed.
Lemma fire_ok point step x u x' : fire r point runID step x = (Ok u, x') -> x' = x.
Proof. unfold fire, iolift. by intros [= _ <-]. Qed.

Lemma start_same request x x' : startModelCall env r runID request x = (Ok tt, x') -> same_run (ex_db x) (ex_db x').
Proof.
unfold startModelCall. destruct (marshal request); [|done]. intros (e & x1 & (s1 & H1 & Hs1)%access_ok & H2)%iobind_ok. injection Hs1 as _ Hs1.
etransitivity; [exact H1|]. rewrite Hs1.
assert (forall y, access env (AppendGuarded (rn_fence r) (rn_clock r) runID "model.request" request) y = (Ok tt, x') -> same_run (ex_db y) (ex_db x')) as Happ.
{ intros y (s2 & Hs2 & Ha)%access_ok. etransitivity; [exact Hs2|]. by eapply parts_same_run, append_guarded_parts. }
destruct e as [e|]; [|by apply Happ]. destruct (str_eqb _ _); [|by apply Happ]. destruct (equalJSON _ _); [|done]. by injection H2 as <-.
Qed.

(** Answering the pending call. *)
Lemma dispatch_progress call x x' row h :
results_answered runID (ex_db x) -> runs (ex_db x) !! runID = Some row -> decode_history (run_transcript row) = Some h -> pending h = Some call ->
dispatch_call env err_text r runID call x = (Ok tt, x') ->
results_answered runID (ex_db x') /\ (waiting runID (ex_db x') < waiting runID (ex_db x))%nat.
Proof.
intros Hok Hrow Hh Hpend Hd. unfold dispatch_call, iotry in Hd.
destruct (access env (Invoke (rn_dispatch r) runID (tc_id call) (tc_operation_id call) (tc_arguments call)) x) as [[res|e] x1] eqn:Ha.
2:{ destruct (is_crashed e); [done|]. by destruct (access env (SaveStatusGuarded _ _ _ _ _ _) x1) as [[?|?] ?]. }
injection Hd as <-. apply access_ok in Ha as (s & Hs & Hi).
assert (sanitize_text (tc_id call) = tc_id call) as Hsan.
{ pose proof (history_sanitized _ _ Hh) as Hall. rewrite Forall_forall in Hall. apply Hall.
apply pending_Some in Hpend as (b & a & -> & _). set_solver. }
destruct Hs as [Hr Ht]. apply invoke_progress in Hi as [[Hs' Hsome]|(row1 & row2 & messages & body & st & H1 & H2 & Hdec & Hnext & Hother)]; [| |done].
- exfalso. rewrite Ht in Hsome. destruct (Hok row Hrow) as [_ Hans]. apply pending_Some in Hpend as (b & a & _ & Hn & _).
apply Hn. by eapply Hans.
- rewrite Hr, Hrow in H1. injection H1 as <-. destruct (Hok row Hrow) as [Hpl Hans]. split.
+ intros row' Hrow'. rewrite H2 in Hrow'. injection Hrow' as <-. split; [by eapply plain_extended|].
intros h' id Hh' Hid. destruct (transcript_extended _ _ _ _ _ _ _ _ _ Hh Hdec Hnext Hh') as [Hv _].
rewrite answered_view, Hv, flat_map_app, <- answered_view. apply elem_of_app. destruct (decide (id = tc_id call)) as [->|Hne].
* right. cbn. rewrite Hsan. left.
* left. rewrite Hother, Ht in Hid by done. by eapply Hans.
+ unfold waiting. rewrite H2, Hrow, Hh. destruct (decode_history (run_transcript row2)) as [h'|] eqn:Hh'; [|lia].
destruct (transcript_extended _ _ _ _ _ _ _ _ _ Hh Hdec Hnext Hh') as [Hv _]. pose proof (answer_closes _ _ _ Hpend Hsan Hv). lia.
Qed.

(** Recording a turn. *)
Lemma turn_progress x x' row h :
results_answered runID (ex_db x) -> runs (ex_db x) !! runID = Some row -> decode_history (run_transcript row) = Some h ->
model_turn env err_text r provider runID row h x = (Ok tt, x') -> results_answered runID (ex_db x').
Proof.
intros Hok Hrow Hh Hm. unfold model_turn in Hm.
apply iobind_ok in Hm as (ops & x1 & (s1 & H1 & He)%access_ok & Hm). apply iobind_ok in Hm as ([] & x2 & ->%fire_ok & Hm).
apply iobind_ok in Hm as ([] & x3 & H3%start_same & Hm). apply iobind_ok in Hm as ([] & x4 & ->%fire_ok & Hm).
apply iobind_ok in Hm as ([turn failure] & x5 & Hc & Hm).
pose proof (callProvider_plain (run_task row) h ops x3) as Hp. pose proof (callProvider_frame r provider (run_task row) h ops x3) as (Hdb & _ & _).
rewrite Hc in Hp, Hdb. cbn in Hp, Hdb.
assert (s1 = ex_db x1) as ->. { pose proof (Exposed_reads runID (mf_operations (rn_manifest r)) s1) as Hx. by rewrite He in Hx. }
assert (same_run (ex_db x) (ex_db x5)) as Hs5 by (rewrite Hdb; by etransitivity). clear H1 H3 Hdb He.
unfold conclude_turn in Hm. destruct failure as [e|]; [by unfold fail_turn, iotry in Hm; destruct (access _ _ x5) as [[?|?] ?]|].
destruct (if str_eqb _ _ then _ else _) as [[]|e]; [|by unfold fail_turn, iotry in Hm; destruct (access _ _ x5) as [[?|?] ?]].
destruct (marshal (history_value (h ++ [turn]))) as [next|] eqn:Hnext; [|done].
apply iobind_ok in Hm as ([] & x6 & (s6 & H6 & Hsave)%access_ok & ->%fire_ok). apply save_turn_parts in Hsave as [Hrun Hres].
assert (same_run (ex_db x) s6) as [Hr Ht] by (by etransitivity). rewrite Hr, Hrow in Hrun. cbn in Hrun.
destruct (Hok row Hrow) as [Hpl Hans]. intros row' Hrow'. rewrite Hrun in Hrow'. injection Hrow' as <-. cbn [run_transcript with_turn].
assert (clean (message_value turn)) as Hclean by (by apply message_clean; apply Hp).
split; [by eapply turn_plain; try done; apply Hp|]. intros h' id Hh' Hid. rewrite Hres, Ht in Hid.
pose proof (turn_written _ _ _ _ Hh Hpl Hclean Hnext _ Hh') as Hv.
rewrite answered_view, Hv, flat_map_app, <- answered_view. apply elem_of_app. left. by eapply Hans.
Qed.

(** A round that goes on keeps the invariant and makes progress. *)
Lemma round_progress maxSteps used x used' x' :
results_answered runID (ex_db x) -> round env err_text r provider runID maxSteps used x = (Ok (Again used'), x') ->
results_answered runID (ex_db x') /\
((used' = used /\ (waiting runID (ex_db x') < waiting runID (ex_db x))%nat) \/ (used < maxSteps /\ used' = used + 1)).
Proof.
intros Hok. unfold round. intros (row & x1 & (s1 & H1 & Hs1)%access_ok & Hk)%iobind_ok. unfold Run in Hs1.
assert (runs s1 !! runID = Some row /\ ex_db x1 = s1) as [Hrow <-] by (destruct (runs s1 !! runID); by simplify_eq). clear Hs1.
rewrite <- (same_run_waiting _ _ H1). apply (same_run_ok _ _ H1) in Hok. clear H1.
destruct (str_eqb _ _); [done|]. apply iobind_ok in Hk as (h & x2 & Hdec & Hk). unfold iolift in Hdec.
destruct (decode_history (run_transcript row)) as [h'|] eqn:Hh; [|done]. injection Hdec as -> <-.
destruct (pending h) as [call|] eqn:Hp.
- apply iobind_ok in Hk as ([] & x3 & Hd & Hk). injection Hk as <- <-. destruct (dispatch_progress _ _ _ _ _ Hok Hrow Hh Hp Hd). auto.
- destruct (finished h).
{ apply iobind_ok in Hk as ([] & x3 & _ & Hk). unfold stop in Hk. apply iobind_ok in Hk as (? & ? & _ & Hk). by apply iobind_ok in Hk as (? & ? & _ & ?). }
destruct (Z.leb_spec maxSteps used).
{ unfold stop in Hk. apply iobind_ok in Hk as (? & ? & _ & Hk). by apply iobind_ok in Hk as (? & ? & _ & ?). }
apply iobind_ok in Hk as ([] & x3 & Hm & Hk). injection Hk as <- <-. split; [by eapply turn_progress|]. right. done.
Qed.

Lemma loop_terminates maxSteps : forall left used x, Z.to_nat (maxSteps - used) = left -> results_answered runID (ex_db x) ->
exists fuel out x', execute_loop env err_text r fuel provider runID maxSteps used x = Some (out, x').
Proof.
induction left as [left IHleft] using lt_wf_ind. intros used x Hleft.
remember (waiting runID (ex_db x)) as w eqn:Hw. revert x Hw. induction w as [w IHw] using lt_wf_ind. intros x Hw Hok.
destruct (round env err_text r provider runID maxSteps used x) as [[[used'|run]|e] x1] eqn:Hr.
- destruct (round_progress _ _ _ _ _ Hok Hr) as [Hok1 [[-> Hlt]|[Hlt ->]]].
+ destruct (IHw _ ltac:(by rewrite Hw) x1 eq_refl Hok1) as (fuel & out & x' & He). exists (S fuel), out, x'. cbn [execute_loop]. by rewrite Hr.
+ destruct (IHleft (Z.to_nat (maxSteps - (used + 1))) ltac:(lia) (used + 1) x1 eq_refl Hok1) as (fuel & out & x' & He).
exists (S fuel), out, x'. cbn [execute_loop]. by rewrite Hr.
- exists 1%nat, (Ok run), x1. cbn [execute_loop]. by rewrite Hr.
- exists 1%nat, (Err e), x1. cbn [execute_loop]. by rewrite Hr.
Qed.
End Progress.

Lemma loop_more `{!SqlBind} env err_text r provider runID maxSteps fuel used x out : forall fuel', (fuel <= fuel')%nat ->
  execute_loop env err_text r fuel provider runID maxSteps used x = Some out ->
  execute_loop env err_text r fuel' provider runID maxSteps used x = Some out.
Proof.
  revert used x. induction fuel as [|fuel IH]; intros used x fuel' Hle; [done|]. destruct fuel' as [|fuel']; [lia|]. cbn [execute_loop].
  destruct (round _ _ _ _ _ _ _ x) as [[[u|run]|e] x1]; [|done..]. apply IH. lia.
Qed.

(** ** Theorems *)

(** C5. Executions end: when other processes leave the run alone and every
    saved result has its tool message, as both tool calls and turns ensure,
    [Execute] returns, whatever the provider decides in its turns, how many
    calls it makes, which of them fail and where a crash strikes.  The
    provider's messages and the transcript are those without raw output, such
    as the scripted providers'; the live adapters keep the raw output of their
    service and are not covered. *)
Theorem execution_terminates `{!SqlBind} env err_text r runID maxSteps x :
  sound_dispatcher (rn_dispatch r) -> quiet env runID -> (forall p, rn_provider r = Some p -> plain_provider p) ->
  results_answered runID (ex_db x) ->
  exists fuel out x', forall fuel', (fuel <= fuel')%nat -> Execute env err_text r fuel' runID maxSteps x = Some (out, x').
Proof.
  intros Hd Hq Hp Hok. unfold Execute. destruct (maxSteps <? 1); [by exists 0%nat; eauto|]. destruct (rn_provider r) as [p|]; [|by exists 0%nat; eauto].
  destruct (loop_terminates env err_text r p runID Hd Hq (Hp _ eq_refl) maxSteps _ 0 x eq_refl Hok) as (fuel & out & x' & He).
  exists fuel, out, x'. intros fuel' Hle. by eapply loop_more.
Qed.

(** An execution refines the system: whatever other processes commit in
    between, what [Execute] does to the database is a sequence of store
    operations and tool calls, so the invariants of such sequences hold after
    it and the guarantees to fenced-out workers hold during it. *)
Theorem execution_refines_system `{!SqlBind} env err_text r fuel runID maxSteps x out x' :
  (forall n s, valid_time (wall s) -> sys_steps s (env n s)) -> clock_ok (rn_clock r) -> clock_ok (dp_clock (rn_dispatch r)) ->
  sound_dispatcher (rn_dispatch r) -> valid_time (wall (ex_db x)) ->
  Execute env err_text r fuel runID maxSteps x = Some (out, x') -> sys_steps (ex_db x) (ex_db x').
Proof.
  intros Henv Hc Hdc Hd Hw. unfold Execute. destruct (maxSteps <? 1); [by intros [= _ <-]|]. destruct (rn_provider r) as [p|]; [|by intros [= _ <-]].
  intros He. by eapply (execute_loop_advances env err_text r Henv Hc Hdc Hd).
Qed.

(** A bounded number of provider calls: an execution asks for at most
    [maxSteps] turns, each at most twice, so a provider that is always
    interrupted cannot keep it busy. *)
Theorem provider_calls_bounded `{!SqlBind} env err_text r fuel runID maxSteps x out x' :
  1 <= maxSteps -> Execute env err_text r fuel runID maxSteps x = Some (out, x') ->
  Z.of_nat (ex_calls x) <= Z.of_nat (ex_calls x') <= Z.of_nat (ex_calls x) + 2 * maxSteps.
Proof.
  intros Hm. unfold Execute. destruct (Z.ltb_spec maxSteps 1); [lia|]. destruct (rn_provider r) as [p|]; [|intros [= _ <-]; lia].
  intros He. split; [by eapply execute_loop_asks|]. apply execute_loop_calls in He; lia.
Qed.

(** ** An example: a scripted provider that refunds a charge and stops *)
Module RunnerDemo.
Definition turn (calls : list ToolCall) (content : string) : Message :=
MkMessageOf "assistant" content calls "" "" 0 [] "" None "" "" "" 0 [].
Definition call : ToolCall := MkToolCall "call-1" "createRefund" (Billing.demo_args 300).
Definition provider : Provider := fun _ _ history _ => (if bool_decide (all_calls history = []) then turn [call] "" else turn [] "refunded", None).
Definition runner : Runner :=
MkRunner (DispatchDemo.dispatcher None) (dp_manifest (DispatchDemo.dispatcher None)) (Some provider) None None None (fun _ => None).
Definition still (n : nat) (s : DB) : DB := s.
Definition text_of (e : err) : string := match e with ErrText t => t | _ => "error" end.
Definition start : Exec := MkExec SystemDemo.db 0 0.
Definition run (fuel : nat) : option (res err RunRow * Exec) := Execute still text_of runner fuel "R-1" 4 start.

(** Three rounds: a turn with the refund, its dispatch, a turn without calls;
the fourth completes the run. *)
Lemma completes : match run 4 with
      | Some (Ok row, x) => run_status row = "completed" /\ run_step row = 3 /\ ex_calls x = 2%nat
      | _ => False
      end.
Proof. vm_compute. split_and!; reflexivity. Qed.
Lemma plain : forall p, rn_provider runner = Some p -> plain_provider p.
Proof.
intros p [= <-] n task h ops. unfold provider. case_bool_decide; cbn; (split; [|done]); [|constructor].
constructor; [|constructor]. unfold call, call_value, Billing.demo_args. cbn [clean map fst snd all_props foldr tc_id tc_operation_id tc_arguments].
split_and!; try done; try (by apply (bool_decide_unpack _)); repeat (constructor; [by apply utf8_ascii_text|]); constructor.
Qed.
Lemma undisturbed : quiet still "R-1".
Proof. by intros n s. Qed.
Lemma answered : results_answered "R-1" (ex_db start).
Proof.
intros row Hrow. assert (run_transcript row = "[]") as Ht by (vm_compute in Hrow; by injection Hrow as <-). rewrite Ht. split; [vm_compute; constructor|].
intros h id _ [v Hv]. change ((∅ : gmap (string * string) ToolResultRow) !! ("R-1", id) = Some v) in Hv. by rewrite lookup_empty in Hv.
Qed.
End RunnerDemo.

Lemma execution_terminates_witness :
  exists fuel out x', forall fuel', (fuel <= fuel')%nat ->
    Execute RunnerDemo.still RunnerDemo.text_of RunnerDemo.runner fuel' "R-1" 4 RunnerDemo.start = Some (out, x').
Proof.
  exact (execution_terminates RunnerDemo.still RunnerDemo.text_of RunnerDemo.runner "R-1" 4 RunnerDemo.start (DispatchDemo.sound None)
    RunnerDemo.undisturbed RunnerDemo.plain RunnerDemo.answered).
Defined.

Lemma execution_refines_system_witness :
  exists out x', RunnerDemo.run 4 = Some (out, x') /\ sys_steps SystemDemo.db (ex_db x').
Proof.
  pose proof RunnerDemo.completes as Hc. destruct (RunnerDemo.run 4) as [[out x']|] eqn:Hr; [|destruct Hc]. clear Hc.
  exists out, x'. split; [reflexivity|].
  apply (execution_refines_system RunnerDemo.still RunnerDemo.text_of RunnerDemo.runner 4 "R-1" 4 RunnerDemo.start out x').
  - intros n s _. apply rtc_refl.
  - intros s Hs. exact Hs.
  - intros s Hs. exact Hs.
  - exact (DispatchDemo.sound None).
  - vm_compute. split; [discriminate|reflexivity].
  - exact Hr.
Defined.

Lemma provider_calls_bounded_witness :
  exists out x', RunnerDemo.run 4 = Some (out, x') /\ 0 <= Z.of_nat (ex_calls x') <= 0 + 2 * 4.
Proof.
  pose proof RunnerDemo.completes as Hc. destruct (RunnerDemo.run 4) as [[out x']|] eqn:Hr; [|destruct Hc]. clear Hc.
  exists out, x'. split; [reflexivity|]. change 0 with (Z.of_nat (ex_calls RunnerDemo.start)). unfold RunnerDemo.run in Hr.
  apply (provider_calls_bounded RunnerDemo.still RunnerDemo.text_of RunnerDemo.runner 4 "R-1" 4 RunnerDemo.start out x'); [lia|exact Hr].
Defined.

Lemma validateCalls_exact_witness :
  validateCalls RunnerDemo.runner [] (RunnerDemo.turn [RunnerDemo.call] "") = Ok tt /\
  NoDup (map tc_id (all_calls ([] ++ [RunnerDemo.turn [RunnerDemo.call] ""]))).
Proof.
  destruct (validateCalls_exact RunnerDemo.runner [] (RunnerDemo.turn [RunnerDemo.call] "")) as [_ H].
  split; [vm_compute; reflexivity|]. apply H; [constructor|vm_compute; reflexivity].
Defined.

Lemma model_request_resumed_witness :
  exists x1, startModelCall RunnerDemo.still RunnerDemo.runner "R-1" (VMap [("task", VString "t")]) RunnerDemo.start = (Ok tt, x1) /\
    exists x3, startModelCall RunnerDemo.still RunnerDemo.runner "R-1" (VMap [("task", VString "t")]) x1 = (Ok tt, x3) /\ ex_db x3 = ex_db x1.
Proof.
  destruct (startModelCall RunnerDemo.still RunnerDemo.runner "R-1" (VMap [("task", VString "t")]) RunnerDemo.start) as [[[]|e] x1] eqn:Hs.
  - exists x1. split; [reflexivity|].
    assert (exists encoded, marshal (VMap [("task", VString "t")]) = Some encoded /\ is_Some (unmarshal encoded)) as (encoded & Hm & Hu)
      by (eexists; split; [vm_compute; reflexivity|vm_compute; eexists; reflexivity]).
    destruct (model_request_resumed RunnerDemo.runner "R-1" _ encoded RunnerDemo.start x1 Hm Hu Hs) as (_ & Hagain & _).
    exact (Hagain RunnerDemo.runner x1 eq_refl).
  - exfalso. revert Hs. vm_compute. discriminate.
Defined.
