(* ===== verification/Protocol.v ===== *)
(** * The protocol of an execution

    What an execution may do next is decided by the run's own rows: its status,
    its transcript and the last event of its ledger.  [action] states which step
    is allowed in which state, and with which outcome, without the order in which
    the code looks; the theorem is that [Execute] follows it, step by step, and
    ends where it says. *)

From S2P Require Export Termination.
Open Scope Z_scope.
Open Scope tx_scope.

(** ** The protocol *)

(** The first call the assistant made that has no tool message. *)
Definition waits (h : list Message) (call : ToolCall) : Prop :=
  exists before after, all_calls h = before ++ call :: after /\ tc_id call ∉ answered_ids h /\ Forall (fun c => tc_id c ∈ answered_ids h) before.
Definition all_answered (h : list Message) : Prop := Forall (fun c => tc_id c ∈ answered_ids h) (all_calls h).
(** The conversation ends in a turn without calls. *)
Definition ended (h : list Message) : Prop := exists l m, h = l ++ [m] /\ ms_role m = "assistant" /\ ms_tool_calls m = [].
Lemma finished_ended h : finished h = true <-> ended h.
Proof.
  unfold finished, ended, is_role. split.
  - destruct (last h) as [m|] eqn:Hl; [|done]. intros [Hr%str_eqb_true Hc%bool_decide_eq_true]%andb_true_iff.
    apply last_Some in Hl as [l ->]. eauto.
  - intros (l & m & -> & Hr & Hc). rewrite last_snoc, Hr, Hc. done.
Qed.

Section Protocol.
Context `{!SqlBind} (err_text : err -> string) (r : Runner) (provider : Provider) (runID : string) (maxSteps : Z).

(** Other processes leave the rows alone that decide what comes next. *)
Definition others (s s' : DB) : Prop :=
runs s' !! runID = runs s !! runID /\ Events runID s' = Events runID s /\ run_auth s' !! runID = run_auth s !! runID /\
auth_state s' !! runID = auth_state s !! runID.

(** The run is open, with this row and this history. *)
Definition open_run (s : DB) (row : RunRow) (h : list Message) : Prop :=
runs s !! runID = Some row /\ run_status row <> "completed" /\ decode_history (run_transcript row) = Some h.
(** Nothing is waiting and the last message is not a turn without calls. *)
Definition settled (s : DB) (row : RunRow) (h : list Message) : Prop := open_run s row h /\ all_answered h /\ ~ ended h.
(** The run's next turn is due, with these operations exposed to the model. *)
Definition turn_due (used : Z) (s : DB) (row : RunRow) (h : list Message) (ops : list Operation) : Prop :=
settled s row h /\ used < maxSteps /\ Exposed runID (mf_operations (rn_manifest r)) s = Ok (ops, s).
(** The ledger ends in the request, unanswered. *)
Definition asked (s : DB) (request : goval) : Prop :=
exists e encoded, marshal request = Some encoded /\ LastEvent runID s = Some e /\ e_type e = "model.request" /\
(e_payload e = encoded \/ equalJSON (e_payload e) encoded = true).
(** The provider's answer to this task, history and operations, with the
attempts that gave none. *)
Definition answered_by (row : RunRow) (h : list Message) (ops : list Operation) (next : Message) (failure : option err) : Prop :=
exists n m pe l, provider n (run_task row) h ops = (m, pe) /\ next = with_interruptions m l /\ (failure = None <-> pe = None).
(** An assistant message whose calls have operations and IDs of their own. *)
Definition accepted_turn (h : list Message) (next : Message) : Prop := ms_role next = "assistant" /\
Forall (fun c => tc_id c <> "" /\ is_Some (find_operation (rn_manifest r) (tc_operation_id c))) (ms_tool_calls next) /\
NoDup (map tc_id (ms_tool_calls next)) /\ (forall c, c ∈ ms_tool_calls next -> tc_id c ∉ map tc_id (all_calls h)).

(** An error that was to be recorded; [out] is how the recording went. *)
Definition reported (what : string) (e : err) (out : res err unit) : err :=
match out with Ok _ => e | Err saveErr => ErrWrap (what +:+ " error: " +:+ err_text e +:+ "; recording error: ") saveErr end.
Definition error_of (out : res err unit) : option err := match out with Ok _ => None | Err e => Some e end.

(** What the execution refuses without writing, and why. *)
Inductive refusal (used : Z) (s : DB) : err -> Prop :=
| refuse_missing : runs s !! runID = None -> refusal used s ErrNoRows
| refuse_transcript row : runs s !! runID = Some row -> run_status row <> "completed" -> decode_history (run_transcript row) = None ->
refusal used s (ErrText "json: transcript")
| refuse_exposed row h e s' : settled s row h -> used < maxSteps -> atomically (Exposed runID (mf_operations (rn_manifest r))) s = (Err e, s') -> refusal used s e
| refuse_request row h ops : turn_due used s row h ops -> marshal (request_value row h ops) = None -> refusal used s json_error
| refuse_changed row h ops encoded e : turn_due used s row h ops -> marshal (request_value row h ops) = Some encoded ->
LastEvent runID s = Some e -> e_type e = "model.request" -> equalJSON (e_payload e) encoded = false ->
refusal used s (ErrText ("run " +:+ runID +:+ " has an abandoned model request that differs from the reconstructed one; the run cannot be resumed safely"))
| refuse_turn row h ops next : turn_due used s row h ops -> asked s (request_value row h ops) -> answered_by row h ops next None ->
accepted_turn h next -> marshal (history_value (h ++ [next])) = None -> refusal used s json_error
| crash_before_request row h ops e : turn_due used s row h ops ->
Fire (rn_crash r) (MkSite BeforeModelRequest runID (run_step row) "" "") = Some e -> refusal used s e
| crash_after_request row h ops e : turn_due used s row h ops -> asked s (request_value row h ops) ->
Fire (rn_crash r) (MkSite AfterModelRequest runID (run_step row) "" "") = Some e -> refusal used s e
| crash_after_response row step e : runs s !! runID = Some row -> run_step row = step + 1 ->
Fire (rn_crash r) (MkSite AfterModelResponse runID step "" "") = Some e -> refusal used s e
| crash_before_completion row h e : open_run s row h -> all_answered h -> ended h ->
Fire (rn_crash r) (MkSite BeforeCompletion runID (run_step row) "" "") = Some e -> refusal used s e.

(** [action used s turns failure s']: the execution, having used so many turns,
goes from [s] to [s'], uses [turns] more, and ends with [failure] if there is
one. *)
Inductive action (used : Z) (s : DB) : Z -> option err -> DB -> Prop :=
| act_others s' : others s s' -> action used s 0 None s'
| act_refuse e : refusal used s e -> action used s 0 (Some e) s
| act_call row h call result s' : open_run s row h -> waits h call ->
Invoke (rn_dispatch r) runID (tc_id call) (tc_operation_id call) (tc_arguments call) s = (Ok result, s') -> action used s 0 None s'
| act_call_crashed row h call e s' : open_run s row h -> waits h call ->
Invoke (rn_dispatch r) runID (tc_id call) (tc_operation_id call) (tc_arguments call) s = (Err e, s') -> is_crashed e = true -> action used s 0 (Some e) s'
| act_call_failed row h call e s1 s2 out s' : open_run s row h -> waits h call ->
Invoke (rn_dispatch r) runID (tc_id call) (tc_operation_id call) (tc_arguments call) s = (Err e, s1) -> is_crashed e = false -> others s1 s2 ->
SaveStatusGuarded (rn_fence r) (rn_clock r) runID "failed" "error" (dispatch_payload err_text call e) s2 = (out, s') ->
action used s 0 (Some (reported "dispatch" e out)) s'
| act_request row h ops out s' : turn_due used s row h ops -> (forall e, LastEvent runID s = Some e -> e_type e <> "model.request") ->
AppendGuarded (rn_fence r) (rn_clock r) runID "model.request" (request_value row h ops) s = (out, s') -> action used s 0 (error_of out) s'
| act_turn row h ops next transcript out s' : turn_due used s row h ops -> asked s (request_value row h ops) -> answered_by row h ops next None ->
accepted_turn h next -> marshal (history_value (h ++ [next])) = Some transcript ->
SaveTurnGuarded (rn_fence r) (rn_clock r) runID (run_step row + 1) transcript (message_value next) (interruptionPayloads (ms_interruptions next)) s = (out, s') ->
action used s 1 (error_of out) s'
| act_provider_failed row h ops next e out s' : turn_due used s row h ops -> asked s (request_value row h ops) -> answered_by row h ops next (Some e) ->
FailModelTurnGuarded (rn_fence r) (rn_clock r) runID (message_value next) (interruptionPayloads (ms_interruptions next)) (err_text e) s = (out, s') ->
action used s 1 (Some (reported "provider" e out)) s'
| act_turn_rejected row h ops next e out s' : turn_due used s row h ops -> asked s (request_value row h ops) -> answered_by row h ops next None ->
~ accepted_turn h next ->
FailModelTurnGuarded (rn_fence r) (rn_clock r) runID (message_value next) (interruptionPayloads (ms_interruptions next)) (err_text e) s = (out, s') ->
action used s 1 (Some (reported "validation" e out)) s'
| act_complete row h out s' : open_run s row h -> all_answered h -> ended h ->
SaveStatusGuarded (rn_fence r) (rn_clock r) runID "completed" "execution.completed" (status_payload row) s = (out, s') -> action used s 0 (error_of out) s'
| act_pause row h out s' : settled s row h -> maxSteps <= used ->
SaveStatusGuarded (rn_fence r) (rn_clock r) runID "paused" "execution.paused" (status_payload row) s = (out, s') -> action used s 0 (error_of out) s'.

(** A sequence of actions that did not fail. *)
Inductive follows (used : Z) (s : DB) : Z -> DB -> Prop :=
| follows_start : follows used s used s
| follows_step used1 s1 k s2 : follows used s used1 s1 -> action used1 s1 k None s2 -> follows used s (used1 + k) s2.
(** The same, and one that did. *)
Definition fails (used : Z) (s : DB) (e : err) (s' : DB) : Prop := exists used1 s1 k, follows used s used1 s1 /\ action used1 s1 k (Some e) s'.

Lemma follows_action used s k s' : action used s k None s' -> follows used s (used + k) s'.
Proof. intros Ha. eapply follows_step; [apply follows_start|done]. Qed.
Lemma follows_trans used s used1 s1 used2 s2 : follows used s used1 s1 -> follows used1 s1 used2 s2 -> follows used s used2 s2.
Proof. intros H1. induction 1 as [|used2 s2 k s3 _ IH Ha]; [done|]. by eapply follows_step. Qed.
Lemma follows_fails used s used1 s1 e s2 : follows used s used1 s1 -> fails used1 s1 e s2 -> fails used s e s2.
Proof. intros H1 (used2 & s3 & k & H2 & Ha). exists used2, s3, k. split; [by eapply follows_trans|done]. Qed.
Lemma fails_action used s k e s' : action used s k (Some e) s' -> fails used s e s'.
Proof. intros Ha. exists used, s, k. split; [apply follows_start|done]. Qed.
Lemma fails_refuse used s e : refusal used s e -> fails used s e s.
Proof. intros Hr. by apply (fails_action _ _ 0), act_refuse. Qed.

(** *** What the others leave alone *)
Lemma open_run_others s s' row h : others s s' -> open_run s row h -> open_run s' row h.
Proof. intros (Hr & _) (H1 & H2 & H3). split_and!; [by rewrite Hr|done..]. Qed.
Lemma Exposed_others s s' ops out : run_auth s' !! runID = run_auth s !! runID -> auth_state s' !! runID = auth_state s !! runID ->
Exposed runID ops s = Ok (out, s) -> Exposed runID ops s' = Ok (out, s').
Proof.
intros Ha Hs. unfold Exposed. rewrite !tbind_ok. intros (p & s1 & Hl & He).
pose proof (load_state _ _ _ _ Hl) as ->.
exists p, s'. split; [by eapply load_row|]. destruct p as [p|]; [|by injection He as <-].
unfold tbind, sql_get, treads in *. rewrite Hs. by injection He as <-.
Qed.
Lemma turn_due_others used s s' row h ops : others s s' -> turn_due used s row h ops -> turn_due used s' row h ops.
Proof.
intros Ho ((H1 & H2) & H3 & H4). split_and!; [split; [by eapply open_run_others|done]|done|]. destruct Ho as (_ & _ & Ha & Hs). by eapply Exposed_others.
Qed.
Lemma asked_others s s' request : others s s' -> asked s request -> asked s' request.
Proof. intros (_ & He & _) (e & encoded & H1 & H2 & H3). exists e, encoded. unfold LastEvent in *. by rewrite He. Qed.

(** *** The writes *)
Definition kept_parts (s : DB) := (runs s, run_auth s, auth_state s).
Lemma guarded_kept f clock body s s' : guarded f clock body s = (Ok tt, s') -> exists s1, same kept_parts s s1 /\ events s1 = events s /\ body s1 = Ok (tt, s').
Proof.
unfold guarded. intros Hg%atomically_ok. destruct f as [f|]; [|by exists s].
apply tbind_ok in Hg as (now & s1 & H1 & Hg). injection H1 as <- <-. apply tbind_ok in Hg as ([] & s2 & H2 & Hb). exists s2.
assert (Hr : respects (same (fun s => (kept_parts s, events s))) (GuardFenceTx f (Clock_Now clock s))) by (unfold GuardFenceTx; respects_tac; by apply respects_modify).
apply Hr in H2. unfold same in *. injection H2 as H2a H2b H2c He. split_and!; [|done..]. unfold kept_parts. congruence.
Qed.
(** A recorded request is the last event, and leaves the rest. *)
Lemma request_recorded f clock request encoded s s' : marshal request = Some encoded -> AppendGuarded f clock runID "model.request" request s = (Ok tt, s') ->
same kept_parts s s' /\ asked s' request.
Proof.
intros Hm (s1 & Hk & _ & Ha)%guarded_kept. split.
- etransitivity; [exact Hk|]. by eapply (append_same kept_parts).
- apply AppendEventTx_ok in Ha as (row & Hrow & ->). apply event_row_fields in Hrow as [Htyp Hpay]. eexists _, encoded.
unfold LastEvent. rewrite Events_append, last_snoc. split_and!; [done|reflexivity|done|]. left. cbn. congruence.
Qed.
Lemma status_recorded f clock status typ payload row s s' : runs s !! runID = Some row ->
SaveStatusGuarded f clock runID status typ payload s = (Ok tt, s') -> runs s' !! runID = Some (with_status status row).
Proof.
intros Hrow (s1 & Hk & _ & Hb)%guarded_kept. unfold saveStatusTx in Hb. apply tbind_ok in Hb as ([] & s2 & ->%sql_update_ok & Ha).
assert (runs s' = runs (set_runs (alter (with_status status) runID) s1)) as ->.
{ apply (append_same runs) in Ha; [exact Ha|done]. }
cbn. rewrite lookup_alter_eq. unfold same, kept_parts in Hk. injection Hk as -> _ _. by rewrite Hrow.
Qed.
End Protocol.

(** ** The runner follows it *)

Section Follows.
Context `{!SqlBind} (env : nat -> DB -> DB) (err_text : err -> string) (r : Runner) (provider : Provider) (runID : string) (maxSteps : Z).
Context (Henv : forall n s, others runID s (env n s)).
#[local] Notation action := (action err_text r provider runID maxSteps).
#[local] Notation refusal := (refusal r provider runID maxSteps).
#[local] Notation follows := (follows err_text r provider runID maxSteps).
#[local] Notation fails := (fails err_text r provider runID maxSteps).
#[local] Notation turn_due := (turn_due r runID maxSteps).

(** [leads used s m Q]: from [s] the computation [m] is a sequence of actions; it
ends in a state and with a value that satisfy [Q], or in a failure the
protocol has. *)
Definition leads {A} (used : Z) (s : DB) (m : RunIO A) (Q : A -> Z -> DB -> Prop) : Prop := forall x, ex_db x = s ->
match m x with
| (Ok a, x') => exists used', follows used s used' (ex_db x') /\ Q a used' (ex_db x')
| (Err e, x') => fails used s e (ex_db x')
end.

Lemma leads_bind {A B} used s (m : RunIO A) (k : A -> RunIO B) Q R :
leads used s m Q -> (forall a used' s', Q a used' s' -> leads used' s' (k a) R) -> leads used s (iobind m k) R.
Proof.
intros Hm Hk x Hx. unfold iobind. specialize (Hm x Hx). destruct (m x) as [[a|e] x1]; [|exact Hm]. destruct Hm as (used1 & Hf & Hq).
specialize (Hk a used1 _ Hq x1 eq_refl). destruct (k a x1) as [[b|e] x2].
- destruct Hk as (used2 & Hf2 & Hr). exists used2. split; [by eapply follows_trans|done].
- by eapply follows_fails.
Qed.
Lemma leads_ret {A} used s (a : A) (Q : A -> Z -> DB -> Prop) : Q a used s -> leads used s (ioret a) Q.
Proof. intros Hq x <-. exists used. split; [apply follows_start|done]. Qed.
Lemma leads_fail {A} used s e (Q : A -> Z -> DB -> Prop) : refusal used s e -> leads used s (iofail e) Q.
Proof. intros Hr x <-. by apply fails_refuse. Qed.
Lemma leads_weaken {A} used s (m : RunIO A) (Q R : A -> Z -> DB -> Prop) : leads used s m Q -> (forall a used' s', Q a used' s' -> R a used' s') -> leads used s m R.
Proof.
intros Hm Hw x Hx. specialize (Hm x Hx). destruct (m x) as [[a|e] x1]; [|exact Hm]. destruct Hm as (u & Hf & Hq). exists u. split; [done|by apply Hw].
Qed.
(** An access: what the others did, then an action. *)
Lemma leads_access {A} used s (m : DbIO A) (Q : A -> Z -> DB -> Prop) :
(forall s1, others runID s s1 -> match m s1 with
| (Ok a, s2) => exists k, action used s1 k None s2 /\ Q a (used + k) s2
| (Err e, s2) => exists k, action used s1 k (Some e) s2
end) -> leads used s (access env m) Q.
Proof.
intros Hm x <-. unfold access. specialize (Hm _ (Henv (ex_accesses x) (ex_db x))).
assert (Ho : follows used (ex_db x) used (env (ex_accesses x) (ex_db x))).
{ replace used with (used + 0) at 2 by lia. apply follows_action, act_others, Henv. }
destruct (m _) as [[a|e] s2]; destruct Hm as (k & Hm); cbn.
- destruct Hm as [Ha Hq]. exists (used + k). split; [|done]. by eapply follows_step.
- by exists used, (env (ex_accesses x) (ex_db x)), k.
Qed.
(** A read. *)
Lemma leads_read {A} used s (m : DbIO A) (Q : A -> Z -> DB -> Prop) :
(forall s1, others runID s s1 -> snd (m s1) = s1 /\ match fst (m s1) with Ok a => Q a used s1 | Err e => refusal used s1 e end) ->
leads used s (access env m) Q.
Proof.
intros Hm. apply leads_access. intros s1 Ho. destruct (Hm s1 Ho) as [Hs Hq]. destruct (m s1) as [[a|e] s2]; cbn in Hs, Hq; subst s2; exists 0.
- rewrite Z.add_0_r. split; [|done]. apply act_others. by split_and!.
- by apply act_refuse.
Qed.
Lemma leads_fire used s point step : (forall e, Fire (rn_crash r) (MkSite point runID step "" "") = Some e -> refusal used s e) ->
leads used s (fire r point runID step) (fun _ used' s' => used' = used /\ s' = s).
Proof.
intros Hr x <-. unfold fire, iolift. destruct (Fire _ _) as [e|]; [by apply fails_refuse, Hr|]. exists used. split; [apply follows_start|done].
Qed.

Lemma leads_start used s row h ops : turn_due used s row h ops ->
leads used s (startModelCall env r runID (request_value row h ops))
(fun _ used' s' => used' = used /\ turn_due used s' row h ops /\ asked runID s' (request_value row h ops)).
Proof.
intros Hdue. unfold startModelCall. destruct (marshal (request_value row h ops)) as [encoded|] eqn:Hm; [|by eapply leads_fail, refuse_request].
eapply leads_bind with (Q := fun last used' s' => used' = used /\ turn_due used s' row h ops /\ last = LastEvent runID s').
{ apply leads_read. intros s1 Ho. split; [done|]. split_and!; [done|by eapply turn_due_others|done]. }
intros last used' s' (-> & Hdue' & ->). clear s Hdue.
assert (Happ : (forall e, LastEvent runID s' = Some e -> e_type e <> "model.request") ->
leads used s' (access env (AppendGuarded (rn_fence r) (rn_clock r) runID "model.request" (request_value row h ops)))
  (fun _ used' s' => used' = used /\ turn_due used s' row h ops /\ asked runID s' (request_value row h ops))).
{ intros Hlast. apply leads_access. intros s1 Ho. pose proof (turn_due_others _ _ _ _ _ _ _ _ _ Ho Hdue') as Hdue1.
assert (Hlast1 : forall e, LastEvent runID s1 = Some e -> e_type e <> "model.request") by (destruct Ho as (_ & He & _); unfold LastEvent; rewrite He; exact Hlast).
destruct (AppendGuarded _ _ _ _ _ s1) as [out s2] eqn:Ha. pose proof (act_request err_text r provider runID maxSteps used s1 _ _ _ _ _ Hdue1 Hlast1 Ha) as Hact.
destruct out as [[]|e]; [|by exists 0]. exists 0. split; [exact Hact|]. destruct (request_recorded _ _ _ _ _ _ _ Hm Ha) as [Hk Hasked].
rewrite Z.add_0_r. split_and!; [done| |done]. unfold same, kept_parts in Hk. injection Hk as Hr Hau Hst.
destruct Hdue1 as ((H1 & H2) & H3 & H4). split_and!; [split; [|done]|done|]; [unfold open_run; by rewrite Hr|]. eapply Exposed_others; [..|exact H4]; congruence. }
destruct (LastEvent runID s') as [e|] eqn:Hlast; [|apply Happ; by intros e]. destruct (str_eqb (e_type e) "model.request") eqn:Ht.
- apply str_eqb_true in Ht. destruct (equalJSON (e_payload e) encoded) eqn:Heq; [|by eapply leads_fail, refuse_changed].
apply leads_ret. split_and!; [done..|]. exists e, encoded. split_and!; try done. by right.
- apply Happ. intros e' [= <-]. by apply str_eqb_false.
Qed.

Lemma leads_fail_turn {A} used s what next e (Q : A -> Z -> DB -> Prop) :
(forall s1 out s2, others runID s s1 ->
 FailModelTurnGuarded (rn_fence r) (rn_clock r) runID (message_value next) (interruptionPayloads (ms_interruptions next)) (err_text e) s1 = (out, s2) ->
 action used s1 1 (Some (reported err_text what e out)) s2) ->
leads used s (fail_turn env err_text r what runID next e) Q.
Proof.
intros Ha x <-. unfold fail_turn, iotry, access. pose proof (Henv (ex_accesses x) (ex_db x)) as Ho.
destruct (FailModelTurnGuarded _ _ _ _ _ _ _) as [out s2] eqn:Hf. specialize (Ha _ _ _ Ho Hf).
assert (Hfo : follows used (ex_db x) used (env (ex_accesses x) (ex_db x))).
{ replace used with (used + 0) at 2 by lia. by apply follows_action, act_others. }
destruct out as [[]|e']; unfold iofail; cbn [ex_db]; eexists _, _, _; (split; [exact Hfo|exact Ha]).
Qed.

(** A recorded turn counts, and is the run's next step. *)
Lemma leads_conclude used s row h ops next failure : turn_due used s row h ops -> asked runID s (request_value row h ops) ->
answered_by provider row h ops next failure ->
leads used s (conclude_turn env err_text r runID row h next failure) (fun _ used' _ => used' = used + 1).
Proof.
intros Hdue Hasked Hans. unfold conclude_turn.
assert (Hst : forall s1, others runID s s1 -> turn_due used s1 row h ops /\ asked runID s1 (request_value row h ops)).
{ intros s1 Ho. split; [by eapply turn_due_others|by eapply asked_others]. }
destruct failure as [e|].
{ apply leads_fail_turn. intros s1 out s2 Ho Hf. destruct (Hst s1 Ho). by eapply act_provider_failed. }
destruct (if str_eqb (ms_role next) "assistant" then _ else _) as [[]|e] eqn:Hv.
2:{ apply leads_fail_turn. intros s1 out s2 Ho Hf. destruct (Hst s1 Ho). eapply act_turn_rejected; try done.
  intros [Hrole Hok]. apply validateCalls_exact in Hok. rewrite Hrole, str_eqb_refl in Hv. congruence. }
assert (Hacc : accepted_turn r h next).
{ destruct (str_eqb (ms_role next) "assistant") eqn:Hrole; [|done]. split; [by apply str_eqb_true|by apply validateCalls_exact]. }
destruct (marshal (history_value (h ++ [next]))) as [transcript|] eqn:Hm; [|by eapply leads_fail, refuse_turn].
eapply leads_bind with (Q := fun _ used' s' => used' = used + 1 /\ exists row', runs s' !! runID = Some row' /\ run_step row' = run_step row + 1).
- apply leads_access. intros s1 Ho. destruct (Hst s1 Ho) as [Hdue1 Hasked1]. destruct (SaveTurnGuarded _ _ _ _ _ _ _ s1) as [out s2] eqn:Hs.
pose proof (act_turn err_text r provider runID maxSteps used s1 _ _ _ _ _ _ _ Hdue1 Hasked1 Hans Hacc Hm Hs) as Hact.
destruct out as [[]|e]; [|by exists 1]. exists 1. split; [exact Hact|]. split; [done|]. apply save_turn_parts in Hs as [Hr _].
destruct Hdue1 as (((Hrow & _) & _) & _). rewrite Hrow in Hr. by eexists.
- intros _ used' s' (-> & row' & Hrow' & Hstep) x Hx.
pose proof (leads_fire (used + 1) s' AfterModelResponse (run_step row) (fun e => crash_after_response r provider runID maxSteps (used + 1) s' row' _ e Hrow' Hstep) x Hx) as Hfire.
destruct (fire _ _ _ _ x) as [[[]|e] x']; [|exact Hfire]. destruct Hfire as (u & Hf & -> & _). by exists (used + 1).
Qed.

(** What [callProvider] gives is the provider's. *)
Lemma callProvider_answers row h ops x next failure x' :
callProvider r provider (run_task row) h ops x = (Ok (next, failure), x') -> answered_by provider row h ops next failure.
Proof.
unfold callProvider. change (Z.to_nat providerAttempts) with 2%nat.
assert (Hall : forall left attempt recorded x, (0 < left)%nat -> Z.of_nat left + attempt = providerAttempts + 1 ->
let a := fst (provider_attempts r left attempt recorded provider (run_task row) h ops x) in answered_by provider row h ops a.1 a.2).
{ clear x. induction left as [|left IH]; intros attempt recorded x Hpos Hleft; [lia|]. cbn [provider_attempts].
destruct (provider (ex_calls x) (run_task row) h ops) as [m pe] eqn:Hp.
assert (Hg : forall l f, (f = None <-> pe = None) -> answered_by provider row h ops (with_interruptions m l) f) by (intros l f Hf; by exists (ex_calls x), m, pe, l).
destruct pe as [e|]; [|by apply Hg]. destruct (pe_interrupt e) as [i|]; [|by apply Hg]. destruct (Z.leb_spec providerAttempts attempt); [by apply Hg|].
destruct (0 <? wait i); [destruct (rn_sleep r (wait i)); [by apply Hg|]|]; apply IH; lia. }
specialize (Hall 2%nat 1 [] x ltac:(lia) ltac:(reflexivity)). cbv zeta in Hall. destruct (provider_attempts _ _ _ _ _ _ _ _ x) as [[m f] y]. by intros [= -> -> _].
Qed.

Lemma leads_model_turn used s row h : settled runID s row h -> used < maxSteps ->
leads used s (model_turn env err_text r provider runID row h) (fun _ used' _ => used' = used + 1).
Proof.
intros Hs Hu. unfold model_turn.
eapply leads_bind with (Q := fun ops used' s' => used' = used /\ turn_due used s' row h ops).
{ apply leads_read. intros s1 Ho. split; [apply Exposed_reads|]. destruct Hs as (Hopen & Hp & Hf). pose proof (open_run_others _ _ _ _ _ Ho Hopen) as Hopen1.
pose proof (Exposed_reads runID (mf_operations (rn_manifest r)) s1) as Hread. destruct (atomically _ s1) as [[ops|e] s2] eqn:He; cbn in Hread |- *; subst s2.
- split; [done|]. split_and!; [by split|done|]. by apply atomically_ok in He.
- by eapply refuse_exposed; [split|..]. }
intros ops used' s' (-> & Hdue). eapply leads_bind; [apply leads_fire; intros e; by apply (crash_before_request _ _ _ _ _ _ row h ops)|].
intros _ used' s1 (-> & ->). eapply leads_bind; [by apply leads_start|]. intros _ used' s1 (-> & Hdue1 & Hasked).
eapply leads_bind; [apply leads_fire; intros e; by apply (crash_after_request _ _ _ _ _ _ row h ops)|]. intros _ used' s2 (-> & ->).
eapply leads_bind with (Q := fun a used' s' => used' = used /\ s' = s1 /\ answered_by provider row h ops a.1 a.2).
- intros x <-. pose proof (callProvider_frame r provider (run_task row) h ops x) as (Hdb & _ & _). destruct (callProvider r provider _ _ _ x) as [[[next failure]|e] x'] eqn:Hc.
+ cbn in Hdb. rewrite Hdb. exists used. split; [apply follows_start|]. split_and!; [done..|]. by eapply callProvider_answers.
+ unfold callProvider in Hc. by destruct (provider_attempts _ _ _ _ _ _ _ _ x).
- intros [next failure] used' s2 (-> & -> & Hans). by eapply leads_conclude.
Qed.

Lemma leads_dispatch used s row h call : open_run runID s row h -> waits h call ->
leads used s (dispatch_call env err_text r runID call) (fun _ used' _ => used' = used).
Proof.
intros Hopen Hp x <-. unfold dispatch_call, iotry, access. pose proof (Henv (ex_accesses x) (ex_db x)) as Ho.
assert (Hfo : follows used (ex_db x) used (env (ex_accesses x) (ex_db x))).
{ replace used with (used + 0) at 2 by lia. by apply follows_action, act_others. }
pose proof (open_run_others _ _ _ _ _ Ho Hopen) as Hopen1. destruct (Invoke _ _ _ _ _ _) as [[res|e] s2] eqn:Hi.
- exists used. split; [|done]. replace used with (used + 0) at 2 by lia. eapply follows_step; [exact Hfo|]. by eapply act_call.
- cbn [ex_db]. destruct (is_crashed e) eqn:Hc.
+ exists used, (env (ex_accesses x) (ex_db x)), 0. split; [exact Hfo|]. by eapply act_call_crashed.
+ cbn [ex_accesses ex_db]. pose proof (Henv (S (ex_accesses x)) s2) as Ho2. destruct (SaveStatusGuarded _ _ _ _ _ _ _) as [out s3] eqn:Hst.
  pose proof (act_call_failed err_text r provider runID maxSteps used _ _ _ _ _ _ _ _ _ Hopen1 Hp Hi Hc Ho2 Hst) as Hact.
  destruct out as [[]|e']; unfold iofail; cbn [ex_db]; eexists _, _, _; (split; [exact Hfo|exact Hact]).
Qed.

Lemma leads_stop used s row status typ : runs s !! runID = Some row ->
(forall s1 out s2, others runID s s1 -> SaveStatusGuarded (rn_fence r) (rn_clock r) runID status typ (status_payload row) s1 = (out, s2) ->
 action used s1 0 (error_of out) s2) ->
leads used s (stop env r runID status typ row)
(fun o used' s' => used' = used /\ exists row', o = Stop row' /\ runs s' !! runID = Some row' /\ run_status row' = status).
Proof.
intros Hrow Ha. unfold stop. eapply leads_bind with (Q := fun _ used' s' => used' = used /\ runs s' !! runID = Some (with_status status row)).
{ apply leads_access. intros s1 Ho. destruct (SaveStatusGuarded _ _ _ _ _ _ s1) as [out s2] eqn:Hs. specialize (Ha _ _ _ Ho Hs).
destruct out as [[]|e]; [|by exists 0]. exists 0. rewrite Z.add_0_r. split; [exact Ha|]. split; [done|]. destruct Ho as [Hr _].
by eapply status_recorded; [rewrite Hr|exact Hs]. }
intros _ used' s1 (-> & Hrow1). eapply leads_bind with (Q := fun row' used' s' => used' = used /\ runs s' !! runID = Some row' /\ run_status row' = status).
{ apply leads_read. intros s2 [Hr _]. unfold Run. rewrite Hr, Hrow1. done. }
intros row' used' s2 (-> & Hrow2 & Hst). apply leads_ret. eauto.
Qed.

(** Where a round may end. *)
Definition round_ends (used : Z) (o : Round) (used' : Z) (s' : DB) : Prop :=
match o with
| Again u => used' = u /\ (u = used \/ (used < maxSteps /\ u = used + 1))
| Stop row => used' = used /\ runs s' !! runID = Some row /\ (run_status row = "completed" \/ (run_status row = "paused" /\ maxSteps <= used))
end.
Lemma leads_round used s : leads used s (round env err_text r provider runID maxSteps used) (round_ends used).
Proof.
unfold round. eapply leads_bind with (Q := fun row used' s' => used' = used /\ runs s' !! runID = Some row).
{ apply leads_read. intros s1 _. unfold Run. split; [done|]. destruct (runs s1 !! runID) as [row|] eqn:Hr; cbn; [done|by apply refuse_missing]. }
intros row used' s1 (-> & Hrow). destruct (str_eqb (run_status row) "completed") eqn:Hst.
{ apply leads_ret. split_and!; [done..|]. left. by apply str_eqb_true. }
apply str_eqb_false in Hst. eapply leads_bind with (Q := fun h used' s' => used' = used /\ s' = s1 /\ open_run runID s' row h).
{ intros x <-. unfold iolift. destruct (decode_history (run_transcript row)) as [h|] eqn:Hh.
- exists used. split; [apply follows_start|]. by split_and!.
- by eapply fails_refuse, refuse_transcript. }
intros h used' ? (-> & -> & Hopen). destruct (pending h) as [call|] eqn:Hp.
{ apply pending_Some in Hp. eapply leads_bind; [by eapply leads_dispatch|]. intros _ used' s2 ->. apply leads_ret. split; [done|by left]. }
apply pending_None in Hp. destruct (finished h) eqn:Hf; [apply finished_ended in Hf|apply not_true_iff_false in Hf; rewrite finished_ended in Hf].
{ eapply leads_bind; [apply leads_fire; intros e; by apply (crash_before_completion _ _ _ _ _ _ row h)|]. intros _ used' s2 (-> & ->).
eapply leads_weaken; [eapply leads_stop; [done|]|intros o u s2 (-> & row' & -> & Hr & Hs); split_and!; auto].
intros s2 out s3 Ho Hs. eapply act_complete; [by eapply open_run_others|done..]. }
destruct (Z.leb_spec maxSteps used) as [Hle|Hlt].
- eapply leads_weaken; [eapply leads_stop; [done|]|intros o u s2 (-> & row' & -> & Hr & Hs); split_and!; auto].
intros s2 out s3 Ho Hs. eapply act_pause; [split; [by eapply open_run_others|done]|done..].
- eapply leads_bind; [by apply leads_model_turn|]. intros _ used' s2 ->. apply leads_ret. split; [done|by right].
Qed.

Lemma loop_follows fuel used x out x' : used <= maxSteps -> execute_loop env err_text r fuel provider runID maxSteps used x = Some (out, x') ->
match out with
| Ok row => exists used', used <= used' <= maxSteps /\ follows used (ex_db x) used' (ex_db x') /\ runs (ex_db x') !! runID = Some row /\
  (run_status row = "completed" \/ (run_status row = "paused" /\ used' = maxSteps))
| Err e => fails used (ex_db x) e (ex_db x')
end.
Proof.
revert used x. induction fuel as [|fuel IH]; intros used x Hu; cbn [execute_loop]; [done|].
pose proof (leads_round used (ex_db x) x eq_refl) as Hr. destruct (round _ _ _ _ _ _ _ x) as [[[u|row]|e] x1].
- destruct Hr as (used1 & Hf & -> & Hu1). intros He. apply IH in He; [|lia]. destruct out as [row|e]; [|by eapply follows_fails].
destruct He as (used2 & Hu2 & Hf2 & Hrow). exists used2. split; [lia|]. split; [by eapply follows_trans|done].
- intros [= <- <-]. destruct Hr as (used1 & Hf & -> & Hrow & Hst). exists used. split_and!; [lia..|done|done|]. destruct Hst as [Hst|[Hst Hle]]; [by left|right; split; [done|lia]].
- by intros [= <- <-].
Qed.
End Follows.

(** ** Theorem *)

(** C6. An execution follows the protocol of its run.  While other processes
    leave the run's row, ledger and authorization alone, whatever [Execute] does
    is a sequence of actions each of which is allowed by the rows as they are at
    that moment: a call is dispatched only if it is the first one that waits, with
    its own operation and arguments; a request is recorded only when a turn is due
    and none is unanswered; a turn or a failed turn is recorded only after its
    request, as the provider gave it for that task, history and exposed
    operations, and extends that very history by a valid assistant message; the
    run is completed only when its last message has no calls, paused only when
    the turns are used up, and failed only after a call or a turn that failed.
    Every write is made under the runner's fence.  A returned row is the run's,
    completed, or paused after exactly [maxSteps] turns; an error is that of the
    action it ends with. *)
Theorem execution_follows_protocol `{!SqlBind} env err_text r provider fuel runID maxSteps x out x' :
  (forall n s, others runID s (env n s)) -> rn_provider r = Some provider -> 1 <= maxSteps ->
  Execute env err_text r fuel runID maxSteps x = Some (out, x') ->
  match out with
  | Ok row => exists turns, 0 <= turns <= maxSteps /\ follows err_text r provider runID maxSteps 0 (ex_db x) turns (ex_db x') /\
      runs (ex_db x') !! runID = Some row /\ (run_status row = "completed" \/ (run_status row = "paused" /\ turns = maxSteps))
  | Err e => fails err_text r provider runID maxSteps 0 (ex_db x) e (ex_db x')
  end.
Proof.
  intros Henv Hp Hm. unfold Execute. rewrite (proj2 (Z.ltb_ge maxSteps 1) Hm), Hp. intros He. by eapply (loop_follows env) in He; [|done|lia].
Qed.

Lemma execution_follows_protocol_witness : exists row x', RunnerDemo.run 4 = Some (Ok row, x') /\
  exists turns, 0 <= turns <= 4 /\ follows RunnerDemo.text_of RunnerDemo.runner RunnerDemo.provider "R-1" 4 0 (ex_db RunnerDemo.start) turns (ex_db x').
Proof.
  pose proof RunnerDemo.completes as Hc. destruct (RunnerDemo.run 4) as [[[row|e] x']|] eqn:Hr; [|destruct Hc..]. clear Hc. exists row, x'. split; [reflexivity|].
  destruct (execution_follows_protocol RunnerDemo.still RunnerDemo.text_of RunnerDemo.runner RunnerDemo.provider 4 "R-1" 4 RunnerDemo.start (Ok row) x') as (turns & Ht & Hf & _).
  - intros n s. split_and!; reflexivity.
  - reflexivity.
  - lia.
  - exact Hr.
  - exists turns. split; [exact Ht|exact Hf].
Defined.
