(* ===== verification/WorkerFacts.v ===== *)
(** * Facts about workers

    Whatever a worker does is a sequence of the system's steps; every claim it
    takes ends in exactly one reported disposition, and none is reported that
    the store did not record; a lease is given up only when it is lost; and a
    worker that is told to stop does. *)

From S2P Require Export RunnerFacts Worker.
Open Scope Z_scope.
Open Scope tx_scope.

Section Worker.
Context `{!SqlBind} (env : Surroundings) (err_text : err -> string) (cfg : Config).

(** ** Steps of the system *)

(** The instants a worker computes from its clock can be written. *)
Definition in_range (s : DB) : Prop :=
valid_time (Clock_Now (cf_clock cfg) s) /\ valid_time (Clock_Now (cf_clock cfg) s + cf_lease_ttl cfg) /\
valid_time (Clock_Now (cf_clock cfg) s + cf_backoff cfg).
Lemma in_range_wall s s' : wall s' = wall s -> in_range s -> in_range s'.
Proof. unfold in_range, Clock_Now. by intros ->. Qed.

(** A step of the worker: steps of the system, within range. *)
Definition w_advance (w w' : WState) : Prop := in_range (ws_db w) -> sys_steps (ws_db w) (ws_db w') /\ in_range (ws_db w').
#[local] Instance w_advance_preorder : PreOrder w_advance.
Proof.
split; [intros w Hw; split; [reflexivity|done]|]. intros x y z Hxy Hyz Hw. destruct (Hxy Hw) as [H1 Hy]. destruct (Hyz Hy) as [H2 Hz].
split; [by etransitivity|done].
Qed.
Definition w_moves {A} (m : WorkIO A) : Prop := forall w, w_advance w (snd (m w)).

Section Steps.
Context (Hothers : forall n s, in_range s -> sys_steps s (su_others env n s) /\ in_range (su_others env n s)).

Lemma w_moves_same {A} (m : WorkIO A) : (forall w, ws_db (snd (m w)) = ws_db w) -> w_moves m.
Proof. intros Hm w Hw. rewrite Hm. split; [reflexivity|done]. Qed.
Lemma w_moves_bind {A B} (m : WorkIO A) (k : A -> WorkIO B) : w_moves m -> (forall a, w_moves (k a)) -> w_moves (iobind m k).
Proof. intros Hm Hk w. unfold iobind. specialize (Hm w). destruct (m w) as [[a|e] w1]; cbn in *; [|done]. etransitivity; [exact Hm|apply Hk]. Qed.
Lemma w_moves_try {A B} (m : WorkIO A) (k : res err A -> WorkIO B) : w_moves m -> (forall a, w_moves (k a)) -> w_moves (iotry m k).
Proof. intros Hm Hk w. unfold iotry. specialize (Hm w). destruct (m w) as [o w1]; cbn in *. etransitivity; [exact Hm|apply Hk]. Qed.
(** A reading of the clock is an instant in range. *)
Definition good_instant (at_ : time) : Prop := valid_time at_ /\ valid_time (at_ + cf_lease_ttl cfg) /\ valid_time (at_ + cf_backoff cfg).
Lemma w_moves_now {B} (k : time -> WorkIO B) : (forall at_, good_instant at_ -> w_moves (k at_)) -> w_moves (iobind (now cfg) k).
Proof. intros Hk w Hw. unfold iobind, now. by apply Hk. Qed.
Lemma w_moves_ret {A} (a : A) : w_moves (ioret a).
Proof. by apply w_moves_same. Qed.
Lemma w_moves_observe o : w_moves (observe o).
Proof. by apply w_moves_same. Qed.
Lemma w_moves_stopped : w_moves (stopped env).
Proof. by apply w_moves_same. Qed.
Lemma w_moves_export o : w_moves (exportTrace env cfg o).
Proof. apply w_moves_same. intros w. unfold exportTrace. by repeat case_match. Qed.

(** An access is what others did, and then nothing or one step. *)
Lemma w_moves_access {A} (m : DbIO A) : (forall s, in_range s -> sys_steps s (snd (m s)) /\ in_range (snd (m s))) -> w_moves (w_access env m).
Proof.
intros Hm w Hw. unfold w_access. destruct (Hothers (ws_accesses w) (ws_db w) Hw) as [He Hr].
destruct (su_fault env (ws_accesses w)); [done|]. destruct (Hm _ Hr) as [Hs Hr']. destruct (m (su_others env _ _)) as [o s']. cbn in *.
split; [by etransitivity|done].
Qed.
Lemma w_moves_op {A} (op : coord_op) (m : DbIO A) :
(forall s, snd (exec op s) = snd (m s)) -> (forall s, op_ok s op) -> (forall t, op <> OpTick t) -> w_moves (w_access env m).
Proof.
intros Hm Hok Ht. apply w_moves_access. intros s Hr. rewrite <- Hm. split; [apply rtc_once; by apply step_store|].
eapply in_range_wall; [|exact Hr]. by apply (exec_same wall).
Qed.
Lemma w_moves_read {A} (m : DbIO A) : (forall s, snd (m s) = s) -> w_moves (w_access env m).
Proof. intros Hm. apply w_moves_access. intros s Hr. rewrite Hm. split; [reflexivity|done]. Qed.

Lemma w_moves_attempt {A} (m : WorkIO A) : w_moves m -> w_moves (attempt m).
Proof. intros Hm. apply w_moves_try; [done|]. intros _. apply w_moves_ret. Qed.
#[local] Hint Resolve w_moves_ret w_moves_observe w_moves_stopped w_moves_export w_moves_attempt : moves.
Ltac w_op op := apply (w_moves_op op); [by intros s|cbn; intros _; unfold good_instant in *; naive_solver|done].
Ltac w_step :=
match goal with
| |- w_moves (iobind (now _) _) => apply w_moves_now; intros
| |- w_moves (iobind _ _) => apply w_moves_bind; [|intros]
| |- w_moves (iotry _ _) => apply w_moves_try; [|intros]
| |- w_moves (if ?b then _ else _) => destruct b
| |- w_moves (match ?x with _ => _ end) => destruct x
end.
Ltac w_tac := repeat (w_step; cbn beta zeta); auto with moves.

Lemma w_moves_reject lease reason : w_moves (reject_note env cfg lease reason).
Proof. unfold reject_note. w_tac. apply w_moves_attempt. w_op (OpRejection (FenceOf lease) at_ reason). Qed.
#[local] Hint Resolve w_moves_reject : moves.
Lemma w_moves_unsettled lease o cause failure : w_moves (unsettled env err_text cfg lease o cause failure).
Proof. unfold unsettled. w_tac. Qed.
#[local] Hint Resolve w_moves_unsettled : moves.
Lemma w_moves_report o : w_moves (report o).
Proof. unfold report. w_tac. Qed.
#[local] Hint Resolve w_moves_report : moves.
Lemma w_moves_close lease o write wrap done_ :
(forall at_, good_instant at_ -> w_moves (w_access env (write at_))) -> w_moves done_ -> w_moves (close env err_text cfg lease o write wrap done_).
Proof. intros Hw Hd. unfold close. w_tac. Qed.

Lemma w_moves_over lease entry o : w_moves (settleOverDelivered env err_text cfg lease entry o).
Proof.
unfold settleOverDelivered. apply w_moves_try; [by apply w_moves_read|]. intros [run|e]; cbn zeta; [|auto with moves]. destruct (str_eqb _ _).
- apply w_moves_close; [|w_tac]. intros at_ Hat. w_op (OpFinish lease at_).
- apply w_moves_close; [|w_tac]. intros at_ Hat. w_op (OpDeliveryLimit lease at_ (en_attempts entry) (cf_max_attempts cfg)).
Qed.
Lemma w_moves_settle lease entry o x : w_moves (settle_claim env err_text cfg lease entry o x).
Proof.
unfold settle_claim. cbn zeta. apply w_moves_bind; [auto with moves|intros halted]. destruct (_ || _); [w_tac|]. destruct (xc_err x) as [e|].
- destruct (_ && _).
+ apply w_moves_now. intros at_ Hat. apply w_moves_try; [w_op (OpReleaseClaim lease at_ "worker stopped; the run was returned to the queue")|].
intros [|]; auto with moves.
+ destruct (_ <=? _).
* apply w_moves_close; [|auto with moves]. intros at_ Hat. w_op (OpFail lease at_ (err_text e)).
* apply w_moves_close; [|auto with moves]. intros at_ Hat. w_op (OpRequeue lease at_ (at_ + cf_backoff cfg) (err_text e)).
- apply w_moves_close; [|w_tac]. intros at_ Hat. w_op (OpFinish lease at_).
Qed.
#[local] Hint Resolve w_moves_over w_moves_settle : moves.

Lemma w_moves_heartbeat at_ : good_instant at_ -> w_moves (idleHeartbeat env cfg at_).
Proof.
intros Hat w. unfold idleHeartbeat. destruct (_ && _); [reflexivity|].
assert (w_moves (w_access env (TouchWorker (cf_id cfg) at_))) as Ht by (w_op (OpTouch (cf_id cfg) at_)).
specialize (Ht w). destruct (w_access env _ w) as [[u|e] w']; exact Ht.
Qed.

(** Executions that stay within the system. *)
Context (execute : RunLease -> QueueEntry -> WorkIO Execution) (Hexecute : forall lease entry, w_moves (execute lease entry)).

Lemma w_moves_claim config_err : w_moves (ClaimAndRun env err_text cfg config_err execute).
Proof.
unfold ClaimAndRun. destruct config_err; [auto with moves|]. apply w_moves_now. intros at_ Hat.
apply w_moves_try; [w_op (OpClaim (cf_id cfg) (cf_lease_ttl cfg) at_)|]. intros [[lease entry]|e]; cbn zeta.
- destruct (_ <? _); [auto with moves|]. apply w_moves_bind; [apply Hexecute|auto with moves].
- apply w_moves_bind; [|auto with moves]. destruct (is_no_work e); [by apply w_moves_heartbeat|auto with moves].
Qed.

Lemma w_moves_renew ticks l : w_moves (renew env cfg ticks l).
Proof.
revert l. induction ticks as [|ticks IH]; intros l; cbn [renew]; [auto with moves|]. apply w_moves_bind.
- unfold renew_tick. apply w_moves_bind; [auto with moves|intros halted]. destruct (bool_decide _); [auto with moves|].
apply w_moves_now. intros at_ Hat. apply w_moves_try; [w_op (OpRenew l (cf_lease_ttl cfg) at_)|].
intros [renewed|e]; w_tac. apply w_moves_attempt. w_op (OpTouch (cf_id cfg) at_0).
- intros []; auto with moves.
Qed.

Lemma serve_loop_advances rounds w w' : serve_loop env err_text cfg rounds execute w = Some w' -> w_advance w w'.
Proof.
revert w. induction rounds as [|rounds IH]; intros w; cbn [serve_loop]; [done|]. destruct (bool_decide _); [intros [= <-]; reflexivity|].
pose proof (w_moves_claim None w) as Hc. destruct (ClaimAndRun _ _ _ _ _ w) as [[[o [e|]]|e] w1]; cbn in Hc.
- destruct (is_no_work e); [|destruct (is_cancellation e)]; try destruct (bool_decide _);
first [by intros [= <-] | intros Hs%IH; by etransitivity].
- intros Hs%IH. by etransitivity.
- intros Hs%IH. by etransitivity.
Qed.

Lemma w_moves_register : w_moves (Register env cfg).
Proof. unfold Register. apply w_moves_now. intros at_ Hat. w_op (OpRegister (cf_id cfg) (cf_host cfg) at_). Qed.
Lemma w_moves_stop : w_moves (Close env cfg).
Proof.
unfold Close. apply w_moves_now. intros at_ Hat. apply w_moves_attempt. w_op (OpRemove (cf_id cfg) at_).
Qed.
Lemma serve_advances rounds config_err w out w' : Serve env err_text cfg rounds config_err execute w = Some (out, w') -> w_advance w w'.
Proof.
unfold Serve. destruct config_err; [intros [= _ <-]; reflexivity|]. pose proof (w_moves_register w) as Hr.
destruct (Register env cfg w) as [[u|e] w1]; cbn in Hr; [|by intros [= _ <-]].
destruct (serve_loop _ _ _ _ _ w1) as [w2|] eqn:Hs; [|done]. intros [= Hc]. apply serve_loop_advances in Hs. pose proof (w_moves_stop w2) as Hx.
rewrite Hc in Hx. cbn in Hx. etransitivity; [exact Hr|]. by etransitivity.
Qed.
End Steps.

(** ** Accounting *)

(** The writes that close a claim. *)
Inductive closing (lease : RunLease) : DbIO unit -> Prop :=
| closing_finish at_ : closing lease (FinishRun lease at_)
| closing_fail at_ reason : closing lease (FailRun lease at_ reason)
| closing_limit at_ n m : closing lease (FailRunAtDeliveryLimit lease at_ n m)
| closing_requeue at_ available reason : closing lease (RequeueRun lease at_ available reason).
(** An access that failed with [e]: the store refused it, or it did not reach
the store. *)
Definition failed_access {A} (m : DbIO A) (e : err) : Prop := (exists s s', m s = (Err e, s')) \/ (exists n, su_fault env n = Some e).
(** The execution lost the run to another worker, or gave its lease up. *)
Definition lost_lease (x : option Execution) : Prop := exists y, x = Some y /\ (xc_lost y = true \/ exists e, xc_err y = Some e /\ is_fenced e = true).
(** The execution was cut short because the worker was told to stop. *)
Definition stopped_short (x : option Execution) : Prop := exists y e n, x = Some y /\ xc_err y = Some e /\ is_cancellation e = true /\ is_Some (su_stopped env n).

(** What an observed outcome stands for.  Finished, failed and requeued are what
the last access recorded, for the reason the outcome gives.  The one exception
is a stopped worker whose release failed: it is observed as requeued, and its
error says that the lease lapses instead.  Fenced means that the execution lost
its lease or that the store refused the closing write for the fence. *)
Definition recorded (lease : RunLease) (x : option Execution) (o : Outcome) (s' : DB) : Prop :=
match ou_disposition o with
| Some Finished => exists at_ s, FinishRun lease at_ s = (Ok tt, s')
| Some Failed => (exists at_ s, FailRun lease at_ (ou_err o) s = (Ok tt, s')) \/
  (exists at_ n m s, FailRunAtDeliveryLimit lease at_ n m s = (Ok tt, s') /\ ou_err o = DeliveryLimitReason n m /\ m < n)
| Some Requeued => (exists at_ available s, RequeueRun lease at_ available (ou_err o) s = (Ok tt, s')) \/
    (stopped_short x /\ exists at_ s, ReleaseClaim lease at_ (ou_err o) s = (Ok tt, s')) \/
    (stopped_short x /\ exists at_ reason e, failed_access (ReleaseClaim lease at_ reason) e /\
       ou_err o = "worker stopped; releasing the claim failed, so its lease lapses on its own: " +:+ err_text e)
| Some Fenced => lost_lease x \/ exists m e, closing lease m /\ failed_access m e /\ is_fenced e = true /\ ou_err o = err_text e
| None => False
end.

(** A claim of [lease], whose execution ended in [x], taken with [before]
observed: it is observed once, with what became of it, or a closing write or
the read before it failed for another reason than the fence, and it is not
observed. *)
Definition accounted (lease : RunLease) (x : option Execution) (before : list Outcome) (r : res err (Outcome * option err) * WState) : Prop :=
match r with
| (Ok (o, None), w') => ws_observed w' = before ++ [o] /\ ou_run_id o = lease_run_id lease /\ ou_fence o = lease_token lease /\ recorded lease x o (ws_db w')
| (Ok (_, Some _), w') => ws_observed w' = before
| (Err _, _) => False
end.

Lemma w_access_observed {A} (m : DbIO A) w : ws_observed (snd (w_access env m w)) = ws_observed w.
Proof. unfold w_access. destruct (su_fault env _); [done|]. by destruct (m _). Qed.
Lemma w_access_ok {A} (m : DbIO A) w a w' : w_access env m w = (Ok a, w') -> (exists s, m s = (Ok a, ws_db w')) /\ ws_observed w' = ws_observed w.
Proof.
intros Ha. split; [|pose proof (w_access_observed m w) as Ho; by rewrite Ha in Ho]. unfold w_access in Ha. destruct (su_fault env _); [done|].
destruct (m _) as [out s'] eqn:Hm. injection Ha as -> <-. eauto.
Qed.
Lemma attempt_observed {A} (m : WorkIO A) w : (ws_observed (snd (m w)) = ws_observed w) -> exists w', attempt m w = (Ok tt, w') /\ ws_observed w' = ws_observed w.
Proof. intros Hm. unfold attempt, iotry. destruct (m w) as [o w']. cbn in Hm. by exists w'. Qed.
Lemma reject_observed lease reason w : exists w', reject_note env cfg lease reason w = (Ok tt, w') /\ ws_observed w' = ws_observed w.
Proof. unfold reject_note, iobind, now. apply attempt_observed, w_access_observed. Qed.

(** The outcome is about the claim of [lease]. *)
Definition claims (lease : RunLease) (o : Outcome) : Prop := ou_run_id o = lease_run_id lease /\ ou_fence o = lease_token lease.

Lemma report_accounted lease x o w : claims lease o -> recorded lease x o (ws_db w) -> accounted lease x (ws_observed w) (report o w).
Proof. intros [H1 H2] Hr. unfold report, iobind, observe, ioret, accounted. cbn [ws_observed ws_db]. done. Qed.
Lemma w_access_err {A} (m : DbIO A) w e w' : w_access env m w = (Err e, w') -> failed_access m e /\ ws_observed w' = ws_observed w.
Proof.
intros Ha. pose proof (w_access_observed m w) as Ho. rewrite Ha in Ho. split; [|exact Ho]. unfold w_access in Ha.
destruct (su_fault env _) as [f|] eqn:Hf; [injection Ha as -> _; right; eauto|]. destruct (m _) as [out s'] eqn:Hm. injection Ha as -> _. left. eauto.
Qed.
Lemma unsettled_accounted lease x o m cause failure w : claims lease o -> closing lease m -> failed_access m cause ->
accounted lease x (ws_observed w) (unsettled env err_text cfg lease o cause failure w).
Proof.
intros Hc Hm Hf. unfold unsettled. destruct (is_fenced cause) eqn:E; [|done]. unfold iobind at 1.
destruct (reject_observed lease (err_text cause) w) as (w' & -> & <-). apply report_accounted; [done|]. right. by exists m, cause.
Qed.
Lemma close_accounted lease x o write wrap done_ w :
claims lease o -> (forall at_, closing lease (write at_)) ->
(forall w1, (exists at_ s, write at_ s = (Ok tt, ws_db w1)) -> ws_observed w1 = ws_observed w -> accounted lease x (ws_observed w) (done_ w1)) ->
accounted lease x (ws_observed w) (close env err_text cfg lease o write wrap done_ w).
Proof.
intros Hc Hcl Hd. unfold close, iobind, now, iotry. destruct (w_access env (write _) w) as [[[]|e] w1] eqn:Ha.
- apply w_access_ok in Ha as [[s Hs] Ho]. apply Hd; [|done]. eauto.
- apply w_access_err in Ha as [Hf <-]. by eapply unsettled_accounted.
Qed.
Lemma export_accounted lease x o w (before : list Outcome) : claims lease o -> ou_disposition o = Some Finished -> recorded lease x o (ws_db w) ->
ws_observed w = before -> accounted lease x before ((io* o := exportTrace env cfg o in report o) w).
Proof.
intros Hc Hd Hr <-. unfold iobind.
assert (exists o' w1, exportTrace env cfg o w = (Ok o', w1) /\ claims lease o' /\ ou_disposition o' = Some Finished /\
ws_db w1 = ws_db w /\ ws_observed w1 = ws_observed w) as (o' & w1 & -> & Hc' & Hd' & Hdb & <-).
{ unfold exportTrace. destruct (_ || _); [by eauto 10|]. destruct (_ && _); [by eauto 10|]. eexists _, _. split_and!; [reflexivity|done..]. }
apply report_accounted; [done|]. rewrite Hdb. unfold recorded in *. by rewrite Hd in Hr; rewrite Hd'.
Qed.

Lemma over_accounted lease entry o w : claims lease o -> cf_max_attempts cfg < en_attempts entry -> accounted lease None (ws_observed w) (settleOverDelivered env err_text cfg lease entry o w).
Proof.
intros Hc Hlt. unfold settleOverDelivered, iotry at 1. set (m := fun s : DB => _).
pose proof (w_access_observed m w) as Ho. destruct (w_access env m w) as [[run|e] w1]; cbn in Ho; [|done]. rewrite <- Ho. cbn zeta.
destruct (str_eqb _ _).
- apply close_accounted; [exact Hc|intros at_; apply closing_finish|]. intros w2 Hw2 <-. by apply export_accounted.
- apply close_accounted; [exact Hc|intros at_; apply closing_limit|]. intros w2 Hw2 <-. apply report_accounted; [exact Hc|]. right. destruct Hw2 as (at_ & s & Hs). by exists at_, (en_attempts entry), (cf_max_attempts cfg), s.
Qed.

Lemma settle_accounted lease entry o x w : claims lease o -> accounted lease (Some x) (ws_observed w) (settle_claim env err_text cfg lease entry o x w).
Proof.
intros Hc. unfold settle_claim. cbn zeta. unfold iobind at 1, stopped. destruct (_ || _) eqn:Hl.
{ assert (Hlost : lost_lease (Some x)).
{ exists x. split; [done|]. apply orb_true_iff in Hl as [Hl|Hl]; [right|by left]. destruct (xc_err x) as [e|]; [by exists e|done]. }
clear Hl.
unfold iobind at 1. assert (forall reason w1, ws_observed w1 = ws_observed w -> accounted lease (Some x) (ws_observed w)
(report (ended (with_run_status (xc_status x) o) Fenced reason) w1)) as Hrep by (intros reason w1 <-; apply report_accounted; [done|by left]).
destruct (_ || _); [|by apply Hrep]. match goal with |- context [reject_note env cfg lease ?reason w] => destruct (reject_observed lease reason w) as (w1 & -> & H1) end.
by apply Hrep. }
destruct (xc_err x) as [e|] eqn:He.
- destruct (_ && _) eqn:Hstop.
+ apply andb_true_iff in Hstop as [Hs Hca]. apply bool_decide_eq_true in Hs. assert (Hst : stopped_short (Some x)) by (exists x, e; eauto). unfold iobind at 1, now, iotry.
destruct (w_access env (ReleaseClaim _ _ _) w) as [[[]|e'] w1] eqn:Ha.
* apply w_access_ok in Ha as [[s Hs1] <-]. apply report_accounted; [exact Hc|]. right. left. split; [done|]. by eexists _, s.
* apply w_access_err in Ha as [Hf <-]. apply report_accounted; [exact Hc|]. right. right. split; [done|]. eexists _, _, e'. split; [exact Hf|done].
+ destruct (_ <=? _).
* apply close_accounted; [exact Hc|intros at_; apply closing_fail|]. intros w1 (at_ & s & Hs) <-. apply report_accounted; [exact Hc|]. left. eauto.
* apply close_accounted; [exact Hc|intros at_; apply closing_requeue|]. intros w1 (at_ & s & Hs) <-. apply report_accounted; [exact Hc|]. left. eauto.
- apply close_accounted; [exact Hc|intros at_; apply closing_finish|]. intros w1 Hw1 Ho. by apply export_accounted.
Qed.

(** ** Accesses only accumulate *)

Definition grows {A} (m : WorkIO A) : Prop := forall w, (ws_accesses w <= ws_accesses (snd (m w)))%nat.
Lemma grows_bind {A B} (m : WorkIO A) (k : A -> WorkIO B) : grows m -> (forall a, grows (k a)) -> grows (iobind m k).
Proof. intros Hm Hk w. unfold iobind. specialize (Hm w). destruct (m w) as [[a|e] w1]; cbn in *; [|done]. specialize (Hk a w1). lia. Qed.
Lemma grows_try {A B} (m : WorkIO A) (k : res err A -> WorkIO B) : grows m -> (forall a, grows (k a)) -> grows (iotry m k).
Proof. intros Hm Hk w. unfold iotry. specialize (Hm w). destruct (m w) as [o w1]; cbn in *. specialize (Hk o w1). lia. Qed.
Lemma grows_same {A} (m : WorkIO A) : (forall w, ws_accesses (snd (m w)) = ws_accesses w) -> grows m.
Proof. intros Hm w. by rewrite Hm. Qed.
Lemma w_access_count {A} (m : DbIO A) w : ws_accesses (snd (w_access env m w)) = S (ws_accesses w).
Proof. unfold w_access. destruct (su_fault env _); [done|]. by destruct (m _). Qed.
Lemma grows_access {A} (m : DbIO A) : grows (w_access env m).
Proof. intros w. rewrite w_access_count. lia. Qed.
Lemma grows_ret {A} (a : A) : grows (ioret a).
Proof. by apply grows_same. Qed.
Lemma grows_observe o : grows (observe o).
Proof. by apply grows_same. Qed.
Lemma grows_stopped : grows (stopped env).
Proof. by apply grows_same. Qed.
Lemma grows_now : grows (now cfg).
Proof. by apply grows_same. Qed.
Lemma grows_export o : grows (exportTrace env cfg o).
Proof. apply grows_same. intros w. unfold exportTrace. by repeat case_match. Qed.
#[local] Hint Resolve grows_access grows_ret grows_observe grows_stopped grows_now grows_export : moves.
Ltac grows_step :=
match goal with
| |- grows (iobind _ _) => apply grows_bind; [|intros]
| |- grows (iotry _ _) => apply grows_try; [|intros]
| |- grows (if ?b then _ else _) => destruct b
| |- grows (match ?x with _ => _ end) => destruct x
end.
Ltac grows_tac := repeat (grows_step; cbn beta zeta); auto with moves.

Lemma grows_settle lease entry o x : grows (settle_claim env err_text cfg lease entry o x).
Proof. unfold settle_claim, close, unsettled, reject_note, report, attempt. grows_tac. Qed.
Lemma grows_over lease entry o : grows (settleOverDelivered env err_text cfg lease entry o).
Proof. unfold settleOverDelivered, close, unsettled, reject_note, report, attempt. grows_tac. Qed.
Lemma grows_heartbeat at_ : grows (idleHeartbeat env cfg at_).
Proof.
intros w. unfold idleHeartbeat. destruct (_ && _); [done|]. pose proof (grows_access (TouchWorker (cf_id cfg) at_) w) as Hg.
by destruct (w_access env _ w) as [[u|e] w'].
Qed.

(** Every claim makes at least one access. *)
Lemma claim_counts execute w : (forall lease entry, grows (execute lease entry)) ->
(S (ws_accesses w) <= ws_accesses (snd (ClaimAndRun env err_text cfg None execute w)))%nat.
Proof.
intros Hx. unfold ClaimAndRun, iobind at 1, now, iotry. set (m := ClaimRun _ _ _). pose proof (w_access_count m w) as Hc.
destruct (w_access env m w) as [claimed w1]. cbn in Hc. rewrite <- Hc. match goal with |- (_ <= ws_accesses (snd (?k w1)))%nat => assert (grows k) as Hk; [|apply Hk] end.
destruct claimed as [[lease entry]|e]; cbn zeta.
- destruct (_ <? _); [apply grows_over|]. apply grows_bind; [apply Hx|intros x; apply grows_settle].
- apply grows_bind; [|intros; apply grows_ret]. destruct (is_no_work e); [apply grows_heartbeat|apply grows_ret].
Qed.

Lemma serve_loop_stops N execute : (forall lease entry, grows (execute lease entry)) -> (forall n, (N <= n)%nat -> is_Some (su_stopped env n)) ->
forall w, exists rounds w', serve_loop env err_text cfg rounds execute w = Some w'.
Proof.
intros Hx Hstop w. remember (N - ws_accesses w)%nat as k eqn:Hk. revert w Hk. induction k as [k IH] using lt_wf_ind. intros w Hk.
destruct (decide (is_Some (su_stopped env (ws_accesses w)))) as [Hs|Hs]; [exists 1%nat, w; cbn [serve_loop]; by rewrite bool_decide_true by done|].
assert (ws_accesses w < N)%nat as Hlt by (destruct (decide (N <= ws_accesses w)%nat) as [Hle|]; [by destruct Hs; apply Hstop|lia]).
pose proof (claim_counts execute w Hx) as Hc. destruct (ClaimAndRun env err_text cfg None execute w) as [out w1] eqn:Hr. cbn in Hc.
destruct (IH (N - ws_accesses w1)%nat ltac:(lia) w1 eq_refl) as (rounds & w' & Hs').
exists (S rounds). cbn [serve_loop]. rewrite bool_decide_false by done. rewrite Hr. destruct out as [[o [e|]]|e]; [|by exists w'..].
destruct (is_no_work e); [|destruct (is_cancellation e)]; try destruct (bool_decide _); eauto.
Qed.
End Worker.

(** ** Theorems *)

(** What a claim does, by how taking it ended. *)
Lemma ClaimAndRun_eq env err_text cfg execute w : ClaimAndRun env err_text cfg None execute w =
  match w_access env (ClaimRun (cf_id cfg) (cf_lease_ttl cfg) (Clock_Now (cf_clock cfg) (ws_db w))) w with
  | (Ok (lease, entry), w1) =>
      if cf_max_attempts cfg <? en_attempts entry then settleOverDelivered env err_text cfg lease entry (claim_outcome cfg lease entry) w1
      else (io* x := execute lease entry in settle_claim env err_text cfg lease entry (claim_outcome cfg lease entry) x) w1
  | (Err e, w1) => (io* _ := (if is_no_work e then idleHeartbeat env cfg (Clock_Now (cf_clock cfg) (ws_db w)) else ioret tt) in ioret (no_outcome cfg, Some e)) w1
  end.
Proof.
  unfold ClaimAndRun, iobind at 1, now, iotry. destruct (w_access env (ClaimRun _ _ _) w) as [[[lease entry]|e] w1]; [|done]. cbn zeta. by destruct (_ <? _).
Qed.

(** C15. Every claim is accounted for.  A claim that ends without an error is
    observed exactly once: as finished, failed or requeued when the worker's last
    write recorded just that, with the reason the outcome gives; as fenced when
    the execution lost its lease or the store refused the closing write for the
    fence; and as requeued, with an error that says so, when a stopped worker's
    release failed and the lease has to lapse.  A claim that ends with an error
    is not observed, and a run delivered more often than allowed is settled
    without being executed. *)
Theorem claim_accounted env err_text cfg execute w :
  (forall lease entry w, exists x w', execute lease entry w = (Ok x, w') /\ ws_observed w' = ws_observed w) ->
  match w_access env (ClaimRun (cf_id cfg) (cf_lease_ttl cfg) (Clock_Now (cf_clock cfg) (ws_db w))) w with
  | (Ok (lease, entry), w1) => exists x, accounted env err_text lease x (ws_observed w) (ClaimAndRun env err_text cfg None execute w) /\
      (if cf_max_attempts cfg <? en_attempts entry then x = None /\ forall execute', ClaimAndRun env err_text cfg None execute w = ClaimAndRun env err_text cfg None execute' w
       else exists y w2, x = Some y /\ execute lease entry w1 = (Ok y, w2))
  | (Err e, _) => exists o w', ClaimAndRun env err_text cfg None execute w = (Ok (o, Some e), w') /\ ws_observed w' = ws_observed w
  end.
Proof.
  intros Hx. rewrite ClaimAndRun_eq. pose proof (w_access_observed env (ClaimRun (cf_id cfg) (cf_lease_ttl cfg) (Clock_Now (cf_clock cfg) (ws_db w))) w) as Ho.
  destruct (w_access env (ClaimRun _ _ _) w) as [[[lease entry]|e] w1] eqn:E; cbn in Ho; rewrite <- Ho.
  - destruct (Z.ltb_spec (cf_max_attempts cfg) (en_attempts entry)) as [Hlt|Hle].
    + exists None. split; [by apply over_accounted|]. split; [done|]. intros execute'. rewrite ClaimAndRun_eq, E. by rewrite (proj2 (Z.ltb_lt _ _) Hlt).
    + unfold iobind. destruct (Hx lease entry w1) as (x & w2 & Hex & Hw2). exists (Some x). rewrite Hex. rewrite <- Hw2. split; [by apply settle_accounted|]. by exists x, w2.
  - unfold iobind. destruct (is_no_work e); [|by eexists _, _]. unfold idleHeartbeat. destruct (_ && _); [by eexists _, _|].
    match goal with |- context [w_access env ?t w1] => pose proof (w_access_observed env t w1) as Ht; destruct (w_access env t w1) as [[u|e'] w2] end; by eexists _, _.
Qed.

(** A lease is given up only when it is lost: a renewal loop abandons its
    run only when the store refused the renewal as fenced out, or the lease
    had expired by the worker's own clock while renewals failed; any other
    failure before the expiry keeps the lease. *)
Theorem renewal_keeps_valid_lease env cfg current w out w' :
  renew_tick env cfg current w = (Ok out, w') ->
  (forall cause, out = LeaseLost cause ->
     is_fenced cause = true \/ before (Clock_Now (cf_clock cfg) (ws_db w')) (lease_expires_at current) = false) /\
  (forall e, su_fault env (ws_accesses w) = Some e -> is_fenced e = false -> su_stopped env (ws_accesses w') = None -> su_stopped env (ws_accesses w) = None ->
     before (Clock_Now (cf_clock cfg) (ws_db w')) (lease_expires_at current) = true -> out = Renewed current).
Proof.
  unfold renew_tick, iobind at 1, stopped. intros Hr. destruct (bool_decide (is_Some (su_stopped env (ws_accesses w)))) eqn:Hs.
  { injection Hr as <- <-. apply bool_decide_eq_true in Hs as [x Hs]. split; [done|]. congruence. }
  unfold iobind at 1, now, iotry in Hr. unfold w_access at 1 in Hr. destruct (su_fault env (ws_accesses w)) as [f|] eqn:Hf.
  - unfold iobind at 1, stopped in Hr. cbn [ws_accesses ws_db] in Hr. destruct (bool_decide (is_Some (su_stopped env (S _)))) eqn:Hs2.
    { injection Hr as <- <-. apply bool_decide_eq_true in Hs2 as [x Hs2]. split; [done|]. cbn [ws_accesses]. congruence. }
    destruct (is_fenced f) eqn:Hfe; [injection Hr as <- <-; split; [intros c [= <-]; by left|congruence]|].
    unfold iobind, now in Hr. cbn [ws_db] in Hr. destruct (before _ _) eqn:Hb; injection Hr as <- <-.
    + split; [done|]. done.
    + split; [intros c _; by right|]. cbn [ws_db]. congruence.
  - split; [|congruence]. destruct (RenewRunLease _ _ _ _) as [[renewed|e] s'] eqn:Hrn.
    + unfold iobind at 1, now in Hr. unfold iobind, attempt, iotry in Hr. destruct (w_access env (TouchWorker _ _) _) as [x w2]. injection Hr as <- <-. done.
    + unfold iobind at 1, stopped in Hr. cbn [ws_accesses] in Hr. destruct (bool_decide (is_Some (su_stopped env (S _)))); [injection Hr as <- <-; done|].
      destruct (is_fenced e) eqn:Hfe; [injection Hr as <- <-; intros c [= <-]; by left|].
      unfold iobind, now in Hr. destruct (before _ _) eqn:Hb; injection Hr as <- <-; [done|]. intros c _. by right.
Qed.

(** C16. A worker that is told to stop does: once its context has ended, from
    some access on, [Serve] returns, whatever the queue holds and whatever
    fails; and a worker that serves stays within the system's steps. *)
Theorem serve_stops `{!SqlBind} env err_text cfg execute w N :
  (forall lease entry, grows (execute lease entry)) -> (forall n, (N <= n)%nat -> is_Some (su_stopped env n)) ->
  (exists rounds out w', Serve env err_text cfg rounds None execute w = Some (out, w')) /\
  (forall rounds out w', (forall n s, in_range cfg s -> sys_steps s (su_others env n s) /\ in_range cfg (su_others env n s)) ->
     (forall lease entry, w_moves cfg (execute lease entry)) -> in_range cfg (ws_db w) ->
     Serve env err_text cfg rounds None execute w = Some (out, w') -> sys_steps (ws_db w) (ws_db w')).
Proof.
  intros Hx Hstop. split.
  - unfold Serve. destruct (Worker.Register env cfg w) as [[u|e] w1]; [|by exists 0%nat; eauto].
    destruct (serve_loop_stops env err_text cfg N execute Hx Hstop w1) as (rounds & w2 & Hs). exists rounds. rewrite Hs. destruct (Close env cfg w2). eauto.
  - intros rounds out w' Ho He Hr Hs. by apply (serve_advances env err_text cfg Ho execute He) in Hs as [? _].
Qed.
