(* ===== verification/Local.v ===== *)
(** * Local runs (internal/worker/local.go)

    A command that runs or resumes a run itself does so under the lease a
    worker would hold: it is acquired first, renewed while the run executes,
    and released at the end even when the command was interrupted.  An error
    can wrap several others here, so it is a tree, and [errors.Is] asks whether
    any of its leaves is one. *)

From S2P Require Export WorkerFacts.
Open Scope Z_scope.
Open Scope tx_scope.

Definition DefaultLocalLeaseTTL : duration := 15 * second.

(** [LocalOwner] *)
Definition LocalOwner (hostname : string) (pid : Z) : string :=
  "local-" +:+ (if str_eqb hostname "" then "unknown" else hostname) +:+ "-" +:+ itoa pid.

(** The errors of [ExecuteLocal], one constructor for each way it makes one. *)
Inductive LocalError :=
| LocalPlain (e : err)
| LocalLapsed (cause : err)
| LocalLost (runID : string) (e : option err)
| LocalJoined (outcome : LocalError) (runID : string) (release : err)
| LocalNotReleased (runID status : string) (release : err).

(** [errors.Is(e, store.ErrFenced)], [errors.Is(e, ErrLeaseNotReleased)] *)
Fixpoint local_fenced (e : LocalError) : bool :=
  match e with
  | LocalPlain e => is_fenced e
  | LocalLapsed _ | LocalLost _ _ => true
  | LocalJoined o _ r => local_fenced o || is_fenced r
  | LocalNotReleased _ _ r => is_fenced r
  end.
Definition local_not_released (e : LocalError) : bool := match e with LocalNotReleased _ _ _ => true | _ => false end.

(** What the function given to [ExecuteLocal] and the renewals alongside it
    end with. *)
Record LocalEnd := MkLocalEnd { le_run : option RunRow; le_err : option err; le_lost : bool; le_cause : option err }.

(** The configuration [ExecuteLocal] runs with. *)
Definition local_config (hostname : string) (pid : Z) (c : Config) : Config :=
  withDefaults hostname pid
    (MkConfig (if str_eqb (cf_id c) "" then LocalOwner hostname pid else cf_id c) (cf_host c)
       (if cf_lease_ttl c <=? 0 then DefaultLocalLeaseTTL else cf_lease_ttl c) (cf_renew_every c) (cf_poll_interval c) (cf_backoff c)
       (cf_max_attempts c) (cf_clock c) (cf_export_trace c)).

(** The first [switch] at the end of [ExecuteLocal]. *)
Definition local_outcome (runID : string) (x : LocalEnd) : option LocalError :=
  let lost := match le_err x with
              | Some e => if is_fenced e then LocalPlain e else LocalLost runID (Some e)
              | None => LocalLost runID None
              end in
  if le_lost x then Some match le_cause x with
                         | Some cause => if is_fenced cause then lost else LocalLapsed cause
                         | None => lost
                         end
  else option_map LocalPlain (le_err x).
Definition local_status (x : LocalEnd) : string := match le_run x with Some r => run_status r | None => "" end.

(** [ExecuteLocal]: the run, if any, and the error. *)
Definition ExecuteLocal (env : Surroundings) (hostname : string) (pid : Z) (runID : string) (c : Config)
    (fn : RunLease -> WorkIO LocalEnd) : WorkIO (option RunRow * option LocalError) :=
  let cfg := local_config hostname pid c in
  match Validate hostname pid cfg with
  | Err e => ioret (None, Some (LocalPlain e))
  | Ok _ =>
      io* at_ := now cfg in
      iotry (w_access env (AcquireRunLease runID (cf_id cfg) (cf_lease_ttl cfg) at_)) (fun acquired =>
        match acquired with
        | Err e => ioret (None, Some (LocalPlain e))
        | Ok lease =>
            io* x := fn lease in
            io* at_ := now cfg in
            iotry (w_access env (ReleaseRunLease lease at_)) (fun released =>
              let release_err := match released with
                                 | Err e => if is_fenced e then None else Some e
                                 | Ok _ => None
                                 end in
              ioret (le_run x,
                     match release_err, local_outcome runID x with
                     | None, outcome => outcome
                     | Some r, Some outcome => Some (LocalJoined outcome runID r)
                     | Some r, None => Some (LocalNotReleased runID (local_status x) r)
                     end))
        end)
  end.

(** ** Facts *)

Definition fenced_opt (e : option err) : bool := match e with Some e => is_fenced e | None => false end.

Lemma local_outcome_fenced runID x : match local_outcome runID x with
                                     | Some e => local_fenced e = le_lost x || fenced_opt (le_err x) /\ local_not_released e = false
                                     | None => le_lost x = false /\ le_err x = None
                                     end.
Proof. unfold local_outcome. destruct x as [r [e|] [|] [c|]]; cbn; repeat (case_match; cbn); auto. Qed.

Lemma defaults_id hostname pid c : cf_id (withDefaults hostname pid c) <> "".
Proof.
  unfold withDefaults. cbn [cf_id]. destruct (str_eqb (cf_id c) "") eqn:Hi; [|by apply str_eqb_false in Hi].
  destruct (str_eqb hostname "") eqn:Hh; [done|]. by destruct hostname.
Qed.
Lemma defaults_positive hostname pid c : let d := withDefaults hostname pid c in
  0 < cf_lease_ttl d /\ 0 < cf_poll_interval d /\ 0 < cf_backoff d /\ 0 < cf_max_attempts d.
Proof.
  unfold withDefaults. cbn [cf_lease_ttl cf_poll_interval cf_backoff cf_max_attempts].
  split_and!; match goal with |- 0 < (if ?b then _ else _) => destruct b eqn:? end; bool_inv; done.
Qed.

(** The default renewal interval for a lease. *)
Definition default_renew (ttl : duration) : duration :=
  if (Z.quot ttl 3 <? minRenewEvery) && (minRenewEvery <=? Z.quot ttl 2) then minRenewEvery else Z.quot ttl 3.
Lemma default_renew_fits ttl : 0 < ttl -> default_renew ttl < ttl /\ (second <= ttl -> minRenewEvery <= default_renew ttl /\ 2 * default_renew ttl <= ttl).
Proof.
  intros Ht. unfold default_renew. rewrite !Z.quot_div_nonneg by lia. change minRenewEvery with 100000000. change second with 1000000000.
  pose proof (Z.div_mod ttl 3 ltac:(done)). pose proof (Z.mod_pos_bound ttl 3 ltac:(done)).
  pose proof (Z.div_mod ttl 2 ltac:(done)). pose proof (Z.mod_pos_bound ttl 2 ltac:(done)).
  destruct (ttl / 3 <? 100000000) eqn:Ha; destruct (100000000 <=? ttl / 2) eqn:Hb; cbn [andb]; bool_inv; lia.
Qed.
Lemma defaults_renew hostname pid c : cf_renew_every c <= 0 ->
  cf_renew_every (withDefaults hostname pid c) = default_renew (cf_lease_ttl (withDefaults hostname pid c)).
Proof. intros Hr. unfold withDefaults. cbn [cf_renew_every cf_lease_ttl]. by rewrite (proj2 (Z.leb_le _ _) Hr). Qed.

Lemma defaults_idempotent hostname pid c : withDefaults hostname pid (withDefaults hostname pid c) = withDefaults hostname pid c.
Proof.
  pose proof (defaults_positive hostname pid c) as (H1 & H2 & H3 & H4). pose proof (defaults_id hostname pid c) as Hid.
  assert (cf_host (withDefaults hostname pid c) = "" -> hostname = "") as Hh.
  { unfold withDefaults. cbn [cf_host]. destruct (str_eqb (cf_host c) "") eqn:Hh; [done|]. apply str_eqb_false in Hh. done. }
  assert (cf_renew_every (withDefaults hostname pid c) <= 0 ->
          cf_renew_every (withDefaults hostname pid c) = default_renew (cf_lease_ttl (withDefaults hostname pid c))) as Hr.
  { intros Hr. apply defaults_renew. unfold withDefaults in Hr. cbn [cf_renew_every] in Hr. destruct (cf_renew_every c <=? 0) eqn:Hc; bool_inv; lia. }
  set (d := withDefaults hostname pid c) in *. clearbody d. destruct d as [id host ttl renew poll backoff attempts clock export]. cbn in *.
  unfold withDefaults. cbn. f_equal.
  - by rewrite (proj2 (str_eqb_false id "") Hid).
  - destruct (str_eqb host "") eqn:Hb; [|done]. apply str_eqb_true in Hb. rewrite Hh by done. done.
  - by rewrite (proj2 (Z.leb_gt ttl 0) H1).
  - rewrite (proj2 (Z.leb_gt ttl 0) H1). destruct (renew <=? 0) eqn:Hb; [|done]. apply Z.leb_le in Hb. by rewrite (Hr Hb).
  - by rewrite (proj2 (Z.leb_gt poll 0) H2).
  - by rewrite (proj2 (Z.leb_gt backoff 0) H3).
  - by rewrite (proj2 (Z.leb_gt attempts 0) H4).
Qed.

(** ** Theorems *)

(** Defaults hold a lease: a configuration that leaves the renewal interval
    to the defaults is accepted, and renews at least twice within a lease of a
    second or more, never faster than ten times a second; the other settings
    come out positive, and applying the defaults again changes nothing. *)
Theorem defaults_hold_lease hostname pid c :
  let d := withDefaults hostname pid c in
  (cf_renew_every c <= 0 ->
     Validate hostname pid c = Ok tt /\
     (second <= cf_lease_ttl d -> minRenewEvery <= cf_renew_every d /\ 2 * cf_renew_every d <= cf_lease_ttl d)) /\
  (0 < cf_lease_ttl d /\ 0 < cf_poll_interval d /\ 0 < cf_backoff d /\ 0 < cf_max_attempts d) /\ cf_id d <> "" /\
  withDefaults hostname pid d = d.
Proof.
  cbn zeta. split_and!; try apply defaults_positive; [|apply defaults_id|apply defaults_idempotent]. intros Hr.
  pose proof (defaults_positive hostname pid c) as (Ht & _). cbn zeta in Ht. pose proof (default_renew_fits _ Ht) as [Hlt Hfit].
  rewrite <- (defaults_renew hostname pid c Hr) in *. split; [|done]. unfold Validate. by rewrite (proj2 (Z.leb_gt _ _) Hlt).
Qed.

(** A local run says what became of its lease: the function runs only under
    a granted lease and otherwise the store's refusal is the error; the error
    is a fencing error exactly when the lease was lost or the function was
    fenced out, unless the release failed in another way too; no error means
    the function succeeded under a lease it kept; and "not released" is said
    only of work that succeeded. *)
Theorem local_run_reported env hostname pid runID c fn w :
  let cfg := local_config hostname pid c in
  let acquired := w_access env (AcquireRunLease runID (cf_id cfg) (cf_lease_ttl cfg) (Clock_Now (cf_clock cfg) (ws_db w))) w in
  Validate hostname pid cfg = Ok tt ->
  (forall lease w, exists x w', fn lease w = (Ok x, w')) ->
  match acquired with
  | (Err e, w1) => ExecuteLocal env hostname pid runID c fn w = (Ok (None, Some (LocalPlain e)), w1)
  | (Ok lease, w1) => exists x w2 e, fn lease w1 = (Ok x, w2) /\
      ExecuteLocal env hostname pid runID c fn w =
        (Ok (le_run x, e), snd (w_access env (ReleaseRunLease lease (Clock_Now (cf_clock cfg) (ws_db w2))) w2)) /\
      match e with
      | None => le_lost x = false /\ le_err x = None
      | Some e => local_fenced e = le_lost x || fenced_opt (le_err x) /\ (local_not_released e = true -> le_lost x = false /\ le_err x = None)
      end
  end.
Proof.
  intros cfg acquired Hv Hf. destruct acquired as [[lease|e] w1] eqn:Ha; unfold acquired in Ha.
  2:{ unfold ExecuteLocal. fold cfg. rewrite Hv. unfold iobind at 1, now, iotry. by rewrite Ha. }
  destruct (Hf lease w1) as (x & w2 & Hx). exists x, w2. unfold ExecuteLocal. fold cfg. rewrite Hv. unfold iobind at 1, now, iotry at 1. rewrite Ha.
  unfold iobind at 1. rewrite Hx. unfold iobind, iotry.
  destruct (w_access env (ReleaseRunLease _ _) w2) as [released w3]. cbn [snd]. eexists. split; [done|]. split; [reflexivity|].
  pose proof (local_outcome_fenced runID x) as Ho.
  assert (forall r, (match released with Err e => if is_fenced e then None else Some e | Ok _ => None end) = Some r -> is_fenced r = false) as Hr.
  { intros r Hr. destruct released as [u|e]; [done|]. destruct (is_fenced e) eqn:He; [done|]. by injection Hr as <-. }
  destruct (match released with Err _ => _ | Ok _ => _ end) as [r|]; [specialize (Hr r eq_refl)|clear Hr]; destruct (local_outcome runID x) as [e|]; cbn.
  - destruct Ho as [Ho _]. rewrite Hr, orb_false_r. by split.
  - destruct Ho as [Hl He]. rewrite Hl, He. by split.
  - destruct Ho as [Ho ->]. by split.
  - done.
Qed.

(** ** An example: one queued run, a worker that is told to stop later *)
Module WorkerDemo.
Definition cfg : Config := withDefaults "host" 7 (MkConfig "w-1" "" 0 0 0 0 0 None false).
Definition env : Surroundings :=
MkSurroundings (fun _ s => s) (fun _ => None) (fun n => if (5 <=? n)%nat then Some ErrCanceled else None) (fun _ => true).
(** The same with renewals that fail. *)
Definition faulty : Surroundings := MkSurroundings (fun _ s => s) (fun _ => Some (ErrText "database is locked")) (fun _ => None) (fun _ => true).
Definition text_of (e : err) : string := "error".
Definition start : WState := MkWState (set_wall (fun _ => Demo.t0) Demo.queued) 0 0 false [].
Definition execute (lease : RunLease) (entry : QueueEntry) : WorkIO Execution := ioret (MkExecution "completed" None false None).
Definition local_fn (lease : RunLease) : WorkIO LocalEnd := ioret (MkLocalEnd None None false None).
Lemma execute_same lease entry w : exists x w', execute lease entry w = (Ok x, w') /\ ws_observed w' = ws_observed w.
Proof. unfold execute, ioret. eauto. Qed.
Lemma execute_grows lease entry : grows (execute lease entry).
Proof. by intros w. Qed.
Lemma stops n : (5 <= n)%nat -> is_Some (su_stopped env n).
Proof. intros Hn. cbn [env su_stopped]. rewrite (proj2 (Nat.leb_le 5 n) Hn). by eexists. Qed.
(** The claim takes the run, and settles it as finished. *)
Example claim : match ClaimAndRun env text_of cfg None execute start with
    | (Ok (o, None), w) => ou_run_id o = "R-1" /\ ou_disposition o = Some Finished /\ ws_accesses w = 2%nat /\ length (ws_observed w) = 1%nat
    | _ => False
    end.
Proof. vm_compute. split_and!; reflexivity. Qed.
Lemma claim_ends : exists o w', ClaimAndRun env text_of cfg None execute start = (Ok (o, None), w').
Proof.
pose proof claim as Hc. destruct (ClaimAndRun env text_of cfg None execute start) as [[[o [e|]]|e] w']; [destruct Hc|by exists o, w'|destruct Hc].
Qed.
Definition local_cfg : Config := local_config "host" 7 cfg.
Definition acquired := w_access env (AcquireRunLease "R-1" (cf_id local_cfg) (cf_lease_ttl local_cfg) (Clock_Now (cf_clock local_cfg) (ws_db start))) start.
Lemma acquires : match fst acquired with Ok _ => True | Err _ => False end.
Proof. vm_compute. exact I. Qed.
End WorkerDemo.

Lemma claim_accounted_witness : exists o w',
  ClaimAndRun WorkerDemo.env WorkerDemo.text_of WorkerDemo.cfg None WorkerDemo.execute WorkerDemo.start = (Ok (o, None), w') /\ ws_observed w' = [o].
Proof.
  pose proof (claim_accounted WorkerDemo.env WorkerDemo.text_of WorkerDemo.cfg WorkerDemo.execute WorkerDemo.start WorkerDemo.execute_same) as Hm.
  destruct WorkerDemo.claim_ends as (o & w' & E). rewrite E in Hm. exists o, w'. split; [exact E|]. clear E.
  match type of Hm with match ?r with _ => _ end => destruct r as [[[lease entry]|e] w1] end.
  - destruct Hm as (x & Ha & _). exact (proj1 Ha).
  - destruct Hm as (o' & w2 & Ha & _). discriminate Ha.
Defined.

Lemma renewal_keeps_valid_lease_witness : exists w',
  renew_tick WorkerDemo.faulty WorkerDemo.cfg Demo.first_lease WorkerDemo.start = (Ok (Renewed Demo.first_lease), w').
Proof.
  destruct (renew_tick WorkerDemo.faulty WorkerDemo.cfg Demo.first_lease WorkerDemo.start) as [[out|e] w'] eqn:Hr; [|exfalso; vm_compute in Hr; discriminate].
  exists w'. f_equal. f_equal.
  apply (proj2 (renewal_keeps_valid_lease _ _ _ _ _ _ Hr) (ErrText "database is locked")); try reflexivity.
  vm_compute in Hr. injection Hr as _ <-. vm_compute. reflexivity.
Defined.

Lemma serve_stops_witness : exists rounds out w',
  Serve WorkerDemo.env WorkerDemo.text_of WorkerDemo.cfg rounds None WorkerDemo.execute WorkerDemo.start = Some (out, w').
Proof.
  apply (serve_stops WorkerDemo.env WorkerDemo.text_of WorkerDemo.cfg WorkerDemo.execute WorkerDemo.start 5 WorkerDemo.execute_grows WorkerDemo.stops).
Defined.

Lemma local_run_reported_witness : exists r e w',
  ExecuteLocal WorkerDemo.env "host" 7 "R-1" WorkerDemo.cfg WorkerDemo.local_fn WorkerDemo.start = (Ok (r, e), w') /\
  match e with None => True | Some e => local_fenced e = false end.
Proof.
  pose proof (local_run_reported WorkerDemo.env "host" 7 "R-1" WorkerDemo.cfg WorkerDemo.local_fn WorkerDemo.start eq_refl
    (fun l w => ex_intro _ _ (ex_intro _ _ eq_refl))) as Hl. cbv zeta in Hl. pose proof WorkerDemo.acquires as Ha.
  change (w_access _ _ WorkerDemo.start) with WorkerDemo.acquired in Hl.
  destruct WorkerDemo.acquired as [[lease|e] w1]; [|destruct Ha].
  destruct Hl as (x & w2 & e & Hx & -> & He). injection Hx as <- <-. exists None, e. eexists. split; [reflexivity|]. destruct e as [e|]; [|exact I].
  exact (proj1 He).
Defined.
