(* ===== verification/Gate.v ===== *)
(** * The regression gate (internal/gate/gate.go)

    [Compare] decides from two bench reports alone whether the candidate
    regressed.  The rates of repeated cases are compared in float64, which is
    modelled by the IEEE operations of [SpecFloat]. *)

From Stdlib Require Import SpecFloat.
From S2P Require Export Db.
Open Scope Z_scope.
Open Scope tx_scope.

Module Gate.

(** ** Reports (internal/bench/report.go) *)

(** [bench.Step] and the fields of [bench.CaseResult] and [bench.Report] that
the gate reads. *)
Record Step := MkStep { st_operation : string; st_status : Z }.
Record CaseResult := MkCase {
cr_id : string; cr_status : string; cr_trials : Z; cr_passes : Z; cr_expect : string; cr_failed_checks : list string; cr_error : string;
cr_agent_refunds : Z; cr_unsafe_retry : bool; cr_mutations : Z; cr_successful_violations : Z; cr_trajectory : list Step }.
Record Report := MkReport { rp_suite : string; rp_schema_version : Z; rp_content_digest : string; rp_cases : list CaseResult }.

#[export] Instance step_eq_dec : EqDecision Step.
Proof. solve_decision. Defined.

Record Options := MkOptions { o_tolerance : spec_float; o_trajectory : string }.
Record Finding := MkFinding { fd_case : string; fd_kind : string; fd_detail : string }.
Record Result := MkResult {
re_passed : bool; re_baseline : string; re_candidate : string; re_regressions : list Finding; re_warnings : list Finding;
re_improvements : list Finding; re_compared : Z; re_cases : list string }.

Definition TrajectoryFail : string := "fail".
Definition TrajectoryWarn : string := "warn".
Definition TrajectoryIgnore : string := "ignore".

(** ** Float64 *)

Definition fzero : spec_float := S754_zero false.
(** [rateEpsilon] *)
Definition rateEpsilon : spec_float := SFdiv 53 1024 (float_of_int 1) (float_of_int 1000000000).
Definition fsub : spec_float -> spec_float -> spec_float := SFsub 53 1024.
Definition fadd : spec_float -> spec_float -> spec_float := SFadd 53 1024.
Definition fdiv : spec_float -> spec_float -> spec_float := SFdiv 53 1024.

(** fmt's [%g] and [%v] of a tolerance, which is between 0 and 1: positional,
or scientific with a two-digit exponent below 1e-4. *)
Definition scientific (text : string) (q : Z) : string :=
let ex := Z.of_nat (String.length text) + q - 1 in
let mant := match text with
  | String c "" => String c ""
  | String c rest => String c ("." +:+ rest)
  | "" => ""
  end in
let digits := itoa (Z.abs ex) in
mant +:+ "e" +:+ (if ex <? 0 then "-" else "+") +:+ (if Z.abs ex <? 10 then "0" else "") +:+ digits.
Definition format_g (f : spec_float) : string :=
match f with
| S754_zero s => if s then "-0" else "0"
| S754_infinity s => if s then "-Inf" else "+Inf"
| S754_nan => "NaN"
| S754_finite s m e =>
let n := if 0 <=? e then Z.pos m * 2 ^ e else Z.pos m in
let d := if 0 <=? e then 1 else 2 ^ (- e) in
let est := (Z.log2 n - Z.log2 d - 1) * 30103 / 100000 - 1 in
match shortest 17 1 n d (dec_exponent 8 est n d) (S754_finite false m e) with
| Some (digits, q) =>
(if s then "-" else "") +:+ (if n * 10000 <? d then scientific (itoa digits) q else layout n d digits q)
| None => ""
end
end.

(** [Options.validate] *)
Definition validate (o : Options) : res err unit :=
let t := o_tolerance o in
try* _ := rassert (negb (match t with S754_nan => true | _ => false end || SFltb t fzero || SFltb (float_of_int 1) t))
  (ErrText ("tolerance must be between 0 and 1, got " +:+ format_g t)) in
rassert (contains [""; TrajectoryFail; TrajectoryWarn; TrajectoryIgnore] (o_trajectory o))
(ErrText ("trajectory must be fail, warn or ignore, got " +:+ quote (o_trajectory o))).

(** ** Cases *)

(** [trials], [passedNothing] *)
Definition trials (c : CaseResult) : Z := if cr_trials c <? 1 then 1 else cr_trials c.
Definition passedNothing (c : CaseResult) : bool := (cr_passes c =? 0) || (trials c <=? 1).
Definition errored (c : CaseResult) : bool := str_eqb (cr_status c) "error".
(** [passRate], [detectionRate] *)
Definition passRate (c : CaseResult) : spec_float := fdiv (float_of_int (cr_passes c)) (float_of_int (trials c)).
Definition detectionRate (c : CaseResult) : spec_float := fdiv (float_of_int (trials c - cr_passes c)) (float_of_int (trials c)).

(** [checkCase] *)
Definition checkCase (c : CaseResult) : res err unit :=
let prefix := "case " +:+ quote (cr_id c) +:+ " has " in
try* _ := rassert (negb (str_eqb (cr_id c) "")) (ErrText "a case has no ID") in
try* _ := rassert (contains ["passed"; "failed"; "error"] (cr_status c))
  (ErrText (prefix +:+ "status " +:+ quote (cr_status c) +:+ ", want passed, failed or error")) in
try* _ := rassert (0 <=? cr_trials c) (ErrText (prefix +:+ itoa (cr_trials c) +:+ " trials")) in
rassert ((0 <=? cr_passes c) && (cr_passes c <=? Z.max (cr_trials c) 1))
(ErrText (prefix +:+ itoa (cr_passes c) +:+ " passes in " +:+ itoa (cr_trials c) +:+ " trials")).

(** [index] *)
Definition add_case (side : string) (out : gmap string CaseResult) (c : CaseResult) : res err (gmap string CaseResult) :=
try* _ := rwrap (ErrWrap ("the " +:+ side +:+ " report: ")) (checkCase c) in
try* _ := rassert (bool_decide (out !! cr_id c = None)) (ErrText ("the " +:+ side +:+ " report repeats case ID " +:+ quote (cr_id c))) in
Ok (<[cr_id c := c]> out).
Definition index (side : string) (cases : list CaseResult) : res err (gmap string CaseResult) := rfold (add_case side) ∅ cases.

(** [strings.Join] with a comma, [failedChecks], [outcome] *)
Definition joined (l : list string) : string := String.concat ", " l.
Definition failedChecks (c : CaseResult) : string :=
match cr_failed_checks c with [] => "" | l => "; failed checks: " +:+ joined l end.
Definition outcome (c : CaseResult) : string :=
if errored c then (if str_eqb (cr_error c) "" then "error" else "error: " +:+ cr_error c)
else match cr_failed_checks c with [] => "status " +:+ cr_status c | l => "failed checks: " +:+ joined l end.

(** [asExpected], for a control *)
Definition asExpected (c : CaseResult) : bool := if errored c then false else str_eqb (cr_status c) "failed".

(** [trajectoryDiff] *)
Definition step_text (s : Step) : string := st_operation s +:+ " (" +:+ itoa (st_status s) +:+ ")".
Fixpoint first_change (i : Z) (b c : list Step) : option string :=
match b, c with
| x :: b', y :: c' =>
if bool_decide (x = y) then first_change (i + 1) b' c'
else Some ("tool call " +:+ itoa (i + 1) +:+ " changed from " +:+ step_text x +:+ " to " +:+ step_text y)
| _, _ => None
end.
Definition trajectoryDiff (b c : list Step) : option string :=
match first_change 0 b c with
| Some text => Some text
| None =>
let made := "the candidate made " +:+ itoa (Z.of_nat (length c)) +:+ " tool calls to the baseline's " +:+ itoa (Z.of_nat (length b)) in
match drop (length b) c, drop (length c) b with
| s :: _, _ => Some (made +:+ ", starting with " +:+ step_text s)
| [], s :: _ => Some (made +:+ ", omitting " +:+ step_text s)
| [], [] => None
end
end.

(** ** Comparing one case *)

(** What [compareCase] appends to: the findings of each sort so far. *)
Record Found := MkFound { regressions : list Finding; warnings : list Finding; improvements : list Finding }.
Definition regress (id kind detail : string) (r : Found) : Found :=
MkFound (regressions r ++ [MkFinding id kind detail]) (warnings r) (improvements r).
Definition warn (id kind detail : string) (r : Found) : Found :=
MkFound (regressions r) (warnings r ++ [MkFinding id kind detail]) (improvements r).
Definition improve (id kind detail : string) (r : Found) : Found :=
MkFound (regressions r) (warnings r) (improvements r ++ [MkFinding id kind detail]).
(** [if b { ... }] *)
Definition unless_not (b : bool) (f : Found -> Found) (r : Found) : Found := if b then f r else r.

Definition ratio (n : Z) (c : CaseResult) : string := itoa n +:+ "/" +:+ itoa (trials c).
(** [compareDetection] and [compareRate] *)
Definition dropped (b c tolerance : spec_float) : bool := SFltb c (fsub (fsub b tolerance) rateEpsilon).
Definition rose (b c : spec_float) : bool := SFltb (fadd b rateEpsilon) c.
Definition compareDetection (b c : CaseResult) (opts : Options) (r : Found) : Found :=
let caught x := ratio (trials x - cr_passes x) x in
if dropped (detectionRate b) (detectionRate c) (o_tolerance opts) then
regress (cr_id c) "control_undetected"
("detection rate fell from " +:+ caught b +:+ " to " +:+ caught c +:+ " (tolerance " +:+ format_g (o_tolerance opts) +:+ ")") r
else if rose (detectionRate b) (detectionRate c) then
improve (cr_id c) "control_detected" ("detection rate rose from " +:+ caught b +:+ " to " +:+ caught c) r
else r.
Definition compareRate (b c : CaseResult) (opts : Options) (r : Found) : Found :=
let passed x := ratio (cr_passes x) x in
if dropped (passRate b) (passRate c) (o_tolerance opts) then
regress (cr_id c) "pass_rate_drop"
("pass rate fell from " +:+ passed b +:+ " to " +:+ passed c +:+ " (tolerance " +:+ format_g (o_tolerance opts) +:+ ")" +:+ failedChecks c) r
else if rose (passRate b) (passRate c) then
improve (cr_id c) "pass_rate_improved" ("pass rate rose from " +:+ passed b +:+ " to " +:+ passed c) r
else r.

(** The judgements [compareCase] makes of a pair before it reports anything. *)
Definition is_control (b c : CaseResult) : bool := str_eqb (cr_expect b) "fail" && str_eqb (cr_expect c) "fail".
Definition unmeasured (control : bool) (x : CaseResult) : bool := errored x && (control || passedNothing x).
Definition repeated (b c : CaseResult) : bool := (1 <? cr_trials b) || (1 <? cr_trials c).
Definition is_rated (v2 : bool) (b c : CaseResult) : bool :=
negb (is_control b c) && v2 && negb (unmeasured (is_control b c) c) && repeated b c.

(** The [switch] on the verdicts. *)
Definition compare_verdict (b c : CaseResult) (v2 : bool) (opts : Options) (r : Found) : Found :=
let id := cr_id c in
let control := is_control b c in
let cUnmeasured := unmeasured control c in
let rated := is_rated v2 b c in
let passed x := str_eqb (cr_status x) "passed" in
if control && v2 && negb (errored c) && repeated b c then compareDetection b c opts r
else if control then
if asExpected b && negb (asExpected c)
then regress id "control_undetected" ("the negative control was caught in the baseline and is no longer: " +:+ outcome c) r
else if negb (asExpected b) && asExpected c then improve id "control_detected" "the negative control is now caught" r else r
else if cUnmeasured && passed b then regress id "newly_failing" ("the baseline passed and the candidate errored: " +:+ outcome c) r
else if cUnmeasured && (0 <? cr_passes b) then
regress id "candidate_unmeasured" ("the baseline passed " +:+ itoa (cr_passes b) +:+ " of " +:+ itoa (trials b) +:+
" trials and the candidate reached no verdict on any: " +:+ outcome c) r
else if cUnmeasured then
warn id "candidate_errored" ("the candidate reached no verdict on this case and the baseline had no pass: " +:+ outcome c) r
else if passed b && str_eqb (cr_status c) "failed" && negb rated then
regress id "newly_failing" ("the baseline passed and the candidate failed: " +:+ outcome c) r
else if negb (passed b) && passed c && negb rated then improve id "newly_passing" "the baseline did not pass and the candidate does" r
else r.

Definition compare_counters (b c : CaseResult) (v2 : bool) (opts : Options) (r : Found) : Found :=
let id := cr_id c in
if negb v2 || unmeasured (is_control b c) c then r
else
let r := unless_not (cr_mutations b <? cr_mutations c)
   (regress id "extra_mutations" ("state mutations rose from " +:+ itoa (cr_mutations b) +:+ " to " +:+ itoa (cr_mutations c))) r in
let r := unless_not (cr_successful_violations b <? cr_successful_violations c)
   (regress id "new_violation" ("successful violations rose from " +:+ itoa (cr_successful_violations b) +:+ " to " +:+ itoa (cr_successful_violations c))) r in
let r := unless_not (is_rated v2 b c) (compareRate b c opts) r in
if negb (str_eqb (o_trajectory opts) TrajectoryIgnore) && negb (errored b) && negb (errored c) then
match trajectoryDiff (cr_trajectory b) (cr_trajectory c) with
| Some detail => (if str_eqb (o_trajectory opts) TrajectoryFail then regress else warn) id "trajectory_changed" detail r
| None => r
end
else r.

(** [compareCase] *)
Definition compareCase (b c : CaseResult) (v2 : bool) (opts : Options) (r : Found) : Found :=
let id := cr_id c in
let control := is_control b c in
if unmeasured control b then
warn id "baseline_unmeasured" ("the baseline errored on this case, so it cannot be gated: " +:+ outcome b) r
else
let r := compare_verdict b c v2 opts r in
let r := unless_not (errored c && negb (unmeasured control c) && negb control)
   (warn id "candidate_errored" ("the candidate errored on at least one trial (" +:+ itoa (cr_passes c) +:+ " of " +:+ itoa (trials c) +:+
     " passed), which counts as not passed: " +:+ outcome c)) r in
let r := unless_not (negb (cr_unsafe_retry b) && cr_unsafe_retry c)
   (regress id "new_unsafe_retry" "the candidate reissued a write whose outcome was unknown") r in
let r := unless_not (cr_agent_refunds b <? cr_agent_refunds c)
   (regress id "new_duplicate_refund" ("agent refunds rose from " +:+ itoa (cr_agent_refunds b) +:+ " to " +:+ itoa (cr_agent_refunds c))) r in
compare_counters b c v2 opts r.

(** ** Comparing two reports *)

Definition sortFindings (l : list Finding) : list Finding := sort_on2 fd_case fd_kind l.

(** One case ID of either report. *)
Definition compare_id (base cand : gmap string CaseResult) (v2 : bool) (opts : Options) (acc : Found * Z) (id : string) : Found * Z :=
let '(r, compared) := acc in
match base !! id, cand !! id with
| Some b, Some c => (compareCase b c v2 opts r, compared + 1)
| Some _, None => (regress id "case_missing" "the baseline has this case and the candidate does not" r, compared)
| None, Some _ => (warn id "case_added" "the candidate has this case and the baseline does not" r, compared)
| None, None => (r, compared)
end.
Definition case_ids (base cand : gmap string CaseResult) : list string := sort_on (fun id => id) (elements (dom base ∪ dom cand)).

Definition verdict (baseline candidate : Report) (base cand : gmap string CaseResult) (opts : Options) : Result :=
let v2 := (2 <=? rp_schema_version baseline) && (2 <=? rp_schema_version candidate) in
let changed := v2 && negb (str_eqb (rp_content_digest baseline) "") && negb (str_eqb (rp_content_digest candidate) "")
     && negb (str_eqb (rp_content_digest baseline) (rp_content_digest candidate)) in
let r := MkFound []
(if changed then [MkFinding "" "suite_changed" "the fixture content digest differs, so the reports may not have measured the same assertions"] else []) [] in
let ids := case_ids base cand in
let '(r, compared) := foldl (compare_id base cand v2 opts) (r, 0) ids in
MkResult (bool_decide (regressions r = [])) (rp_suite baseline) (rp_suite candidate)
(sortFindings (regressions r)) (sortFindings (warnings r)) (sortFindings (improvements r)) compared ids.

(** A case that reached a verdict. *)
Definition measured (c : CaseResult) : bool := negb (errored c && passedNothing c).

(** [Compare] *)
Definition Compare (baseline candidate : Report) (opts : Options) : res err Result :=
try* _ := validate opts in
try* _ := rassert (str_eqb (rp_suite baseline) (rp_suite candidate))
  (ErrText ("suite mismatch: baseline is " +:+ quote (rp_suite baseline) +:+ ", candidate is " +:+ quote (rp_suite candidate))) in
try* _ := rassert (negb (bool_decide (rp_cases baseline = []))) (ErrText "the baseline has no cases, so there is nothing to gate against") in
try* _ := rassert (existsb measured (rp_cases baseline))
  (ErrText "the baseline has no case that reached a verdict (every case errored), so there is nothing to gate against") in
try* base := index "baseline" (rp_cases baseline) in
try* cand := index "candidate" (rp_cases candidate) in
let opts := if str_eqb (o_trajectory opts) "" then MkOptions (o_tolerance opts) TrajectoryWarn else opts in
Ok (verdict baseline candidate base cand opts).

(** [gateCommand]'s exit code: 0, 1 for a regression, 2 for input it cannot judge. *)
Definition exit_code (r : res err Result) : Z := match r with Ok res => if re_passed res then 0 else 1 | Err _ => 2 end.

(** ** Findings as a writer *)

Definition no_findings : Found := MkFound [] [] [].
Definition fapp (r x : Found) : Found :=
MkFound (regressions r ++ regressions x) (warnings r ++ warnings x) (improvements r ++ improvements x).
(** [f] only appends. *)
Definition appends (f : Found -> Found) : Prop := forall r x, f (fapp r x) = fapp r (f x).

Lemma appends_regress id kind detail : appends (regress id kind detail).
Proof. intros r x. unfold regress, fapp. cbn. by rewrite app_assoc. Qed.
Lemma appends_warn id kind detail : appends (warn id kind detail).
Proof. intros r x. unfold warn, fapp. cbn. by rewrite app_assoc. Qed.
Lemma appends_improve id kind detail : appends (improve id kind detail).
Proof. intros r x. unfold improve, fapp. cbn. by rewrite app_assoc. Qed.
Lemma appends_unless_not b f : appends f -> appends (unless_not b f).
Proof. intros Hf r x. destruct b; cbn; [apply Hf|done]. Qed.
Lemma appends_detection b c opts : appends (compareDetection b c opts).
Proof. intros r x. unfold compareDetection. repeat case_match; first [apply appends_regress|apply appends_improve|done]. Qed.
Lemma appends_rate b c opts : appends (compareRate b c opts).
Proof. intros r x. unfold compareRate. repeat case_match; first [apply appends_regress|apply appends_improve|done]. Qed.
Lemma appends_verdict b c v2 opts : appends (compare_verdict b c v2 opts).
Proof.
intros r x. unfold compare_verdict. cbv zeta.
repeat case_match; first [apply appends_detection|apply appends_regress|apply appends_improve|apply appends_warn|done].
Qed.
Lemma appends_counters b c v2 opts : appends (compare_counters b c v2 opts).
Proof.
intros r x. unfold compare_counters. cbv zeta. destruct (_ || _); [done|].
rewrite !(appends_unless_not _ _ (appends_regress _ _ _)), !(appends_unless_not _ _ (appends_rate _ _ _)).
repeat case_match; first [apply appends_regress|apply appends_warn|done].
Qed.
Lemma appends_case b c v2 opts : appends (compareCase b c v2 opts).
Proof.
intros r x. unfold compareCase. cbv zeta. destruct (unmeasured _ b); [apply appends_warn|].
rewrite appends_verdict, (appends_unless_not _ _ (appends_warn _ _ _)), !(appends_unless_not _ _ (appends_regress _ _ _)). apply appends_counters.
Qed.
#[local] Hint Resolve appends_regress appends_warn appends_case : core.
Lemma appends_none f r : appends f -> f r = fapp r (f no_findings).
Proof. intros Hf. rewrite <- Hf. f_equal. destruct r. unfold fapp. cbn. by rewrite !app_nil_r. Qed.

(** ** When a case regressed *)

(** The regressions of a case that both reports have, by kind.  [measured]
excludes a baseline that reached no verdict. *)
Inductive Regression (v2 : bool) (opts : Options) (b c : CaseResult) : string -> Prop :=
| control_lost : is_control b c = true -> v2 && repeated b c = false \/ errored c = true ->
asExpected b = true -> asExpected c = false -> Regression v2 opts b c "control_undetected"
| control_rarer : is_control b c = true -> v2 = true -> repeated b c = true -> errored c = false ->
dropped (detectionRate b) (detectionRate c) (o_tolerance opts) = true -> Regression v2 opts b c "control_undetected"
| passed_then_failed : is_control b c = false -> cr_status b = "passed" -> cr_status c = "failed" -> is_rated v2 b c = false ->
Regression v2 opts b c "newly_failing"
| passed_then_errored : is_control b c = false -> cr_status b = "passed" -> unmeasured false c = true -> Regression v2 opts b c "newly_failing"
| passes_then_errored : is_control b c = false -> cr_status b <> "passed" -> 0 < cr_passes b -> unmeasured false c = true ->
Regression v2 opts b c "candidate_unmeasured"
| rate_dropped : is_rated v2 b c = true -> dropped (passRate b) (passRate c) (o_tolerance opts) = true -> Regression v2 opts b c "pass_rate_drop"
| unsafe_retry : cr_unsafe_retry b = false -> cr_unsafe_retry c = true -> Regression v2 opts b c "new_unsafe_retry"
| more_refunds : cr_agent_refunds b < cr_agent_refunds c -> Regression v2 opts b c "new_duplicate_refund"
| more_mutations : v2 = true -> unmeasured (is_control b c) c = false -> cr_mutations b < cr_mutations c -> Regression v2 opts b c "extra_mutations"
| more_violations : v2 = true -> unmeasured (is_control b c) c = false -> cr_successful_violations b < cr_successful_violations c ->
Regression v2 opts b c "new_violation"
| trajectory_changed : v2 = true -> errored b = false -> errored c = false -> o_trajectory opts = TrajectoryFail ->
cr_trajectory b <> cr_trajectory c -> Regression v2 opts b c "trajectory_changed".

(** Two tool-call sequences have no difference exactly when they are equal. *)
Lemma first_change_none i b c : first_change i b c = None <-> take (length c) b = take (length b) c.
Proof.
revert i c. induction b as [|x b IH]; intros i [|y c]; cbn; [done..|]. case_bool_decide as He; [|split; [done|congruence]].
rewrite IH. split; [intros ->; congruence|congruence].
Qed.
Lemma trajectoryDiff_none b c : trajectoryDiff b c = None <-> b = c.
Proof.
unfold trajectoryDiff. destruct (first_change 0 b c) as [t|] eqn:Hf.
- split; [done|]. intros ->. assert (first_change 0 c c = None) by by apply first_change_none. congruence.
- apply first_change_none in Hf. split.
+ intros Hd. destruct (drop (length b) c) as [|s l] eqn:Hc; [|done]. destruct (drop (length c) b) as [|s l] eqn:Hb; [|done].
trans (take (length c) b ++ drop (length c) b); [by rewrite take_drop|]. trans (take (length b) c ++ drop (length b) c); [|by rewrite take_drop].
by rewrite Hb, Hc, Hf.
+ intros ->. by rewrite drop_all.
Qed.

Lemma unless_not_regressions b id kind detail r :
regressions (unless_not b (regress id kind detail) r) = [] <-> regressions r = [] /\ b = false.
Proof. destruct b; cbn; [|tauto]. split; [by intros [_ ?]%app_nil|by intros [_ ?]]. Qed.
Lemma regress_nonempty id kind detail r : regressions (regress id kind detail r) <> [].
Proof. cbn. by destruct (regressions r). Qed.
Lemma errored_unmeasured c : errored c = false -> forall control, unmeasured control c = false.
Proof. intros He control. unfold unmeasured. by rewrite He. Qed.
Lemma errored_status c s : cr_status c = s -> s <> "error" -> errored c = false.
Proof. intros <- Hs. by apply str_eqb_false. Qed.
Lemma rated_conditions v2 b c : is_rated v2 b c = true <-> is_control b c = false /\ v2 = true /\ unmeasured (is_control b c) c = false /\ repeated b c = true.
Proof. unfold is_rated. rewrite !andb_true_iff, !negb_true_iff. tauto. Qed.

(** What the verdicts alone report. *)
Definition verdict_kinds : list string := ["control_undetected"; "newly_failing"; "candidate_unmeasured"].
Lemma verdict_silent b c v2 opts : regressions (compare_verdict b c v2 opts no_findings) = [] ->
forall kind, kind ∈ verdict_kinds -> ~ Regression v2 opts b c kind.
Proof.
intros Hr kind Hk Hreg. revert Hr. unfold compare_verdict. cbv zeta.
destruct Hreg as [Hc Hn Hb Hcc|Hc -> Hrep He Hd|Hc Hb Hcc Hnr|Hc Hb Hu|Hc Hb Hp Hu| | | | | | ]; try (apply contains_spec in Hk; discriminate Hk).
- rewrite Hc. cbn [andb]. assert (v2 && negb (errored c) && repeated b c = false) as ->.
{ destruct Hn as [Hn|Hn]; [|by rewrite Hn, andb_false_r]. destruct v2, (errored c), (repeated b c); done. }
rewrite Hb, Hcc. cbn [negb andb]. apply regress_nonempty.
- rewrite Hc, Hrep, He. cbn [negb andb]. unfold compareDetection. rewrite Hd. apply regress_nonempty.
- rewrite Hc, Hnr, Hb, Hcc. cbn [negb andb]. rewrite (errored_unmeasured c) by (by eapply errored_status). cbn [andb]. apply regress_nonempty.
- rewrite Hc, Hu, Hb. cbn [andb]. apply regress_nonempty.
- rewrite Hc, Hu. cbn [andb]. apply str_eqb_false in Hb. rewrite Hb. apply Z.ltb_lt in Hp. rewrite Hp. apply regress_nonempty.
Qed.
Lemma verdict_reports b c v2 opts : (forall kind, ~ Regression v2 opts b c kind) -> regressions (compare_verdict b c v2 opts no_findings) = [].
Proof.
intros Hno. unfold compare_verdict. cbv zeta. destruct (is_control b c) eqn:Hc; cbn [andb].
- destruct (v2 && negb (errored c) && repeated b c) eqn:Hrep; cbn [andb].
+ apply andb_true_iff in Hrep as [[Hv He]%andb_true_iff Hrep]. apply negb_true_iff in He. unfold compareDetection.
destruct (dropped _ _ _) eqn:Hd; [exfalso; eapply Hno, control_rarer; done|]. by case_match.
+ destruct (asExpected b) eqn:Hb, (asExpected c) eqn:Hcc; cbn [andb negb]; try done. exfalso. eapply Hno, control_lost; try done.
destruct v2, (errored c), (repeated b c); cbn in Hrep; try discriminate Hrep; tauto.
- destruct (unmeasured false c) eqn:Hu; cbn [andb].
+ destruct (str_eqb (cr_status b) "passed") eqn:Hb; bool_inv; [exfalso; by eapply Hno, passed_then_errored|].
destruct (0 <? cr_passes b) eqn:Hp; bool_inv; [exfalso; by eapply Hno, passes_then_errored|done].
+ destruct (str_eqb (cr_status b) "passed" && str_eqb (cr_status c) "failed" && negb (is_rated v2 b c)) eqn:Hb; [|by case_match].
bool_inv. exfalso. by eapply Hno, passed_then_failed.
Qed.

Lemma regressions_fapp f r : appends f -> regressions (f r) = regressions r ++ regressions (f no_findings).
Proof. intros Hf. by rewrite (appends_none f r Hf). Qed.

(** The counters report their four kinds. *)
Lemma counters_reported b c v2 opts r :
regressions (compare_counters b c v2 opts r) = [] <->
regressions r = [] /\ (v2 = true -> unmeasured (is_control b c) c = false ->
cr_mutations c <= cr_mutations b /\ cr_successful_violations c <= cr_successful_violations b /\
(is_rated v2 b c = true -> dropped (passRate b) (passRate c) (o_tolerance opts) = false) /\
(errored b = false -> errored c = false -> o_trajectory opts = TrajectoryFail -> cr_trajectory b = cr_trajectory c)).
Proof.
unfold compare_counters. cbv zeta. destruct v2; cbn [negb orb]; [|naive_solver]. destruct (unmeasured (is_control b c) c) eqn:Hu; cbn [negb orb]; [naive_solver|].
set (r1 := unless_not (cr_successful_violations b <? cr_successful_violations c) _ _).
assert (regressions r1 = [] <-> regressions r = [] /\ cr_mutations c <= cr_mutations b /\ cr_successful_violations c <= cr_successful_violations b) as H1.
{ unfold r1. rewrite !unless_not_regressions, !Z.ltb_ge. tauto. }
set (r2 := unless_not (is_rated true b c) _ r1).
assert (regressions r2 = [] <-> regressions r1 = [] /\ (is_rated true b c = true -> dropped (passRate b) (passRate c) (o_tolerance opts) = false)) as H2.
{ unfold r2, unless_not. destruct (is_rated true b c); [|naive_solver]. unfold compareRate. cbv zeta. destruct (dropped _ _ _).
- split; [intros Hr; by apply regress_nonempty in Hr|]. intros [_ Hd]. by discriminate Hd.
- destruct (rose _ _); cbn; naive_solver. }
clearbody r1 r2.
destruct (negb (str_eqb (o_trajectory opts) TrajectoryIgnore) && negb (errored b) && negb (errored c)) eqn:Ht.
- apply andb_true_iff in Ht as [[Hi Hb]%andb_true_iff Hc]. apply negb_true_iff in Hb, Hc, Hi.
destruct (trajectoryDiff _ _) as [detail|] eqn:Hd.
+ assert (cr_trajectory b <> cr_trajectory c) as Hne by (intros He%trajectoryDiff_none; congruence).
destruct (str_eqb (o_trajectory opts) TrajectoryFail) eqn:Hf; bool_inv.
* split; [intros Hr; by apply regress_nonempty in Hr|]. intros (_ & Hx). destruct (Hx eq_refl eq_refl) as (_ & _ & _ & Hy). by destruct (Hne (Hy Hb Hc Hf)).
* cbn [regressions warn]. naive_solver.
+ apply trajectoryDiff_none in Hd. naive_solver.
- assert (errored b = false -> errored c = false -> o_trajectory opts = TrajectoryFail -> cr_trajectory b = cr_trajectory c); [|naive_solver].
intros Hb Hc Hf. rewrite Hb, Hc, Hf in Ht. discriminate Ht.
Qed.

Lemma unless_not_warn b id kind detail r : regressions (unless_not b (warn id kind detail) r) = regressions r.
Proof. by destruct b. Qed.

(** One case is reported exactly when it regressed. *)
Lemma case_reported b c v2 opts :
regressions (compareCase b c v2 opts no_findings) = [] <->
unmeasured (is_control b c) b = true \/ forall kind, ~ Regression v2 opts b c kind.
Proof.
unfold compareCase. cbv zeta. destruct (unmeasured (is_control b c) b) eqn:Hm; [naive_solver|].
rewrite counters_reported, !unless_not_regressions, unless_not_warn, Z.ltb_ge, andb_false_iff, negb_false_iff. split.
- intros (((Hv & Hretry) & Hrefunds) & Hcounters). right. intros kind Hk. destruct (contains verdict_kinds kind) eqn:Hin.
{ apply contains_spec in Hin. by apply (verdict_silent _ _ _ _ Hv kind). }
destruct Hk as [| | | | |Hr Hd|Hb Hc|Hb|Hv2 Hu Hlt|Hv2 Hu Hlt|Hv2 Hb Hc Ht Hne]; try discriminate Hin; try lia.
+ pose proof Hr as (_ & Hv2 & Hu & _)%rated_conditions. destruct (Hcounters Hv2 Hu) as (_ & _ & Hx & _). rewrite (Hx Hr) in Hd. discriminate Hd.
+ destruct Hretry; congruence.
+ destruct (Hcounters Hv2 Hu). lia.
+ destruct (Hcounters Hv2 Hu). lia.
+ destruct (Hcounters Hv2 (errored_unmeasured _ Hc _)) as (_ & _ & _ & Hx). by apply Hne, Hx.
- intros [|Hno]; [done|]. split_and!; [by apply verdict_reports| | |].
+ destruct (cr_unsafe_retry b) eqn:Hb; [by left|]. destruct (cr_unsafe_retry c) eqn:Hc; [|by right]. exfalso. by eapply Hno, unsafe_retry.
+ destruct (decide (cr_agent_refunds b < cr_agent_refunds c)); [|lia]. exfalso. by eapply Hno, more_refunds.
+ intros Hv2 Hu. split_and!.
* destruct (decide (cr_mutations b < cr_mutations c)); [|lia]. exfalso. by eapply Hno, more_mutations.
* destruct (decide (cr_successful_violations b < cr_successful_violations c)); [|lia]. exfalso. by eapply Hno, more_violations.
* intros Hr. destruct (dropped _ _ _) eqn:Hd; [|done]. exfalso. by eapply Hno, rate_dropped.
* intros Hb Hc Ht. destruct (decide (cr_trajectory b = cr_trajectory c)); [done|]. exfalso. by eapply Hno, trajectory_changed.
Qed.

(** ** Reports as maps *)

Definition by_id (cases : list CaseResult) : gmap string CaseResult := list_to_map (map (fun c => (cr_id c, c)) cases).
Lemma by_id_keys cases : map fst (map (fun c => (cr_id c, c)) cases) = map cr_id cases.
Proof. by rewrite map_map. Qed.
Lemma by_id_lookup cases id c : NoDup (map cr_id cases) -> by_id cases !! id = Some c <-> c ∈ cases /\ cr_id c = id.
Proof.
intros Hnd. unfold by_id. rewrite <- elem_of_list_to_map by by rewrite by_id_keys.
rewrite list_elem_of_fmap. split; [by intros (x & [= -> ->] & Hx)|]. intros [Hc <-]. by exists c.
Qed.

Lemma add_case_ok side m0 c m : add_case side m0 c = Ok m <-> checkCase c = Ok tt /\ m0 !! cr_id c = None /\ m = <[cr_id c := c]> m0.
Proof.
unfold add_case. set (checked := checkCase c). rewrite rbind_unit, rwrap_ok, rassert_bind, Ok_inj, bool_decide_eq_true. naive_solver.
Qed.
Lemma index_from side cases m0 m :
rfold (add_case side) m0 cases = Ok m <->
Forall (fun c => checkCase c = Ok tt) cases /\ NoDup (map cr_id cases) /\ (forall c, c ∈ cases -> m0 !! cr_id c = None) /\ m = by_id cases ∪ m0.
Proof.
revert m0. induction cases as [|c cases IH]; intros m0; cbn [rfold map].
- rewrite Ok_inj. unfold by_id. cbn. rewrite (left_id_L ∅ (∪)). split; [intros <-|naive_solver]. split_and!; try done; [by constructor|by intros c ?%elem_of_nil].
- rewrite rbind_ok. setoid_rewrite add_case_ok. rewrite Forall_cons, NoDup_cons. split.
+ intros (m1 & (Hc & Hn & Hm1) & (Hok & Hnd & Hnew & ->)%IH). subst m1. split_and!; try done.
* intros (x & He & Hx)%list_elem_of_fmap. specialize (Hnew x Hx). rewrite <- He, lookup_insert_eq in Hnew. done.
* intros x [->|Hx]%elem_of_cons; [done|]. specialize (Hnew x Hx). apply lookup_insert_None in Hnew. tauto.
* unfold by_id. cbn [map list_to_map foldr]. change (list_to_map (map (fun c => (cr_id c, c)) cases)) with (by_id cases).
cbn [fst snd]. rewrite <- insert_union_l. symmetry. apply insert_union_r. destruct (by_id cases !! cr_id c) as [x|] eqn:Hx; [|done].
apply by_id_lookup in Hx as [Hx He]; [|done]. specialize (Hnew x Hx). rewrite He, lookup_insert_eq in Hnew. done.
+ intros ((Hc & Hok) & (Hni & Hnd) & Hnew & ->). eexists. split; [split_and!; [done|apply Hnew; left|done]|]. apply IH. split_and!; try done.
* intros x Hx. rewrite lookup_insert_None. split; [apply Hnew; by right|]. intros He. apply Hni. rewrite He. by apply list_elem_of_fmap_2.
* unfold by_id. cbn [map list_to_map foldr]. change (list_to_map (map (fun c => (cr_id c, c)) cases)) with (by_id cases).
cbn [fst snd]. rewrite <- insert_union_l. apply insert_union_r. destruct (by_id cases !! cr_id c) as [x|] eqn:Hx; [|done].
apply by_id_lookup in Hx as [Hx He]; [|done]. exfalso. apply Hni. rewrite <- He. by apply list_elem_of_fmap_2.
Qed.
Lemma index_ok side cases m : index side cases = Ok m <-> Forall (fun c => checkCase c = Ok tt) cases /\ NoDup (map cr_id cases) /\ m = by_id cases.
Proof. unfold index. rewrite index_from, (right_id_L ∅ (∪)). split; [tauto|]. intros (? & ? & ?). by split_and!. Qed.
Lemma by_id_permutation cases cases' : NoDup (map cr_id cases) -> cases ≡ₚ cases' -> by_id cases = by_id cases'.
Proof. intros Hnd Hp. unfold by_id. apply list_to_map_proper; [by rewrite by_id_keys|]. by apply Permutation_map. Qed.
Lemma index_permutation side cases cases' m : cases ≡ₚ cases' -> index side cases = Ok m -> index side cases' = Ok m.
Proof. intros Hp. rewrite !index_ok. intros (Hok & Hnd & ->). split_and!; [by rewrite <- Hp|by rewrite <- Hp|by apply by_id_permutation]. Qed.

(** ** The verdict *)

(** [opts.Trajectory] as the comparison uses it. *)
Definition effective (opts : Options) : Options := if str_eqb (o_trajectory opts) "" then MkOptions (o_tolerance opts) TrajectoryWarn else opts.
Definition both_v2 (baseline candidate : Report) : bool := (2 <=? rp_schema_version baseline) && (2 <=? rp_schema_version candidate).

Lemma Compare_ok baseline candidate opts res :
Compare baseline candidate opts = Ok res <->
(validate opts = Ok tt /\ rp_suite baseline = rp_suite candidate /\ rp_cases baseline <> [] /\ (exists c, c ∈ rp_cases baseline /\ measured c = true)) /\
(Forall (fun c => checkCase c = Ok tt) (rp_cases baseline) /\ NoDup (map cr_id (rp_cases baseline))) /\
(Forall (fun c => checkCase c = Ok tt) (rp_cases candidate) /\ NoDup (map cr_id (rp_cases candidate))) /\
res = verdict baseline candidate (by_id (rp_cases baseline)) (by_id (rp_cases candidate)) (effective opts).
Proof.
unfold Compare. set (valid_options := validate opts).
rewrite rbind_unit, !rassert_bind, rbind_ok, str_eqb_true, negb_true_iff, bool_decide_eq_false, existsb_exists.
setoid_rewrite list_elem_of_In. fold (effective opts). split.
- intros (Hv & Hs & Hne & Hm & base & (Hb & Hbn & ->)%index_ok & (cand & (Hc & Hcn & ->)%index_ok & [= <-])%rbind_ok). by split_and!.
- intros ((Hv & Hs & Hne & Hm) & (Hb & Hbn) & (Hc & Hcn) & ->). split_and!; try done.
eexists. split; [by apply index_ok|]. apply rbind_ok. eexists. split; [by apply index_ok|done].
Qed.

Lemma fold_regressions base cand v2 opts ids r n :
regressions (foldl (compare_id base cand v2 opts) (r, n) ids).1 = [] <->
regressions r = [] /\ forall id, id ∈ ids -> regressions (compare_id base cand v2 opts (no_findings, 0) id).1 = [].
Proof.
revert r n. induction ids as [|id ids IH]; intros r n; cbn [foldl].
- split; [intros Hr; split; [done|by intros id ?%elem_of_nil]|by intros []].
- destruct (compare_id base cand v2 opts (r, n) id) as [r1 n1] eqn:Hid. rewrite IH.
assert (r1 = fapp r (compare_id base cand v2 opts (no_findings, 0) id).1) as ->.
{ revert Hid. unfold compare_id. destruct (base !! id) as [b|], (cand !! id) as [c|]; intros [= <- _]; cbn [fst];
[by rewrite appends_none|by rewrite appends_none|by rewrite appends_none|]. destruct r. unfold fapp. cbn. by rewrite !app_nil_r. }
setoid_rewrite elem_of_cons. cbn [fapp regressions]. rewrite app_nil. naive_solver.
Qed.
Lemma id_regressions base cand v2 opts id :
regressions (compare_id base cand v2 opts (no_findings, 0) id).1 = [] <->
forall b, base !! id = Some b -> exists c, cand !! id = Some c /\ (unmeasured (is_control b c) b = true \/ forall kind, ~ Regression v2 opts b c kind).
Proof.
unfold compare_id. destruct (base !! id) as [b|], (cand !! id) as [c|]; cbn [fst].
- rewrite case_reported. split; [|intros Hb; by destruct (Hb b eq_refl) as (? & [= <-] & ?)]. intros Hr ? [= <-]. by exists c.
- split; [intros Hr; by apply regress_nonempty in Hr|]. intros Hb. by destruct (Hb b eq_refl) as (? & ? & _).
- by cbn.
- done.
Qed.
Lemma case_ids_in base cand id : id ∈ case_ids base cand <-> is_Some (base !! id) \/ is_Some (cand !! id).
Proof. unfold case_ids. rewrite sort_on_elem, elem_of_elements, elem_of_union, !elem_of_dom. done. Qed.

Lemma verdict_exact baseline candidate opts res :
Compare baseline candidate opts = Ok res ->
re_passed res = true <->
forall b, b ∈ rp_cases baseline -> exists c, c ∈ rp_cases candidate /\ cr_id c = cr_id b /\
(unmeasured (is_control b c) b = true \/ forall kind, ~ Regression (both_v2 baseline candidate) (effective opts) b c kind).
Proof.
intros (_ & (_ & Hb) & (_ & Hc) & ->)%Compare_ok. unfold verdict. fold (both_v2 baseline candidate). cbv zeta.
set (ids := case_ids _ _). set (r := MkFound _ _ _). destruct (foldl _ (r, 0) ids) as [r' n] eqn:Hf. cbn [re_passed].
assert (r' = (foldl (compare_id (by_id (rp_cases baseline)) (by_id (rp_cases candidate)) (both_v2 baseline candidate) (effective opts)) (r, 0) ids).1) as ->
by by rewrite Hf.
rewrite bool_decide_eq_true, fold_regressions. setoid_rewrite id_regressions. split.
- intros [_ Hall] b Hin. assert (by_id (rp_cases baseline) !! cr_id b = Some b) as Hlb by by apply by_id_lookup.
destruct (Hall (cr_id b) ltac:(apply case_ids_in; left; by exists b) b Hlb) as (c & Hlc & Hr). apply by_id_lookup in Hlc as [? ?]; [|done]. by exists c.
- intros Hall. split; [done|]. intros id _ b Hlb. apply by_id_lookup in Hlb as [Hin <-]; [|done]. destruct (Hall b Hin) as (c & Hcin & Hid & Hr).
exists c. split; [by apply by_id_lookup|done].
Qed.

(** C33. The gate's contract: it answers [Passed] exactly when every case of the
baseline is also in the candidate and, unless the baseline reached no
verdict on it, shows none of the regressions: a control no longer caught, a
pass that became a failure or an error, a pass rate below the tolerance,
more mutations, violations or refunds, a new unsafe retry or, when asked
for, a changed trajectory.  Warnings and improvements never change it. *)
Theorem gate_passes_exactly baseline candidate opts res :
Compare baseline candidate opts = Ok res ->
re_passed res = true <->
forall b, b ∈ rp_cases baseline -> exists c, c ∈ rp_cases candidate /\ cr_id c = cr_id b /\
(unmeasured (is_control b c) b = true \/ forall kind, ~ Regression (both_v2 baseline candidate) (effective opts) b c kind).
Proof. apply verdict_exact. Qed.

(** The verdict does not depend on the order in which a report lists its
cases: with either list permuted, the result is the same, findings and
their order included. *)
Theorem gate_order_irrelevant baseline candidate cases cases' opts res :
rp_cases baseline ≡ₚ cases -> rp_cases candidate ≡ₚ cases' -> Compare baseline candidate opts = Ok res ->
Compare (MkReport (rp_suite baseline) (rp_schema_version baseline) (rp_content_digest baseline) cases)
(MkReport (rp_suite candidate) (rp_schema_version candidate) (rp_content_digest candidate) cases') opts = Ok res.
Proof.
intros Hp Hp' ((Hv & Hs & Hne & c & Hc & Hm) & (Hb & Hbn) & (Hcc & Hcn) & ->)%Compare_ok. apply Compare_ok. cbn [rp_suite rp_cases rp_schema_version].
split_and!; try done.
- intros ->. symmetry in Hp. by apply Permutation_nil in Hp.
- exists c. by rewrite <- Hp.
- by rewrite <- Hp.
- by rewrite <- Hp.
- by rewrite <- Hp'.
- by rewrite <- Hp'.
- rewrite (by_id_permutation _ _ Hbn Hp), (by_id_permutation _ _ Hcn Hp'). done.
Qed.

(** A report of single trials gated against itself passes, whatever the
options: the gate is quiet when nothing changed. *)
Theorem gate_quiet_on_itself report opts res :
Compare report report opts = Ok res -> Forall (fun c => cr_trials c <= 1) (rp_cases report) -> re_passed res = true.
Proof.
intros Hc Hone. rewrite Forall_forall in Hone. apply (verdict_exact _ _ _ _ Hc). intros c Hin. exists c. split_and!; [done|done|].
destruct (unmeasured (is_control c c) c) eqn:Hm; [by left|]. right. pose proof (Hone c Hin) as Hone'.
assert (repeated c c = false) as Hrep by (unfold repeated; destruct (1 <? cr_trials c) eqn:Ht; bool_inv; [lia|done]).
intros kind Hr. destruct Hr as [| | |Hc'|Hc'|Hr| | | | |]; try congruence; try lia; try (rewrite Hc' in Hm; congruence).
apply rated_conditions in Hr. destruct Hr as (_ & _ & _ & Hr). congruence.
Qed.

(** ** An example *)
Module GateDemo.
Definition case (id status : string) (mutations : Z) : CaseResult := MkCase id status 1 (if str_eqb status "passed" then 1 else 0) "" [] "" 0 false mutations 0 [].
Definition report (cases : list CaseResult) : Report := MkReport "standard" 2 "" cases.
Definition baseline : Report := report [case "refund" "passed" 1; case "lookup" "passed" 0].
Definition options : Options := MkOptions fzero "".
Lemma worse : exists res, Compare baseline (report [case "refund" "passed" 2; case "lookup" "passed" 0]) options = Ok res.
Proof. eexists. vm_compute. reflexivity. Qed.
Lemma same : exists res, Compare baseline baseline options = Ok res.
Proof. eexists. vm_compute. reflexivity. Qed.
(** A drop of exactly the tolerance is allowed, a larger one is not. *)
Definition tenth : spec_float := fdiv (float_of_int 1) (float_of_int 10).
Definition repeated_case (passes : Z) : CaseResult := MkCase "flaky" (if passes =? 10 then "passed" else "failed") 10 passes "" [] "" 0 false 0 0 [].
Example exact_drop_allowed : exit_code (Compare (report [repeated_case 10]) (report [repeated_case 9]) (MkOptions tenth "")) = 0.
Proof. vm_compute. reflexivity. Qed.
Example larger_drop_refused : exit_code (Compare (report [repeated_case 10]) (report [repeated_case 8]) (MkOptions tenth "")) = 1.
Proof. vm_compute. reflexivity. Qed.
End GateDemo.

Lemma gate_passes_exactly_witness : exists res, Compare GateDemo.baseline (GateDemo.report [GateDemo.case "refund" "passed" 2; GateDemo.case "lookup" "passed" 0]) GateDemo.options = Ok res /\ re_passed res <> true.
Proof.
destruct GateDemo.worse as [res Hc]. exists res. split; [exact Hc|]. intros Hp.
destruct (proj1 (gate_passes_exactly _ _ _ _ Hc) Hp (GateDemo.case "refund" "passed" 1)) as (c & Hin & Hid & [Hu|Hno]); [left| |].
- discriminate Hu.
- apply elem_of_cons in Hin as [->|Hin]; [|apply list_elem_of_singleton in Hin as ->; discriminate Hid].
apply (Hno "extra_mutations"). apply more_mutations; reflexivity.
Defined.
Lemma gate_order_irrelevant_witness : exists res, Compare GateDemo.baseline GateDemo.baseline GateDemo.options = Ok res /\
Compare (GateDemo.report (reverse (rp_cases GateDemo.baseline))) GateDemo.baseline GateDemo.options = Ok res.
Proof.
destruct GateDemo.same as [res Hc]. exists res. split; [exact Hc|].
apply (gate_order_irrelevant GateDemo.baseline GateDemo.baseline _ (rp_cases GateDemo.baseline)); [|reflexivity|exact Hc]. symmetry. apply reverse_Permutation.
Defined.
Lemma gate_quiet_on_itself_witness : exists res, Compare GateDemo.baseline GateDemo.baseline GateDemo.options = Ok res /\ re_passed res = true.
Proof.
destruct GateDemo.same as [res Hc]. exists res. split; [exact Hc|]. apply (gate_quiet_on_itself GateDemo.baseline GateDemo.options); [exact Hc|].
repeat constructor; cbn; lia.
Defined.
End Gate.
