(* ===== verification/Checkpoint.v ===== *)
(** * Checkpoints (internal/checkpoint/checkpoint.go)

    A checkpoint is a committed boundary in the ledger of a paused or completed
    run, named by a digest of everything recorded up to it.  [List] scans the
    ledger once, checking that it is a well-formed history as it goes. *)

From S2P Require Export World JsonRaw JsonTyped Runner.
Open Scope Z_scope.
Open Scope tx_scope.

Module Checkpoint.

Definition FormatVersion : Z := 1.
Record Checkpoint := MkCheckpoint {
cp_id : string; cp_run_id : string; cp_event_seq : Z; cp_event_type : string; cp_format_version : Z; cp_manifest_digest : string;
cp_prefix_digest : string; cp_model_turns : Z; cp_tool_calls : Z }.
#[export] Instance checkpoint_eq_dec : EqDecision Checkpoint.
Proof. solve_decision. Defined.

(** ** Hashing a prefix *)

(** [canonicalJSON]: one JSON value, decoded with exact numbers and encoded again. *)
Definition canonicalJSON (raw : string) : option string := match unmarshal_number raw with Some v => marshal v | None => None end.

Definition newline : string := of_bytes [10].
(** [writeHashHeader]; the hash is the text written to it so far. *)
Definition writeHashHeader (runID manifestDigest : string) : string :=
"twinwright-checkpoint:" +:+ itoa FormatVersion +:+ ":" +:+ runID +:+ ":" +:+ manifestDigest +:+ newline.
(** [writeHashEvent]: what it writes. *)
Definition writeHashEvent (e : Event) : option string :=
match canonicalJSON (e_payload e) with
| Some canonical =>
(fun entry => entry +:+ newline) <$>
marshal (VSlice [VInt (e_seq e); VString (e_type e); VString (e_recorded_at e); VString (e_world_at e); VRaw canonical])
| None => None
end.

(** An event has its position's number and name. *)
Definition in_place (runID : string) (i : Z) (e : Event) : bool :=
str_eqb (e_run_id e) runID && (e_seq e =? i + 1) && str_eqb (e_id e) (runID +:+ "/" +:+ itoa (i + 1)).
Definition differs_at (i : Z) : err := ErrText ("ledger sequence or ID differs at position " +:+ itoa (i + 1)).

(** [PrefixDigest] *)
Fixpoint hash_prefix (runID : string) (i : Z) (h : string) (events : list Event) : res err string :=
match events with
| [] => Ok h
| e :: events' =>
try* _ := rassert (in_place runID i e) (differs_at i) in
try* entry := rsome (writeHashEvent e) json_error in
hash_prefix runID (i + 1) (h +:+ entry) events'
end.
Definition PrefixDigest (runID manifestDigest : string) (events : list Event) : res err string :=
try* h := hash_prefix runID 0 (writeHashHeader runID manifestDigest) events in
Ok (digest_hex h).

(** ** The scan *)

Record Scan := MkScan {
sc_hash : string; sc_points : list Checkpoint; sc_modelOpen : bool; sc_toolOpen : bool; sc_toolCallID : string; sc_toolOperation : string;
sc_modelTurns : Z; sc_toolCalls : Z }.

Definition at_event (text : string) (e : Event) : err := ErrText (text +:+ " at event " +:+ itoa (e_seq e)).
(** A text field of a decoded payload; [None] when it does not decode. *)
Definition payload_text (e : Event) (key : string) : option string :=
match unmarshal_number (e_payload e) with Some v => field v key decode_text "" | None => None end.
(** The call and operation of a tool event. *)
Definition call_named (e : Event) : option (string * string) :=
match payload_text e "call_id", payload_text e "operation_id" with Some c, Some o => Some (c, o) | _, _ => None end.

(** [execution.started] names the run it starts. *)
Definition started_matches (run : RunRow) (e : Event) : res err unit :=
try* started := rsome (match unmarshal_number (e_payload e) with Some v => decode_map decode_text v | None => None end) json_error in
let value key := default "" (alookup started key) in
rassert (str_eqb (value "scenario") (run_scenario run) && str_eqb (value "provider") (run_provider run) && str_eqb (value "model") (run_model run)
 && str_eqb (value "world_id") (run_world_id run)) (ErrText "execution start metadata differs from run").

Definition tool_only : list string :=
["state.mutation"; "retry"; "chaos.injected"; "chaos.actor_mutation"; "authorization.allowed"; "authorization.denied"].

Section Scan.
Context (run : RunRow) (runID manifestDigest : string) (last : Z).

Definition with_model (open : bool) (turns : Z) (st : Scan) : Scan :=
MkScan (sc_hash st) (sc_points st) open (sc_toolOpen st) (sc_toolCallID st) (sc_toolOperation st) turns (sc_toolCalls st).
Definition with_tool (open : bool) (call op : string) (calls : Z) (st : Scan) : Scan :=
MkScan (sc_hash st) (sc_points st) (sc_modelOpen st) open call op (sc_modelTurns st) calls.

(** The [switch] on the type of an event: the state after it, and whether it
is a boundary. *)
Definition scan_type (i : Z) (e : Event) (st : Scan) : res err (Scan * bool) :=
let typ := e_type e in
let busy := sc_modelOpen st || sc_toolOpen st in
if str_eqb typ "execution.started" then
try* _ := rassert (i =? 0) (ErrText ("unexpected start event at sequence " +:+ itoa (e_seq e))) in
try* _ := started_matches run e in
Ok (st, false)
else if str_eqb typ "model.request" then
try* _ := rassert (negb busy) (at_event "overlapping model request" e) in
Ok (with_model true (sc_modelTurns st) st, false)
else if str_eqb typ "model.response" then
try* _ := rassert (sc_modelOpen st && negb (sc_toolOpen st)) (at_event "model response without request" e) in
try* _ := rassert (bool_decide (payload_text e "role" = Some "assistant")) (at_event "invalid model response" e) in
Ok (with_model false (sc_modelTurns st + 1) st, true)
else if str_eqb typ "tool.request" then
try* _ := rassert (negb busy) (at_event "overlapping tool request" e) in
match call_named e with
| Some (c, o) =>
try* _ := rassert (negb (str_eqb c "" || str_eqb o "")) (at_event "invalid tool request" e) in
Ok (with_tool true c o (sc_toolCalls st) st, false)
| None => Err (at_event "invalid tool request" e)
end
else if str_eqb typ "provider.interrupted" then
try* _ := rassert (sc_modelOpen st) (at_event "provider interruption outside a model call" e) in
Ok (st, false)
else if contains tool_only typ then
try* _ := rassert (sc_toolOpen st) (at_event (typ +:+ " without tool request") e) in
Ok (st, false)
else if str_eqb typ "error" then
try* _ := rassert (sc_toolOpen st && bool_decide (payload_text e "kind" = Some "injected_503")) (at_event "unsupported error" e) in
Ok (st, false)
else if str_eqb typ "tool.response" then
try* _ := rassert (sc_toolOpen st) (at_event "tool response without request" e) in
try* _ := rassert (bool_decide (call_named e = Some (sc_toolCallID st, sc_toolOperation st))) (at_event "tool response does not match request" e) in
Ok (with_tool false (sc_toolCallID st) (sc_toolOperation st) (sc_toolCalls st + 1) st, true)
else if contains ["execution.paused"; "execution.completed"] typ then
try* _ := rassert (negb busy) (at_event "execution ended during action" e) in
try* _ := rassert (negb (str_eqb typ "execution.completed") || (i =? last)) (ErrText "completion event is not last") in
Ok (st, true)
else Err (ErrText ("unsupported event type " +:+ quote typ +:+ " at sequence " +:+ itoa (e_seq e))).

(** The checkpoint of a boundary: [prefix[:20]] of the hexadecimal digest. *)
Definition point_of (e : Event) (prefix : string) (turns calls : Z) : Checkpoint :=
MkCheckpoint ("CP-" +:+ String.substring 0 20 prefix) runID (e_seq e) (e_type e) FormatVersion manifestDigest prefix turns calls.
Definition add_point (e : Event) (st : Scan) : Scan :=
MkScan (sc_hash st) (sc_points st ++ [point_of e (digest_hex (sc_hash st)) (sc_modelTurns st) (sc_toolCalls st)])
(sc_modelOpen st) (sc_toolOpen st) (sc_toolCallID st) (sc_toolOperation st) (sc_modelTurns st) (sc_toolCalls st).
Definition add_hash (entry : string) (st : Scan) : Scan :=
MkScan (sc_hash st +:+ entry) (sc_points st) (sc_modelOpen st) (sc_toolOpen st) (sc_toolCallID st) (sc_toolOperation st) (sc_modelTurns st) (sc_toolCalls st).

(** One event of [List]'s loop. *)
Definition scan_event (i : Z) (e : Event) (st : Scan) : res err Scan :=
try* _ := rassert (negb ((i =? 0) && negb (str_eqb (e_type e) "execution.started"))) (ErrText "run ledger lacks start event") in
try* _ := rassert (in_place runID i e) (differs_at i) in
try* entry := rwrap (ErrWrap ("event " +:+ itoa (e_seq e) +:+ " payload: ")) (rsome (writeHashEvent e) json_error) in
try* '(st, boundary) := scan_type i e (add_hash entry st) in
Ok (if boundary then add_point e st else st).
Fixpoint scan_events (i : Z) (events : list Event) (st : Scan) : res err Scan :=
match events with
| [] => Ok st
| e :: events' => try* st := scan_event i e st in scan_events (i + 1) events' st
end.
End Scan.

Section List.
Context `{!SqlBind, !YamlNodes, !WorldYaml}.

(** [List], reading one state of the database. *)
Definition List (s : DB) (runID : string) (manifest : Manifest) : res err (list Checkpoint) :=
try* _ := rwrap (ErrWrap "manifest: ") (ValidateManifest manifest) in
try* run := rsome (runs s !! runID) ErrNoRows in
try* _ := rassert (contains ["paused"; "completed"] (run_status run))
  (ErrText ("run " +:+ runID +:+ " is " +:+ run_status run +:+ "; checkpoints require paused or completed run")) in
try* world := rsome (worlds s !! run_world_id run) ErrNoRows in
try* _ := rassert (str_eqb (wld_digest world) (mf_digest manifest)) (ErrText ("manifest mismatch for run " +:+ runID)) in
let events := Events runID s in
try* _ := rassert (negb (bool_decide (events = []))) (ErrText ("run " +:+ runID +:+ " has no events")) in
let start := MkScan (writeHashHeader runID (mf_digest manifest)) [] false false "" "" 0 0 in
try* st := scan_events run runID (mf_digest manifest) (Z.of_nat (length events) - 1) 0 events start in
try* _ := rassert (negb (sc_modelOpen st || sc_toolOpen st)) (ErrText "run ledger ends during an action") in
try* _ := rassert (sc_modelTurns st =? run_step run) (ErrText "run step differs from model response count") in
let ended := match last events with Some e => e_type e | None => "" end in
try* _ := rassert (negb (str_eqb (run_status run) "paused" && negb (str_eqb ended "execution.paused"))) (ErrText "paused run lacks terminal pause event") in
try* _ := rassert (negb (str_eqb (run_status run) "completed" && negb (str_eqb ended "execution.completed"))) (ErrText "completed run lacks terminal completion event") in
Ok (sc_points st).
End List.

(** [Select] *)
Definition Select (points : list Checkpoint) (eventSeq : Z) : res err Checkpoint :=
rsome (List.find (fun p => cp_event_seq p =? eventSeq) points)
(ErrText ("event " +:+ itoa eventSeq +:+ " is not a checkpoint; supported event sequences: " +:+ String.concat ", " (map (fun p => itoa (cp_event_seq p)) points))).

(** ** The reference: checkpoints by prefix *)

Definition boundary (typ : string) : bool := contains ["model.response"; "tool.response"; "execution.paused"; "execution.completed"] typ.
Definition count_type (typ : string) (events : list Event) : Z := Z.of_nat (length (List.filter (fun e => str_eqb (e_type e) typ) events)).
(** The checkpoint at a position, computed from its prefix alone. *)
Definition checkpoint_at (runID manifestDigest : string) (events : list Event) (k : nat) : option Checkpoint :=
match events !! k with
| Some e =>
if boundary (e_type e) then
let prefix := take (S k) events in
match PrefixDigest runID manifestDigest prefix with
| Ok digest => Some (point_of runID manifestDigest e digest (count_type "model.response" prefix) (count_type "tool.response" prefix))
| Err _ => None
end
else None
| None => None
end.

Lemma count_type_app typ l e : count_type typ (l ++ [e]) = count_type typ l + Z.b2z (str_eqb (e_type e) typ).
Proof. unfold count_type. rewrite List.filter_app, length_app. cbn. destruct (str_eqb (e_type e) typ); cbn; lia. Qed.

Lemma hash_prefix_app runID i h l l' :
hash_prefix runID i h (l ++ l') = rbind (hash_prefix runID i h l) (fun h' => hash_prefix runID (i + Z.of_nat (length l)) h' l').
Proof.
revert i h. induction l as [|e l IH]; intros i h; cbn [app hash_prefix length].
- cbn [rbind]. by rewrite Z.add_0_r.
- unfold rbind. destruct (rassert _ _); [|done]. destruct (rsome _ _); [|done]. rewrite IH. unfold rbind.
destruct (hash_prefix _ _ _ l); [|done]. f_equal. lia.
Qed.

Definition one_action (st : Scan) : Prop := sc_modelOpen st && sc_toolOpen st = false.
Ltac of_type E := apply str_eqb_true in E; rewrite E in *; clear E; rewrite ?rassert_bind in *.
Ltac decided := repeat match goal with |- context [str_eqb ?a ?b] => let v := eval vm_compute in (str_eqb a b) in change (str_eqb a b) with v end.
Ltac counted := cbn; repeat split; decided; cbn; try done; try lia.
(** What the switch does to the counters. *)
Lemma scan_type_ok run last i e st st' b : one_action st -> scan_type run last i e st = Ok (st', b) ->
let one typ := Z.b2z (str_eqb (e_type e) typ) in
one_action st' /\ (sc_hash st' = sc_hash st /\ sc_points st' = sc_points st /\ b = boundary (e_type e)) /\
(sc_modelTurns st' = sc_modelTurns st + one "model.response" /\ sc_toolCalls st' = sc_toolCalls st + one "tool.response") /\
(Z.b2z (sc_modelOpen st') = Z.b2z (sc_modelOpen st) + one "model.request" - one "model.response" /\
 Z.b2z (sc_toolOpen st') = Z.b2z (sc_toolOpen st) + one "tool.request" - one "tool.response") /\
(b = true -> sc_modelOpen st' = false /\ sc_toolOpen st' = false).
Proof.
unfold scan_type, one_action. intros Ho Hs. cbv zeta in *.
destruct (str_eqb (e_type e) "execution.started") eqn:E.
{ of_type E. destruct Hs as [_ Hs]. apply rbind_ok in Hs as (? & _ & [= <- <-]). counted. }
clear E. destruct (str_eqb (e_type e) "model.request") eqn:E.
{ of_type E. destruct Hs as [Hb [= <- <-]]. apply negb_true_iff, orb_false_iff in Hb as [Hm Ht]. rewrite Hm, Ht. counted; by rewrite ?Ht. }
clear E. destruct (str_eqb (e_type e) "model.response") eqn:E.
{ of_type E. destruct Hs as (Hb & _ & [= <- <-]). apply andb_true_iff in Hb as [Hm Ht%negb_true_iff]. rewrite Hm. counted. }
clear E. destruct (str_eqb (e_type e) "tool.request") eqn:E.
{ of_type E. destruct Hs as [Hb Hs]. apply negb_true_iff, orb_false_iff in Hb as [Hm Ht]. destruct (call_named e) as [[c o]|]; [|done].
rewrite rassert_bind in Hs. destruct Hs as [_ [= <- <-]]. rewrite Hm, Ht. counted; by rewrite ?Hm. }
clear E. destruct (str_eqb (e_type e) "provider.interrupted") eqn:E.
{ of_type E. destruct Hs as [_ [= <- <-]]. counted. }
clear E. destruct (contains tool_only (e_type e)) eqn:E.
{ rewrite rassert_bind in Hs. destruct Hs as [_ [= <- <-]]. apply contains_spec in E. unfold tool_only in E.
repeat (apply elem_of_cons in E as [->|E]; [counted|]). by apply elem_of_nil in E. }
clear E. destruct (str_eqb (e_type e) "error") eqn:E.
{ of_type E. destruct Hs as [_ [= <- <-]]. counted. }
clear E. destruct (str_eqb (e_type e) "tool.response") eqn:E.
{ of_type E. destruct Hs as (Ht & _ & [= <- <-]). rewrite Ht in *; rewrite andb_true_r in Ho. counted; by rewrite Ho. }
clear E. destruct (contains _ (e_type e)) eqn:E; [|done].
rewrite !rassert_bind in Hs. destruct Hs as (Hb & _ & [= <- <-]). apply negb_true_iff, orb_false_iff in Hb as [Hm Ht]. apply contains_spec in E.
rewrite Hm, Ht. repeat (apply elem_of_cons in E as [->|E]; [counted|]). by apply elem_of_nil in E.
Qed.

(** ** The scan computes the reference *)

Section Scanned.
Context (run : RunRow) (runID md : string) (last : Z).
Definition start_scan : Scan := MkScan (writeHashHeader runID md) [] false false "" "" 0 0.
Definition open_count (typ resp : string) (events : list Event) : Z := count_type typ events - count_type resp events.
(** What the scan knows after the events [done]. *)
Record scanned (done : list Event) (st : Scan) : Prop := {
scanned_hash : hash_prefix runID 0 (writeHashHeader runID md) done = Ok (sc_hash st);
scanned_points : sc_points st = omap (checkpoint_at runID md done) (seq 0 (length done));
scanned_turns : sc_modelTurns st = count_type "model.response" done;
scanned_calls : sc_toolCalls st = count_type "tool.response" done;
scanned_model : Z.b2z (sc_modelOpen st) = open_count "model.request" "model.response" done;
scanned_tool : Z.b2z (sc_toolOpen st) = open_count "tool.request" "tool.response" done;
scanned_one : one_action st;
scanned_whole : forall k e, done !! k = Some e -> boundary (e_type e) = true ->
is_Some (checkpoint_at runID md done k) /\ open_count "model.request" "model.response" (take (S k) done) = 0
/\ open_count "tool.request" "tool.response" (take (S k) done) = 0 }.

Lemma scanned_start : scanned [] start_scan.
Proof. by split. Qed.

Lemma checkpoint_at_app l e k : (k < length l)%nat -> checkpoint_at runID md (l ++ [e]) k = checkpoint_at runID md l k.
Proof. intros Hk. unfold checkpoint_at. rewrite lookup_app_l by done. rewrite take_app_le by lia. done. Qed.
Lemma checkpoint_last l e : checkpoint_at runID md (l ++ [e]) (length l) =
if boundary (e_type e) then
match PrefixDigest runID md (l ++ [e]) with
| Ok digest => Some (point_of runID md e digest (count_type "model.response" (l ++ [e])) (count_type "tool.response" (l ++ [e])))
| Err _ => None
end
else None.
Proof.
unfold checkpoint_at. rewrite list_lookup_middle by done. rewrite (take_ge (l ++ [e])); [done|]. rewrite length_app. cbn. lia.
Qed.
Lemma checkpoints_app l e : omap (checkpoint_at runID md (l ++ [e])) (seq 0 (length (l ++ [e]))) =
omap (checkpoint_at runID md l) (seq 0 (length l)) ++ option_list (checkpoint_at runID md (l ++ [e]) (length l)).
Proof.
rewrite length_app, Nat.add_1_r, seq_S, omap_app. f_equal.
apply list_omap_ext, Forall2_same_length_lookup_2; [done|]. intros i x y Hx Hy. rewrite Hx in Hy. injection Hy as <-.
apply lookup_seq in Hx as [-> Hi]. by apply checkpoint_at_app.
Qed.
End Scanned.

Section Scans.
Context (run : RunRow) (runID md : string) (last : Z).

Lemma scan_event_ok i e st st' : scan_event run runID md last i e st = Ok st' ->
in_place runID i e = true /\ exists entry st1 b, writeHashEvent e = Some entry /\
scan_type run last i e (add_hash entry st) = Ok (st1, b) /\ st' = if b then add_point runID md e st1 else st1.
Proof.
unfold scan_event. intros Hs. apply rassert_bind in Hs as [_ Hs]. apply rassert_bind in Hs as [Hp Hs]. split; [done|].
apply rbind_ok in Hs as (entry & He & Hs). apply rbind_ok in Hs as ([st1 b] & Ht & [= <-]).
destruct (writeHashEvent e) as [entry'|] eqn:Hw; [|done]. injection He as <-. exists entry', st1, b. done.
Qed.

Lemma scanned_step done st e st' : scanned runID md done st -> scan_event run runID md last (Z.of_nat (length done)) e st = Ok st' ->
scanned runID md (done ++ [e]) st'.
Proof.
intros [Hh Hp Ht Hc Hm Ho H1 Hw] Hs. apply scan_event_ok in Hs as (Hi & entry & st1 & b & Hwr & Hty & ->).
apply scan_type_ok in Hty as (Ho1 & (Hh1 & Hp1 & ->) & (Ht1 & Hc1) & (Hm1 & Hto1) & Hb); [|done].
cbn [add_hash sc_hash sc_points sc_modelTurns sc_toolCalls sc_modelOpen sc_toolOpen] in *.
assert (Hd : hash_prefix runID 0 (writeHashHeader runID md) (done ++ [e]) = Ok (sc_hash st1)).
{ rewrite hash_prefix_app, Hh. cbn [rbind hash_prefix]. rewrite Z.add_0_l, Hi. cbn. by rewrite Hwr, Hh1. }
assert (Hpd : PrefixDigest runID md (done ++ [e]) = Ok (digest_hex (sc_hash st1))) by (unfold PrefixDigest; by rewrite Hd).
set (st' := if boundary (e_type e) then _ else _).
assert (Hpts : sc_points st' = sc_points st1 ++ option_list (checkpoint_at runID md (done ++ [e]) (length done))).
{ subst st'. rewrite checkpoint_last, Hpd, !count_type_app, <- Ht, <- Hc, <- Ht1, <- Hc1. destruct (boundary _); cbn; [done|by rewrite app_nil_r]. }
assert (Heq : sc_hash st' = sc_hash st1 /\ sc_modelTurns st' = sc_modelTurns st1 /\ sc_toolCalls st' = sc_toolCalls st1
/\ sc_modelOpen st' = sc_modelOpen st1 /\ sc_toolOpen st' = sc_toolOpen st1) by (subst st'; by destruct (boundary _)).
destruct Heq as (E1 & E2 & E3 & E4 & E5). clearbody st'. unfold open_count in *.
split; rewrite ?E1, ?E2, ?E3, ?E4, ?E5; unfold open_count; rewrite ?count_type_app; try done; try lia.
- by rewrite Hpts, Hp1, Hp, checkpoints_app.
- unfold one_action in *. by rewrite E4, E5.
- intros k e' Hk Hbd. apply lookup_app_Some in Hk as [Hk|[Hle Hk]].
+ pose proof (lookup_lt_Some _ _ _ Hk). rewrite checkpoint_at_app by done. rewrite take_app_le by lia. eauto.
+ apply list_lookup_singleton_Some in Hk as [Hz <-]. assert (k = length done) as -> by lia.
rewrite take_ge by (rewrite length_app; cbn; lia). rewrite checkpoint_last, Hpd, Hbd, !count_type_app. destruct (Hb Hbd) as [Eb1 Eb2].
rewrite Eb1 in Hm1. rewrite Eb2 in Hto1. cbn in *. split; [eauto|]. lia.
Qed.

Lemma scanned_events done events st st' : scanned runID md done st ->
scan_events run runID md last (Z.of_nat (length done)) events st = Ok st' -> scanned runID md (done ++ events) st'.
Proof.
revert done st. induction events as [|e events IH]; intros done st Hd Hs; cbn [scan_events] in Hs.
- injection Hs as <-. by rewrite app_nil_r.
- apply rbind_ok in Hs as (st1 & He & Hs). rewrite (cons_middle e done events), app_assoc. apply (IH _ st1); [by eapply scanned_step|].
rewrite length_app, Nat2Z.inj_add. done.
Qed.
End Scans.

Lemma hash_prefix_places runID i h l h' k e : hash_prefix runID i h l = Ok h' -> l !! k = Some e -> in_place runID (i + Z.of_nat k) e = true.
Proof.
revert i h k. induction l as [|e' l IH]; intros i h k; cbn [hash_prefix]; [done|]. rewrite rassert_bind, rbind_ok. intros (Hp & en & _ & Hh) Hk.
destruct k as [|k]; cbn in Hk; [injection Hk as <-; by rewrite Z.add_0_r|]. replace (i + Z.of_nat (S k)) with (i + 1 + Z.of_nat k) by lia. eauto.
Qed.
Lemma in_place_seq runID i e : in_place runID i e = true -> e_seq e = i + 1.
Proof. unfold in_place. rewrite !andb_true_iff, Z.eqb_eq. tauto. Qed.

(** Searching what a numbered partial function produces. *)
Lemma find_numbered {A} (f : nat -> option A) (number : A -> Z) n a : (forall k x, f k = Some x -> number x = Z.of_nat k + 1) ->
forall k x, List.find (fun x => number x =? Z.of_nat k + 1) (omap f (seq a n)) = Some x <-> (a <= k < a + n)%nat /\ f k = Some x.
Proof.
intros Hf k x. revert a. induction n as [|n IH]; intros a; cbn; [split; [done|lia]|].
destruct (f a) as [y|] eqn:Hy; cbn.
- rewrite (Hf _ _ Hy). destruct (Z.eqb_spec (Z.of_nat a + 1) (Z.of_nat k + 1)) as [E|E].
+ assert (a = k) as -> by lia. rewrite Hy. split; [|by intros [_ ?]]. intros [= ->]. split; [lia|done].
+ rewrite IH. split; intros [? ?]; (split; [lia|done]).
- rewrite IH. split; intros [? Hx]; (split; [|done]); [lia|]. assert (a <> k) by congruence. lia.
Qed.

Section Listed.
Context `{!SqlBind, !YamlNodes, !WorldYaml}.

Lemma list_scanned s runID manifest points : List s runID manifest = Ok points ->
exists st, scanned runID (mf_digest manifest) (Events runID s) st /\ sc_points st = points /\ sc_modelOpen st = false /\ sc_toolOpen st = false
/\ exists run, runs s !! runID = Some run /\ count_type "model.response" (Events runID s) = run_step run.
Proof.
unfold List. intros Hl. apply rbind_ok in Hl as (_ & _ & Hl). apply rbind_ok in Hl as (run & Hrun & Hl). apply rassert_bind in Hl as [_ Hl].
apply rbind_ok in Hl as (world & _ & Hl). do 2 apply rassert_bind in Hl as [_ Hl]. cbv zeta in Hl.
apply rbind_ok in Hl as (st & Hs & Hl). apply rassert_bind in Hl as [Hopen Hl]. apply rassert_bind in Hl as [Hstep Hl].
do 2 apply rassert_bind in Hl as [_ Hl]. injection Hl as <-. apply negb_true_iff, orb_false_iff in Hopen as [Hm Ht]. apply Z.eqb_eq in Hstep.
apply (scanned_events _ _ _ _ []) in Hs as Hd; [|by apply scanned_start]. exists st. do 4 (split; [done|]). exists run.
split; [by apply rsome_ok in Hrun|]. rewrite <- Hstep. symmetry. exact (scanned_turns _ _ _ _ Hd).
Qed.

(** C29. The checkpoints [List] returns are exactly the boundary events of the
run, each with what its prefix alone determines: the digest [PrefixDigest]
computes of it and the numbers of model and tool responses in it.  Every
boundary has one, [Select] finds it by its event's sequence number and
nothing else, no action is open at it, and none at the end of the ledger,
where the model responses number the run's steps. *)
Theorem list_exact s runID manifest points (Hlist : List s runID manifest = Ok points) :
let events := Events runID s in
let at_ := checkpoint_at runID (mf_digest manifest) events in
points = omap at_ (seq 0 (length events))
/\ (forall k p, Select points (Z.of_nat k + 1) = Ok p <-> at_ k = Some p)
/\ (forall k e, events !! k = Some e -> boundary (e_type e) = true ->
exists p digest, at_ k = Some p /\ PrefixDigest runID (mf_digest manifest) (take (S k) events) = Ok digest
/\ cp_prefix_digest p = digest /\ cp_event_seq p = e_seq e
/\ count_type "model.request" (take (S k) events) = cp_model_turns p /\ count_type "tool.request" (take (S k) events) = cp_tool_calls p)
/\ (exists run, runs s !! runID = Some run /\ count_type "model.request" events = run_step run /\ count_type "model.response" events = run_step run)
/\ count_type "tool.request" events = count_type "tool.response" events.
Proof.
apply list_scanned in Hlist as (st & [Hh Hp _ _ Hm Ho _ Hw] & <- & Em & Et & run & Hrun & Hstep). cbv zeta. rewrite Em in Hm. rewrite Et in Ho.
unfold open_count in *. cbn [Z.b2z] in *. split; [done|]. split; [|split; [|split; [exists run|]; try (split; [done|]); lia]].
- intros k p. unfold Select. rewrite rsome_ok, Hp, find_numbered.
+ split; [by intros [_ ?]|]. intros Hk. split; [|done]. unfold checkpoint_at in Hk. destruct (Events runID s !! k) eqn:E; [|done].
apply lookup_lt_Some in E. lia.
+ intros j q Hq. unfold checkpoint_at in Hq. destruct (Events runID s !! j) as [e|] eqn:E; [|done]. destruct (boundary _); [|done].
destruct (PrefixDigest _ _ _); [|done]. injection Hq as <-. apply (hash_prefix_places _ _ _ _ _ _ _ Hh), in_place_seq in E. done.
- intros k e Hk Hb. destruct (Hw _ _ Hk Hb) as ([p Hp'] & Hm' & Ht'). exists p. pose proof Hp' as Hq. unfold checkpoint_at in Hq. rewrite Hk, Hb in Hq.
destruct (PrefixDigest _ _ _) as [d|]; [|done]. injection Hq as <-. exists d. cbn. do 4 (split; [done|]). lia.
Qed.
End Listed.

(** ** What a digest commits to *)

(** What is hashed of an event besides its payload. *)
Definition head_of (e : Event) : list goval := [VInt (e_seq e); VString (e_type e); VString (e_recorded_at e); VString (e_world_at e)].
(** Two events with the same hashed content: bytes that are not UTF-8 are read
as the replacement character, payloads as the JSON they hold. *)
Definition same_record (e e' : Event) : Prop :=
e_seq e = e_seq e' /\ sanitize_text (e_type e) = sanitize_text (e_type e') /\ sanitize_text (e_recorded_at e) = sanitize_text (e_recorded_at e')
/\ sanitize_text (e_world_at e) = sanitize_text (e_world_at e') /\ canonicalJSON (e_payload e) = canonicalJSON (e_payload e').

Lemma entry_text e entry : writeHashEvent e = Some entry -> exists v t,
unmarshal_number (e_payload e) = Some v /\ is_Some (marshal v) /\ marshal (VSlice (head_of e ++ [v])) = Some t /\ bytes_of entry = bytes_of t ++ [10].
Proof.
unfold writeHashEvent, canonicalJSON. destruct (unmarshal_number (e_payload e)) as [v|] eqn:Hv; [|done].
destruct (marshal v) as [c|] eqn:Hc; [|done]. intros (t & Ht & ->)%fmap_Some. exists v, t. split; [done|]. split; [by eexists|].
split; [|by rewrite bytes_of_app]. rewrite marshal_slice in Ht |- *. rewrite <- Ht. unfold head_of. cbn [app map].
by rewrite (marshal_raw v c Hc (parsed_clean _ (unmarshal_number_parsed _ _ Hv))), Hc.
Qed.
Lemma delim_newline rest : delim (10 :: rest).
Proof. by vm_compute. Qed.
(** An entry is read back from the front of what is hashed. *)
Lemma entry_reads e entry v t : unmarshal_number (e_payload e) = Some v -> marshal (VSlice (head_of e ++ [v])) = Some t ->
bytes_of entry = bytes_of t ++ [10] -> forall rest, exists fuel, parse_value fuel (bytes_of entry ++ rest) = Some (VSlice (map decoded (head_of e ++ [v])), 10 :: rest).
Proof.
intros Hv Ht He rest. exists (2 * length (bytes_of t))%nat. rewrite He, <- app_assoc. cbn [app].
apply (marshal_reads (VSlice (head_of e ++ [v]))); [done| |apply delim_newline|done]. apply clean_slice.
do 4 (constructor; [exact I|]). constructor; [|constructor]. eapply parsed_clean, unmarshal_number_parsed, Hv.
Qed.
Lemma itoa_inj a b : itoa a = itoa b -> a = b.
Proof. unfold itoa. apply pretty_Z_inj. Qed.
Lemma entry_unique e e' entry entry' rest rest' : writeHashEvent e = Some entry -> writeHashEvent e' = Some entry' ->
bytes_of entry ++ rest = bytes_of entry' ++ rest' -> same_record e e' /\ rest = rest'.
Proof.
intros (v & t & Hv & [c Hc] & Ht & He)%entry_text (v' & t' & Hv' & [c' Hc'] & Ht' & He')%entry_text Heq.
destruct (entry_reads _ _ _ _ Hv Ht He rest) as [f Hr]. destruct (entry_reads _ _ _ _ Hv' Ht' He' rest') as [f' Hr'].
rewrite Heq in Hr. pose proof (parse_value_fuel _ _ _ _ _ Hr Hr') as E. unfold head_of in E. cbn [app map decoded] in E. injection E as E1 E2 E3 E4 E5 E6.
split; [|done]. unfold same_record. split; [by apply itoa_inj|]. do 3 (split; [done|]). unfold canonicalJSON. rewrite Hv, Hv', Hc, Hc'.
rewrite <- (marshal_decoded v c), <- (marshal_decoded v' c'), E5; try done; by eapply unmarshal_number_parsed.
Qed.

(** The text hashed: what was there, then an entry per event. *)
Lemma hash_prefix_text runID i h l t : hash_prefix runID i h l = Ok t -> exists entries,
Forall2 (fun e entry => writeHashEvent e = Some entry) l entries /\ bytes_of t = bytes_of h ++ concat (map bytes_of entries).
Proof.
revert i h. induction l as [|e l IH]; intros i h; cbn [hash_prefix].
- intros [= <-]. exists []. split; [constructor|]. cbn. by rewrite app_nil_r.
- rewrite rassert_bind, rbind_ok. intros (_ & entry & He%rsome_ok & (entries & Hes & Ht)%IH). exists (entry :: entries). split; [by constructor|].
cbn. by rewrite Ht, bytes_of_app, <- app_assoc.
Qed.
Lemma entries_unique l l' es es' : Forall2 (fun e entry => writeHashEvent e = Some entry) l es -> Forall2 (fun e entry => writeHashEvent e = Some entry) l' es' ->
concat (map bytes_of es) = concat (map bytes_of es') -> Forall2 same_record l l'.
Proof.
assert (Hne : forall e entry rest, writeHashEvent e = Some entry -> bytes_of entry ++ rest <> []).
{ intros e entry rest (v & t & _ & _ & _ & He)%entry_text. rewrite He. by destruct (bytes_of t). }
intros H. revert l' es'. induction H as [|e entry l es He _ IH]; intros l' es' H' Heq.
- destruct H' as [|e' entry' l' es' He' _]; [constructor|]. exfalso. by eapply Hne; [exact He'|symmetry; exact Heq].
- destruct H' as [|e' entry' l' es' He' H']; [exfalso; by eapply Hne; [exact He|exact Heq]|]. cbn in Heq.
destruct (entry_unique _ _ _ _ _ _ He He' Heq) as [Hs Hr]. constructor; [done|by eapply IH].
Qed.

(** C28. A prefix digest commits to the recorded history: two ledgers of a run
with the same digest hold the same number of events, and the events at
each position have the same identity, type and times and the same payload
as JSON, unless the two texts hashed are distinct with the same SHA-256.
In particular neither key order nor white space of a payload matters and
no event can be moved, merged or split unnoticed. *)
Theorem digest_commits runID md l l' digest (H1 : PrefixDigest runID md l = Ok digest) (H2 : PrefixDigest runID md l' = Ok digest) :
Forall2 (fun e e' => e_id e = e_id e' /\ e_run_id e = e_run_id e' /\ same_record e e') l l'
\/ exists t t', hash_prefix runID 0 (writeHashHeader runID md) l = Ok t /\ hash_prefix runID 0 (writeHashHeader runID md) l' = Ok t'
 /\ t <> t' /\ digest_hex t = digest_hex t'.
Proof.
unfold PrefixDigest in *. apply rbind_ok in H1 as (t & Ht & [= Hd]), H2 as (t' & Ht' & [= Hd']).
destruct (decide (t = t')) as [<-|Hne]; [left|right; exists t, t'; by rewrite Hd, Hd'].
destruct (hash_prefix_text _ _ _ _ _ Ht) as (es & Hes & E). destruct (hash_prefix_text _ _ _ _ _ Ht') as (es' & Hes' & E').
rewrite E in E'. apply app_inv_head in E'. pose proof (entries_unique _ _ _ _ Hes Hes' E') as Hs. apply Forall2_same_length_lookup.
split; [by eapply Forall2_length|]. intros k e e' Hk Hk'. pose proof (Forall2_lookup_lr _ _ _ _ _ _ Hs Hk Hk') as He.
apply (hash_prefix_places _ _ _ _ _ _ _ Ht) in Hk. apply (hash_prefix_places _ _ _ _ _ _ _ Ht') in Hk'. unfold in_place in *. rewrite !andb_true_iff in *. destruct Hk as [[->%str_eqb_true _] ->%str_eqb_true], Hk' as [[->%str_eqb_true _] ->%str_eqb_true]. done.
Qed.

(** ** An example *)
Module CheckpointDemo.
#[export] Instance nodes : YamlNodes := fun _ => Err json_error.
#[export] Instance yaml : WorldYaml := {
decode_definition _ := (Err json_error, RestEOF); marshal_definition _ := Err json_error; decode_node _ := (Err json_error, RestEOF);
decode_bindings _ := (Ok [], RestEOF) }.
Definition manifest : Manifest :=
match compile_spec (MkApiSpec "3.1.0" [("/charges/{id}", [("get", MkApiOperation "getCharge" [MkParameter "id" "path" true "string"] None)])])
[("getCharge", "billing.getCharge")] with
| Ok m => m
| Err _ => MkManifest "" [] None
end.
Definition at_ : string := "2026-01-01T00:00:00Z".
Definition started : string := default "" (marshal (VMap [("scenario", VString "lookup"); ("provider", VString "scripted"); ("model", VString "m-1"); ("world_id", VString "W-1")])).
Definition row (n : Z) (typ payload : string) : EventRow := MkEvent ("R-1/" +:+ itoa n) at_ at_ typ payload.
Definition assistant : string := default "" (marshal (VMap [("role", VString "assistant"); ("content", VString "done")])).
(** The same object with spaces and its keys in another order. *)
Definition respaced : string := "{ " +:+ quote "content" +:+ ":" +:+ quote "done" +:+ ", " +:+ quote "role" +:+ " : " +:+ quote "assistant" +:+ "}".
Definition db_of (response : string) : DB :=
set_worlds (insert "W-1" (MkWorld 7 (mf_digest manifest) at_))
(set_runs (insert "R-1" (MkRun "W-1" "lookup" "scripted" "m-1" "look it up" "completed" 1 "[]" "" 0 ""))
(set_events (fun _ => list_to_map [(("R-1", 1), row 1 "execution.started" started); (("R-1", 2), row 2 "model.request" "{}");
(("R-1", 3), row 3 "model.response" response); (("R-1", 4), row 4 "execution.completed" "{}")]) (empty_db 0))).
Definition db : DB := db_of assistant.
Lemma lists : match List db "R-1" manifest with Ok [a; b] => cp_event_seq a = 3 /\ cp_event_seq b = 4 | _ => False end.
Proof. vm_compute. split; reflexivity. Qed.
Definition digest_of (s : DB) : string := match PrefixDigest "R-1" (mf_digest manifest) (Events "R-1" s) with Ok d => d | Err _ => "" end.
Lemma same_digest : PrefixDigest "R-1" (mf_digest manifest) (Events "R-1" (db_of respaced)) = Ok (digest_of db)
/\ PrefixDigest "R-1" (mf_digest manifest) (Events "R-1" db) = Ok (digest_of db).
Proof. vm_compute. split; reflexivity. Qed.
(** A ledger that ends inside a model call has no checkpoints to offer. *)
Example unfinished : is_ok (List (set_events (base.delete ("R-1", 3)) db) "R-1" manifest) = false.
Proof. vm_compute. reflexivity. Qed.
End CheckpointDemo.
Import CheckpointDemo.

Lemma list_exact_witness : exists points, List CheckpointDemo.db "R-1" CheckpointDemo.manifest = Ok points /\
points = omap (checkpoint_at "R-1" (mf_digest CheckpointDemo.manifest) (Events "R-1" CheckpointDemo.db)) (seq 0 (length (Events "R-1" CheckpointDemo.db))).
Proof.
pose proof CheckpointDemo.lists as Hl. destruct (List CheckpointDemo.db "R-1" CheckpointDemo.manifest) as [points|] eqn:E; [|destruct Hl]. clear Hl.
exists points. split; [reflexivity|]. exact (proj1 (list_exact _ _ _ _ E)).
Defined.
Lemma digest_commits_witness :
let l := Events "R-1" (CheckpointDemo.db_of CheckpointDemo.respaced) in let l' := Events "R-1" CheckpointDemo.db in
Forall2 (fun e e' => e_id e = e_id e' /\ e_run_id e = e_run_id e' /\ same_record e e') l l'
\/ exists t t', t <> t' /\ digest_hex t = digest_hex t'.
Proof.
cbv zeta. destruct (digest_commits "R-1" (mf_digest CheckpointDemo.manifest) _ _ _ (proj1 CheckpointDemo.same_digest) (proj2 CheckpointDemo.same_digest)) as [H|(t & t' & _ & _ & Hne & Hd)].
- left. exact H.
- right. exists t, t'. split; [exact Hne|exact Hd].
Defined.
End Checkpoint.
