(* ===== verification/Rand.v ===== *)
(** * Seeded random numbers (math/rand/v2)

    What [Store.SeedScenario] uses of the standard library's generator: a PCG
    with 128 bits of state and [IntN] by rejection.  The rejection loop stops:
    the generator visits every state. *)

From S2P Require Export Prelude.
Open Scope Z_scope.

Module Rand.

Definition two32 : Z := 2 ^ 32.
Definition two64 : Z := 2 ^ 64.
Definition two128 : Z := 2 ^ 128.

(** [PCG]: the state, high word first. *)
Definition mul : Z := 2549297995355413924 * two64 + 4865540595714422341.
Definition inc : Z := 6364136223846793005 * two64 + 1442695040888963407.
Definition NewPCG (seed1 seed2 : Z) : Z := (seed1 mod two64) * two64 + seed2 mod two64.
Definition next (s : Z) : Z := (s * mul + inc) mod two128.
(** The output permutation of [PCG.Uint64]. *)
Definition output (s : Z) : Z :=
let hi := s / two64 in let lo := s mod two64 in
let hi := Z.lxor hi (Z.shiftr hi 32) in
let hi := (hi * 15750249268501108917) mod two64 in
let hi := Z.lxor hi (Z.shiftr hi 48) in
(hi * Z.lor lo 1) mod two64.
(** [Rand.Uint32] of the state after a step. *)
Definition word (s : Z) : Z := Z.shiftr (output s) 32.

(** [Rand.uint32n]: the high word of a product, drawn again while the low word
is below the threshold that would bias it.  [s] has been stepped. *)
Fixpoint reject (fuel : nat) (n thresh s : Z) : option (Z * Z) :=
let prod := word s * n in
if prod mod two32 <? thresh then match fuel with O => None | S fuel => reject fuel n thresh (next s) end
else Some (Z.shiftr prod 32, s).
Definition uint32n (fuel : nat) (n s : Z) : option (Z * Z) :=
if Z.land n (n - 1) =? 0 then Some (Z.land (output (next s) mod two32) (n - 1), next s)
else if word (next s) * n mod two32 <? n then reject fuel n ((two32 - n) mod n) (next s)
else Some (Z.shiftr (word (next s) * n) 32, next s).
(** [Rand.IntN], for a bound of 32 bits. *)
Definition IntN (fuel : nat) (n s : Z) : option (Z * Z) := uint32n fuel n s.

(** ** Bounds *)

Lemma output_bounds s : 0 <= output s < two64.
Proof. unfold output. apply Z.mod_pos_bound. done. Qed.
Lemma word_bounds s : 0 <= word s < two32.
Proof.
unfold word. rewrite Z.shiftr_div_pow2 by lia. pose proof (output_bounds s) as H. unfold two64, two32 in *.
split; [apply Z.div_pos; lia|apply Z.div_lt_upper_bound; lia].
Qed.
Lemma scaled_bounds n s : 0 < n -> 0 <= Z.shiftr (word s * n) 32 < n.
Proof.
intros Hn. rewrite Z.shiftr_div_pow2 by lia. pose proof (word_bounds s) as H. unfold two32 in H.
split; [apply Z.div_pos; nia|apply Z.div_lt_upper_bound; nia].
Qed.
Lemma reject_bounds fuel n thresh s v s' : 0 < n -> reject fuel n thresh s = Some (v, s') -> 0 <= v < n.
Proof.
intros Hn. revert s. induction fuel as [|fuel IH]; intros s; cbn [reject]; destruct (_ <? _); try done; [..|by apply IH|]; intros [= <- _];
by apply scaled_bounds.
Qed.
Lemma IntN_bounds fuel n s v s' : 0 < n -> Z.land n (n - 1) <> 0 -> IntN fuel n s = Some (v, s') -> 0 <= v < n.
Proof.
intros Hn Hp. unfold IntN, uint32n. apply Z.eqb_neq in Hp as ->. destruct (_ <? _); [by apply reject_bounds|]. intros [= <- _]. by apply scaled_bounds.
Qed.
Lemma reject_more fuel fuel' n thresh s x : (fuel <= fuel')%nat -> reject fuel n thresh s = Some x -> reject fuel' n thresh s = Some x.
Proof.
revert fuel' s. induction fuel as [|fuel IH]; intros fuel' s Hle; destruct fuel' as [|fuel']; cbn [reject]; try done; try lia; destruct (_ <? _); try done.
apply IH. lia.
Qed.
Lemma IntN_more fuel fuel' n s x : (fuel <= fuel')%nat -> IntN fuel n s = Some x -> IntN fuel' n s = Some x.
Proof. intros Hle. unfold IntN, uint32n. destruct (_ =? 0); [done|]. destruct (_ <? _); [by apply reject_more|done]. Qed.

(** ** Every state is visited *)

(** [2 ^ k] steps, as one affine map. *)
Fixpoint leap (k : nat) : Z * Z := match k with O => (mul, inc) | S k => let '(a, c) := leap k in (a * a, c * a + c) end.
Definition steps (n : nat) (s : Z) : Z := Nat.iter n next s.
Lemma steps_add m n s : steps (m + n) s = steps m (steps n s).
Proof. unfold steps. apply Nat.iter_add. Qed.

Lemma leap_steps k : exists n, forall s, steps n s mod two128 = ((leap k).1 * s + (leap k).2) mod two128.
Proof.
induction k as [|k [n IH]].
- exists 1%nat. intros s. change (steps 1 s) with (next s). cbn [leap fst snd]. unfold next. rewrite Z.mod_mod by done. f_equal. lia.
- exists (n + n)%nat. intros s. rewrite steps_add, IH. cbn [leap]. destruct (leap k) as [a c]. cbn [fst snd] in *.
rewrite Z.add_mod, Z.mul_mod, IH, <- Z.mul_mod, <- Z.add_mod by done. f_equal. ring.
Qed.
(** The multiplier is 1 modulo 4 and the increment is odd, and stays so. *)
Lemma leap_shape k : exists p q, (leap k).1 = 1 + 2 ^ (Z.of_nat k + 2) * p /\ (leap k).2 = 2 ^ Z.of_nat k * (2 * q + 1).
Proof.
induction k as [|k (p & q & Ha & Hc)].
- exists (mul / 4), (inc / 2). split; vm_compute; reflexivity.
- cbn [leap]. destruct (leap k) as [a c]. cbn [fst snd] in *. subst a c. set (t := 2 ^ Z.of_nat k).
assert (E1 : 2 ^ (Z.of_nat k + 2) = 4 * t) by (rewrite Z.pow_add_r by lia; subst t; lia).
assert (E2 : 2 ^ (Z.of_nat (S k) + 2) = 8 * t) by (replace (Z.of_nat (S k) + 2) with (Z.of_nat k + 3) by lia; rewrite Z.pow_add_r by lia; subst t; lia).
assert (E3 : 2 ^ Z.of_nat (S k) = 2 * t) by (rewrite Nat2Z.inj_succ, Z.pow_succ_r by lia; done).
exists (p + 2 * t * (p * p)), (q + t * p * (2 * q + 1)). rewrite E1, E2, E3. split; ring.
Qed.
Lemma mod_narrow s k : (k <= 128)%nat -> (s mod two128) mod 2 ^ Z.of_nat k = s mod 2 ^ Z.of_nat k.
Proof.
intros Hk. unfold two128. replace 128 with (Z.of_nat k + Z.of_nat (128 - k)) by lia. rewrite Z.pow_add_r by lia.
apply mod_mod_divide; lia.
Qed.

(** From any state the low [k] bits take every value. *)
Lemma visits k s y : (k <= 128)%nat -> exists n, steps n s mod 2 ^ Z.of_nat k = y mod 2 ^ Z.of_nat k.
Proof.
induction k as [|k IH]; intros Hk; [exists 0%nat; by rewrite !Z.mod_1_r|]. destruct IH as [n Hn]; [lia|].
set (t := 2 ^ Z.of_nat k) in *. assert (Ht : 2 ^ Z.of_nat (S k) = 2 * t) by (rewrite Nat2Z.inj_succ, Z.pow_succ_r by lia; done).
assert (0 < t) by (subst t; lia). rewrite Ht.
destruct (Z.eq_dec (steps n s mod (2 * t)) (y mod (2 * t))) as [He|He]; [by exists n|].
destruct (leap_steps k) as [m Hm]. exists (m + n)%nat. rewrite steps_add. set (x := steps n s) in *.
specialize (Hm x). apply (f_equal (fun z => z mod 2 ^ Z.of_nat (S k))) in Hm. rewrite !mod_narrow, Ht in Hm by lia. rewrite Hm.
destruct (leap_shape k) as (p & q & -> & ->). fold t.
assert (E : 2 ^ (Z.of_nat k + 2) = 4 * t) by (rewrite Z.pow_add_r by lia; subst t; lia). rewrite E.
replace ((1 + 4 * t * p) * x + t * (2 * q + 1)) with (x + t + (2 * p * x + q) * (2 * t)) by ring. rewrite Z.mod_add by lia.
pose proof (Z.div_mod x t ltac:(lia)) as Dx. pose proof (Z.div_mod y t ltac:(lia)) as Dy.
assert (Hpar : (x / t) mod 2 <> (y / t) mod 2).
{ intros Hp. apply He. rewrite (Z.mul_comm 2 t), !Z.rem_mul_r by lia. by rewrite Hn, Hp. }
rewrite (Z.mul_comm 2 t), !Z.rem_mul_r by lia. assert (Hm1 : (x + t) mod t = y mod t) by (rewrite <- Hn; replace (x + t) with (x + 1 * t) by lia; apply Z.mod_add; lia).
assert (Hd1 : (x + t) / t = x / t + 1) by (replace (x + t) with (x + 1 * t) by lia; apply Z.div_add; lia). rewrite Hm1, Hd1. do 2 f_equal.
rewrite Z.add_mod by lia. pose proof (Z.mod_pos_bound (x / t) 2 ltac:(lia)). pose proof (Z.mod_pos_bound (y / t) 2 ltac:(lia)).
assert ((x / t) mod 2 = 0 /\ (y / t) mod 2 = 1 \/ (x / t) mod 2 = 1 /\ (y / t) mod 2 = 0) as [[-> ->]|[-> ->]] by lia; reflexivity.
Qed.
Lemma steps_range n s : (0 < n)%nat -> 0 <= steps n s < two128.
Proof. destruct n as [|n]; [lia|]. intros _. cbn. unfold next. by apply Z.mod_pos_bound. Qed.
Lemma reaches s y : 0 <= s < two128 -> 0 <= y < two128 -> exists n, steps n s = y.
Proof.
intros Hs Hy. destruct (visits 128 s y) as [n Hn]; [lia|]. exists n. change (2 ^ Z.of_nat 128) with two128 in Hn.
rewrite (Z.mod_small y) in Hn by done. rewrite Z.mod_small in Hn; [done|]. destruct n as [|n]; [done|]. apply steps_range. lia.
Qed.
Lemma reject_stops n thresh k s : word (steps k s) * n mod two32 <? thresh = false -> exists x, reject k n thresh s = Some x.
Proof.
revert s. induction k as [|k IH]; intros s Hk; cbn [reject]; cbv zeta.
- change (steps 0 s) with s in Hk. rewrite Hk. by eexists.
- destruct (word s * n mod two32 <? thresh); [|by eexists]. apply IH. assert (steps k (next s) = steps (S k) s) as ->; [|done]. unfold steps. by rewrite Nat.iter_succ_r.
Qed.
(** Drawing below 7500, the bound the program draws below, comes to an end. *)
Lemma IntN_7500 s : exists fuel v s', forall fuel', (fuel <= fuel')%nat -> IntN fuel' 7500 s = Some (v, s') /\ 0 <= v < 7500.
Proof.
destruct (reaches (next s) two64) as [k Hk]; [unfold next; by apply Z.mod_pos_bound|by vm_compute|].
assert (exists x, IntN k 7500 s = Some x) as [[v s'] Hx].
{ unfold IntN, uint32n. change (Z.land 7500 (7500 - 1) =? 0) with false. cbn iota. destruct (_ <? 7500); [|by eexists]. apply reject_stops. rewrite Hk. by vm_compute. }
exists k, v, s'. intros fuel' Hle. pose proof (IntN_more _ _ _ _ _ Hle Hx) as Hx'. split; [done|]. by eapply IntN_bounds, Hx'.
Qed.
End Rand.
