(* ===== verification/Regexp.v ===== *)
(** * Regular expressions (regexp)

    The part of RE2 the program's patterns use: bytes, alternatives, [.*],
    word boundaries and case folding of ASCII letters.  [MatchString] searches
    the whole text; it is executable and finds exactly the texts the relation
    [matches] describes. *)

From S2P Require Export GoText.
Open Scope Z_scope.

Module Regexp.

(** A pattern; a position in the text is what precedes it, last byte first,
and what follows it. *)
Inductive regexp : Type :=
| Byte (b : Z)
| Fold (b : Z)                  (** an ASCII letter in either case *)
| Seq (p q : regexp)
| Alt (p q : regexp)
| Empty
| Dots                          (** [.*] *)
| Word.                         (** [\b] *)

Definition position : Type := list Z * list Z.
Definition word_byte (b : Z) : bool := ((48 <=? b) && (b <=? 57)) || ((65 <=? b) && (b <=? 90)) || (b =? 95) || ((97 <=? b) && (b <=? 122)).
Definition word_at (l : list Z) : bool := match l with b :: _ => word_byte b | [] => false end.
Definition boundary (pos : position) : bool := negb (Bool.eqb (word_at pos.1) (word_at pos.2)).

(** [.*]: every position up to the end of the line. *)
Fixpoint dots (before after : list Z) : list position :=
(before, after) :: match after with
         | b :: rest => if b =? 10 then [] else dots (b :: before) rest
         | [] => []
         end.
Definition byte_if (test : Z -> bool) (pos : position) : list position :=
match pos.2 with b :: rest => if test b then [(b :: pos.1, rest)] else [] | [] => [] end.
(** Where a match starting at a position can end. *)
Fixpoint ends (p : regexp) (pos : position) : list position :=
match p with
| Byte b => byte_if (Z.eqb b) pos
| Fold b => byte_if (fun c => lower_byte b =? lower_byte c) pos
| Seq p q => flat_map (ends q) (ends p pos)
| Alt p q => ends p pos ++ ends q pos
| Empty => [pos]
| Dots => dots pos.1 pos.2
| Word => if boundary pos then [pos] else []
end.
Fixpoint starts (before after : list Z) : list position :=
(before, after) :: match after with b :: rest => starts (b :: before) rest | [] => [] end.
(** [Regexp.MatchString] *)
Definition MatchString (p : regexp) (s : string) : bool :=
existsb (fun pos => negb (bool_decide (ends p pos = []))) (starts [] (bytes_of s)).

(** A text, all of whose bytes must follow. *)
Definition text (s : string) : regexp := foldr (fun b p => Seq (Byte b) p) Empty (bytes_of s).
(** [\b...\b] *)
Definition word (p : regexp) : regexp := Seq Word (Seq p Word).
Fixpoint any_of (ps : list regexp) : regexp := match ps with [] => Empty | [p] => p | p :: ps' => Alt p (any_of ps') end.

(** ** What it means *)

Inductive matches : regexp -> position -> position -> Prop :=
| m_byte b before after : matches (Byte b) (before, b :: after) (b :: before, after)
| m_fold b c before after : lower_byte b = lower_byte c -> matches (Fold b) (before, c :: after) (c :: before, after)
| m_seq p q x y z : matches p x y -> matches q y z -> matches (Seq p q) x z
| m_left p q x y : matches p x y -> matches (Alt p q) x y
| m_right p q x y : matches q x y -> matches (Alt p q) x y
| m_empty x : matches Empty x x
| m_stop x : matches Dots x x
| m_any b before after y : b <> 10 -> matches Dots (b :: before, after) y -> matches Dots (before, b :: after) y
| m_word x : boundary x = true -> matches Word x x.

Lemma dots_spec before after y : y ∈ dots before after <-> matches Dots (before, after) y.
Proof.
split.
- revert before. induction after as [|b after IH]; intros before; cbn [dots].
+ intros ->%list_elem_of_singleton. constructor.
+ intros [->|Hy]%elem_of_cons; [constructor|]. destruct (b =? 10) eqn:Hb; [by apply not_elem_of_nil in Hy|]. apply Z.eqb_neq in Hb. constructor; [done|by apply IH].
- intros Hm. remember Dots as p eqn:Hp. remember (before, after) as x eqn:Hx. revert before after Hx. induction Hm; intros before0 after0 Hx; try discriminate Hp.
+ subst. destruct after0; left.
+ injection Hx as <- <-. cbn [dots]. right. apply Z.eqb_neq in H as ->. by apply IHHm.
Qed.
Lemma byte_if_spec test before after y : y ∈ byte_if test (before, after) <-> exists b rest, after = b :: rest /\ test b = true /\ y = (b :: before, rest).
Proof.
unfold byte_if. cbn [fst snd]. destruct after as [|b rest].
- split; [intros Hy; by apply not_elem_of_nil in Hy|]. by intros (? & ? & ? & _).
- destruct (test b) eqn:Ht.
+ rewrite list_elem_of_singleton. split; [intros ->; by exists b, rest|]. by intros (? & ? & [= <- <-] & _ & ->).
+ split; [intros Hy; by apply not_elem_of_nil in Hy|]. intros (? & ? & [= <- <-] & Ht' & _). congruence.
Qed.
Lemma ends_spec p x y : y ∈ ends p x <-> matches p x y.
Proof.
revert x y. induction p as [b|b|p IHp q IHq|p IHp q IHq| | |]; intros [before after] y; cbn [ends fst snd].
- rewrite byte_if_spec. split.
+ intros (c & rest & -> & <-%Z.eqb_eq & ->). constructor.
+ inversion 1; subst. eexists _, _. split_and!; [done|apply Z.eqb_refl|done].
- rewrite byte_if_spec. split.
+ intros (c & rest & -> & Hc%Z.eqb_eq & ->). by constructor.
+ inversion 1; subst. eexists _, _. split_and!; [done|by apply Z.eqb_eq|done].
- rewrite list_elem_of_In, in_flat_map. split.
+ intros (z & Hz%list_elem_of_In & Hy%list_elem_of_In). apply IHp in Hz. apply IHq in Hy. by econstructor.
+ inversion 1 as [| |? ? ? z ? Hp Hq| | | | | |]; subst. exists z. split; apply list_elem_of_In; [by apply IHp|by apply IHq].
- rewrite elem_of_app, IHp, IHq. split; [intros [?|?]; by constructor|]. inversion 1; subst; auto.
- rewrite list_elem_of_singleton. split; [intros ->; constructor|by inversion 1].
- apply dots_spec.
- destruct (boundary (before, after)) eqn:Hb.
+ rewrite list_elem_of_singleton. split; [intros ->; by constructor|by inversion 1].
+ split; [intros Hy; by apply not_elem_of_nil in Hy|]. inversion 1; congruence.
Qed.

Lemma starts_spec before after x : x ∈ starts before after <-> exists l r, after = l ++ r /\ x = (reverse l ++ before, r).
Proof.
revert before. induction after as [|b after IH]; intros before; cbn [starts].
- rewrite list_elem_of_singleton. split; [intros ->; by exists [], []|]. intros (l & r & Hlr & ->). symmetry in Hlr. by apply app_nil in Hlr as [-> ->].
- rewrite elem_of_cons, IH. split.
+ intros [->|(l & r & -> & ->)]; [by exists [], (b :: after)|]. exists (b :: l), r. split; [done|]. by rewrite reverse_cons, <- app_assoc.
+ intros (l & r & Hlr & ->). destruct l as [|c l]; [left; cbn in Hlr; by subst|]. injection Hlr as <- ->. right. exists l, r. split; [done|].
by rewrite reverse_cons, <- app_assoc.
Qed.
(** A pattern is found exactly when it matches somewhere in the text. *)
Lemma MatchString_spec p s :
MatchString p s = true <-> exists l r y, bytes_of s = l ++ r /\ matches p (reverse l, r) y.
Proof.
unfold MatchString. rewrite existsb_exists. split.
- intros (x & Hx%list_elem_of_In & Hn%negb_true_iff%bool_decide_eq_false). apply starts_spec in Hx as (l & r & Hs & ->). rewrite app_nil_r in Hn.
destruct (ends p (reverse l, r)) as [|y ys] eqn:He; [done|]. exists l, r, y. split; [done|]. apply ends_spec. rewrite He. left.
- intros (l & r & y & Hs & Hm%ends_spec). exists (reverse l, r). split.
+ apply list_elem_of_In, starts_spec. exists l, r. by rewrite app_nil_r.
+ apply negb_true_iff, bool_decide_eq_false. intros He. rewrite He in Hm. by apply not_elem_of_nil in Hm.
Qed.

Example word_boundaries :
MatchString (word (text "refund")) "a refund, issued" = true /\ MatchString (word (text "refund")) "refunded" = false /\
MatchString (Seq Word (Seq (Alt (Fold 65) (Fold 67)) (Seq (text "-104") Word))) "see c-104." = true.
Proof. vm_compute. done. Qed.
End Regexp.
