(* ===== verification/Tables.v ===== *)
(** * The service tables by name

    Assertions, forks and replays name the tables of a world and their columns
    as text.  This file has the fifteen tables with their columns
    (internal/fork/fork.go: worldTables; internal/assertion/schema.go) and the
    rows of a world as a query with named columns returns them. *)

From S2P Require Export Db.
Open Scope Z_scope.

Definition row : Type := list (string * goval).

(** [worldTables] *)
Definition worldTables : list (string * list string) :=
  [("customers", ["id"; "name"]);
   ("invoices", ["id"; "customer_id"; "amount_cents"; "subscription_id"]);
   ("charges", ["id"; "invoice_id"; "amount_cents"; "refunded_cents"; "created_at"]);
   ("refunds", ["id"; "charge_id"; "amount_cents"; "reason"; "created_at"]);
   ("subscriptions", ["id"; "customer_id"; "status"; "plan"]);
   ("crm_accounts", ["id"; "customer_id"; "status"; "representative_id"]);
   ("crm_contacts", ["id"; "account_id"; "name"; "email"]);
   ("crm_notes", ["id"; "account_id"; "body"; "created_at"]);
   ("ticket_projects", ["id"; "key"; "name"]);
   ("ticket_issues", ["id"; "project_id"; "account_id"; "title"; "status"; "priority"]);
   ("ticket_comments", ["id"; "issue_id"; "body"; "created_at"]);
   ("message_workspaces", ["id"; "name"]);
   ("message_channels", ["id"; "workspace_id"; "name"]);
   ("message_members", ["channel_id"; "principal_id"]);
   ("message_messages", ["id"; "channel_id"; "body"; "created_at"])].

Definition all_rows {V} (m : gmap (string * string) V) (w : string) : list (string * V) := world_rows m w (fun _ _ => true).
Definition member_rows (m : gset (string * string * string)) (w : string) : list (string * string) :=
  omap (fun k : string * string * string => if str_eqb k.1.1 w then Some (k.1.2, k.2) else None) (elements m).

(** A row of each table: a TEXT column is a string, an INTEGER column an int. *)
Section Rows.
Context (s : DB) (w : string).
Definition id_column (id : string) : string * goval := ("id", VString id).
Definition texts (l : list (string * string)) : row := map (fun kv => (kv.1, VString kv.2)) l.
Definition customer_row (r : string * string) : row := [id_column r.1; ("name", VString r.2)].
Definition invoice_row (r : string * InvoiceRow) : row :=
[id_column r.1; ("customer_id", VString (inv_customer_id r.2)); ("amount_cents", VInt (inv_amount_cents r.2)); ("subscription_id", VString (inv_subscription_id r.2))].
Definition charge_row (r : string * ChargeRow) : row :=
[id_column r.1; ("invoice_id", VString (chg_invoice_id r.2)); ("amount_cents", VInt (chg_amount_cents r.2)); ("refunded_cents", VInt (chg_refunded_cents r.2));
 ("created_at", VString (chg_created_at r.2))].
Definition refund_row (r : string * RefundRow) : row :=
[id_column r.1; ("charge_id", VString (rfd_charge_id r.2)); ("amount_cents", VInt (rfd_amount_cents r.2)); ("reason", VString (rfd_reason r.2));
 ("created_at", VString (rfd_created_at r.2))].
Definition subscription_row (r : string * SubscriptionRow) : row :=
id_column r.1 :: texts [("customer_id", sub_customer_id r.2); ("status", sub_status r.2); ("plan", sub_plan r.2)].
Definition account_row (r : string * AccountRow) : row :=
id_column r.1 :: texts [("customer_id", acc_customer_id r.2); ("status", acc_status r.2); ("representative_id", acc_representative_id r.2)].
Definition contact_row (r : string * ContactRow) : row :=
id_column r.1 :: texts [("account_id", con_account_id r.2); ("name", con_name r.2); ("email", con_email r.2)].
Definition note_row (r : string * NoteRow) : row :=
id_column r.1 :: texts [("account_id", nte_account_id r.2); ("body", nte_body r.2); ("created_at", nte_created_at r.2)].
Definition project_row (r : string * ProjectRow) : row := id_column r.1 :: texts [("key", prj_key r.2); ("name", prj_name r.2)].
Definition issue_row (r : string * IssueRow) : row :=
id_column r.1 :: texts [("project_id", iss_project_id r.2); ("account_id", iss_account_id r.2); ("title", iss_title r.2); ("status", iss_status r.2);
                ("priority", iss_priority r.2)].
Definition comment_row (r : string * CommentRow) : row :=
id_column r.1 :: texts [("issue_id", cmt_issue_id r.2); ("body", cmt_body r.2); ("created_at", cmt_created_at r.2)].
Definition workspace_row (r : string * string) : row := [id_column r.1; ("name", VString r.2)].
Definition channel_row (r : string * ChannelRow) : row := id_column r.1 :: texts [("workspace_id", chn_workspace_id r.2); ("name", chn_name r.2)].
Definition member_row (r : string * string) : row := texts [("channel_id", r.1); ("principal_id", r.2)].
Definition message_row (r : string * MessageRow) : row :=
id_column r.1 :: texts [("channel_id", msg_channel_id r.2); ("body", msg_body r.2); ("created_at", msg_created_at r.2)].

(** [SELECT * FROM table WHERE world_id=?], without the world; [None] when
there is no such table. *)
Definition table_rows (table : string) : option (list row) :=
alookup [("customers", map customer_row (all_rows (customers s) w));
 ("invoices", map invoice_row (all_rows (invoices s) w));
 ("charges", map charge_row (all_rows (charges s) w));
 ("refunds", map refund_row (all_rows (refunds s) w));
 ("subscriptions", map subscription_row (all_rows (subscriptions s) w));
 ("crm_accounts", map account_row (all_rows (crm_accounts s) w));
 ("crm_contacts", map contact_row (all_rows (crm_contacts s) w));
 ("crm_notes", map note_row (all_rows (crm_notes s) w));
 ("ticket_projects", map project_row (all_rows (ticket_projects s) w));
 ("ticket_issues", map issue_row (all_rows (ticket_issues s) w));
 ("ticket_comments", map comment_row (all_rows (ticket_comments s) w));
 ("message_workspaces", map workspace_row (all_rows (message_workspaces s) w));
 ("message_channels", map channel_row (all_rows (message_channels s) w));
 ("message_members", map member_row (member_rows (message_members s) w));
 ("message_messages", map message_row (all_rows (message_messages s) w))] table.
End Rows.

(** Whether a column holds text or whole numbers. *)
Definition integer_columns : list string := ["amount_cents"; "refunded_cents"].
Definition has_kind (column : string) (v : goval) : Prop :=
  match v with VString _ => contains integer_columns column = false | VInt _ => contains integer_columns column = true | _ => False end.

(** Every row has exactly the columns of its table, each of its kind. *)
Lemma table_rows_columns s w table columns : alookup worldTables table = Some columns ->
  exists rows, table_rows s w table = Some rows /\ Forall (fun r => map fst r = columns /\ Forall (fun kv => has_kind kv.1 kv.2) r) rows.
Proof.
  intros Ht. unfold worldTables in Ht. cbn [alookup] in Ht. unfold table_rows. cbn [alookup].
  repeat (destruct (str_eqb table _);
    [injection Ht as <-; eexists; split; [reflexivity|]; apply Forall_forall; intros r Hr%list_elem_of_fmap; destruct Hr as (x & -> & _);
     split; [reflexivity|]; repeat (constructor; [reflexivity|]); constructor|]).
  discriminate Ht.
Qed.
Lemma table_rows_known s w table rows : table_rows s w table = Some rows -> is_Some (alookup worldTables table).
Proof.
  unfold table_rows, worldTables. cbn [alookup]. repeat (destruct (str_eqb table _); [by eexists|]). done.
Qed.

(** ** Ids are unique in a world *)

Lemma all_rows_ids {V} (m : gmap (string * string) V) w : NoDup (map fst (all_rows m w)).
Proof.
  apply NoDup_fmap_fst.
  - intros id v1 v2 [H1 _]%elem_of_world_rows [H2 _]%elem_of_world_rows. congruence.
  - unfold all_rows, world_rows. apply NoDup_omap_inj; [|apply NoDup_map_to_list].
    intros [[w1 i1] v1] [[w2 i2] v2] y. cbn. repeat case_match; bool_inv; naive_solver.
Qed.
Lemma row_ids {V} (f : string * V -> row) (m : gmap (string * string) V) w : (forall r, arg (f r) "id" = VString r.1) ->
  NoDup (map (fun x => arg x "id") (map f (all_rows m w))).
Proof.
  intros Hf. rewrite map_map. rewrite (map_ext _ (fun r => VString r.1) Hf), <- map_map. apply NoDup_fmap; [by intros ? ? [= ->]|apply all_rows_ids].
Qed.
Lemma table_ids s w table columns rows : alookup worldTables table = Some columns -> "id" ∈ columns -> table_rows s w table = Some rows ->
  NoDup (map (fun x => arg x "id") rows).
Proof.
  intros Ht Hid. unfold worldTables in Ht. cbn [alookup] in Ht. unfold table_rows. cbn [alookup].
  repeat (destruct (str_eqb table _);
    [intros [= <-]; first [by apply row_ids | exfalso; injection Ht as <-; rewrite !elem_of_cons in Hid; destruct Hid as [?|[?|Hid%not_elem_of_nil]]; done]|]).
  done.
Qed.
