(* ===== verification/Assertion.v ===== *)
(** * Assertions about runs (internal/assertion)

    An assertion file states what must hold of a run's world and ledger.
    [Parse] accepts only assertions that make sense for a manifest; [Check]
    evaluates them, reading only. *)

From S2P Require Export Eval Tables Yaml.
Open Scope Z_scope.
Open Scope tx_scope.

Module Assertion.
Import Runs Eval.

(** ** Assertions (parse.go, schema.go) *)

(** [Condition], [Count], [Ref], [EventMatch] and [Assertion]; the values of
conditions are the YAML library's. *)
Record Condition := MkCondition { cn_equals : goval; cn_contains : string }.
Record Count := MkCount { ct_op : string; ct_n : Z }.
Record Ref := MkRef { rf_table : string; rf_id : string; rf_field : string }.
Record EventMatch := MkEventMatch { em_type : string; em_where : list (string * goval) }.
Record Assertion := MkAssertion {
as_declared : string; as_id : string; as_type : string; as_table : string; as_where : list (string * Condition); as_count : option Count;
as_entity : option Ref; as_field : string; as_value : goval; as_value_from : option Ref; as_references : string; as_event : option EventMatch;
as_first : option EventMatch; as_then : option EventMatch; as_service : string; as_operation : string; as_name : string }.
Definition no_assertion (declared id typ : string) : Assertion :=
MkAssertion declared id typ "" [] None None "" VNil None "" None None None "" "" "".

(** [Custom], [Customs] and [Set] *)
Definition Custom : Type := DB -> string -> RunRow -> res err (bool * string).
Definition Customs : Type := list (string * Custom).
Record Set_ := MkSet { st_assertions : list Assertion; st_manifest : Manifest; st_customs : Customs }.

(** [text], [integer], [tables] and [eventTypes] *)
Definition text : string := "text".
Definition integer : string := "integer".
Definition tables : list (string * list (string * string)) :=
[("customers", [("id", text); ("name", text)]);
 ("invoices", [("id", text); ("customer_id", text); ("amount_cents", integer); ("subscription_id", text)]);
 ("charges", [("id", text); ("invoice_id", text); ("amount_cents", integer); ("refunded_cents", integer); ("created_at", text)]);
 ("refunds", [("id", text); ("charge_id", text); ("amount_cents", integer); ("reason", text); ("created_at", text)]);
 ("subscriptions", [("id", text); ("customer_id", text); ("status", text); ("plan", text)]);
 ("crm_accounts", [("id", text); ("customer_id", text); ("status", text); ("representative_id", text)]);
 ("crm_contacts", [("id", text); ("account_id", text); ("name", text); ("email", text)]);
 ("crm_notes", [("id", text); ("account_id", text); ("body", text); ("created_at", text)]);
 ("ticket_projects", [("id", text); ("key", text); ("name", text)]);
 ("ticket_issues", [("id", text); ("project_id", text); ("account_id", text); ("title", text); ("status", text); ("priority", text)]);
 ("ticket_comments", [("id", text); ("issue_id", text); ("body", text); ("created_at", text)]);
 ("message_workspaces", [("id", text); ("name", text)]);
 ("message_channels", [("id", text); ("workspace_id", text); ("name", text)]);
 ("message_members", [("channel_id", text); ("principal_id", text)]);
 ("message_messages", [("id", text); ("channel_id", text); ("body", text); ("created_at", text)])].
(** [tables[table][column]] *)
Definition kind_of (table column : string) : option string := columns ← alookup tables table; alookup columns column.
Definition eventTypes : list string :=
["execution.started"; "execution.forked"; "execution.paused"; "execution.completed"; "model.request"; "model.response"; "tool.request"; "tool.response";
 "state.mutation"; "error"; "retry"; "chaos.injected"; "chaos.actor_mutation"; "authorization.allowed"; "authorization.denied"; "observation.overridden";
 "provider.interrupted"].

(** [rawMatch] and [rawAssertion] *)
Record rawMatch := MkRawMatch { rm_event : string; rm_where : option (list (string * goval)) }.
Record rawAssertion := MkRawAssertion {
ra_id : string; ra_type : string; ra_table : string; ra_where : option (list (string * goval)); ra_equals : option Z; ra_at_least : option Z; ra_at_most : option Z;
ra_entity : string; ra_field : string; ra_value : goval; ra_value_from : string; ra_references : string; ra_event : string; ra_first : option rawMatch;
ra_then : option rawMatch; ra_service : string; ra_operation : string; ra_name : string }.
Record rawSet := MkRawSet { rt_version : Z; rt_assertions : list rawAssertion }.

(** [rejectNulls] *)
Fixpoint rejectNulls (n : ynode) (path : string) : res err unit :=
match n with
| YNode ScalarNode tag value _ =>
rassert (negb (str_eqb tag "!!null" || str_eqb tag "!!str" && str_eqb value "")) (ErrText (path +:+ " must not contain empty or null values"))
| YNode MappingNode _ _ content =>
(fix pairs l := match l with
          | key :: value :: l' => try* _ := rejectNulls value (path +:+ "." +:+ node_value key) in pairs l'
          | _ => Ok tt
          end) content
| YNode SequenceNode _ _ content =>
(fix items l := match l with
          | item :: l' => try* _ := rejectNulls item (path +:+ "[]") in items l'
          | [] => Ok tt
          end) content
| _ => Ok tt
end.

(** [matchesKind] *)
Definition matchesKind (value : goval) (kind : string) : bool :=
match value with VString _ => str_eqb kind text | VInt _ => str_eqb kind integer | _ => false end.
(** One column of [rowConditions]'s loop. *)
Definition row_condition (table : string) (cv : string * goval) : res err (string * Condition) :=
let '(column, value) := cv in
try* kind := rsome (kind_of table column) (ErrText ("unknown column " +:+ table +:+ "." +:+ column)) in
match value with
| VMap operator =>
let bad := ErrText ("column " +:+ column +:+ " accepts a value or {contains: text} on text columns") in
match arg operator "contains" with
| VString needle =>
try* _ := rassert (bool_decide (length operator = 1%nat) && negb (str_eqb needle "") && str_eqb kind text) bad in
Ok (column, MkCondition VNil needle)
| _ => Err bad
end
| _ => try* _ := rassert (matchesKind value kind) (ErrText ("value for " +:+ column +:+ " must be " +:+ kind)) in Ok (column, MkCondition value "")
end.
Definition rowConditions (table : string) (conditions : list (string * goval)) : res err (list (string * Condition)) := rmap (row_condition table) conditions.

(** [bound]: exactly one of the three, and not negative. *)
Definition bound_one (found : option Count) (b : string * option Z) : res err (option Count) :=
match b.2 with
| None => Ok found
| Some n =>
try* _ := rassert (bool_decide (found = None)) (ErrText "requires exactly one of equals, at_least, or at_most") in
try* _ := rassert (0 <=? n) (ErrText (b.1 +:+ " must be nonnegative")) in
Ok (Some (MkCount b.1 n))
end.
Definition bound (e : rawAssertion) : res err Count :=
try* out := rfold bound_one None [("equals", ra_equals e); ("at_least", ra_at_least e); ("at_most", ra_at_most e)] in
rsome out (ErrText "requires one of equals, at_least, or at_most").

(** [ref]: table.ID, or table.ID.field. *)
Definition ref (value : string) (withField : bool) : res err Ref :=
let shape := ErrText ("reference " +:+ quote value +:+ " must be table.id" +:+ (if withField then ".field" else "")) in
let check (table id : string) : res err (list (string * string)) :=
try* _ := rassert (negb (str_eqb table "") && negb (str_eqb id "")) shape in
try* columns := rsome (alookup tables table) (ErrText ("reference " +:+ quote value +:+ " needs a table with an id")) in
try* _ := rassert (bool_decide (is_Some (alookup columns "id"))) (ErrText ("reference " +:+ quote value +:+ " needs a table with an id")) in
Ok columns in
match split_on 46 value, withField with
| [table; id], false => try* _ := check table id in Ok (MkRef table id "")
| [table; id; field], true =>
try* columns := check table id in
try* _ := rassert (bool_decide (is_Some (alookup columns field))) (ErrText ("unknown field in reference " +:+ quote value)) in
Ok (MkRef table id field)
| _, _ => Err shape
end.

(** [eventMatch] *)
Definition is_scalar (v : goval) : bool := match v with VString _ | VInt _ | VBool _ => true | _ => false end.
Definition eventMatch (m : rawMatch) : res err EventMatch :=
try* _ := rassert (contains eventTypes (rm_event m)) (ErrText ("unknown event type " +:+ quote (rm_event m))) in
let conditions := default [] (rm_where m) in
try* _ := rfor conditions (fun kv => rassert (is_scalar kv.2) (ErrText ("event where " +:+ kv.1 +:+ " must be a string, integer, or boolean"))) in
Ok (MkEventMatch (rm_event m) conditions).

(** [fields], and which of them a raw assertion sets. *)
Definition fields : list (string * list string) :=
[("row_count", ["table"; "where"; "bound"]); ("field_equals", ["entity"; "field"; "value"; "value_from"]); ("relationship", ["table"; "field"; "references"]);
 ("event_count", ["event"; "where"; "bound"]); ("event_exists", ["event"; "where"]); ("event_absent", ["event"; "where"]);
 ("mutation_forbidden", ["service"; "operation"]); ("event_order", ["first"; "then"]); ("event_follows", ["first"; "then"]); ("custom", ["name"])].
Definition set_text (t : string) : bool := negb (str_eqb t "").
Definition set_option {A} (o : option A) : bool := bool_decide (is_Some o).
Definition is_nil (v : goval) : bool := match v with VNil => true | _ => false end.
Definition present (e : rawAssertion) : list (string * bool) :=
[("table", set_text (ra_table e)); ("where", set_option (ra_where e)); ("entity", set_text (ra_entity e)); ("field", set_text (ra_field e));
 ("value", negb (is_nil (ra_value e))); ("value_from", set_text (ra_value_from e)); ("references", set_text (ra_references e)); ("event", set_text (ra_event e));
 ("first", set_option (ra_first e)); ("then", set_option (ra_then e)); ("service", set_text (ra_service e)); ("operation", set_text (ra_operation e));
 ("name", set_text (ra_name e)); ("bound", set_option (ra_equals e) || set_option (ra_at_least e) || set_option (ra_at_most e))].

(** The service of a behavior: what stands before its first dot. *)
Definition service_of (behavior : string) : string := default "" (head (split_on 46 behavior)).

Section Normalize.
Context (manifest : Manifest) (customs : Customs).
Definition services : list string := map (fun op => service_of (op_behavior op)) (mf_operations manifest).

Definition normal (declared id typ table : string) (conditions : list (string * Condition)) (count : option Count) (entity : option Ref) (field : string) (value : goval)
(value_from : option Ref) (references : string) : Assertion :=
MkAssertion declared id typ table conditions count entity field value value_from references None None None "" "" "".
(** The cases of [normalize]'s [switch]. *)
Definition normal_row_count (e : rawAssertion) : res err Assertion :=
try* _ := rassert (bool_decide (is_Some (alookup tables (ra_table e)))) (ErrText ("unknown table " +:+ quote (ra_table e))) in
try* conditions := rowConditions (ra_table e) (default [] (ra_where e)) in
try* count := bound e in
Ok (normal (ra_type e) (ra_id e) (ra_type e) (ra_table e) conditions (Some count) None "" VNil None "").
Definition normal_field_equals (e : rawAssertion) : res err Assertion :=
try* entity := ref (ra_entity e) false in
try* kind := rsome (kind_of (rf_table entity) (ra_field e)) (ErrText ("unknown field " +:+ rf_table entity +:+ "." +:+ ra_field e)) in
let done := normal (ra_type e) (ra_id e) (ra_type e) "" [] None (Some entity) (ra_field e) in
match negb (is_nil (ra_value e)), set_text (ra_value_from e) with
| true, false =>
try* _ := rassert (matchesKind (ra_value e) kind) (ErrText ("value for " +:+ ra_field e +:+ " must be " +:+ kind)) in
Ok (done (ra_value e) None "")
| false, true =>
try* from := ref (ra_value_from e) true in
try* _ := rassert (bool_decide (kind_of (rf_table from) (rf_field from) = Some kind))
      (ErrText ("value_from " +:+ ra_value_from e +:+ " has a different type than " +:+ ra_field e)) in
Ok (done VNil (Some from) "")
| _, _ => Err (ErrText "requires exactly one of value or value_from")
end.
Definition normal_relationship (e : rawAssertion) : res err Assertion :=
try* _ := rassert (bool_decide (kind_of (ra_table e) (ra_field e) = Some text)) (ErrText ("unknown text field " +:+ ra_table e +:+ "." +:+ ra_field e)) in
try* _ := rassert (bool_decide (is_Some (kind_of (ra_references e) "id"))) (ErrText ("references " +:+ quote (ra_references e) +:+ " must be a table with an id")) in
Ok (normal (ra_type e) (ra_id e) (ra_type e) (ra_table e) [] None None (ra_field e) VNil None (ra_references e)).
Definition normal_event (e : rawAssertion) : res err Assertion :=
try* event := eventMatch (MkRawMatch (ra_event e) (ra_where e)) in
try* count := (if str_eqb (ra_type e) "event_count" then bound e
     else Ok (if str_eqb (ra_type e) "event_exists" then MkCount "at_least" 1 else MkCount "equals" 0)) in
Ok (MkAssertion (ra_type e) (ra_id e) "event_count" "" [] (Some count) None "" VNil None "" (Some event) None None "" "" "").
Definition normal_forbidden (e : rawAssertion) : res err Assertion :=
let done service operation := MkAssertion (ra_type e) (ra_id e) (ra_type e) "" [] None None "" VNil None "" None None None service operation "" in
match set_text (ra_service e), set_text (ra_operation e) with
| true, false =>
try* _ := rassert (contains services (ra_service e)) (ErrText ("service " +:+ quote (ra_service e) +:+ " has no operation in this world")) in
Ok (done (ra_service e) "")
| false, true =>
try* _ := rassert (bool_decide (is_Some (find_operation manifest (ra_operation e)))) (ErrText ("unknown operation " +:+ quote (ra_operation e))) in
Ok (done "" (ra_operation e))
| _, _ => Err (ErrText "requires exactly one of service or operation")
end.
Definition normal_pair (e : rawAssertion) : res err Assertion :=
match ra_first e, ra_then e with
| Some first, Some then_ =>
try* first := eventMatch first in
try* then_ := eventMatch then_ in
Ok (MkAssertion (ra_type e) (ra_id e) (ra_type e) "" [] None None "" VNil None "" None (Some first) (Some then_) "" "" "")
| _, _ => Err (ErrText "requires first and then")
end.
Definition normal_custom (e : rawAssertion) : res err Assertion :=
try* _ := rassert (bool_decide (is_Some (alookup customs (ra_name e)))) (ErrText ("custom evaluator " +:+ quote (ra_name e) +:+ " is not registered")) in
Ok (MkAssertion (ra_type e) (ra_id e) (ra_type e) "" [] None None "" VNil None "" None None None "" "" (ra_name e)).

(** [normalize]; of several fields that do not belong, the code names any. *)
Definition normalize (e : rawAssertion) : res err Assertion :=
try* allowed := rsome (alookup fields (ra_type e)) (ErrText ("unsupported type " +:+ quote (ra_type e))) in
try* _ := rfor (present e) (fun fs => rassert (negb (fs.2 && negb (contains allowed fs.1))) (ErrText ("type " +:+ ra_type e +:+ " does not accept " +:+ fs.1))) in
if str_eqb (ra_type e) "row_count" then normal_row_count e
else if str_eqb (ra_type e) "field_equals" then normal_field_equals e
else if str_eqb (ra_type e) "relationship" then normal_relationship e
else if contains ["event_count"; "event_exists"; "event_absent"] (ra_type e) then normal_event e
else if str_eqb (ra_type e) "mutation_forbidden" then normal_forbidden e
else if contains ["event_order"; "event_follows"] (ra_type e) then normal_pair e
else normal_custom e.

(** One assertion of [Parse]'s loop. *)
Definition parse_assertion (seen : list Assertion) (e : rawAssertion) : res err (list Assertion) :=
try* _ := rassert (validWorldIdentifier (ra_id e) && negb (contains (map as_id seen) (ra_id e))) (ErrText ("invalid or duplicate assertion id " +:+ quote (ra_id e))) in
try* a := rwrap (ErrWrap ("assertion " +:+ ra_id e +:+ ": ")) (normalize e) in
Ok (seen ++ [a]).
(** [Parse] after decoding. *)
Definition check_set (input : rawSet) : res err Set_ :=
try* _ := rassert (rt_version input =? 1) (ErrText ("unsupported assertions version " +:+ itoa (rt_version input))) in
try* _ := rassert (negb (bool_decide (rt_assertions input = []))) (ErrText "assertions file requires at least one assertion") in
try* assertions := rfold parse_assertion [] (rt_assertions input) in
Ok (MkSet assertions manifest customs).
End Normalize.

Class AssertionYaml := decode_set : Decoder rawSet.
Section Documents.
Context `{!SqlBind, !YamlNodes, !WorldYaml, !AssertionYaml}.
(** [Parse] *)
Definition Parse (raw : string) (manifest : Manifest) (customs : Customs) : res err Set_ :=
try* _ := rwrap (ErrWrap "manifest: ") (ValidateManifest manifest) in
try* root := root_mapping "assertions" raw in
try* _ := version_is_integer "assertions version" root in
try* _ := rejectNulls root "assertions file" in
try* input := decode_only "assertions YAML: " "assertions file has multiple YAML documents" decode_set raw in
check_set manifest customs input.
End Documents.

(** ** Evaluating them (check.go, ledger.go) *)

Record Result := MkResult { rt_id : string; rt_type : string; rt_passed : bool; rt_detail : string; rt_event_ids : list string }.
Record Report := MkReport { re_passed : bool; re_digest : string; re_results : list Result }.
(** What evaluating one assertion sets of its result. *)
Record Verdict := MkVerdict { vd_passed : bool; vd_detail : string; vd_event_ids : list string }.
Definition verdict (passed : bool) (detail : string) (ids : list string) : Verdict := MkVerdict passed (if passed then "" else detail) ids.

(** [Set.Digest] *)
Definition omit (key : string) (v : option goval) : list (string * goval) := match v with Some v => [(key, v)] | None => [] end.
Definition omit_text (key t : string) : list (string * goval) := if str_eqb t "" then [] else [(key, VString t)].
Definition omit_map (key : string) (m : list (string * goval)) : list (string * goval) := match m with [] => [] | _ => [(key, VMap m)] end.
Definition omit_any (key : string) (v : goval) : list (string * goval) := if is_nil v then [] else [(key, v)].
Definition condition_value (c : Condition) : goval := VStruct (omit_any "equals" (cn_equals c) ++ omit_text "contains" (cn_contains c)).
Definition ref_value (r : Ref) : goval := VStruct ([("table", VString (rf_table r)); ("id", VString (rf_id r))] ++ omit_text "field" (rf_field r)).
Definition match_value (m : EventMatch) : goval := VStruct ([("type", VString (em_type m))] ++ omit_map "where" (em_where m)).
Definition assertion_value (a : Assertion) : goval :=
VStruct ([("id", VString (as_id a)); ("type", VString (as_type a))] ++ omit_text "table" (as_table a)
++ omit_map "where" (map (fun kv => (kv.1, condition_value kv.2)) (as_where a))
++ omit "count" ((fun c => VStruct [("op", VString (ct_op c)); ("n", VInt (ct_n c))]) <$> as_count a)
++ omit "entity" (ref_value <$> as_entity a) ++ omit_text "field" (as_field a) ++ omit_any "value" (as_value a) ++ omit "value_from" (ref_value <$> as_value_from a)
++ omit_text "references" (as_references a) ++ omit "event" (match_value <$> as_event a) ++ omit "first" (match_value <$> as_first a)
++ omit "then" (match_value <$> as_then a) ++ omit_text "service" (as_service a) ++ omit_text "operation" (as_operation a) ++ omit_text "name" (as_name a)).
Definition Digest (t : Set_) : string :=
match marshal (VStruct [("manifest", VString (mf_digest (st_manifest t))); ("assertions", VSlice (map assertion_value (st_assertions t)))]) with
| Some encoded => digest_hex encoded
| None => ""
end.

(** [Count.holds] and [Count.judge] *)
Definition holds (c : Count) (n : Z) : bool :=
if str_eqb (ct_op c) "equals" then n =? ct_n c else if str_eqb (ct_op c) "at_least" then ct_n c <=? n else n <=? ct_n c.
Definition judge (c : Count) (n : Z) (ids : list string) : Verdict :=
verdict (holds c n) ("count " +:+ itoa n +:+ ", want " +:+ ct_op c +:+ " " +:+ itoa (ct_n c)) ids.
(** Following a nil pointer panics. *)
Definition nil_pointer : err := ErrPanic "invalid memory address or nil pointer dereference".
Definition pointer {A} (o : option A) : res err A := rsome o nil_pointer.

Section Rows.
Context (s : DB) (w : string).
Definition no_table (table : string) : err := ErrText ("no such table: " +:+ table).
Definition no_column (column : string) : err := ErrText ("no such column: " +:+ column).
Definition select (table : string) : res err (list row) := rsome (table_rows s w table) (no_table table).
(** The value of a column; a query that names another fails. *)
Definition column (table name : string) (r : row) : goval := arg r name.
Definition has_column (table name : string) : res err unit :=
rassert (match alookup worldTables table with Some columns => contains columns name | None => false end) (no_column name).

(** [column=?] and [instr(column,?)>0] *)
Definition sql_equal (a b : goval) : bool :=
match a, b with VString x, VString y => str_eqb x y | VInt x, VInt y => x =? y | _, _ => false end.
Definition sql_contains (a : goval) (needle : string) : bool := match a with VString x => sql_instr_pos x needle | VInt z => sql_instr_pos (itoa z) needle | _ => false end.
Definition satisfies (r : row) (cc : string * Condition) : bool :=
if negb (str_eqb (cn_contains cc.2) "") then sql_contains (arg r cc.1) (cn_contains cc.2) else sql_equal (arg r cc.1) (cn_equals cc.2).

(** [rowCount] *)
Definition rowCount (a : Assertion) : res err Verdict :=
try* rows := select (as_table a) in
try* _ := rfor (sort_on fst (as_where a)) (fun cc => has_column (as_table a) cc.1) in
let n := Z.of_nat (length (List.filter (fun r => forallb (satisfies r) (as_where a)) rows)) in
try* count := pointer (as_count a) in
Ok (judge count n []).

(** [lookup]: [None] when there is no such row. *)
Definition lookup (r : Ref) (field : string) : res err (option goval) :=
try* rows := select (rf_table r) in
try* _ := has_column (rf_table r) "id" in
try* _ := has_column (rf_table r) field in
Ok ((fun x => arg x field) <$> List.find (fun x => sql_equal (arg x "id") (VString (rf_id r))) rows).
(** [fmt.Sprint] of a column's or a document's value. *)
Definition sprint (v : goval) : string := match v with VString t => t | VInt z => itoa z | VBool b => if b then "true" else "false" | _ => "<nil>" end.
Definition not_found (r : Ref) : Verdict := verdict false (rf_table r +:+ "." +:+ rf_id r +:+ " not found") [].

(** [fieldEquals] *)
Definition fieldEquals (a : Assertion) : res err Verdict :=
try* entity := pointer (as_entity a) in
try* found := lookup entity (as_field a) in
match found with
| None => Ok (not_found entity)
| Some actual =>
let compare (want : goval) := verdict (str_eqb (sprint actual) (sprint want)) ("got " +:+ quote (sprint actual) +:+ ", want " +:+ quote (sprint want)) [] in
match as_value_from a with
| None => Ok (compare (as_value a))
| Some from =>
try* found := lookup from (rf_field from) in
Ok (match found with None => not_found from | Some want => compare want end)
end
end.

(** [relationship]: the distinct values that no row of the other table has as
its id, in order. *)
Definition value_text (v : goval) : string := sprint v.
Definition relationship (a : Assertion) : res err Verdict :=
try* rows := select (as_table a) in
try* _ := has_column (as_table a) (as_field a) in
try* others := select (as_references a) in
try* _ := has_column (as_references a) "id" in
let referenced (r : row) := existsb (fun o => sql_equal (arg o "id") (arg r (as_field a))) others in
let dangling := sort_strings (remove_dups (map (fun r => value_text (arg r (as_field a))) (List.filter (fun r => negb (referenced r)) rows))) in
Ok (verdict (bool_decide (dangling = []))
(as_table a +:+ "." +:+ as_field a +:+ " values missing from " +:+ as_references a +:+ ": " +:+ join_with ", " dangling) []).
End Rows.

(** [EventMatch.matches] *)
Definition same_value (payload : list (string * goval)) (kv : string * goval) : res err bool :=
match alookup payload kv.1 with
| None => Ok false
| Some got =>
try* left := rsome (marshal got) json_error in
try* right := rsome (marshal kv.2) json_error in
Ok (str_eqb left right)
end.
Fixpoint same_values (payload : list (string * goval)) (conditions : list (string * goval)) : res err bool :=
match conditions with
| [] => Ok true
| kv :: rest => try* ok := same_value payload kv in if ok : bool then same_values payload rest else Ok false
end.
Definition matches (m : EventMatch) (e : Event) : res err bool :=
if negb (str_eqb (e_type e) (em_type m)) then Ok false
else if bool_decide (em_where m = []) then Ok true
else match unmarshal (e_payload e) with
 | Some (VMap payload) => same_values payload (em_where m)
 | Some VNil => same_values [] (em_where m)
 | _ => Ok false
 end.

Section Ledgers.
Context (events : list Event).
(** [eventCount] *)
Definition event_ids (m : EventMatch) : res err (list string) :=
rfold (fun ids e => try* ok := matches m e in Ok (if ok : bool then ids ++ [e_id e] else ids)) [] events.
Definition eventCount (a : Assertion) : res err Verdict :=
match events, as_event a with
| _ :: _, None => Err nil_pointer
| _, event =>
try* ids := match event with Some m => event_ids m | None => Ok [] end in
try* count := pointer (as_count a) in
Ok (judge count (Z.of_nat (length ids)) ids)
end.

(** [forbidden] and [mutationForbidden] *)
Definition forbidden (manifest : Manifest) (a : Assertion) (operationID : string) : bool :=
if negb (str_eqb (as_operation a) "") then str_eqb operationID (as_operation a)
else match find_operation manifest operationID with Some op => str_eqb (service_of (op_behavior op)) (as_service a) | None => false end.
Definition operation_named (v : goval) : option string := field v "operation_id" decode_text "".
Definition forbid (manifest : Manifest) (a : Assertion) (x : string * list string) (e : Event) : res err (string * list string) :=
let '(operation, ids) := x in
if str_eqb (e_type e) "tool.request" then try* o := decode_payload operation_named e in Ok (o, ids)
else if str_eqb (e_type e) "tool.response" then Ok ("", ids)
else if str_eqb (e_type e) "state.mutation" then Ok (operation, if forbidden manifest a operation then ids ++ [e_id e] else ids)
else Ok x.
Definition mutationForbidden (manifest : Manifest) (a : Assertion) : res err Verdict :=
try* '(_, ids) := rfold (forbid manifest a) ("", []) events in
Ok (verdict (bool_decide (ids = [])) (itoa (Z.of_nat (length ids)) +:+ " mutation(s) by forbidden " +:+ as_service a +:+ as_operation a) ids).

(** [eventFollows] *)
Fixpoint find_then (first then_ : EventMatch) (anchor : string) (l : list Event) : res err Verdict :=
match l with
| [] => Ok (verdict false (if str_eqb anchor "" then "no " +:+ em_type first +:+ " matched, so nothing could follow it"
                 else "no " +:+ em_type then_ +:+ " after " +:+ em_type first) [])
| e :: rest =>
if str_eqb anchor "" then
try* isFirst := matches first e in
find_then first then_ (if isFirst : bool then e_id e else anchor) rest
else
try* isThen := matches then_ e in
if isThen : bool then Ok (verdict true "" [anchor; e_id e]) else find_then first then_ anchor rest
end.
Definition pair_of (a : Assertion) (k : EventMatch -> EventMatch -> res err Verdict) : res err Verdict :=
try* first := pointer (as_first a) in
try* then_ := pointer (as_then a) in
k first then_.
Definition eventFollows (a : Assertion) : res err Verdict := pair_of a (fun first then_ => find_then first then_ "" events).

(** [eventOrder] *)
Definition order_one (first then_ : EventMatch) (x : bool * list string) (e : Event) : res err (bool * list string) :=
let '(seenFirst, ids) := x in
try* isThen := matches then_ e in
let ids := if isThen && negb seenFirst then ids ++ [e_id e] else ids in
try* isFirst := matches first e in
Ok (seenFirst || isFirst, ids).
Definition eventOrder (a : Assertion) : res err Verdict :=
if bool_decide (events = []) then Ok (verdict true "" [])
else pair_of a (fun first then_ =>
try* '(_, ids) := rfold (order_one first then_) (false, []) events in
Ok (verdict (bool_decide (ids = [])) (itoa (Z.of_nat (length ids)) +:+ " event before any " +:+ em_type first) ids)).
End Ledgers.

(** [scenarioEvaluation] and [Builtins] (builtin.go) *)
Definition scenarioEvaluation : Custom := fun s _ run =>
try* report := Evaluate s (run_world_id run) (run_scenario run) in
let failed := map ck_name (List.filter (fun c => negb (ck_passed c)) (rp_checks report)) in
Ok (match failed with [] => (rp_passed report, "") | _ => (false, "failed checks: " +:+ join_with ", " failed) end).
Definition Builtins : Customs := [("scenario_evaluation", scenarioEvaluation)].

(** [Check] *)
Definition evaluate (s : DB) (runID : string) (run : RunRow) (events : list Event) (t : Set_) (a : Assertion) : res err Verdict :=
let w := run_world_id run in
if str_eqb (as_type a) "row_count" then rowCount s w a
else if str_eqb (as_type a) "field_equals" then fieldEquals s w a
else if str_eqb (as_type a) "relationship" then relationship s w a
else if str_eqb (as_type a) "event_count" then eventCount events a
else if str_eqb (as_type a) "mutation_forbidden" then mutationForbidden events (st_manifest t) a
else if str_eqb (as_type a) "event_order" then eventOrder events a
else if str_eqb (as_type a) "event_follows" then eventFollows events a
else if str_eqb (as_type a) "custom" then
try* custom := pointer (alookup (st_customs t) (as_name a)) in
try* '(passed, detail) := custom s runID run in
Ok (MkVerdict passed detail [])
else Err (ErrText ("assertion type " +:+ as_type a +:+ " is not implemented")).
Definition check_one (s : DB) (runID : string) (run : RunRow) (events : list Event) (t : Set_) (a : Assertion) : res err Result :=
try* v := rwrap (ChaosPolicy.unless_panic (ErrWrap ("assertion " +:+ as_id a +:+ ": "))) (evaluate s runID run events t a) in
Ok (MkResult (as_id a) (as_declared a) (vd_passed v) (vd_detail v) (vd_event_ids v)).
Definition Check (runID : string) (t : Set_) (s : DB) : res err Report :=
try* _ := rassert (negb (bool_decide (st_assertions t = []))) (ErrText "assertion set was not produced by Parse") in
try* run := rsome (runs s !! runID) ErrNoRows in
try* events := Ledger runID s in
try* results := rmap (check_one s runID run events t) (st_assertions t) in
Ok (MkReport (forallb rt_passed results) (Digest t) results).
End Assertion.
