(* ===== verification/AssertionFacts.v ===== *)
(** * Facts about assertions

    What an accepted assertion means, that [Check] decides exactly that, and
    that checking an accepted set cannot fail on its own account. *)

From S2P Require Export Assertion EvalFacts.
Open Scope Z_scope.
Open Scope tx_scope.

Module AssertionFacts.
Import Runs Eval Assertion.

#[local] Opaque tables.

(** ** Accepted assertions are well formed *)

Definition ref_wf (r : Ref) : Prop := is_Some (kind_of (rf_table r) "id").
Definition row_count_wf (a : Assertion) : Prop :=
is_Some (alookup tables (as_table a)) /\ Forall (fun cc => is_Some (kind_of (as_table a) cc.1)) (as_where a) /\ is_Some (as_count a).
Definition field_equals_wf (a : Assertion) : Prop :=
(exists e, as_entity a = Some e /\ ref_wf e /\ is_Some (kind_of (rf_table e) (as_field a))) /\
(forall from, as_value_from a = Some from -> ref_wf from /\ is_Some (kind_of (rf_table from) (rf_field from))).
Definition relationship_wf (a : Assertion) : Prop := kind_of (as_table a) (as_field a) = Some text /\ is_Some (kind_of (as_references a) "id").
(** The values an event must have are texts, integers or booleans. *)
Definition scalar_match (m : EventMatch) : Prop := Forall (fun kv => is_scalar kv.2 = true) (em_where m).
Definition event_count_wf (a : Assertion) : Prop := (exists m, as_event a = Some m /\ scalar_match m) /\ is_Some (as_count a).
Definition pair_wf (a : Assertion) : Prop := exists first then_, as_first a = Some first /\ as_then a = Some then_ /\ scalar_match first /\ scalar_match then_.
Inductive wf (customs : Customs) (a : Assertion) : Prop :=
| wf_row_count : as_type a = "row_count" -> row_count_wf a -> wf customs a
| wf_field_equals : as_type a = "field_equals" -> field_equals_wf a -> wf customs a
| wf_relationship : as_type a = "relationship" -> relationship_wf a -> wf customs a
| wf_event_count : as_type a = "event_count" -> event_count_wf a -> wf customs a
| wf_forbidden : as_type a = "mutation_forbidden" -> wf customs a
| wf_order : as_type a = "event_order" -> pair_wf a -> wf customs a
| wf_follows : as_type a = "event_follows" -> pair_wf a -> wf customs a
| wf_custom : as_type a = "custom" -> is_Some (alookup customs (as_name a)) -> wf customs a.

Lemma kind_of_table table column : is_Some (kind_of table column) -> is_Some (alookup tables table).
Proof. unfold kind_of. destruct (alookup tables table); [by eexists|]. by intros [? ?]. Qed.
Lemma ref_ok value withField r : ref value withField = Ok r -> ref_wf r /\ (withField = true -> is_Some (kind_of (rf_table r) (rf_field r))).
Proof.
unfold ref. destruct (split_on 46 value) as [|table [|id [|field [|]]]]; try (destruct withField; done).
- destruct withField; [done|]. intros H. res_inv. unfold ref_wf, kind_of. cbn [rf_table rf_id rf_field]. split; [|done].
match goal with H : alookup tables table = Some ?c |- _ => rewrite H end. by bool_inv.
- destruct withField; [|done]. intros H. res_inv. unfold ref_wf, kind_of. cbn [rf_table rf_id rf_field].
match goal with H : alookup tables table = Some ?c |- _ => rewrite H end. by bool_inv.
Qed.
Lemma row_conditions_ok table conditions out : rowConditions table conditions = Ok out -> Forall (fun cc => is_Some (kind_of table cc.1)) out.
Proof.
unfold rowConditions. rewrite rmap_ok. induction 1 as [|[column value] cc conditions out Hc _ IH]; [constructor|]. constructor; [|done].
unfold row_condition in Hc. apply rbind_ok in Hc as (kind & Hk%rsome_ok & Hc). assert (cc.1 = column) as ->; [|by eexists].
destruct value; try (res_inv; done). destruct (arg m "contains"); try done. by res_inv.
Qed.
Lemma event_match_ok raw m : eventMatch raw = Ok m -> scalar_match m.
Proof.
unfold eventMatch. intros H. apply rassert_bind in H as [_ H]. apply rbind_ok in H as ([] & Hs & [= <-]). apply rfor_ok in Hs.
eapply Forall_impl; [exact Hs|]. intros kv Hk. by apply rassert_ok in Hk.
Qed.
Lemma normalize_ok manifest customs e a : normalize manifest customs e = Ok a -> wf customs a /\ as_id a = ra_id e /\ as_declared a = ra_type e.
Proof.
unfold normalize. intros H. apply rbind_ok in H as (allowed & Hallowed%rsome_ok & H). apply rbind_ok in H as (_ & _ & H).
destruct (str_eqb (ra_type e) "row_count") eqn:H1.
{ apply str_eqb_true in H1. unfold normal_row_count in H. apply rassert_bind in H as [Ht H]. apply rbind_ok in H as (conditions & Hc%row_conditions_ok & H).
apply rbind_ok in H as (count & Hn & [= <-]). split; [|done]. apply wf_row_count; [done|]. bool_inv. split_and!; [done|done|by eexists]. }
destruct (str_eqb (ra_type e) "field_equals") eqn:H2.
{ apply str_eqb_true in H2. unfold normal_field_equals in H. apply rbind_ok in H as (entity & [He _]%ref_ok & H). apply rbind_ok in H as (kind & Hk%rsome_ok & H).
destruct (negb (is_nil (ra_value e))), (set_text (ra_value_from e)); try done.
- apply rassert_bind in H as [_ [= <-]]. split; [|done]. apply wf_field_equals; [done|]. split; [|done]. exists entity. split_and!; [done|done|by eexists].
- apply rbind_ok in H as (from & [Hf Hff]%ref_ok & H). apply rassert_bind in H as [_ [= <-]]. split; [|done]. apply wf_field_equals; [done|]. split.
+ exists entity. split_and!; [done|done|by eexists].
+ intros ? [= <-]. split; [done|by apply Hff]. }
destruct (str_eqb (ra_type e) "relationship") eqn:H3.
{ apply str_eqb_true in H3. unfold normal_relationship in H. apply rassert_bind in H as [Ht H]. apply rassert_bind in H as [Hr [= <-]]. split; [|done].
apply wf_relationship; [done|]. by bool_inv. }
destruct (contains ["event_count"; "event_exists"; "event_absent"] (ra_type e)) eqn:H4.
{ unfold normal_event in H. apply rbind_ok in H as (event & Hev%event_match_ok & H). apply rbind_ok in H as (count & _ & [= <-]). split; [|done]. apply wf_event_count; [done|].
split; [by exists event|by eexists]. }
destruct (str_eqb (ra_type e) "mutation_forbidden") eqn:H5.
{ apply str_eqb_true in H5. unfold normal_forbidden in H. destruct (set_text (ra_service e)), (set_text (ra_operation e)); try done;
apply rassert_bind in H as [_ [= <-]]; (split; [|done]); by apply wf_forbidden. }
destruct (contains ["event_order"; "event_follows"] (ra_type e)) eqn:H6.
{ apply contains_spec in H6. unfold normal_pair in H. destruct (ra_first e), (ra_then e); try done. apply rbind_ok in H as (first & Hfi%event_match_ok & H).
apply rbind_ok in H as (then_ & Hth%event_match_ok & [= <-]). split; [|done]. rewrite !elem_of_cons in H6.
assert (Hp : pair_wf (MkAssertion (ra_type e) (ra_id e) (ra_type e) "" [] None None "" VNil None "" None (Some first) (Some then_) "" "" "")) by (by exists first, then_).
destruct H6 as [H6|[H6|H6]]; [by apply wf_order|by apply wf_follows|by apply not_elem_of_nil in H6]. }
unfold normal_custom in H. apply rassert_bind in H as [Hc [= <-]]. split; [|done]. apply wf_custom; [|by bool_inv]. cbn.
assert (Hin : ra_type e ∈ map fst fields) by (apply list_elem_of_fmap; exists (ra_type e, allowed); split; [done|by apply alookup_in]).
unfold fields in Hin. cbn [map fst] in Hin. rewrite !elem_of_cons in Hin.
repeat (destruct Hin as [Hin|Hin]; [rewrite Hin in *; first [reflexivity | discriminate]|]). by apply not_elem_of_nil in Hin.
Qed.

(** Parsing keeps one assertion for each of the file, in order. *)
Lemma check_set_ok manifest customs input t : check_set manifest customs input = Ok t ->
st_customs t = customs /\ st_manifest t = manifest /\ st_assertions t <> [] /\ NoDup (map as_id (st_assertions t)) /\
Forall2 (fun e a => normalize manifest customs e = Ok a) (rt_assertions input) (st_assertions t).
Proof.
unfold check_set. intros H. apply rassert_bind in H as [_ H]. apply rassert_bind in H as [Hne H]. apply rbind_ok in H as (assertions & Ha & [= <-]). cbn.
apply (rfold_inv _ (fun rest seen => exists done_, rt_assertions input = done_ ++ rest /\ NoDup (map as_id seen) /\
Forall2 (fun e a => normalize manifest customs e = Ok a) done_ seen)) in Ha.
- destruct Ha as (done_ & He & Hnd & Hf). rewrite app_nil_r in He. subst done_. split_and!; try done. intros ->. inversion Hf as [Hz|]. rewrite <- Hz in Hne. done.
- exists []. split_and!; [done|constructor|constructor].
- intros seen e rest seen' (done_ & He & Hnd & Hf) Hp. unfold parse_assertion in Hp. apply rassert_bind in Hp as [[_ Hid]%andb_true_iff Hp].
apply rbind_ok in Hp as (a & Hn%rwrap_ok & [= <-]). exists (done_ ++ [e]). rewrite <- app_assoc. split; [done|]. split.
+ rewrite map_app. apply NoDup_app. split; [done|]. split; [|apply NoDup_singleton]. intros x Hx ->%list_elem_of_singleton.
apply not_contains in Hid. apply normalize_ok in Hn as (_ & Hida & _). by rewrite Hida in Hx.
+ apply Forall2_app; [done|]. by constructor.
Qed.
Lemma accepted_wf manifest customs input t : check_set manifest customs input = Ok t -> Forall (wf customs) (st_assertions t).
Proof.
intros (_ & _ & _ & _ & Hf)%check_set_ok. induction Hf as [|e a l l' Hn _ IH]; constructor; [|done]. by apply normalize_ok in Hn as (? & _).
Qed.

(** ** Queries on accepted assertions do not fail *)

Lemma tables_columns : map (fun t => (t.1, map fst t.2)) tables = worldTables.
Proof. reflexivity. Qed.
Lemma alookup_mapped {A B} (f : A -> B) (m : list (string * A)) k : alookup (map (fun kv => (kv.1, f kv.2)) m) k = f <$> alookup m k.
Proof. induction m as [|[k' v] m IH]; [done|]. cbn. by destruct (str_eqb k k'). Qed.
Lemma known_table table columns : alookup tables table = Some columns -> alookup worldTables table = Some (map fst columns).
Proof. intros Ht. rewrite <- tables_columns, (alookup_mapped (map fst)), Ht. done. Qed.
Lemma select_known s w table : is_Some (alookup tables table) -> exists rows, select s w table = Ok rows /\ table_rows s w table = Some rows.
Proof.
intros [columns Ht]. destruct (table_rows_columns s w table _ (known_table _ _ Ht)) as (rows & Hr & _). exists rows. unfold select. by rewrite Hr.
Qed.
Lemma column_known table column : is_Some (kind_of table column) -> has_column table column = Ok tt.
Proof.
unfold kind_of, has_column. intros [kind Hk]. destruct (alookup tables table) as [columns|] eqn:Ht; [|done]. cbn in Hk. rewrite (known_table _ _ Ht).
apply alookup_in in Hk. rewrite (proj2 (contains_spec _ _)); [done|]. apply list_elem_of_fmap. by exists (column, kind).
Qed.
Lemma lookup_known s w r field : ref_wf r -> is_Some (kind_of (rf_table r) field) -> exists o, lookup s w r field = Ok o.
Proof.
intros Hid Hf. unfold lookup. destruct (select_known s w (rf_table r)) as (rows & -> & _); [by eapply kind_of_table|]. cbn [rbind].
rewrite (column_known _ _ Hid), (column_known _ _ Hf). cbn [rbind]. by eexists.
Qed.
Lemma rowCount_known s w a : row_count_wf a -> exists rows count, select s w (as_table a) = Ok rows /\ as_count a = Some count /\
rowCount s w a = Ok (judge count (Z.of_nat (length (List.filter (fun r => forallb (satisfies r) (as_where a)) rows))) []).
Proof.
intros (Ht & Hw & [count Hc]). destruct (select_known s w _ Ht) as (rows & Hr & _). exists rows, count. split; [done|]. split; [done|].
unfold rowCount. rewrite Hr. cbn [rbind]. replace (rfor (sort_on fst (as_where a)) (fun cc => has_column (as_table a) cc.1)) with (@Ok err unit tt).
- cbn [rbind]. by rewrite Hc.
- symmetry. apply rfor_ok. eapply Permutation_Forall; [symmetry; apply sort_on_permutation|]. eapply Forall_impl; [exact Hw|]. intros cc Hk. by apply column_known.
Qed.
Lemma fieldEquals_known s w a : field_equals_wf a -> exists v, fieldEquals s w a = Ok v.
Proof.
intros [(e & He & Hr & Hf) Hv]. unfold fieldEquals. rewrite He. cbn [pointer rsome rbind]. destruct (lookup_known s w e _ Hr Hf) as [o ->]. cbn [rbind].
destruct o as [actual|]; [|by eexists]. destruct (as_value_from a) as [from|]; [|by eexists]. destruct (Hv from eq_refl) as [Hf1 Hf2].
destruct (lookup_known s w from _ Hf1 Hf2) as [o ->]. by eexists.
Qed.
Lemma relationship_known s w a : relationship_wf a -> exists v, relationship s w a = Ok v.
Proof.
intros [Hk Hr]. unfold relationship. assert (Hk' : is_Some (kind_of (as_table a) (as_field a))) by (by eexists).
destruct (select_known s w (as_table a)) as (rows & -> & _); [by eapply kind_of_table|]. cbn [rbind]. rewrite (column_known _ _ Hk'). cbn [rbind].
destruct (select_known s w (as_references a)) as (others & -> & _); [by eapply kind_of_table|]. cbn [rbind]. rewrite (column_known _ _ Hr). by eexists.
Qed.
(** An event whose payload holds a value that cannot be encoded again. *)
Definition unencodable (e : Event) : Prop :=
exists payload key got, unmarshal (e_payload e) = Some (VMap payload) /\ alookup payload key = Some got /\ marshal got = None.
(** A tool request whose payload does not name an operation as a text. *)
Definition unreadable_request (e : Event) : Prop := e_type e = "tool.request" /\ decode_payload operation_named e = Err json_error.

Lemma scalar_encodable v : is_scalar v = true -> is_Some (marshal v).
Proof. destruct v; try done; intros _; apply marshal_encodable; done. Qed.
Lemma matches_error m e x : scalar_match m -> matches m e = Err x -> x = json_error /\ unencodable e.
Proof.
intros Hsc. assert (Hs : forall payload conditions y, Forall (fun kv => is_scalar kv.2 = true) conditions -> same_values payload conditions = Err y ->
y = json_error /\ exists key got, alookup payload key = Some got /\ marshal got = None).
{ intros payload conditions y. induction conditions as [|kv rest IH]; cbn [same_values]; [done|]. intros [Hk Hr]%Forall_cons_1.
unfold same_value. destruct (alookup payload kv.1) as [got|] eqn:Hg; cbn [rbind]; [|done].
destruct (marshal got) eqn:Hm; cbn [rsome rbind]; [|intros [= <-]; split; [done|]; eauto].
destruct (scalar_encodable _ Hk) as [t ->]. cbn [rsome rbind]. destruct (str_eqb _ _); [by apply IH|done]. }
unfold matches. destruct (negb _); [done|]. destruct (bool_decide _); [done|]. destruct (unmarshal (e_payload e)) as [[]|] eqn:Hu; try done.
- intros He. apply Hs in He as (_ & key & got & Hg & _); [|done]. done.
- intros He. apply Hs in He as (-> & key & got & Hg & Hm); [|done]. split; [done|]. eexists _, key, got. by split_and!.
Qed.
Lemma rfold_error {A B} (f : B -> A -> res err B) (good : err -> Prop) b l x : (forall b a y, a ∈ l -> f b a = Err y -> good y) -> rfold f b l = Err x -> good x.
Proof.
intros Hf. revert b. induction l as [|a l IH]; intros b; cbn [rfold]; [done|]. destruct (f b a) as [b'|y] eqn:E; cbn [rbind].
- apply IH. intros b1 a1 y1 Hin. apply Hf. by right.
- intros [= <-]. eapply Hf; [by left|exact E].
Qed.

Section LedgerErrors.
Context (events : list Event).
Definition fails_on (bad : Event -> Prop) (x : err) : Prop := x = json_error /\ exists e, e ∈ events /\ bad e.
Lemma matches_fails m e x : scalar_match m -> e ∈ events -> matches m e = Err x -> fails_on unencodable x.
Proof. intros Hm Hin He. apply matches_error in He as [-> Hu]; [|done]. split; [done|]. by exists e. Qed.
Lemma eventCount_error a e : event_count_wf a -> eventCount events a = Err e -> fails_on unencodable e.
Proof.
unfold eventCount. intros [(m & -> & Hm) [count ->]].
assert (Hids : forall y, event_ids events m = Err y -> fails_on unencodable y).
{ intros y. apply (rfold_error _ (fails_on unencodable)). intros ids ev y' Hin Hy. destruct (matches m ev) eqn:Em; [done|]. injection Hy as <-. by eapply matches_fails. }
assert (Hgo : (try* ids := event_ids events m in try* count := pointer (Some count) in Ok (judge count (Z.of_nat (length ids)) ids)) = Err e -> fails_on unencodable e).
{ destruct (event_ids events m); cbn [rbind pointer rsome]; [done|]. intros [= <-]. by apply Hids. }
intros He. apply Hgo. destruct events; exact He.
Qed.
Lemma mutationForbidden_error manifest a e : mutationForbidden events manifest a = Err e -> fails_on unreadable_request e.
Proof.
unfold mutationForbidden. destruct (rfold _ _ events) as [[? ?]|y] eqn:Ef; cbn [rbind]; [done|]. intros [= <-]. revert Ef. apply (rfold_error _ (fails_on unreadable_request)).
intros [o ids] ev y' Hin Hy. unfold forbid in Hy. destruct (str_eqb (e_type ev) "tool.request") eqn:Ht; [|repeat case_match; done]. apply str_eqb_true in Ht.
destruct (decode_payload operation_named ev) as [op|z] eqn:Hd; cbn [rbind] in Hy; [done|]. injection Hy as <-.
assert (z = json_error) as -> by (unfold decode_payload in Hd; by destruct (match unmarshal_number (e_payload ev) with Some v => operation_named v | None => None end); cbn in Hd; [|injection Hd as <-]).
split; [done|]. by exists ev.
Qed.
Lemma eventOrder_error a e : pair_wf a -> eventOrder events a = Err e -> fails_on unencodable e.
Proof.
unfold eventOrder, pair_of. intros (first & then_ & -> & -> & H1 & H2). destruct (bool_decide (events = [])); [done|]. cbn [pointer rsome rbind].
destruct (rfold _ _ events) as [[? ?]|y] eqn:Ef; cbn [rbind]; [done|]. intros [= <-]. revert Ef. apply (rfold_error _ (fails_on unencodable)).
intros [o ids] ev y' Hin Hy. unfold order_one in Hy. destruct (matches then_ ev) eqn:E1; cbn [rbind] in Hy; [|injection Hy as <-; exact (matches_fails _ _ _ H2 Hin E1)].
destruct (matches first ev) eqn:E2; cbn [rbind] in Hy; [done|]. injection Hy as <-. exact (matches_fails _ _ _ H1 Hin E2).
Qed.
Lemma eventFollows_error a e : pair_wf a -> eventFollows events a = Err e -> fails_on unencodable e.
Proof.
unfold eventFollows, pair_of. intros (first & then_ & -> & -> & H1 & H2). cbn [pointer rsome rbind].
assert (Hall : forall l anchor, (forall ev, ev ∈ l -> ev ∈ events) -> find_then first then_ anchor l = Err e -> fails_on unencodable e); [|by apply Hall].
induction l as [|ev l IH]; intros anchor Hsub; cbn [find_then]; [done|]. assert (Hin : ev ∈ events) by (apply Hsub; left).
assert (Hsub' : forall ev', ev' ∈ l -> ev' ∈ events) by (intros ev' H; apply Hsub; by right). destruct (str_eqb anchor "").
- destruct (matches first ev) eqn:E; cbn [rbind]; [by apply IH|]. intros [= <-]. exact (matches_fails _ _ _ H1 Hin E).
- destruct (matches then_ ev) as [[]|] eqn:E; cbn [rbind]; [done|by apply IH|]. intros [= <-]. exact (matches_fails _ _ _ H2 Hin E).
Qed.
End LedgerErrors.

(** The evaluator of each type. *)
Section Evaluators.
Context (s : DB) (runID : string) (run : RunRow) (events : list Event) (t : Set_) (a : Assertion).
Let w := run_world_id run.
Lemma evaluate_row_count : as_type a = "row_count" -> evaluate s runID run events t a = rowCount s w a.
Proof. unfold evaluate. by intros ->. Qed.
Lemma evaluate_field_equals : as_type a = "field_equals" -> evaluate s runID run events t a = fieldEquals s w a.
Proof. unfold evaluate. by intros ->. Qed.
Lemma evaluate_relationship : as_type a = "relationship" -> evaluate s runID run events t a = relationship s w a.
Proof. unfold evaluate. by intros ->. Qed.
Lemma evaluate_event_count : as_type a = "event_count" -> evaluate s runID run events t a = eventCount events a.
Proof. unfold evaluate. by intros ->. Qed.
Lemma evaluate_forbidden : as_type a = "mutation_forbidden" -> evaluate s runID run events t a = mutationForbidden events (st_manifest t) a.
Proof. unfold evaluate. by intros ->. Qed.
Lemma evaluate_order : as_type a = "event_order" -> evaluate s runID run events t a = eventOrder events a.
Proof. unfold evaluate. by intros ->. Qed.
Lemma evaluate_follows : as_type a = "event_follows" -> evaluate s runID run events t a = eventFollows events a.
Proof. unfold evaluate. by intros ->. Qed.
Lemma evaluate_custom custom : as_type a = "custom" -> alookup (st_customs t) (as_name a) = Some custom ->
evaluate s runID run events t a = rbind (custom s runID run) (fun pd => let '(passed, detail) := pd in Ok (MkVerdict passed detail [])).
Proof. unfold evaluate. intros -> Hc. cbn -[alookup]. rewrite Hc. done. Qed.
End Evaluators.

(** C32. An accepted assertion never fails to evaluate on its own account: it
names no table or column the world lacks, follows no nil pointer, and compares
payloads with values that can always be encoded, so a payload without a value,
or that is not an object, is no match rather than an error.  What is left are
an event whose own payload holds a number the encoder has no text for, for
[mutation_forbidden] a tool request that does not name its operation, and a
custom evaluator's own error. *)
Theorem accepted_assertions_evaluate manifest customs input t a s runID run events e :
check_set manifest customs input = Ok t -> a ∈ st_assertions t -> evaluate s runID run events t a = Err e ->
(as_type a ∈ ["event_count"; "event_order"; "event_follows"] /\ fails_on events unencodable e) \/
(as_type a = "mutation_forbidden" /\ fails_on events unreadable_request e) \/
(as_type a = "custom" /\ exists custom, alookup customs (as_name a) = Some custom /\ custom s runID run = Err e).
Proof.
intros Ht Ha. pose proof (accepted_wf _ _ _ _ Ht) as Hw. destruct (check_set_ok _ _ _ _ Ht) as (Hc & _). rewrite Forall_forall in Hw. specialize (Hw a Ha).
destruct Hw as [Ty H|Ty H|Ty H|Ty H|Ty|Ty H|Ty H|Ty H].
- rewrite evaluate_row_count by done. destruct (rowCount_known s (run_world_id run) a H) as (? & ? & _ & _ & ->). done.
- rewrite evaluate_field_equals by done. by destruct (fieldEquals_known s (run_world_id run) a H) as [? ->].
- rewrite evaluate_relationship by done. by destruct (relationship_known s (run_world_id run) a H) as [? ->].
- rewrite evaluate_event_count by done. intros He. left. split; [|by eapply eventCount_error]. rewrite Ty. by apply contains_spec.
- rewrite evaluate_forbidden by done. intros He. right. left. split; [done|by eapply mutationForbidden_error].
- rewrite evaluate_order by done. intros He. left. split; [|by eapply eventOrder_error]. rewrite Ty. by apply contains_spec.
- rewrite evaluate_follows by done. intros He. left. split; [|by eapply eventFollows_error]. rewrite Ty. by apply contains_spec.
- destruct H as [custom Hcu]. rewrite (evaluate_custom _ _ _ _ _ _ custom Ty) by (by rewrite Hc). intros He. right. right. split; [done|]. exists custom. split; [done|].
destruct (custom s runID run) as [[passed detail]|y]; [done|]. by injection He as <-.
Qed.

(** ** What assertions mean *)

(** An event of the type whose payload has each of the values. *)
Definition matched (m : EventMatch) (e : Event) : bool := match matches m e with Ok b => b | Err _ => false end.
Definition has_value (payload : list (string * goval)) (kv : string * goval) : Prop :=
exists got text, alookup payload kv.1 = Some got /\ marshal got = Some text /\ marshal kv.2 = Some text.
Lemma same_values_spec payload conditions : same_values payload conditions = Ok true <-> Forall (has_value payload) conditions.
Proof.
induction conditions as [|kv rest IH]; cbn [same_values]; [split; [constructor|done]|]. rewrite Forall_cons, <- IH. unfold same_value, has_value.
destruct (alookup payload kv.1) as [got|]; cbn [rbind]; [|split; [done|by intros [(? & ? & ? & _) _]]].
destruct (marshal got) as [left|] eqn:Hg; cbn [rsome rbind]; [|split; [done|intros [(? & ? & [= <-] & ? & _) _]; congruence]].
destruct (marshal kv.2) as [right|] eqn:Hk; cbn [rsome rbind]; [|split; [done|intros [(? & ? & _ & _ & ?) _]; congruence]].
destruct (str_eqb left right) eqn:He.
- apply str_eqb_true in He as ->. split; [|by intros [_ ?]]. intros H. split; [by exists got, right|done].
- apply str_eqb_false in He. split; [done|]. intros [(? & ? & [= <-] & ? & ?) _]. congruence.
Qed.
Lemma matched_spec m e : matched m e = true <-> e_type e = em_type m /\
(em_where m = [] \/ (exists payload, unmarshal (e_payload e) = Some (VMap payload) /\ Forall (has_value payload) (em_where m))).
Proof.
unfold matched, matches. destruct (str_eqb (e_type e) (em_type m)) eqn:Ht; cbn [negb]; [apply str_eqb_true in Ht|apply str_eqb_false in Ht; split; [done|by intros [? _]]].
destruct (bool_decide (em_where m = [])) eqn:Hw; [apply bool_decide_eq_true in Hw|apply bool_decide_eq_false in Hw]; [split; [by auto|done]|].
assert (Hv : forall payload, (match same_values payload (em_where m) with Ok b => b | Err _ => false end) = true <-> Forall (has_value payload) (em_where m)).
{ intros payload. rewrite <- same_values_spec. by destruct (same_values payload (em_where m)) as [[]|]. }
destruct (unmarshal (e_payload e)) as [[]|]; try (split; [done|]; intros [_ [?|(payload & ? & _)]]; done).
- rewrite Hv. split; [|by intros [_ [?|(payload & ? & _)]]]. intros Hf. exfalso. destruct (em_where m) as [|kv rest]; [done|]. apply Forall_cons in Hf as [(? & ? & ? & _) _]. done.
- rewrite Hv. split; [intros Hf; split; [done|right; by eexists]|]. intros [_ [?|(payload & [= <-] & Hf)]]; done.
Qed.

(** The call an event is recorded inside: the last request before it, unless
it was answered. *)
Definition tool_event (e : Event) : bool := contains ["tool.request"; "tool.response"] (e_type e).
Inductive inside : list Event -> string -> Prop :=
| inside_none pre : Forall (fun e => tool_event e = false) pre -> inside pre ""
| inside_call pre q rest op : e_type q = "tool.request" -> decode_payload operation_named q = Ok op -> Forall (fun e => tool_event e = false) rest ->
inside (pre ++ q :: rest) op
| inside_answered pre r rest : e_type r = "tool.response" -> Forall (fun e => tool_event e = false) rest -> inside (pre ++ r :: rest) "".

Section Meaning.
Context (s : DB) (runID : string) (run : RunRow) (events : list Event) (t : Set_).
Let w := run_world_id run.
Definition within (c : Count) (n : Z) : Prop :=
(ct_op c = "equals" /\ n = ct_n c) \/ (ct_op c = "at_least" /\ ct_n c <= n) \/ (ct_op c <> "equals" /\ ct_op c <> "at_least" /\ n <= ct_n c).
Definition means_row_count (a : Assertion) : Prop :=
exists rows count, table_rows s w (as_table a) = Some rows /\ as_count a = Some count /\
within count (Z.of_nat (length (List.filter (fun r => forallb (satisfies r) (as_where a)) rows))).
(** The row a reference names. *)
Definition row_named (r : Ref) (x : row) : Prop := exists rows, table_rows s w (rf_table r) = Some rows /\ x ∈ rows /\ arg x "id" = VString (rf_id r).
Definition means_field_equals (a : Assertion) : Prop :=
exists entity x, as_entity a = Some entity /\ row_named entity x /\
match as_value_from a with
| None => sprint (arg x (as_field a)) = sprint (as_value a)
| Some from => exists y, row_named from y /\ sprint (arg x (as_field a)) = sprint (arg y (rf_field from))
end.
Definition means_relationship (a : Assertion) : Prop :=
exists rows others, table_rows s w (as_table a) = Some rows /\ table_rows s w (as_references a) = Some others /\
forall x, x ∈ rows -> exists y, y ∈ others /\ arg y "id" = arg x (as_field a).
Definition means_event_count (a : Assertion) : Prop :=
exists m count, as_event a = Some m /\ as_count a = Some count /\ within count (Z.of_nat (length (List.filter (matched m) events))).
Definition means_forbidden (a : Assertion) : Prop :=
forall pre e post op, events = pre ++ e :: post -> e_type e = "state.mutation" -> inside pre op -> forbidden (st_manifest t) a op = false.
Definition means_order (a : Assertion) : Prop :=
exists first then_, as_first a = Some first /\ as_then a = Some then_ /\
forall pre e post, events = pre ++ e :: post -> matched then_ e = true -> exists e', e' ∈ pre /\ matched first e' = true.
Definition means_follows (a : Assertion) : Prop :=
exists first then_, as_first a = Some first /\ as_then a = Some then_ /\
exists pre e post, events = pre ++ e :: post /\ matched first e = true /\ exists e', e' ∈ post /\ matched then_ e' = true.
Definition means_custom (a : Assertion) : Prop :=
exists custom detail, alookup (st_customs t) (as_name a) = Some custom /\ custom s runID run = Ok (true, detail).
Definition means (a : Assertion) : Prop :=
if str_eqb (as_type a) "row_count" then means_row_count a
else if str_eqb (as_type a) "field_equals" then means_field_equals a
else if str_eqb (as_type a) "relationship" then means_relationship a
else if str_eqb (as_type a) "event_count" then means_event_count a
else if str_eqb (as_type a) "mutation_forbidden" then means_forbidden a
else if str_eqb (as_type a) "event_order" then means_order a
else if str_eqb (as_type a) "event_follows" then means_follows a
else means_custom a.
End Meaning.

Lemma holds_within c n : holds c n = true <-> within c n.
Proof.
unfold holds, within. destruct (str_eqb (ct_op c) "equals") eqn:H1; [apply str_eqb_true in H1|apply str_eqb_false in H1].
- rewrite Z.eqb_eq. split; [by left|]. intros [[_ ?]|[[? _]|[? _]]]; congruence.
- destruct (str_eqb (ct_op c) "at_least") eqn:H2; [apply str_eqb_true in H2|apply str_eqb_false in H2]; rewrite Z.leb_le.
+ split; [by auto|]. intros [[? _]|[[_ ?]|[_ [? _]]]]; congruence.
+ split; [by auto|]. intros [[? _]|[[? _]|(_ & _ & ?)]]; congruence.
Qed.
Lemma event_ids_filter events m ids : event_ids events m = Ok ids -> ids = map e_id (List.filter (matched m) events).
Proof.
unfold event_ids. assert (Hg : forall acc, rfold (fun ids e => rbind (matches m e) (fun ok : bool => Ok (if ok then ids ++ [e_id e] else ids))) acc events = Ok ids ->
ids = acc ++ map e_id (List.filter (matched m) events)); [|by apply Hg].
induction events as [|e events IH]; intros acc; cbn [rfold List.filter map]; [intros [= <-]; by rewrite app_nil_r|]. unfold matched at 1.
destruct (matches m e) as [[]|]; cbn [rbind]; [|apply IH|done]. intros H%IH. by rewrite H, <- app_assoc.
Qed.
Lemma eventCount_means events a v : eventCount events a = Ok v -> event_count_wf a -> vd_passed v = true <-> means_event_count events a.
Proof.
unfold eventCount, means_event_count. intros He [(m & Hm & _) [count Hc]]. rewrite Hm, Hc in *.
assert (Hv : rbind (event_ids events m) (fun ids => Ok (judge count (Z.of_nat (length ids)) ids)) = Ok v) by (by destruct events).
apply rbind_ok in Hv as (ids & Hids%event_ids_filter & [= <-]). unfold judge, verdict. cbn. rewrite Hids, length_map, holds_within.
split; [intros H; by exists m, count|]. by intros (? & ? & [= <-] & [= <-] & ?).
Qed.
Lemma eventOrder_means events a v : eventOrder events a = Ok v -> pair_wf a -> vd_passed v = true <-> means_order events a.
Proof.
unfold eventOrder, pair_of, means_order. intros He (first & then_ & Hf & Ht & _). rewrite Hf, Ht in *. cbn [pointer rsome rbind] in He.
assert (Hg : (vd_passed v = true <-> forall pre e post, events = pre ++ e :: post -> matched then_ e = true -> exists e', e' ∈ pre /\ matched first e' = true)).
2:{ rewrite Hg. split; [intros H; by exists first, then_|]. by intros (? & ? & [= <-] & [= <-] & ?). }
destruct (bool_decide (events = [])) eqn:Hn.
{ apply bool_decide_eq_true in Hn as ->. injection He as <-. split; [|done]. by intros _ [] ? ? [=]. }
clear Hn. apply rbind_ok in He as ([seen ids] & He & [= <-]). unfold verdict. cbn [vd_passed]. rewrite bool_decide_eq_true.
assert (Hr : forall l b0 ids0, rfold (order_one first then_) (b0, ids0) l = Ok (seen, ids) ->
(ids = [] <-> ids0 = [] /\ forall pre e post, l = pre ++ e :: post -> matched then_ e = true -> b0 = true \/ exists e', e' ∈ pre /\ matched first e' = true)).
{ induction l as [|e l IH]; intros b0 ids0; cbn [rfold].
- intros [= -> ->]. split; [intros ->; split; [done|]; by intros [] ? ? [=]|by intros [? _]].
- unfold order_one at 1, matched. destruct (matches then_ e) as [bt|] eqn:Et; cbn [rbind]; [|done]. destruct (matches first e) as [bf|] eqn:Ef; cbn [rbind]; [|done].
intros Hl. rewrite (IH _ _ Hl). clear IH Hl. split.
+ intros [Hi Hl]. assert (Hi0 : ids0 = [] /\ bt && negb b0 = false) by (destruct (bt && negb b0); [by apply app_nil in Hi as [_ ?]|done]).
destruct Hi0 as [-> Hb]. split; [done|]. intros pre e' post Heq Hm. destruct pre as [|y pre]; cbn in Heq; injection Heq as <- Heq.
* left. rewrite Et in Hm. rewrite Hm in Hb. by destruct b0.
* destruct (Hl pre e' post Heq Hm) as [Hor|(e1 & Hin & Hm1)].
-- apply orb_true_iff in Hor as [?|Hbf]; [by left|]. right. exists e. split; [left|]. by rewrite Ef.
-- right. exists e1. split; [by right|done].
+ intros [-> Hl]. split.
* destruct bt; [|done]. destruct b0; [done|]. destruct (Hl [] e l eq_refl) as [?|(e' & Hin & _)]; [by rewrite Et|done|by apply not_elem_of_nil in Hin].
* intros pre e' post -> Hm. destruct (Hl (e :: pre) e' post eq_refl Hm) as [->|(e1 & [->|Hin]%elem_of_cons & Hm1)]; [by left| |].
-- left. rewrite Ef in Hm1. rewrite Hm1. apply orb_true_r.
-- right. by exists e1. }
rewrite (Hr _ _ _ He). split.
- intros [_ H] pre e post Hev Hm. destruct (H pre e post Hev Hm) as [?|?]; done.
- intros H. split; [done|]. intros pre e post Hev Hm. right. by eapply H.
Qed.

Lemma find_then_spec first then_ anchor l v : Forall (fun e => e_id e <> "") l -> find_then first then_ anchor l = Ok v ->
(vd_passed v = true <-> (anchor <> "" /\ exists e', e' ∈ l /\ matched then_ e' = true) \/
 (anchor = "" /\ exists pre e post, l = pre ++ e :: post /\ matched first e = true /\ exists e', e' ∈ post /\ matched then_ e' = true)).
Proof.
revert anchor. induction l as [|e l IH]; intros anchor Hid; cbn [find_then].
- intros [= <-]. cbn. split; [done|]. intros [(_ & e' & Hin & _)|(_ & [] & ? & ? & [=] & _)]. by apply not_elem_of_nil in Hin.
- apply Forall_cons in Hid as [He Hid]. destruct (str_eqb anchor "") eqn:Ha; [apply str_eqb_true in Ha as ->|apply str_eqb_false in Ha].
+ destruct (matches first e) as [bf|] eqn:Ef; cbn [rbind]; [|done]. intros Hl. rewrite (IH _ Hid Hl). assert (Hm : matched first e = bf) by (unfold matched; by rewrite Ef). split.
* destruct bf.
-- intros [[_ Hex]|[Hz _]]; [|done]. right. split; [done|]. by exists [], e, l.
-- intros [[? _]|(_ & pre & e1 & post & -> & H)]; [done|]. right. split; [done|]. by exists (e :: pre), e1, post.
* intros [[? _]|(_ & pre & e1 & post & Heq & Hm1 & e2 & Hin & Hm2)]; [done|]. destruct pre as [|y pre]; injection Heq as <- ->.
-- rewrite Hm in Hm1. rewrite Hm1. left. split; [done|]. by exists e2.
-- destruct bf; [left|right]; (split; [done|]).
 ++ exists e2. split; [|done]. apply elem_of_app. right. by right.
 ++ by exists pre, e1, post; eauto.
+ destruct (matches then_ e) as [bt|] eqn:Et; cbn [rbind]; [|done]. assert (Hm : matched then_ e = bt) by (unfold matched; by rewrite Et). destruct bt.
* intros [= <-]. cbn. split; [|done]. intros _. left. split; [done|]. exists e. split; [left|done].
* intros Hl. rewrite (IH _ Hid Hl). split.
-- intros [(_ & e' & Hin & Hm')|[? _]]; [|done]. left. split; [done|]. exists e'. split; [by right|done].
-- intros [(_ & e' & [->|Hin]%elem_of_cons & Hm')|[? _]]; [congruence| |done]. left. split; [done|]. by exists e'.
Qed.
Lemma eventFollows_means events a v : Forall (fun e => e_id e <> "") events -> eventFollows events a = Ok v -> pair_wf a -> vd_passed v = true <-> means_follows events a.
Proof.
unfold eventFollows, pair_of, means_follows. intros Hid He (first & then_ & Hf & Ht & _). rewrite Hf, Ht in *. cbn [pointer rsome rbind] in He.
rewrite (find_then_spec _ _ _ _ _ Hid He). split.
- intros [[? _]|[_ H]]; [done|]. by exists first, then_.
- intros (? & ? & [= <-] & [= <-] & H). by right.
Qed.

Lemma inside_snoc pre e op : inside (pre ++ [e]) op <->
(e_type e = "tool.request" /\ decode_payload operation_named e = Ok op) \/ (e_type e = "tool.response" /\ op = "") \/ (tool_event e = false /\ inside pre op).
Proof.
split.
- intros H. remember (pre ++ [e]) as l eqn:Hl. destruct H as [p Hp|p q rest op Hq Hd Hr|p r rest Hq Hr]; subst.
+ apply Forall_app in Hp as [Hp He]. rewrite Forall_singleton in He. right. right. split; [done|by constructor].
+ symmetry in Hl. apply EvalFacts.snoc_split in Hl as [(-> & -> & ->)|(rest' & -> & ->)]; [by left|]. apply Forall_app in Hr as [Hr He]. rewrite Forall_singleton in He.
right. right. split; [done|by constructor].
+ symmetry in Hl. apply EvalFacts.snoc_split in Hl as [(-> & -> & ->)|(rest' & -> & ->)]; [right; by left|]. apply Forall_app in Hr as [Hr He]. rewrite Forall_singleton in He.
right. right. split; [done|by constructor].
- intros [[Hq Hd]|[[Hr ->]|[He H]]].
+ by apply inside_call.
+ by apply inside_answered.
+ destruct H as [p Hp|p q rest op Hq Hd Hr|p r rest Hq Hr]; rewrite <- ?app_assoc; cbn.
* apply inside_none, Forall_app. by rewrite Forall_singleton.
* apply inside_call; [done|done|]. apply Forall_app. by rewrite Forall_singleton.
* apply inside_answered; [done|]. apply Forall_app. by rewrite Forall_singleton.
Qed.
Lemma inside_nil op : inside [] op -> op = "".
Proof. intros H. remember [] as l eqn:Hl. destruct H as [|pre|pre]; [done| |]; by destruct pre. Qed.
Lemma inside_unique pre op op' : inside pre op -> inside pre op' -> op' = op.
Proof.
revert op op'. induction pre as [|e pre IH] using rev_ind; intros op op'; [by intros ->%inside_nil ->%inside_nil|]. rewrite !inside_snoc. unfold tool_event.
intros [[Ha Hb]|[[Ha ->]|[Ha Hb]]] [[Hc Hd]|[[Hc ->]|[Hc Hd]]]; try congruence; try (rewrite Ha in Hc; discriminate Hc); try (rewrite Hc in Ha; discriminate Ha); eauto.
Qed.
Lemma mutationForbidden_means events t a v : mutationForbidden events (st_manifest t) a = Ok v -> vd_passed v = true <-> means_forbidden events t a.
Proof.
unfold mutationForbidden, means_forbidden. intros ([op ids] & He & [= <-])%rbind_ok. unfold verdict. cbn [vd_passed]. rewrite bool_decide_eq_true.
assert (Hr : forall l pre op0 ids0, inside pre op0 -> rfold (forbid (st_manifest t) a) (op0, ids0) l = Ok (op, ids) ->
(ids = [] <-> ids0 = [] /\ forall mid e post o, l = mid ++ e :: post -> e_type e = "state.mutation" -> inside (pre ++ mid) o -> forbidden (st_manifest t) a o = false)).
{ induction l as [|e l IH]; intros pre op0 ids0 Hin; cbn [rfold].
- intros [= -> ->]. split; [intros ->; split; [done|]; by intros [] ? ? ? [=]|by intros [? _]].
- intros ([op1 ids1] & Hf & Hl)%rbind_ok.
assert (Hin1 : inside (pre ++ [e]) op1 /\ (ids1 = [] <-> ids0 = [] /\ (e_type e = "state.mutation" -> forbidden (st_manifest t) a op0 = false))).
{ unfold forbid in Hf. rewrite inside_snoc. unfold tool_event. destruct (str_eqb (e_type e) "tool.request") eqn:Hq; [apply str_eqb_true in Hq|apply str_eqb_false in Hq].
- apply rbind_ok in Hf as (o & Ho & [= -> ->]). split; [by left|]. split; [intros ->; by rewrite Hq|by intros [? _]].
- destruct (str_eqb (e_type e) "tool.response") eqn:Hrs; [apply str_eqb_true in Hrs|apply str_eqb_false in Hrs].
+ injection Hf as <- <-. split; [right; by left|]. split; [intros ->; by rewrite Hrs|by intros [? _]].
+ assert (Hne : contains ["tool.request"; "tool.response"] (e_type e) = false).
{ apply not_true_iff_false. rewrite contains_spec, !elem_of_cons. intros [?|[?|H%not_elem_of_nil]]; done. }
destruct (str_eqb (e_type e) "state.mutation") eqn:Hm; [apply str_eqb_true in Hm|apply str_eqb_false in Hm]; injection Hf as <- <-; (split; [right; right; done|]).
* destruct (forbidden (st_manifest t) a op0).
  -- split; [by intros [_ [=]]%app_nil|]. intros [_ H]. by specialize (H Hm).
  -- split; [by intros ->|by intros [? _]].
* split; [by intros ->|by intros [? _]]. }
destruct Hin1 as [Hin1 Hids1]. rewrite (IH _ _ _ Hin1 Hl), Hids1. clear IH Hl. split.
+ intros [[-> Hm] Hrest]. split; [done|]. intros mid e' post o Heq He' Ho. destruct mid as [|y mid]; cbn in Heq; injection Heq as <- Heq.
* rewrite app_nil_r in Ho. rewrite (inside_unique _ _ _ Hin Ho). by apply Hm.
* apply (Hrest mid e' post); [done|done|]. by rewrite <- app_assoc.
+ intros [-> Hrest]. split; [split; [done|]|].
* intros Hm. apply (Hrest [] e l); [done|done|]. by rewrite app_nil_r.
* intros mid e' post o -> He' Ho. apply (Hrest (e :: mid) e' post); [done|done|]. by rewrite <- app_assoc in Ho. }
rewrite (Hr _ [] _ _ (inside_none [] (Forall_nil_2 _)) He). cbn. split; [intros [_ H] pre e post o; apply H|]. intros H. split; [done|]. intros pre e post o. apply H.
Qed.

(** ** Queries mean what they say *)

Section Queries.
Context (s : DB) (run : RunRow).
Let w := run_world_id run.

Lemma sql_equal_true a b : sql_equal a b = true -> a = b.
Proof. destruct a, b; cbn; try done; [by intros ->%Z.eqb_eq|by intros ->%str_eqb_true]. Qed.
Lemma sql_equal_text t : sql_equal (VString t) (VString t) = true.
Proof. apply str_eqb_refl. Qed.
Lemma select_rows table rows : select s w table = Ok rows <-> table_rows s w table = Some rows.
Proof. unfold select. apply rsome_ok. Qed.
Lemma row_unique r x y : ref_wf r -> row_named s run r x -> row_named s run r y -> y = x.
Proof.
intros Hid (rows & Hr & Hx & Ex) (rows' & Hr' & Hy & Ey). rewrite Hr in Hr'. injection Hr' as <-. pose proof Hid as [kind Hk]. unfold kind_of in Hk.
destruct (alookup tables (rf_table r)) as [columns|] eqn:Ht; [|done]. cbn in Hk. apply alookup_in in Hk.
assert (Hnd : NoDup (map (fun x => arg x "id") rows)).
{ apply (table_ids s w (rf_table r) (map fst columns)); [by apply known_table| |done]. apply list_elem_of_fmap. by exists ("id", kind). }
symmetry. apply (NoDup_map_inj (fun x => arg x "id") rows); [done..|congruence].
Qed.
(** [lookup] reads the field of the row a reference names. *)
Lemma lookup_spec r field o : lookup s w r field = Ok o -> ref_wf r ->
match o with
| Some v => exists x, row_named s run r x /\ v = arg x field
| None => forall x, ~ row_named s run r x
end.
Proof.
unfold lookup. intros H Hid. apply rbind_ok in H as (rows & Hr%select_rows & H). apply rbind_ok in H as (_ & _ & H). apply rbind_ok in H as (_ & _ & [= <-]).
destruct (List.find (fun x => sql_equal (arg x "id") (VString (rf_id r))) rows) as [x|] eqn:Hf; cbn [fmap option_fmap option_map].
- apply List.find_some in Hf as [Hin%list_elem_of_In He%sql_equal_true]. exists x. split; [|done]. by exists rows.
- intros x (rows' & Hr' & Hin & He). fold w in Hr'. rewrite Hr in Hr'. injection Hr' as <-. pose proof (List.find_none _ _ Hf x) as Hn. cbn in Hn. rewrite He, sql_equal_text in Hn.
discriminate Hn. by apply list_elem_of_In.
Qed.
Lemma rowCount_means a v : rowCount s w a = Ok v -> row_count_wf a -> vd_passed v = true <-> means_row_count s run a.
Proof.
intros Hv Hwf. destruct (rowCount_known s w a Hwf) as (rows & count & Hr%select_rows & Hc & He). rewrite He in Hv. injection Hv as <-.
unfold judge, verdict, means_row_count. cbn [vd_passed]. rewrite holds_within. split; [intros H; by exists rows, count|].
intros (rows' & count' & Hr' & Hc' & H). fold w in Hr'. rewrite Hr in Hr'. rewrite Hc in Hc'. by injection Hr' as <-; injection Hc' as <-.
Qed.
Lemma fieldEquals_means a v : fieldEquals s w a = Ok v -> field_equals_wf a -> vd_passed v = true <-> means_field_equals s run a.
Proof.
unfold fieldEquals, means_field_equals. intros Hv [(entity & He & Hid & Hf) Hfrom]. rewrite He in *. cbn [pointer rsome rbind] in Hv.
apply rbind_ok in Hv as (o & Hl & Hv). pose proof (lookup_spec _ _ _ Hl Hid) as Hs. destruct o as [actual|].
- destruct Hs as (x & Hx & ->). destruct (as_value_from a) as [from|].
+ destruct (Hfrom from eq_refl) as [Hfid _]. apply rbind_ok in Hv as (o & Hl2 & [= <-]). pose proof (lookup_spec _ _ _ Hl2 Hfid) as Hs. destruct o as [want|].
* destruct Hs as (y & Hy & ->). unfold verdict. cbn [vd_passed]. rewrite str_eqb_true. split; [intros H; exists entity, x; eauto|].
intros (e' & x' & [= <-] & Hx' & y' & Hy' & H). by rewrite (row_unique _ _ _ Hid Hx Hx'), (row_unique _ _ _ Hfid Hy Hy') in H.
* split; [done|]. intros (? & ? & _ & _ & y & Hy & _). by apply Hs in Hy.
+ injection Hv as <-. unfold verdict. cbn [vd_passed]. rewrite str_eqb_true. split; [intros H; exists entity, x; eauto|].
intros (e' & x' & [= <-] & Hx' & H). by rewrite (row_unique _ _ _ Hid Hx Hx') in H.
- injection Hv as <-. split; [done|]. intros (e' & x & [= <-] & Hx & _). by apply Hs in Hx.
Qed.

(** A column of kind text is a string in every row. *)
Definition kinds_agree : bool :=
forallb (fun t : string * list (string * string) => forallb (fun ck => implb (str_eqb ck.2 text) (negb (contains integer_columns ck.1))) t.2) tables.
Lemma text_column table column : kind_of table column = Some text -> contains integer_columns column = false.
Proof.
unfold kind_of. destruct (alookup tables table) as [columns|] eqn:Ht; [|done]. cbn. intros Hk. apply alookup_in in Ht, Hk.
assert (Hb : kinds_agree = true) by (vm_compute; reflexivity). unfold kinds_agree in Hb. rewrite forallb_forall in Hb. specialize (Hb _ (proj1 (list_elem_of_In _ _) Ht)).
cbn in Hb. rewrite forallb_forall in Hb. specialize (Hb _ (proj1 (list_elem_of_In _ _) Hk)). cbn in Hb. by apply negb_true_iff in Hb.
Qed.
Lemma text_value table column rows x : kind_of table column = Some text -> table_rows s w table = Some rows -> x ∈ rows -> exists t, arg x column = VString t.
Proof.
intros Hk Hr Hx. pose proof (text_column _ _ Hk) as Hi. unfold kind_of in Hk. destruct (alookup tables table) as [columns|] eqn:Ht; [|done]. cbn in Hk. apply alookup_in in Hk.
destruct (table_rows_columns s w table _ (known_table _ _ Ht)) as (rows' & Hr' & Hf). rewrite Hr in Hr'. injection Hr' as <-. rewrite Forall_forall in Hf.
destruct (Hf x Hx) as [Hc Hv]. assert (Hin : column ∈ map fst x) by (rewrite Hc; apply list_elem_of_fmap; by exists (column, text)).
unfold arg. destruct (alookup x column) as [v|] eqn:Ha; [|by apply alookup_None in Ha]. cbn. apply alookup_in in Ha. rewrite Forall_forall in Hv. specialize (Hv _ Ha).
unfold has_kind in Hv. cbn [fst snd] in Hv. destruct v; try done; [congruence|by eexists].
Qed.
Lemma empty_dangling (l : list string) : sort_strings (remove_dups l) = [] <-> l = [].
Proof.
split; [|by intros ->]. intros H. destruct l as [|x l]; [done|]. exfalso.
assert (Hx : x ∈ sort_strings (remove_dups (x :: l))) by (unfold sort_strings; rewrite merge_sort_Permutation, elem_of_remove_dups; left). rewrite H in Hx. by apply not_elem_of_nil in Hx.
Qed.
Lemma relationship_means a v : relationship s w a = Ok v -> relationship_wf a -> vd_passed v = true <-> means_relationship s run a.
Proof.
unfold relationship, means_relationship. intros Hv [Hk Hid]. apply rbind_ok in Hv as (rows & Hr%select_rows & Hv). apply rbind_ok in Hv as (_ & _ & Hv).
apply rbind_ok in Hv as (others & Ho%select_rows & Hv). apply rbind_ok in Hv as (_ & _ & [= <-]). unfold verdict. cbn [vd_passed].
rewrite bool_decide_eq_true, empty_dangling. fold w. split.
- intros Hn. exists rows, others. split_and!; [done|done|]. intros x Hx. apply map_eq_nil in Hn.
destruct (existsb (fun o => sql_equal (arg o "id") (arg x (as_field a))) others) eqn:Hex.
+ apply existsb_exists in Hex as (y & Hy%list_elem_of_In & He%sql_equal_true). by exists y.
+ exfalso. eapply in_nil. rewrite <- Hn. apply filter_In. split; [by apply list_elem_of_In|]. by rewrite Hex.
- intros (rows' & others' & Hr' & Ho' & H). rewrite Hr in Hr'. rewrite Ho in Ho'. injection Hr' as <-. injection Ho' as <-.
destruct (List.filter _ rows) as [|x l] eqn:Hf; [done|]. exfalso. assert (Hx : x ∈ x :: l) by left. rewrite <- Hf in Hx.
apply list_elem_of_In, filter_In in Hx as [Hx%list_elem_of_In Hn%negb_true_iff]. destruct (H x Hx) as (y & Hy & He).
destruct (text_value _ _ _ _ Hk Hr Hx) as [tx Htx]. apply not_true_iff_false in Hn. apply Hn, existsb_exists. exists y. split; [by apply list_elem_of_In|].
rewrite He, Htx. apply sql_equal_text.
Qed.
End Queries.

Lemma evaluate_means s runID run events t a v : Forall (fun e => e_id e <> "") events -> wf (st_customs t) a -> evaluate s runID run events t a = Ok v ->
vd_passed v = true <-> means s runID run events t a.
Proof.
intros Hid Hw. destruct Hw as [Ty H|Ty H|Ty H|Ty H|Ty|Ty H|Ty H|Ty H]; unfold means; rewrite Ty.
- rewrite evaluate_row_count by done. intros Hv. by eapply rowCount_means.
- rewrite evaluate_field_equals by done. intros Hv. by eapply fieldEquals_means.
- rewrite evaluate_relationship by done. intros Hv. by eapply relationship_means.
- rewrite evaluate_event_count by done. intros Hv. by eapply eventCount_means.
- rewrite evaluate_forbidden by done. intros Hv. by eapply mutationForbidden_means.
- rewrite evaluate_order by done. intros Hv. by eapply eventOrder_means.
- rewrite evaluate_follows by done. intros Hv. by eapply eventFollows_means.
- destruct H as [custom Hc]. rewrite (evaluate_custom _ _ _ _ _ _ custom Ty Hc). intros ([passed detail] & Hr & [= <-])%rbind_ok. cbn. unfold means_custom.
split; [intros ->; by exists custom, detail|]. intros (? & ? & Hc' & Hr'). rewrite Hc in Hc'. injection Hc' as <-. rewrite Hr in Hr'. by injection Hr' as ->.
Qed.

(** C31. A report says of each accepted assertion whether it holds, under its
own id and in the order of the file, and passes exactly when all of them
do. *)
Theorem check_means manifest customs input t s runID run events report :
check_set manifest customs input = Ok t -> runs s !! runID = Some run -> Ledger runID s = Ok events -> Forall (fun e => e_id e <> "") events ->
Check runID t s = Ok report ->
Forall2 (fun a r => rt_id r = as_id a /\ (rt_passed r = true <-> means s runID run events t a)) (st_assertions t) (re_results report) /\
(re_passed report = true <-> Forall (means s runID run events t) (st_assertions t)).
Proof.
intros Ht Hrun Hev Hid Hc. pose proof (accepted_wf _ _ _ _ Ht) as Hw. destruct (check_set_ok _ _ _ _ Ht) as (Hcu & _). rewrite <- Hcu in Hw.
unfold Check in Hc. rewrite Hrun, Hev in Hc. apply rassert_bind in Hc as [_ Hc]. cbn [rsome rbind] in Hc. apply rbind_ok in Hc as (results & Hr%rmap_ok & [= <-]).
cbn [re_results re_passed]. clear Ht Hev Hcu.
assert (Hf : Forall2 (fun a r => rt_id r = as_id a /\ (rt_passed r = true <-> means s runID run events t a)) (st_assertions t) results).
{ induction Hr as [|a r l results Ha Hr IH]; [constructor|]. apply Forall_cons in Hw as [Hwa Hw]. constructor; [|by apply IH].
unfold check_one in Ha. apply rbind_ok in Ha as (v & Hv%rwrap_ok & [= <-]). split; [done|]. cbn. by eapply evaluate_means. }
split; [done|]. clear Hr Hw. induction Hf as [|a r l results [_ Ha] _ IH]; cbn [forallb]; [by split; [constructor|]|]. rewrite andb_true_iff, Forall_cons, Ha, IH. done.
Qed.

(** ** An example: a file of assertions about the recovered refund *)
Module AssertionDemo.
Definition raw (id typ : string) : rawAssertion := MkRawAssertion id typ "" None None None None "" "" VNil "" "" "" None None "" "" "".
Definition row_count : rawAssertion :=
MkRawAssertion "one_refund" "row_count" "refunds" (Some [("charge_id", VString "CH-1002"); ("reason", VMap [("contains", VString "dup")])]) (Some 1) None None
"" "" VNil "" "" "" None None "" "" "".
Definition field_equals : rawAssertion := MkRawAssertion "refunded" "field_equals" "" None None None None "charges.CH-1002" "refunded_cents" (VInt 500) "" "" "" None None "" "" "".
Definition relationship : rawAssertion := MkRawAssertion "refunds_have_charges" "relationship" "refunds" None None None None "" "charge_id" VNil "" "charges" "" None None "" "" "".
Definition read_back : rawAssertion :=
MkRawAssertion "read_back" "event_follows" "" None None None None "" "" VNil "" "" "" (Some (MkRawMatch "chaos.injected" None))
(Some (MkRawMatch "tool.request" (Some [("operation_id", VString "getCharge")]))) "" "" "".
Definition no_message : rawAssertion := MkRawAssertion "no_message" "mutation_forbidden" "" None None None None "" "" VNil "" "" "" None None "messaging" "" "".
Definition input : rawSet := MkRawSet 1 [row_count; field_equals; relationship; read_back; no_message].
Definition accepted : Set_ := match check_set EvalFacts.SecurityDemo.manifest [] input with Ok t => t | Err _ => MkSet [] EvalFacts.SecurityDemo.manifest [] end.
Lemma set_parsed : check_set EvalFacts.SecurityDemo.manifest [] input = Ok accepted.
Proof. vm_compute. reflexivity. Qed.
Lemma report : match Check "R-1" accepted EvalFacts.AnalysisDemo.db with Ok r => re_passed r | Err _ => false end = true.
Proof. vm_compute. reflexivity. Qed.
End AssertionDemo.
Lemma check_means_witness : Forall (means EvalFacts.AnalysisDemo.db "R-1" EvalFacts.AnalysisDemo.run (Events "R-1" EvalFacts.AnalysisDemo.db) AssertionDemo.accepted)
(st_assertions AssertionDemo.accepted).
Proof.
pose proof AssertionDemo.report as Hr. destruct (Check "R-1" AssertionDemo.accepted EvalFacts.AnalysisDemo.db) as [report|] eqn:E; [|discriminate Hr].
destruct (check_means EvalFacts.SecurityDemo.manifest [] AssertionDemo.input AssertionDemo.accepted EvalFacts.AnalysisDemo.db "R-1" EvalFacts.AnalysisDemo.run
(Events "R-1" EvalFacts.AnalysisDemo.db) report AssertionDemo.set_parsed eq_refl eq_refl EvalFacts.AnalysisDemo.events_named E) as [_ [Hp _]]. exact (Hp Hr).
Defined.
(** A ledger with a request that is not an object. *)
Lemma accepted_assertions_evaluate_witness :
let events := [MkEvt "R-1/1" "R-1" 1 "" "" "tool.request" "[]"] in
exists a, a ∈ st_assertions AssertionDemo.accepted /\ as_type a = "mutation_forbidden" /\
evaluate EvalFacts.AnalysisDemo.db "R-1" EvalFacts.AnalysisDemo.run events AssertionDemo.accepted a = Err json_error.
Proof.
intros events. destruct (nth_lookup_or_length (st_assertions AssertionDemo.accepted) 4 (no_assertion "" "" "")) as [Ha|Ha]; [|vm_compute in Ha; lia].
set (a := nth 4 (st_assertions AssertionDemo.accepted) (no_assertion "" "" "")) in *. apply list_elem_of_lookup_2 in Ha. exists a. split; [exact Ha|]. split; [vm_compute; reflexivity|].
destruct (evaluate EvalFacts.AnalysisDemo.db "R-1" EvalFacts.AnalysisDemo.run events AssertionDemo.accepted a) as [v|e] eqn:E; [vm_compute in E; discriminate E|].
destruct (accepted_assertions_evaluate _ _ _ _ a EvalFacts.AnalysisDemo.db "R-1" EvalFacts.AnalysisDemo.run events e AssertionDemo.set_parsed Ha E) as [[Ht _]|[[_ [-> _]]|[Ht _]]];
[|reflexivity|vm_compute in Ht; discriminate Ht].
exfalso. apply contains_spec in Ht. vm_compute in Ht. discriminate Ht.
Defined.
End AssertionFacts.
