(* ===== verification/Reconstruct.v ===== *)
(** * Reconstructing a checkpoint (internal/checkpoint/reconstruct.go)

    A recorded prefix is executed again in a store of its own: the world is
    seeded, the run created under its old id, and each recorded request, turn
    and call repeated.  What results is compared with what was recorded, event
    by event, before anything is built on it. *)

From S2P Require Export Runs Checkpoint RunnerFacts.
Open Scope Z_scope.
Open Scope tx_scope.

Module Reconstruct.
Import Runs Checkpoint.

(** [decodeInto] keeps numbers as they are written. *)
Definition keep_number (v : goval) : option goval := Some v.
Definition decodeMessage (raw : string) : option Message := match unmarshal_number raw with Some v => message_with keep_number v raw | None => None end.
Definition decodeHistory : string -> option (list Message) := history_with keep_number.
(** [decodePayload] *)
Definition decodePayload (raw : string) : option goval := unmarshal_number raw.
(** [equalPayload] *)
Definition equalPayload (left right : string) : bool :=
match canonicalJSON left, canonicalJSON right with Some a, Some b => str_eqb a b | _, _ => false end.

(** The request of a recorded tool call. *)
Record CallRequest := MkCallRequest { cr_call_id : string; cr_operation_id : string; cr_arguments : list (string * goval) }.
Definition call_request (v : goval) : option CallRequest :=
match field v "call_id" decode_text "", field v "operation_id" decode_text "", field v "arguments" (decode_map keep_number) [] with
| Some c, Some o, Some a => Some (MkCallRequest c o a)
| _, _, _ => None
end.
Definition decodeRequest (raw : string) : option CallRequest := match unmarshal_number raw with Some v => call_request v | None => None end.

(** ** Executing the prefix again *)

Section Rebuild.
Context `{!SqlBind} (runID : string) (manifest : Manifest).

(** The dispatcher of the rebuilt store: no fence, no crash. *)
Definition dispatcher : Dispatcher := MkDispatcher manifest None None None None.
Definition history_or_error (decode : string -> option (list Message)) (text : string) : res err (list Message) := rsome (decode text) json_error.

(** The cases of the loop's [switch]. *)
Definition again_request (e : Event) : DbIO unit :=
io* current := Run runID in
io* requestHistory := iolift (history_or_error decode_history (run_transcript current)) in
io* operations := atomically (Authz.Exposed runID (mf_operations manifest)) in
let request := request_value current requestHistory operations in
io* encoded := iolift (rsome (marshal request) json_error) in
io* _ := iolift (rassert (equalPayload (e_payload e) encoded) (at_event "model request differs from reconstructed context" e)) in
StartModelCall runID request.
Definition again_response (e : Event) (history : list Message) (turn : Z) : DbIO (list Message * Z) :=
io* message := iolift (rsome (decodeMessage (e_payload e)) json_error) in
let history := history ++ [message] in
io* transcript := iolift (rsome (marshal (history_value history)) json_error) in
io* _ := SaveTurn runID (turn + 1) transcript (message_value message) (interruptionPayloads (ms_interruptions message)) in
ioret (history, turn + 1).
Definition again_call (e : Event) : DbIO string :=
io* request := iolift (rsome (decodeRequest (e_payload e)) json_error) in
iotry (Invoke dispatcher runID (cr_call_id request) (cr_operation_id request) (cr_arguments request))
(fun out => match out with
    | Ok _ => ioret (cr_call_id request)
    | Err x => iofail (ErrWrap ("replaying tool call " +:+ cr_call_id request +:+ ": ") x)
    end).
(** After the response of a call the history is read back. *)
Definition after_call : DbIO (list Message) :=
io* current := Run runID in iolift (history_or_error decodeHistory (run_transcript current)).
Definition again_status (e : Event) : DbIO unit :=
io* payload := iolift (rsome (decodePayload (e_payload e)) json_error) in
SaveStatus runID (if str_eqb (e_type e) "execution.completed" then "completed" else "paused") (e_type e) payload.

(** The loop over the events after the first.  A repeated call records its own
events, so the recorded ones up to its response are passed over:
[waiting] is the call whose response is looked for. *)
Fixpoint rebuild (events : list Event) (waiting : option string) (history : list Message) (turn : Z) : DbIO unit :=
match events, waiting with
| [], None => ioret tt
| [], Some call => iofail (ErrText ("tool call " +:+ call +:+ " has no response before checkpoint"))
| e :: rest, Some call =>
if str_eqb (e_type e) "tool.response" then io* history := after_call in rebuild rest None history turn
else rebuild rest waiting history turn
| e :: rest, None =>
if str_eqb (e_type e) "model.request" then io* _ := again_request e in rebuild rest None history turn
else if str_eqb (e_type e) "model.response" then io* '(history, turn) := again_response e history turn in rebuild rest None history turn
else if str_eqb (e_type e) "provider.interrupted" then rebuild rest None history turn
else if str_eqb (e_type e) "tool.request" then io* call := again_call e in rebuild rest (Some call) history turn
else if contains ["execution.paused"; "execution.completed"] (e_type e) then io* _ := again_status e in rebuild rest None history turn
else iofail (ErrText ("unexpected standalone event " +:+ quote (e_type e) +:+ " at " +:+ itoa (e_seq e)))
end.
End Rebuild.

(** ** Comparing it with the recording *)

(** [compareToolResult] *)
Definition compareToolResult (source target : DB) (runID callID : string) : res err unit :=
try* left := rsome (tool_results source !! (runID, callID)) ErrNoRows in
try* right := rsome (tool_results target !! (runID, callID)) ErrNoRows in
rassert (str_eqb (tr_operation_id left) (tr_operation_id right) && (tr_status left =? tr_status right)
 && equalPayload (tr_arguments left) (tr_arguments right) && equalPayload (tr_body left) (tr_body right))
(ErrText ("checkpoint tool result differs for call " +:+ callID)).
(** [compareTranscriptPrefix] *)
Definition raw_messages (text : string) : res err (list string) :=
match unmarshal_number text with
| Some VNil => Ok []
| Some (VSlice _) => rsome (raw_list text) json_error
| _ => Err json_error
end.
Fixpoint compare_messages (i : Z) (source rebuilt : list string) : res err unit :=
match rebuilt, source with
| [], _ => Ok tt
| m :: rebuilt', m0 :: source' =>
try* _ := rassert (equalPayload m0 m) (ErrText ("source transcript differs at message " +:+ itoa (i + 1))) in compare_messages (i + 1) source' rebuilt'
| _ :: _, [] => Err (ErrText "source transcript is shorter than checkpoint transcript")
end.
Definition compareTranscriptPrefix (source rebuilt : string) : res err unit :=
try* sourceMessages := raw_messages source in
try* rebuiltMessages := raw_messages rebuilt in
try* _ := rassert (Z.of_nat (length rebuiltMessages) <=? Z.of_nat (length sourceMessages)) (ErrText "source transcript is shorter than checkpoint transcript") in
compare_messages 0 sourceMessages rebuiltMessages.
(** The recorded events and the ones made again in their place; [position] is the
number of the first of those left. *)
Definition compare_event (source target : DB) (runID : string) (position : Z) (recorded made : Event) : res err unit :=
try* _ := rassert (str_eqb (e_type recorded) (e_type made) && str_eqb (e_world_at recorded) (e_world_at made) && equalPayload (e_payload recorded) (e_payload made))
  (ErrText ("checkpoint replay diverged at event " +:+ itoa position)) in
if str_eqb (e_type recorded) "tool.request" then
try* callID := rsome (payload_text recorded "call_id") json_error in compareToolResult source target runID callID
else Ok tt.
Fixpoint compare_events (source target : DB) (runID : string) (position : Z) (recorded made : list Event) : res err unit :=
match recorded, made with
| e :: recorded', e' :: made' => try* _ := compare_event source target runID position e e' in compare_events source target runID (position + 1) recorded' made'
| _, _ => Ok tt
end.

(** ** [Reconstruct] *)

Section OfSource.
Context `{!SqlBind, !YamlNodes, !WorldYaml} (source : DB) (runID : string) (selected : Checkpoint) (manifest : Manifest).

(** What is read of the source: the run, the seed and digest of its world, and
its events. *)
Definition checked_source : res err (RunRow * WorldRow * list Event) :=
try* points := List source runID manifest in
try* current := Select points (cp_event_seq selected) in
try* _ := rassert (bool_decide (current = selected)) (ErrText ("checkpoint " +:+ cp_id selected +:+ " no longer matches source prefix")) in
try* original := rsome (runs source !! runID) ErrNoRows in
try* world := rsome (worlds source !! run_world_id original) ErrNoRows in
Ok (original, world, Events runID source).
Definition attach (row : res err (string * string)) (put : string -> string -> DbIO unit) : DbIO unit :=
match row with Ok (json, digest) => put json digest | Err ErrNoRows => ioret tt | Err e => iofail e end.
(** What is done to the new store, from the seeded world on. *)
Definition replay_prefix (original : RunRow) (events : list Event) (world : World) : DbIO unit :=
io* _ := CreateReplayRun runID original (w_id world) in
io* _ := attach (ChaosPolicy runID source) (AttachChaos runID) in
io* _ := attach (AuthPolicy runID source) (AttachAuth runID) in
rebuild runID manifest (drop 1 (take (Z.to_nat (cp_event_seq selected)) events)) None [] 0.
(** What is checked of it. *)
Definition verified (original : RunRow) (events : list Event) (target : DB) : res err RunRow :=
let generated := Events runID target in
try* _ := rassert (Z.of_nat (length generated) =? cp_event_seq selected)
  (ErrText ("checkpoint event count differs: recorded " +:+ itoa (cp_event_seq selected) +:+ ", replayed " +:+ itoa (Z.of_nat (length generated)))) in
try* _ := compare_events source target runID 2 (drop 1 (take (Z.to_nat (cp_event_seq selected)) events)) (drop 1 generated) in
try* rebuilt := rsome (runs target !! runID) ErrNoRows in
try* _ := compareTranscriptPrefix (run_transcript original) (run_transcript rebuilt) in
Ok rebuilt.
(** The rebuilt store and the run in it; [now] is the clock of the store, and
[None] is the draw of the seed running out of fuel. *)
Definition Reconstruct (fuel : nat) (now : time) : option (res err (DB * RunRow)) :=
match checked_source with
| Err e => Some (Err e)
| Ok (original, world, events) =>
match SeedScenario fuel (wld_seed world) (wld_digest world) (run_scenario original) with
| None => None
| Some seed =>
let '(out, target) := iobind seed (replay_prefix original events) (empty_db now) in
Some (try* _ := out in try* rebuilt := verified original events target in Ok (target, rebuilt))
end
end.
End OfSource.

(** ** What is rebuilt is a state of the system *)

Section Safe.
Context `{!SqlBind}.

(** [safe m]: whatever [m] does to a database is steps of the system, and its
clock stays where the layouts can carry it. *)
Definition safe {A} (m : DbIO A) : Prop :=
forall s, valid_time (wall s) -> rtc step s (snd (m s)) /\ valid_time (wall (snd (m s))).

Lemma safe_read {A} (m : DbIO A) : (forall s, snd (m s) = s) -> safe m.
Proof. intros Hm s Hw. by rewrite Hm. Qed.
Lemma safe_lift {A} (o : res err A) : safe (iolift o).
Proof. by apply safe_read. Qed.
Lemma safe_ret {A} (a : A) : safe (ioret a).
Proof. by apply safe_read. Qed.
Lemma safe_fail {A} e : safe (A:=A) (iofail e).
Proof. by apply safe_read. Qed.
Lemma safe_bind {A B} (m : DbIO A) (k : A -> DbIO B) : safe m -> (forall a, safe (k a)) -> safe (iobind m k).
Proof.
intros Hm Hk s Hw. unfold iobind. destruct (Hm s Hw) as [H1 H2]. destruct (m s) as [[a|e] s1]; cbn in *; [|done].
destruct (Hk a s1 H2) as [H3 H4]. split; [by etransitivity|done].
Qed.
Lemma safe_try {A B} (m : DbIO A) (k : res err A -> DbIO B) : safe m -> (forall a, safe (k a)) -> safe (iotry m k).
Proof.
intros Hm Hk s Hw. unfold iotry. destruct (Hm s Hw) as [H1 H2]. destruct (m s) as [o s1]; cbn in *.
destruct (Hk o s1 H2) as [H3 H4]. split; [by etransitivity|done].
Qed.
Lemma safe_one {A} (m : DbIO A) : (forall s, valid_time (wall s) -> step s (snd (m s)) /\ wall (snd (m s)) = wall s) -> safe m.
Proof. intros Hm s Hw. destruct (Hm s Hw) as [Hs ->]. split; [by apply rtc_once|done]. Qed.
Lemma safe_op op (m : DbIO unit) : (forall s, valid_time (wall s) -> op_ok s op) -> (forall t, op <> OpTick t) -> (forall s, snd (exec op s) = snd (m s)) -> safe m.
Proof.
intros Hok Ht Hm. apply safe_one. intros s Hw. rewrite <- Hm. split; [by apply step_system, step_store, Hok|]. exact (exec_same wall op s Ht).
Qed.
Lemma safe_invoke d runID call operationID args : dp_registry d = None -> dp_clock d = None -> safe (Invoke d runID call operationID args).
Proof.
intros Hr Hc s Hw. destruct (Invoke _ _ _ _ _ s) as [out s'] eqn:Hi. assert (Hs : sys_step s s').
{ eapply step_call; [by apply builtin_sound| |exact Hi]. by rewrite Hc. }
split; [by apply rtc_once, step_system|by eapply sys_step_wall].
Qed.

Lemma safe_append runID typ payload : safe (Append runID typ payload).
Proof. by apply (safe_op (OpAppend None None runID typ payload)). Qed.
Lemma safe_turn runID turn transcript response ints : safe (SaveTurn runID turn transcript response ints).
Proof.
apply (safe_op (OpSaveTurn None None runID turn transcript response ints)); [done..|]. intros s. done.
Qed.
Lemma safe_status runID status typ payload : safe (SaveStatus runID status typ payload).
Proof. by apply (safe_op (OpSaveStatus None None runID status typ payload)). Qed.
Lemma safe_run runID : safe (Run runID).
Proof. by apply safe_read. Qed.
Lemma safe_exposed runID ops : safe (atomically (Authz.Exposed runID ops)).
Proof. apply safe_read. intros s. apply Exposed_reads. Qed.
End Safe.

Lemma reached_inv `{binding : SqlBind} now s : rtc step (empty_db now) s -> inv s.
Proof. intros Hs. apply (rtc_ind_r (R := step) (fun s => inv s) (empty_db now)); [apply empty_inv| |exact Hs]. intros s1 s2 _ H12. by apply step_inv. Qed.

Section Sound.
Context `{binding : SqlBind, nodes : YamlNodes, yaml : WorldYaml}.
#[local] Hint Resolve safe_lift safe_ret safe_fail safe_append safe_turn safe_status safe_run safe_exposed : safe.

Ltac safe_step :=
match goal with
| |- safe (iobind _ _) => apply safe_bind; [|intros]
| |- safe (iotry _ _) => apply safe_try; [|intros]
| |- safe (if ?b then _ else _) => destruct b
| |- safe (match ?x with _ => _ end) => destruct x
end.
Ltac safe_tac := repeat (safe_step; cbn beta zeta); auto with safe.

Lemma safe_seed fuel seed digest scenario io : SeedScenario fuel seed digest scenario = Some io -> safe io.
Proof.
intros Hio. apply safe_one. intros s Hw. split; [by eapply step_seed|].
unfold SeedScenario in Hio. destruct (negb _); [by injection Hio as <-|]. apply fmap_Some in Hio as (amount & Ha & ->). apply seed_amount_bounds in Ha.
destruct (atomically _ s) as [r s1] eqn:Hr. enough (seeds s s1) as [Hf _] by (unfold seed_frame in Hf; injection Hf; intros; done).
eapply atomically_respects; [apply _| |exact Hr].
apply respects_bind; [apply _|apply respects_reads; apply _|intros count]. apply respects_bind; [apply _|apply seed_rows_seeds; lia|intros _]. apply respects_ret, _.
Qed.
Lemma insert_wall {K V} `{Countable K} name (get : DB -> gmap K V) set k v : (forall g s, wall (set g s) = wall s) -> respects (same wall) (sql_insert name get set k v).
Proof. intros Hs. apply insert_respects. intros s _. apply Hs. Qed.
Lemma safe_replay_run id original w : id <> "" -> safe (CreateReplayRun id original w).
Proof.
intros Hid. apply safe_one. intros s Hw. split; [by apply step_replay|]. unfold CreateReplayRun. apply (atomically_blind wall). unfold insert_run.
apply respects_bind; [apply _|by apply insert_wall|intros _]. apply respects_bind; [apply _|by apply (append_blind wall)|intros _]. apply respects_ret, _.
Qed.
Lemma attach_wall (set : (gmap string PolicyRow -> gmap string PolicyRow) -> DB -> DB) name get run row s :
(forall g s, wall (set g s) = wall s) -> wall (snd (atomically (sql_insert name get set run row) s)) = wall s.
Proof. intros Hs. apply (atomically_blind wall). by apply insert_wall. Qed.
Lemma safe_chaos run json digest : safe (AttachChaos run json digest).
Proof.
apply safe_one. intros s Hw. split; [by apply step_chaos|]. unfold AttachChaos, iobind, iolift. repeat (destruct (rassert _ _); [|done]). by apply attach_wall.
Qed.
Lemma safe_auth run json digest : safe (AttachAuth run json digest).
Proof. apply safe_one. intros s Hw. split; [by apply step_auth|]. unfold AttachAuth, iobind, iolift. destruct (checkDigest _ _ _); [|done]. by apply attach_wall. Qed.
Lemma safe_attach row put : (forall json digest, safe (put json digest)) -> safe (attach row put).
Proof. intros Hp. unfold attach. destruct row as [[json digest]|[]]; auto with safe. Qed.
#[local] Hint Resolve safe_chaos safe_auth : safe.

Lemma safe_rebuild runID manifest events waiting history turn : safe (rebuild runID manifest events waiting history turn).
Proof.
assert (H1 : forall e, safe (again_request runID manifest e)) by (intros e; unfold again_request, StartModelCall; safe_tac).
assert (H2 : forall e h n, safe (again_response runID e h n)) by (intros e h n; unfold again_response; safe_tac).
assert (H3 : forall e, safe (again_call runID manifest e)).
{ intros e. unfold again_call. apply safe_bind; [apply safe_lift|intros request]. apply safe_try; [by apply safe_invoke|]. intros [?|?]; auto with safe. }
assert (H4 : safe (after_call runID)) by (unfold after_call; safe_tac).
assert (H5 : forall e, safe (again_status runID e)) by (intros e; unfold again_status; safe_tac).
revert waiting history turn. induction events as [|e events IH]; intros waiting history turn; cbn [rebuild]; [destruct waiting; auto with safe|].
destruct waiting as [call|]; [safe_tac|]. repeat (match goal with |- safe (if ?b then _ else _) => destruct b end; [safe_tac|]). safe_tac.
Qed.
Lemma safe_prefix source runID selected manifest original events world : runID <> "" -> safe (replay_prefix source runID selected manifest original events world).
Proof.
intros Hid. unfold replay_prefix. apply safe_bind; [by apply safe_replay_run|intros _]. apply safe_bind; [apply safe_attach; auto with safe|intros _].
apply safe_bind; [apply safe_attach; auto with safe|intros _]. apply safe_rebuild.
Qed.

(** *** What the comparison establishes *)

(** An event made again says what the recorded one says. *)
Definition same_event (recorded made : Event) : Prop :=
e_type recorded = e_type made /\ e_world_at recorded = e_world_at made /\ exists canonical, canonicalJSON (e_payload recorded) = Some canonical /\ canonicalJSON (e_payload made) = Some canonical.
Definition same_result (source target : DB) (runID callID : string) : Prop := exists left_ right_,
tool_results source !! (runID, callID) = Some left_ /\ tool_results target !! (runID, callID) = Some right_ /\
tr_operation_id left_ = tr_operation_id right_ /\ tr_status left_ = tr_status right_ /\
equalPayload (tr_arguments left_) (tr_arguments right_) = true /\ equalPayload (tr_body left_) (tr_body right_) = true.

Lemma equalPayload_spec a b : equalPayload a b = true <-> exists canonical, canonicalJSON a = Some canonical /\ canonicalJSON b = Some canonical.
Proof.
unfold equalPayload. destruct (canonicalJSON a) as [x|], (canonicalJSON b) as [y|]; try (split; [done|naive_solver]).
rewrite str_eqb_true. naive_solver.
Qed.
Lemma compareToolResult_ok source target runID callID : compareToolResult source target runID callID = Ok tt <-> same_result source target runID callID.
Proof.
unfold compareToolResult, same_result. rewrite rbind_ok. setoid_rewrite rbind_ok. setoid_rewrite rsome_ok. setoid_rewrite rassert_ok.
setoid_rewrite andb_true_iff. setoid_rewrite andb_true_iff. setoid_rewrite andb_true_iff. setoid_rewrite str_eqb_true. setoid_rewrite Z.eqb_eq. naive_solver.
Qed.
Lemma compare_event_ok source target runID position e e' : compare_event source target runID position e e' = Ok tt <->
same_event e e' /\ (e_type e = "tool.request" -> exists callID, payload_text e "call_id" = Some callID /\ same_result source target runID callID).
Proof.
unfold compare_event, same_event. rewrite rassert_bind, !andb_true_iff, !str_eqb_true, equalPayload_spec. destruct (str_eqb (e_type e) "tool.request") eqn:E.
- apply str_eqb_true in E. rewrite rbind_ok. setoid_rewrite rsome_ok. setoid_rewrite compareToolResult_ok. naive_solver.
- apply str_eqb_false in E. naive_solver.
Qed.
Lemma compare_events_ok source target runID position l l' : compare_events source target runID position l l' = Ok tt -> length l = length l' ->
Forall2 same_event l l' /\ (forall e, e ∈ l -> e_type e = "tool.request" -> exists callID, payload_text e "call_id" = Some callID /\ same_result source target runID callID).
Proof.
revert position l'. induction l as [|e l IH]; intros position [|e' l'] Hc Hl; cbn in *; try done.
{ split; [constructor|]. intros e He. by apply elem_of_nil in He. }
apply rbind_ok in Hc as ([] & [Hs Ht]%compare_event_ok & Hc). destruct (IH _ _ Hc) as [H1 H2]; [lia|].
split; [by constructor|]. intros x [->|Hx]%elem_of_cons; eauto.
Qed.
Lemma compare_messages_ok i source rebuilt : compare_messages i source rebuilt = Ok tt ->
exists rest, Forall2 (fun m m' => equalPayload m m' = true) (take (length rebuilt) source) rebuilt /\ source = take (length rebuilt) source ++ rest.
Proof.
revert i source. induction rebuilt as [|m rebuilt IH]; intros i source; cbn [compare_messages length]; [by exists source|].
destruct source as [|m0 source]; [done|]. intros [Hm Hc]%rassert_bind. apply IH in Hc as (rest & H1 & H2). exists rest. cbn [take].
split; [by constructor|]. cbn. by f_equal.
Qed.
(** *** Reconstruction *)

(** A checkpoint lies within the ledger it was taken of. *)
Lemma selected_within s runID manifest points seq p : List s runID manifest = Ok points -> Select points seq = Ok p ->
cp_event_seq p = seq /\ 1 <= seq <= Z.of_nat (length (Events runID s)).
Proof.
intros (st & [Hh Hp _ _ _ _ _ _] & <- & _)%list_scanned Hs. unfold Select in Hs. apply rsome_ok, List.find_some in Hs as [Hin Hseq]. apply Z.eqb_eq in Hseq.
rewrite Hp in Hin. apply list_elem_of_In, list_elem_of_omap in Hin as (k & Hk & Hat). apply elem_of_seq in Hk. split; [done|].
unfold checkpoint_at in Hat. destruct (Events runID s !! k) as [e|] eqn:He; [|done]. destruct (boundary _); [|done]. destruct (PrefixDigest _ _ _); [|done].
injection Hat as <-. cbn in Hseq. apply (hash_prefix_places _ _ _ _ _ _ _ Hh), in_place_seq in He. lia.
Qed.

Lemma verified_ok source runID selected original events target rebuilt : verified source runID selected original events target = Ok rebuilt -> cp_event_seq selected <= Z.of_nat (length events) ->
let made := Events runID target in let recorded := take (Z.to_nat (cp_event_seq selected)) events in
runs target !! runID = Some rebuilt /\ Z.of_nat (length made) = cp_event_seq selected /\ Forall2 same_event (drop 1 recorded) (drop 1 made)
/\ (forall e, e ∈ drop 1 recorded -> e_type e = "tool.request" -> exists callID, payload_text e "call_id" = Some callID /\ same_result source target runID callID)
/\ (exists messages rest again_, raw_messages (run_transcript original) = Ok (messages ++ rest) /\ raw_messages (run_transcript rebuilt) = Ok again_
/\ Forall2 (fun m m' => equalPayload m m' = true) messages again_).
Proof.
intros Hv Hle. cbv zeta. unfold verified in Hv. cbv zeta in Hv. apply rassert_bind in Hv as [Hlen Hv]. apply Z.eqb_eq in Hlen.
apply rbind_ok in Hv as ([] & Hc & Hv). apply rbind_ok in Hv as (row & Hrow%rsome_ok & Hv). apply rbind_ok in Hv as ([] & Ht & [= ->]).
apply compare_events_ok in Hc as [Hc Hr].
2: { rewrite !length_drop, length_take. lia. }
split; [done|]. split; [done|]. split; [done|]. split; [done|]. unfold compareTranscriptPrefix in Ht. apply rbind_ok in Ht as (ms & Hms & Ht).
apply rbind_ok in Ht as (again_ & Ha & Ht). apply rassert_bind in Ht as [_ Ht]. apply compare_messages_ok in Ht as (rest & Hf & Happ).
exists (take (length again_) ms), rest, again_. rewrite <- Happ. done.
Qed.

(** The store a reconstruction returns is a state of the system. *)
Lemma reconstruct_reaches fuel now source runID selected manifest target rebuilt : valid_time now -> runID <> "" ->
Reconstruct source runID selected manifest fuel now = Some (Ok (target, rebuilt)) -> rtc step (empty_db now) target /\ inv target /\ valid_time (wall target).
Proof.
intros Hnow Hid Hrec. unfold Reconstruct in Hrec. destruct (checked_source source runID selected manifest) as [[[original world] events]|e]; [|done].
destruct (SeedScenario fuel _ _ _) as [seed|] eqn:Hs; [|done]. destruct (iobind seed _ _) as [out target'] eqn:Hrun. injection Hrec as Hrec.
apply rbind_ok in Hrec as ([] & -> & Hrec). apply rbind_ok in Hrec as (row & _ & [= -> ->]).
assert (Hsafe : safe (iobind seed (replay_prefix source runID selected manifest original events))).
{ apply safe_bind; [by eapply safe_seed|]. intros w0. by apply safe_prefix. }
destruct (Hsafe (empty_db now) Hnow) as [Hsteps Hw]. rewrite Hrun in Hsteps, Hw. cbn [snd] in *. split; [done|]. split; [|done]. exact (reached_inv _ _ Hsteps).
Qed.

(** C25. A reconstruction is a real execution that says what the recording says.
The store it returns was reached from an empty database by seeding, creating
the run and executing it, so every invariant of the system holds in it; its
ledger has as many events as the checkpoint's prefix and, after the first,
repeats it event by event: type, world time and payload as JSON; every
tool call of the prefix has the saved result of the source; and its transcript
is a prefix of the source's.  The checkpoint is one the source still has. *)
Theorem reconstruction_sound fuel now source runID selected manifest target rebuilt
(Hnow : valid_time now) (Hid : runID <> "") (Hrec : Reconstruct source runID selected manifest fuel now = Some (Ok (target, rebuilt))) :
let recorded := take (Z.to_nat (cp_event_seq selected)) (Events runID source) in
rtc step (empty_db now) target /\ inv target /\ runs target !! runID = Some rebuilt
/\ (exists points, List source runID manifest = Ok points /\ selected ∈ points)
/\ length (Events runID target) = length recorded /\ Forall2 same_event (drop 1 recorded) (drop 1 (Events runID target))
/\ (forall e, e ∈ drop 1 recorded -> e_type e = "tool.request" -> exists callID, payload_text e "call_id" = Some callID /\ same_result source target runID callID)
/\ (exists original messages rest again_, runs source !! runID = Some original /\ raw_messages (run_transcript original) = Ok (messages ++ rest)
/\ raw_messages (run_transcript rebuilt) = Ok again_ /\ Forall2 (fun m m' => equalPayload m m' = true) messages again_).
Proof.
cbv zeta. destruct (reconstruct_reaches _ _ _ _ _ _ _ _ Hnow Hid Hrec) as (Hsteps & Hinv & _). unfold Reconstruct in Hrec. destruct (checked_source source runID selected manifest) as [[[original world] events]|e] eqn:Hc; [|done].
unfold checked_source in Hc. apply rbind_ok in Hc as (points & Hl & Hc). apply rbind_ok in Hc as (current & Hsel & Hc). apply rassert_bind in Hc as [Heq Hc].
apply bool_decide_eq_true in Heq as ->. apply rbind_ok in Hc as (o & Ho%rsome_ok & Hc). apply rbind_ok in Hc as (w & _ & [= -> -> <-]).
destruct (SeedScenario fuel _ _ _) as [seed|] eqn:Hs; [|done]. destruct (iobind seed _ _) as [out target'] eqn:Hrun. injection Hrec as Hrec.
apply rbind_ok in Hrec as ([] & -> & Hrec). apply rbind_ok in Hrec as (row & Hv & [= -> ->]).
destruct (selected_within _ _ _ _ _ _ Hl Hsel) as [_ Hle]. apply verified_ok in Hv as (Hrow & Hlen & Hf & Hr & Ht); [|lia].
split; [done|]. split; [done|]. split; [done|split; [|split; [|split; [done|split; [done|]]]]].
- exists points. split; [done|]. unfold Select in Hsel. apply rsome_ok, List.find_some in Hsel as [Hin _]. by apply list_elem_of_In.
- rewrite length_take. lia.
- destruct Ht as (ms & rest & again_ & H1 & H2 & H3). by exists original, ms, rest, again_.
Qed.
End Sound.

(** ** An example: a seeded world, a run, and its first turn and call again *)
Module ReconstructDemo.
Import CheckpointDemo.
Definition body : apiBody :=
MkBody true [("application/json", MkSchema "object" ["charge_id"; "amount_cents"; "reason"] [("charge_id", "string"); ("amount_cents", "integer"); ("reason", "string")])].
Definition manifest : Manifest :=
match compile_spec (MkApiSpec "3.1.0" [("/refunds", [("post", MkApiOperation "createRefund" [] (Some body))])]) [("createRefund", "billing.createRefund")] with
| Ok m => m
| Err _ => MkManifest "" [] None
end.
Definition now : time := days_of (Civil 2026 9 25) * day_ns.
Definition seeded : res err World * DB :=
match SeedScenario 0 42 (mf_digest manifest) "duplicate-charge" with Some io => io (empty_db now) | None => (Err ErrNoRows, empty_db now) end.
Definition create (p : res err World * DB) : DB :=
match p with
| (Ok w, s) => snd (CreateRun (Ok [1; 2; 255]) (w_id w) "duplicate-charge" "scripted" "m-1" "refund the duplicate" "" s)
| (Err _, s) => s
end.
Definition turn (calls : list ToolCall) (content : string) : Message := MkMessageOf "assistant" content calls "" "" 0 [] "" None "" "" "" 0 [].
Definition call : ToolCall := MkToolCall "call-1" "createRefund" [("charge_id", VString "CH-1002"); ("amount_cents", VInt 300); ("reason", VString "duplicate")].
Definition provider : Provider := fun _ _ history _ => (if bool_decide (all_calls history = []) then turn [call] "" else turn [] "refunded", None).
Definition runner : Runner := MkRunner (dispatcher manifest) manifest (Some provider) None None None (fun _ => None).
Definition executed (maxSteps : Z) (s : DB) : DB :=
match Execute (fun _ s => s) (fun _ => "") runner 4 "R-0102ff" maxSteps (MkExec s 0 0) with Some (_, x) => ex_db x | None => s end.
(** The run paused after its first turn and its call. *)
Definition source : DB := executed 1 (create seeded).
Definition second (points : res err (list Checkpoint)) : Checkpoint := match points with Ok (_ :: p :: _) => p | _ => MkCheckpoint "" "" 0 "" 0 "" "" 0 0 end.
Definition selected : Checkpoint := second (List source "R-0102ff" manifest).
Abbreviation rebuilt := (Reconstruct (H0 := CheckpointDemo.nodes) (H1 := CheckpointDemo.yaml) source "R-0102ff" selected manifest 0 (now + day_ns)).
Definition as_recorded (o : option (res err (DB * RunRow))) : bool :=
match o with
| Some (Ok (target, row)) =>
bool_decide (map e_type (Events "R-0102ff" target) = ["execution.started"; "model.request"; "model.response"; "tool.request"; "state.mutation"; "tool.response"])
&& str_eqb (run_status row) "running" && bool_decide (chg_refunded_cents <$> charges target !! (run_world_id row, "CH-1002") = Some 300)
| _ => false
end.
Lemma again : as_recorded rebuilt = true.
Proof. vm_compute. reflexivity. Qed.
Lemma made o : as_recorded o = true -> exists target row, o = Some (Ok (target, row)).
Proof. destruct o as [[[target row]|e]|]; [by exists target, row|done..]. Qed.
End ReconstructDemo.

Lemma reconstruction_sound_witness : exists target row, ReconstructDemo.rebuilt = Some (Ok (target, row)) /\ inv target.
Proof.
destruct (ReconstructDemo.made _ ReconstructDemo.again) as (target & row & E). exists target, row. split; [exact E|].
refine (proj1 (proj2 (reconstruction_sound (nodes := CheckpointDemo.nodes) (yaml := CheckpointDemo.yaml) _ _ _ _ _ _ _ _ _ _ E))).
- vm_compute. split; [discriminate|reflexivity].
- discriminate.
Defined.
End Reconstruct.
