(* ===== verification/Fork.v ===== *)
(** * Forking a run (internal/fork/fork.go, observation.go, replay.go)

    A fork is a new run that continues a recorded one from a checkpoint, in a
    world of its own.  The prefix is executed again in a fresh store, and one
    transaction copies what came of it, under new names, next to the parent:
    the world, the run, its saved results, its policies' state and how it came
    to be.  [ReconstructForReplay] makes the same state again, in the fresh
    store itself, from what the transaction recorded. *)

From S2P Require Export Reconstruct Tables.
Open Scope Z_scope.
Open Scope tx_scope.

Module Fork.
Import Runs Checkpoint Reconstruct.

(** [agent.KnownProvider] *)
Definition KnownProvider (name : string) : bool := contains ["scripted"; "openai"; "openai-compatible"; "anthropic"; "exec"] name.

(** [Options]; an empty text is no replacement. *)
Record Options := MkOptions {
op_Provider : string; op_Model : string; op_FaultOperation : option string; op_ChaosPolicyRaw : string; op_AuthPolicyRaw : string;
op_Observation : option Observation }.
(** [Result] *)
Record Result := MkResult { rs_run_id : string; rs_run : RunRow; rs_world : World; rs_checkpoint : Checkpoint }.

(** ** Copying *)

(** [copyWorldTable]: the rows of one world, under another; [source] may be
another database. *)
Definition copy_rows {V} (name : string) (get : DB -> gmap (string * string) V)
(set : (gmap (string * string) V -> gmap (string * string) V) -> DB -> DB) (source : DB) (from to : string) : DbTx unit :=
ChaosPolicy.copying name (tfor (all_rows (get source) from) (fun row => sql_insert name get set (to, row.1) row.2)).
Definition copy_members (source : DB) (from to : string) : DbTx unit :=
ChaosPolicy.copying "message_members" (tfor (member_rows (message_members source) from) (fun row => member to row.1 row.2)).
(** The loop over [worldTables]. *)
Definition copy_world (source : DB) (from to : string) : DbTx unit :=
copy_rows "customers" customers set_customers source from to ;;;
copy_rows "invoices" invoices set_invoices source from to ;;;
copy_rows "charges" charges set_charges source from to ;;;
copy_rows "refunds" refunds set_refunds source from to ;;;
copy_rows "subscriptions" subscriptions set_subscriptions source from to ;;;
copy_rows "crm_accounts" crm_accounts set_crm_accounts source from to ;;;
copy_rows "crm_contacts" crm_contacts set_crm_contacts source from to ;;;
copy_rows "crm_notes" crm_notes set_crm_notes source from to ;;;
copy_rows "ticket_projects" ticket_projects set_ticket_projects source from to ;;;
copy_rows "ticket_issues" ticket_issues set_ticket_issues source from to ;;;
copy_rows "ticket_comments" ticket_comments set_ticket_comments source from to ;;;
copy_rows "message_workspaces" message_workspaces set_message_workspaces source from to ;;;
copy_rows "message_channels" message_channels set_message_channels source from to ;;;
copy_members source from to ;;;
copy_rows "message_messages" message_messages set_message_messages source from to.
(** [copyToolResults], in the order of the call IDs. *)
Definition copyToolResults (source : DB) (from to : string) : DbTx unit :=
tfor (sort_on fst (ChaosPolicy.pair_rows (tool_results source) from)) (fun row => sql_insert "tool_results" tool_results set_tool_results (to, row.1) row.2).

(** ** Replaced observations *)

(** [canonicalBody]: one JSON value, encoded again. *)
Definition canonicalBody (raw : string) : res err string :=
let l := bytes_of raw in
match parse_value (2 * length l + 2) l with
| Some (v, rest) =>
match skip_ws rest with
| [] => rsome (marshal v) json_error
| _ => Err (ErrText "multiple JSON values")
end
| None => Err json_error
end.
(** What [prepareObservation] reads of the response it replaces. *)
Definition response_of (payload : string) : option (string * string * Z) :=
match unmarshal_number payload with
| Some v =>
match field v "call_id" decode_text "", field v "operation_id" decode_text "", field v "status" decode_int 0 with
| Some c, Some o, Some n => Some (c, o, n)
| _, _, _ => None
end
| None => None
end.
(** [prepareObservation]: the observation with its body in canonical form, and
the payload of the event that tells of it. *)
Definition prepareObservation (events : list Event) (selected : Checkpoint) (o : Observation) : res err (Observation * goval) :=
try* _ := rassert (negb (str_eqb (ob_call_id o) "")) (ErrText "observation override requires a call ID") in
try* _ := rassert (negb (negb (ob_status o =? 0) && ((ob_status o <? 100) || (599 <? ob_status o))))
    (ErrText ("observation override status " +:+ itoa (ob_status o) +:+ " must be 0 or 100 to 599")) in
try* body := rwrap (ErrWrap "observation override body: ") (canonicalBody (ob_body o)) in
try* _ := rassert (negb (negb (str_eqb (cp_event_type selected) "tool.response") || (cp_event_seq selected <? 1)
                 || (Z.of_nat (length events) <? cp_event_seq selected)))
    (ErrText "observation override requires a tool response checkpoint") in
try* event := rsome (events !! Z.to_nat (cp_event_seq selected - 1)) json_error in
try* '(callID, operationID, status) := rsome (response_of (e_payload event)) json_error in
try* _ := rassert (str_eqb callID (ob_call_id o))
    (ErrText ("checkpoint " +:+ itoa (cp_event_seq selected) +:+ " is the response to call " +:+ callID +:+ ", not " +:+ ob_call_id o)) in
Ok (MkObservation (ob_call_id o) (ob_status o) body,
VMap [("call_id", VString (ob_call_id o)); ("operation_id", VString operationID); ("original_status", VInt status); ("status", VInt (ob_status o));
  ("body", VRaw body)]).

(** A text member of a decoded map of raw values; [None] when it is missing or
no text. *)
Definition raw_text (members : list (string * string)) (key : string) : option string :=
match alookup members key with
| Some t => match unmarshal_number t with Some v => decode_text v | None => None end
| None => None
end.
(** The members of an object as a Go map: a repeated key keeps its last value. *)
Definition raw_map (text : string) : res err (list (string * string)) :=
match unmarshal_number text with
| Some VNil => Ok []
| Some (VMap _) => rsome ((fun l => foldl (fun m kv => map_set m kv.1 kv.2) [] l) <$> raw_object text) json_error
| _ => Err json_error
end.
Definition without (key : string) (members : list (string * string)) : list (string * string) :=
List.filter (fun kv => negb (str_eqb key (fst kv))) members.
(** [applyObservation] *)
Definition applyObservation (transcript : string) (o : Observation) : res err string :=
try* messages := raw_messages transcript in
try* final := rsome (last messages) (ErrText ("transcript has no observation for call " +:+ ob_call_id o)) in
try* members := raw_map final in
try* _ := rassert (bool_decide (raw_text members "role" = Some "tool") && bool_decide (raw_text members "call_id" = Some (ob_call_id o)))
    (ErrText ("transcript does not end with the observation for call " +:+ ob_call_id o)) in
try* content := rsome (marshal (VString (ob_body o))) json_error in
let members := without "status" (map_set members "content" content) in
let members := if ob_status o =? 0 then members else map_set members "status" (itoa (ob_status o)) in
try* encoded := rsome (marshal (VMap (map (fun kv => (kv.1, VRaw kv.2)) members))) json_error in
rsome (marshal (VSlice (map VRaw (take (length messages - 1) messages ++ [encoded])))) json_error.
(** [overrideToolResult] *)
Definition overridden (o : Observation) (row : ToolResultRow) : ToolResultRow :=
MkToolResult (tr_operation_id row) (tr_arguments row) (ob_status o) (ob_body o).
Definition overrideToolResult (runID : string) (o : Observation) : DbTx unit :=
let* found := sql_get tool_results (runID, ob_call_id o) in
tassert (bool_decide (is_Some found)) (ErrText ("observation override found no saved result for call " +:+ ob_call_id o)) ;;;
sql_update set_tool_results (runID, ob_call_id o) (overridden o).

(** ** Checks *)

Section Checks.
Context `{!SqlBind, !YamlNodes, !SpecYaml, !WorldYaml, !AuthzPolicy.PolicyYaml, !ChaosPolicy.ChaosYaml}.

(** What an option changes and what it leaves. *)
Definition chosen (option inherited : string) : string := if str_eqb option "" then inherited else option.
Definition fault_given (options : Options) : bool := negb (str_eqb (default "" (op_FaultOperation options)) "").
(** [ValidateOptions] *)
Definition ValidateOptions (parent : RunRow) (manifest : Manifest) (options : Options) : res err unit :=
let fault := default "" (op_FaultOperation options) in
let provider := op_Provider options in
try* _ := rassert (negb (fault_given options && bool_decide (find_operation manifest fault = None))) (ErrText ("unknown fault operation " +:+ quote fault)) in
try* _ := (if given (op_ChaosPolicyRaw options) then
     try* _ := rassert (negb (fault_given options)) (ErrText "fork fault and chaos policy cannot be combined") in
     try* _ := ChaosPolicy.Parse (op_ChaosPolicyRaw options) manifest in Ok tt
   else Ok tt) in
try* _ := (if given (op_AuthPolicyRaw options) then try* _ := AuthzPolicy.Parse (op_AuthPolicyRaw options) manifest in Ok tt else Ok tt) in
try* _ := rassert (negb (negb (str_eqb provider "") && negb (KnownProvider provider))) (ErrText ("unsupported fork provider " +:+ quote provider)) in
try* _ := rassert (negb (negb (str_eqb provider "") && negb (str_eqb provider (run_provider parent)) && str_eqb (op_Model options) ""))
    (ErrText "changing fork provider requires an explicit model") in
rassert (negb (str_eqb (chosen provider (run_provider parent)) "" || str_eqb (chosen (op_Model options) (run_model parent)) ""))
(ErrText "fork provider and model are required").

(** [verifySourceInTransaction]: the parent is still the run the checkpoint was
taken of, and its ledger still starts with the checkpoint's prefix. *)
Definition verifySourceInTransaction (parent : RunRow) (selected : Checkpoint) (initialTip : Z) : DbTx unit :=
fun s =>
(try* run := rsome (runs s !! cp_run_id selected) ErrNoRows in
 try* world := rsome (worlds s !! run_world_id run) ErrNoRows in
 try* _ := rassert (contains ["paused"; "completed"] (run_status run) && str_eqb (run_world_id run) (run_world_id parent)
            && str_eqb (wld_digest world) (cp_manifest_digest selected)) (ErrText "source run changed during fork") in
 let events := Events (cp_run_id selected) s in
 let prefix := List.filter (fun e => e_seq e <=? cp_event_seq selected) events in
 try* _ := rassert ((Z.of_nat (length events) =? initialTip) && (Z.of_nat (length prefix) =? cp_event_seq selected)) (ErrText "source ledger changed during fork") in
 try* _ := rassert (match PrefixDigest (cp_run_id selected) (cp_manifest_digest selected) prefix with
            | Ok digest => str_eqb digest (cp_prefix_digest selected)
            | Err _ => false
            end) (ErrText "source checkpoint changed during fork") in
 Ok (tt, s)).

(** ** [Create] *)

(** What is decided before the transaction. *)
Record Plan := MkPlan {
pn_parent : RunRow; pn_tip : Z; pn_target : DB; pn_rebuilt : RunRow; pn_transcript : string; pn_provider : string; pn_model : string; pn_fault : string;
pn_consumed : Z; pn_world : WorldRow; pn_observation : option (Observation * goval); pn_world_id : string; pn_run_id : string }.

(** [randomID]; [random] is what the system's random source gives. *)
Definition randomID (random : res err (list Z)) (prefix : string) : res err string := try* raw := random in Ok (prefix +:+ hex_encode raw).

Definition with_transcript (transcript : string) (observation : option (Observation * goval)) : res err string :=
match observation with Some (o, _) => applyObservation transcript o | None => Ok transcript end.
Definition flagInt (v : bool) : Z := if v then 1 else 0.
Definition forked_payload (selected : Checkpoint) (manifest : Manifest) : goval :=
VMap [("parent_run_id", VString (cp_run_id selected)); ("fork_event_seq", VInt (cp_event_seq selected)); ("checkpoint_id", VString (cp_id selected));
("manifest_digest", VString (mf_digest manifest))].
(** The events a fork starts with. *)
Definition start_events (runID : string) (selected : Checkpoint) (manifest : Manifest) (observation : option (Observation * goval)) : DbTx unit :=
AppendEventTx runID "execution.forked" (forked_payload selected manifest) ;;;
match observation with Some (_, payload) => AppendEventTx runID "observation.overridden" payload | None => tret tt end.

Section Create.
Context (selected : Checkpoint) (manifest : Manifest) (options : Options).

(** What is read of the parent before its prefix is executed again. *)
Definition read_parent (source : DB) : res err (RunRow * Z * option (Observation * goval)) :=
try* _ := rassert ((cp_format_version selected =? FormatVersion) && str_eqb (cp_manifest_digest selected) (mf_digest manifest))
    (ErrText "checkpoint format or manifest mismatch") in
try* parent := rsome (runs source !! cp_run_id selected) ErrNoRows in
try* _ := ValidateOptions parent manifest options in
let events := Events (cp_run_id selected) source in
try* observation := match op_Observation options with
            | Some o => try* prepared := prepareObservation events selected o in Ok (Some prepared)
            | None => Ok None
            end in
Ok (parent, Z.of_nat (length events), observation).
Definition plan_fork (parent : RunRow) (tip : Z) (observation : option (Observation * goval)) (randomWorld randomRun : res err (list Z))
(target : DB) (rebuilt : RunRow) : res err Plan :=
try* transcript := with_transcript (run_transcript rebuilt) observation in
let provider := chosen (op_Provider options) (run_provider parent) in
let model := chosen (op_Model options) (run_model parent) in
try* _ := rassert (negb (str_eqb provider "" || str_eqb model "")) (ErrText "fork provider and model are required") in
let fault := if given (op_ChaosPolicyRaw options) then "" else default (run_fault_operation parent) (op_FaultOperation options) in
let consumed := if str_eqb fault (run_fault_operation parent) then run_fault_consumed rebuilt else 0 in
try* world := rsome (worlds target !! run_world_id rebuilt) ErrNoRows in
try* worldID := randomID randomWorld "W-F-" in
try* runID := randomID randomRun "R-" in
Ok (MkPlan parent tip target rebuilt transcript provider model fault consumed world observation worldID runID).

(** The policies of the child: replaced, or copied with their state. *)
Definition child_chaos (p : Plan) : DbTx unit :=
if given (op_ChaosPolicyRaw options) then
let* policy := tlift (ChaosPolicy.Parse (op_ChaosPolicyRaw options) manifest) in
let* encoded := tsome (Chaos.CanonicalJSON policy) json_error in
sql_insert "run_chaos" run_chaos set_run_chaos (pn_run_id p) (MkPolicy encoded (Chaos.Digest policy))
else ChaosPolicy.CopyRun (pn_target p) (cp_run_id selected) (pn_run_id p).
Definition child_auth (p : Plan) (policy : option Authz.Policy) : DbTx unit :=
match policy with
| Some policy =>
let* encoded := tsome (Authz.CanonicalJSON policy) json_error in
sql_insert "run_auth" run_auth set_run_auth (pn_run_id p) (MkPolicy encoded (Authz.Digest policy))
| None => AuthzPolicy.CopyRun (pn_target p) (cp_run_id selected) (pn_run_id p)
end.
Definition child_observation (p : Plan) : DbTx unit :=
match pn_observation p with
| Some (o, _) =>
overrideToolResult (pn_run_id p) o ;;;
sql_insert "fork_observations" fork_observations set_fork_observations (pn_run_id p) (MkObservationRow (ob_call_id o) (ob_status o) (ob_body o))
| None => tret tt
end.
Definition child_run (p : Plan) (principal : string) : RunRow :=
MkRun (pn_world_id p) (run_scenario (pn_parent p)) (pn_provider p) (pn_model p) (run_task (pn_parent p)) "paused" (run_step (pn_rebuilt p)) (pn_transcript p)
(pn_fault p) (pn_consumed p) principal.
Definition lineage_row (p : Plan) : LineageRow :=
MkLineage (cp_run_id selected) (cp_event_seq selected) (cp_id selected) (cp_format_version selected) (cp_manifest_digest selected) (cp_prefix_digest selected)
(run_provider (pn_parent p)) (run_model (pn_parent p)) (flagInt (given (op_ChaosPolicyRaw options))) (flagInt (given (op_AuthPolicyRaw options))).
(** The transaction. *)
Definition write_fork (p : Plan) : DbTx Result :=
verifySourceInTransaction (pn_parent p) selected (pn_tip p) ;;;
sql_insert "worlds" worlds set_worlds (pn_world_id p) (pn_world p) ;;;
copy_world (pn_target p) (run_world_id (pn_rebuilt p)) (pn_world_id p) ;;;
let* policy := (if given (op_AuthPolicyRaw options) then let* policy := tlift (AuthzPolicy.Parse (op_AuthPolicyRaw options) manifest) in tret (Some policy)
        else tret None) in
let child := child_run p match policy with Some policy => po_principal_id policy | None => run_principal_id (pn_parent p) end in
insert_run (pn_run_id p) child ;;;
copyToolResults (pn_target p) (cp_run_id selected) (pn_run_id p) ;;;
child_observation p ;;;
child_chaos p ;;;
child_auth p policy ;;;
sql_insert_or_ignore checkpoints set_checkpoints (cp_id selected)
(MkCheckpointRow (cp_run_id selected) (cp_event_seq selected) (cp_format_version selected) (cp_manifest_digest selected) (cp_prefix_digest selected)) ;;;
sql_insert "fork_lineage" fork_lineage set_fork_lineage (pn_run_id p) (lineage_row p) ;;;
start_events (pn_run_id p) selected manifest (pn_observation p) ;;;
tret (MkResult (pn_run_id p) child (MkStoreWorld (pn_world_id p) (wld_seed (pn_world p)) (wld_digest (pn_world p))) selected).

(** Everything up to the transaction; [None] is the seed's draw running out of
fuel, [now] the clock of the store the prefix is executed in. *)
Definition plan_of (source : DB) (fuel : nat) (now : time) (randomWorld randomRun : res err (list Z)) : option (res err Plan) :=
match read_parent source with
| Err e => Some (Err e)
| Ok (parent, tip, observation) =>
(fun out => try* '(target, rebuilt) := out in plan_fork parent tip observation randomWorld randomRun target rebuilt)
<$> Reconstruct source (cp_run_id selected) selected manifest fuel now
end.
(** [Create]: [source] is what it reads, and the transaction runs on whatever the
database has become since. *)
Definition Create (source : DB) (fuel : nat) (now : time) (randomWorld randomRun : res err (list Z)) : option (DbIO Result) :=
(fun out => match out with Ok p => atomically (write_fork p) | Err e => iofail e end) <$> plan_of source fuel now randomWorld randomRun.
End Create.

(** ** [ReconstructForReplay] *)

Section Replay.
Context (child_id : string) (child : RunRow) (lineage : ForkLineage) (manifest : Manifest).

Definition read_lineage (source : DB) : res err (RunRow * Checkpoint * WorldRow) :=
try* _ := rassert (str_eqb (fl_child_run_id lineage) child_id && (fl_format_version lineage =? FormatVersion) && str_eqb (fl_manifest_digest lineage) (mf_digest manifest))
    (ErrText "fork lineage format or manifest mismatch") in
let parentID := fl_parent_run_id lineage in
try* parent := rsome (runs source !! parentID) ErrNoRows in
try* _ := rassert (str_eqb (run_provider parent) (fl_parent_provider lineage) && str_eqb (run_model parent) (fl_parent_model lineage)
           && str_eqb (run_scenario parent) (run_scenario child) && str_eqb (run_task parent) (run_task child))
    (ErrText "fork parent metadata differs from lineage") in
try* points := List source parentID manifest in
try* selected := Select points (fl_fork_event_seq lineage) in
try* _ := rassert (str_eqb (cp_id selected) (fl_checkpoint_id lineage) && str_eqb (cp_prefix_digest selected) (fl_prefix_digest lineage)
           && (cp_format_version selected =? fl_format_version lineage)) (ErrText "fork lineage checkpoint differs from parent prefix") in
try* world := rsome (worlds source !! run_world_id child) ErrNoRows in
try* _ := rassert (str_eqb (wld_digest world) (mf_digest manifest)) (ErrText "fork child manifest mismatch") in
Ok (parent, selected, world).

(** The override of the child, when it was recorded with one. *)
Definition read_observation (source : DB) (selected : Checkpoint) : res err (option (Observation * goval)) :=
match ObservationOverride child_id source with
| Err _ => Ok None
| Ok o => try* prepared := rwrap (ErrWrap "fork observation override: ") (prepareObservation (Events (fl_parent_run_id lineage) source) selected o) in Ok (Some prepared)
end.
Definition replay_chaos (source : DB) : DbTx unit :=
if fl_chaos_replaced lineage then
let* '(encoded, digest) := tlift (ChaosPolicy child_id source) in
let* _ := match ChaosPolicy.ValidateStored encoded digest manifest with
    | Ok policy => tassert (str_eqb (Chaos.Digest policy) digest) (ErrText "fork replacement chaos policy differs from lineage")
    | Err e => tfail (ChaosPolicy.unless_panic (fun _ => ErrText "fork replacement chaos policy differs from lineage") e)
    end in
sql_insert "run_chaos" run_chaos set_run_chaos child_id (MkPolicy encoded digest)
else ChaosPolicy.CopyRunInTx (fl_parent_run_id lineage) child_id.
Definition replay_auth (source : DB) : DbTx unit :=
if fl_auth_replaced lineage then
let* '(encoded, digest) := tlift (AuthPolicy child_id source) in
let* _ := tlift (rwrap (ErrWrap "fork replacement authorization policy: ") (AuthzPolicy.ValidateStored encoded digest manifest)) in
sql_insert "run_auth" run_auth set_run_auth child_id (MkPolicy encoded digest)
else fun s => AuthzPolicy.CopyRun s (fl_parent_run_id lineage) child_id s.
(** The transaction, in the rebuilt store. *)
Definition write_replay (source : DB) (selected : Checkpoint) (parent : RunRow) (world : WorldRow) (rebuilt : RunRow) (transcript : string)
(observation : option (Observation * goval)) : DbTx unit :=
let consumed := if str_eqb (run_fault_operation child) (run_fault_operation parent) then run_fault_consumed rebuilt else 0 in
sql_insert "worlds" worlds set_worlds (run_world_id child) world ;;;
(fun s => copy_world s (run_world_id rebuilt) (run_world_id child) s) ;;;
insert_run child_id
(MkRun (run_world_id child) (run_scenario child) (run_provider child) (run_model child) (run_task child) "paused" (run_step rebuilt) transcript
 (run_fault_operation child) consumed (run_principal_id child)) ;;;
(fun s => copyToolResults s (fl_parent_run_id lineage) child_id s) ;;;
match observation with Some (o, _) => overrideToolResult child_id o | None => tret tt end ;;;
replay_chaos source ;;;
replay_auth source ;;;
start_events child_id selected manifest observation.

Definition ReconstructForReplay (source : DB) (fuel : nat) (now : time) : option (res err DB) :=
match read_lineage source with
| Err e => Some (Err e)
| Ok (parent, selected, world) =>
(fun out =>
 try* '(target, rebuilt) := out in
 try* parent_world := rsome (worlds target !! run_world_id rebuilt) ErrNoRows in
 try* _ := rassert ((wld_seed world =? wld_seed parent_world) && str_eqb (wld_digest world) (wld_digest parent_world)
                 && str_eqb (wld_base_at world) (wld_base_at parent_world)) (ErrText "fork child world metadata differs from checkpoint") in
 try* observation := read_observation source selected in
 try* transcript := (match observation with
                   | Some (o, _) => rwrap (ErrWrap "fork observation override: ") (applyObservation (run_transcript rebuilt) o)
                   | None => Ok (run_transcript rebuilt)
                   end) in
 try* '(_, target) := write_replay source selected parent world rebuilt transcript observation target in
 Ok target)
<$> Reconstruct source (fl_parent_run_id lineage) selected manifest fuel now
end.
End Replay.
End Checks.
End Fork.
