(* ===== verification/ForkFacts.v ===== *)
(** * What a fork guarantees

    A fork commits as a whole or not at all, disturbs nothing that was there,
    gives the child exactly what the prefix leaves, and keeps every invariant
    of the system. *)

From S2P Require Export Fork EvalFacts.
Open Scope Z_scope.
Open Scope tx_scope.

Module ForkFacts.
Import Runs Checkpoint Reconstruct Fork EvalFacts.

(** ** Rows copied under another name *)

(** [new] is [old] with the rows [src] has under [from], under [to], where
there was none. *)
Definition copied {V} (from to : string) (src old new : gmap (string * string) V) : Prop :=
(forall id v, src !! (from, id) = Some v -> old !! (to, id) = None) /\
(forall id, new !! (to, id) = match src !! (from, id) with Some v => Some v | None => old !! (to, id) end) /\
(forall w id, w <> to -> new !! (w, id) = old !! (w, id)).

Section Insert.
Context {K V A : Type} `{Countable K} (name : string) (get : DB -> gmap K V) (set : (gmap K V -> gmap K V) -> DB -> DB).
Context (Hget : forall f s, get (set f s) = f (get s)) (Hset : forall f g s, set f (set g s) = set (fun m => f (g m)) s) (Hid : forall s, set (fun _ => get s) s = s).
Context (key : A -> K) (val : A -> V).

Lemma insert_all_ok rows s u s' : tfor rows (fun row => sql_insert name get set (key row) (val row)) s = Ok (u, s') ->
exists m, s' = set (fun _ => m) s /\ (forall row, row ∈ rows -> get s !! key row = None /\ m !! key row = Some (val row)) /\
(forall k, (forall row, row ∈ rows -> key row <> k) -> m !! k = get s !! k).
Proof.
revert s. induction rows as [|row rows IH]; intros s; cbn [tfor].
- intros [= _ <-]. exists (get s). rewrite Hid. split; [done|]. split; [|done]. intros row Hr. by apply elem_of_nil in Hr.
- rewrite tbind_ok. intros (? & s1 & [Hn ->]%sql_insert_ok & (m & -> & Hin & Hout)%IH). exists m. rewrite Hset. split; [done|]. rewrite Hget in *.
assert (Hhead : forall row', row' ∈ rows -> key row' <> key row).
{ intros row' Hr He. apply Hin in Hr as [Hr _]. by rewrite He, lookup_insert_eq in Hr. }
split.
+ intros row' [->|Hr]%elem_of_cons; [split; [done|]; by rewrite Hout, lookup_insert_eq|].
destruct (Hin _ Hr) as [Hr' Hm]. split; [|done]. rewrite lookup_insert_ne in Hr'; [done|]. intros He. by apply (Hhead row').
+ intros k Hk. rewrite Hout by (intros row' Hr; apply Hk; by right). rewrite lookup_insert_ne; [done|]. apply Hk. by left.
Qed.
End Insert.

Section CopyRows.
Context {V : Type} (name : string) (get : DB -> gmap (string * string) V) (set : (gmap (string * string) V -> gmap (string * string) V) -> DB -> DB).
Context (Hget : forall f s, get (set f s) = f (get s)) (Hset : forall f g s, set f (set g s) = set (fun m => f (g m)) s) (Hid : forall s, set (fun _ => get s) s = s).

Lemma copied_by (rows : list (string * V)) (src : gmap (string * string) V) from to s u s' :
(forall id v, (id, v) ∈ rows <-> src !! (from, id) = Some v) -> tfor rows (fun row => sql_insert name get set (to, row.1) row.2) s = Ok (u, s') ->
exists m, s' = set (fun _ => m) s /\ copied from to src (get s) m.
Proof.
intros Hrows Hc. apply (insert_all_ok name get set Hget Hset Hid (fun row => (to, row.1)) snd) in Hc as (m & -> & Hin & Hout). exists m. split; [done|]. split_and!.
- intros id v Hv. apply Hrows in Hv. by destruct (Hin _ Hv).
- intros id. destruct (src !! (from, id)) as [v|] eqn:Hv; [apply Hrows in Hv; by destruct (Hin _ Hv)|].
apply Hout. intros [id' v'] Hr [= ->]. apply Hrows in Hr. congruence.
- intros w id Hw. apply Hout. intros row _. congruence.
Qed.
Lemma copy_rows_ok source from to s u s' : copy_rows name get set source from to s = Ok (u, s') ->
exists m, s' = set (fun _ => m) s /\ copied from to (get source) (get s) m.
Proof.
unfold copy_rows, ChaosPolicy.copying. destruct (tfor _ _ s) as [[u1 s1]|e] eqn:Hc; [|done]. intros [= <- <-]. eapply copied_by; [|exact Hc].
intros id v. unfold all_rows. rewrite elem_of_world_rows. tauto.
Qed.
End CopyRows.

Definition copied_members (from to : string) (src old new : gset (string * string * string)) : Prop :=
(forall c p, (from, c, p) ∈ src -> (to, c, p) ∉ old) /\
(forall c p, (to, c, p) ∈ new <-> (from, c, p) ∈ src \/ (to, c, p) ∈ old) /\
(forall w c p, w <> to -> (w, c, p) ∈ new <-> (w, c, p) ∈ old).
Lemma elem_of_member_rows m w c p : (c, p) ∈ member_rows m w <-> (w, c, p) ∈ m.
Proof.
unfold member_rows. rewrite list_elem_of_omap. split.
- intros ([[w' c'] p'] & Hin%elem_of_elements & Hc). cbn in Hc. destruct (str_eqb w' w) eqn:E; [|done]. apply str_eqb_true in E. by injection Hc as <- <-; subst.
- intros Hin. exists (w, c, p). rewrite elem_of_elements. split; [done|]. cbn. by rewrite str_eqb_refl.
Qed.
Lemma members_ok rows to s u s' : tfor rows (fun row => member to row.1 row.2) s = Ok (u, s') ->
exists m, s' = set_message_members (fun _ => m) s /\ (forall row, row ∈ rows -> (to, row.1, row.2) ∉ message_members s) /\
(forall k, k ∈ m <-> k ∈ message_members s \/ exists row, row ∈ rows /\ k = (to, row.1, row.2)).
Proof.
revert s. induction rows as [|row rows IH]; intros s; cbn [tfor].
- intros [= _ <-]. exists (message_members s). split; [by destruct s|]. split; [intros r Hr; by apply elem_of_nil in Hr|].
intros k. split; [by left|]. intros [?|(r & Hr & _)]; [done|by apply elem_of_nil in Hr].
- rewrite tbind_ok. intros (? & s1 & Hm & (m & -> & Hin & Hk)%IH). unfold member in Hm. case_bool_decide as Hn; [done|]. injection Hm as _ <-. exists m. split; [done|].
db_simpl. split.
+ intros r [->|Hr]%elem_of_cons; [done|]. apply Hin in Hr. set_solver.
+ intros k. rewrite Hk, elem_of_union, elem_of_singleton. setoid_rewrite elem_of_cons. naive_solver.
Qed.
Lemma copy_members_ok source from to s u s' : copy_members source from to s = Ok (u, s') ->
exists m, s' = set_message_members (fun _ => m) s /\ copied_members from to (message_members source) (message_members s) m.
Proof.
unfold copy_members, ChaosPolicy.copying. destruct (tfor _ _ s) as [[u1 s1]|e] eqn:Hc; [|done]. intros [= <- <-]. apply members_ok in Hc as (m & -> & Hin & Hk).
exists m. split; [done|]. split_and!.
- intros c p Hc. apply elem_of_member_rows in Hc. by apply (Hin (c, p)).
- intros c p. rewrite Hk. split.
+ intros [?|([c' p'] & Hr & [= -> ->])]; [by right|left]. by apply elem_of_member_rows.
+ intros [Hr|?]; [right|by left]. exists (c, p). by rewrite elem_of_member_rows.
- intros w c p Hw. rewrite Hk. split; [|by left]. intros [?|(r & _ & [= ? _ _])]; [done|congruence].
Qed.

(** *** A whole world *)

(** The tables that hold no rows of a world. *)
Definition other_tables (s : DB) :=
((wall s, worlds s, runs s, events s, tool_results s), (run_chaos s, chaos_rule_state s, chaos_snapshots s, chaos_hidden_outcomes s), (run_auth s, auth_state s),
 (run_leases s, work_queue s, workers s, run_ownership_log s), (checkpoints s, fork_lineage s, fork_observations s)).
Record world_copied (source : DB) (from to : string) (s s' : DB) : Prop := {
wc_customers : copied from to (customers source) (customers s) (customers s');
wc_invoices : copied from to (invoices source) (invoices s) (invoices s');
wc_charges : copied from to (charges source) (charges s) (charges s');
wc_refunds : copied from to (refunds source) (refunds s) (refunds s');
wc_subscriptions : copied from to (subscriptions source) (subscriptions s) (subscriptions s');
wc_accounts : copied from to (crm_accounts source) (crm_accounts s) (crm_accounts s');
wc_contacts : copied from to (crm_contacts source) (crm_contacts s) (crm_contacts s');
wc_notes : copied from to (crm_notes source) (crm_notes s) (crm_notes s');
wc_projects : copied from to (ticket_projects source) (ticket_projects s) (ticket_projects s');
wc_issues : copied from to (ticket_issues source) (ticket_issues s) (ticket_issues s');
wc_comments : copied from to (ticket_comments source) (ticket_comments s) (ticket_comments s');
wc_workspaces : copied from to (message_workspaces source) (message_workspaces s) (message_workspaces s');
wc_channels : copied from to (message_channels source) (message_channels s) (message_channels s');
wc_members : copied_members from to (message_members source) (message_members s) (message_members s');
wc_messages : copied from to (message_messages source) (message_messages s) (message_messages s') }.

Ltac copied_table H :=
apply tbind_ok in H as (? & ? & Hrow & H);
first [apply copy_rows_ok in Hrow as (? & -> & ?); [|reflexivity|reflexivity|by intros []] | apply copy_members_ok in Hrow as (? & -> & ?)].
Lemma copy_world_ok source from to s u s' : copy_world source from to s = Ok (u, s') -> world_copied source from to s s' /\ other_tables s' = other_tables s.
Proof.
unfold copy_world. intros Hc. do 14 copied_table Hc. apply copy_rows_ok in Hc as (? & -> & ?); [|reflexivity|reflexivity|by intros []].
split; [split; assumption|reflexivity].
Qed.

Lemma copyToolResults_ok source from to s u s' : copyToolResults source from to s = Ok (u, s') ->
exists m, s' = set_tool_results (fun _ => m) s /\ copied from to (tool_results source) (tool_results s) m.
Proof.
intros Hc. eapply copied_by in Hc; [exact Hc|reflexivity|reflexivity|by intros []|]. intros id v. rewrite sort_on_elem. unfold ChaosPolicy.pair_rows. rewrite list_elem_of_omap. split.
- intros ([[r c] v'] & Hin%elem_of_map_to_list & Hk). cbn in Hk. destruct (str_eqb r from) eqn:E; [|done]. apply str_eqb_true in E. by injection Hk as <- <-; subst.
- intros Hk. exists ((from, id), v). rewrite elem_of_map_to_list. split; [done|]. cbn. by rewrite str_eqb_refl.
Qed.

(** ** Invariants of a copied world *)

Lemma copied_values {V} (from to : string) (src old new : gmap (string * string) V) (P : V -> Prop) : copied from to src old new ->
(forall k v, src !! k = Some v -> P v) -> (forall k v, old !! k = Some v -> P v) -> forall k v, new !! k = Some v -> P v.
Proof.
intros (_ & Hto & Ho) Hs Hold [w id] v Hv. destruct (decide (w = to)) as [->|Hw]; [|rewrite Ho in Hv by done; by eapply Hold].
rewrite Hto in Hv. destruct (src !! (from, id)) as [v'|] eqn:E; [injection Hv as <-; by eapply Hs|by eapply Hold].
Qed.
Lemma world_rows_NoDup {V} (m : gmap (string * string) V) w cond : NoDup (world_rows m w cond).
Proof.
unfold world_rows. apply NoDup_omap_inj; [|apply NoDup_map_to_list]. intros [[w1 i1] v1] [[w2 i2] v2] y. cbn. repeat case_match; bool_inv; naive_solver.
Qed.
(** The refunds of a charge come from one side or the other. *)
Lemma refunds_same (m m' : gmap (string * string) RefundRow) w w' c :
(forall id r, rfd_charge_id r = c -> m !! (w, id) = Some r <-> m' !! (w', id) = Some r) -> Billing.refund_total m w c = Billing.refund_total m' w' c.
Proof.
intros Hm. rewrite !refund_total_rows. apply sum_of_perm. apply NoDup_Permutation; try apply world_rows_NoDup.
intros [id r]. rewrite !elem_of_world_rows. rewrite !str_eqb_true. split; intros [? ?]; (split; [|done]); by apply Hm.
Qed.
Lemma books_copied source from to s s' : Billing.books_balanced source -> Billing.books_balanced s ->
copied from to (charges source) (charges s) (charges s') -> copied from to (refunds source) (refunds s) (refunds s') -> Billing.books_balanced s'.
Proof.
intros (Bc & Bp & Bo) (Oc & Op & Oo) Hc Hr. pose proof (copied_values _ _ _ _ _ (fun r => 0 < rfd_amount_cents r) Hr Bp Op) as Hpos.
destruct Hc as (Cn & Ct & Cw), Hr as (Rn & Rt & Rw). split_and!; [|done|].
- intros w c row Hrow. unfold Billing.charge_balanced. destruct (decide (w = to)) as [->|Hw].
+ rewrite Ct in Hrow. destruct (charges source !! (from, c)) as [row'|] eqn:E.
* injection Hrow as ->. destruct (Bc _ _ _ E) as (H1 & H2 & H3). split_and!; [lia|lia|done|]. rewrite H3.
symmetry. apply refunds_same. intros id r <-. rewrite Rt. destruct (refunds source !! (from, id)) as [r'|] eqn:Er; [done|]. split; [|done]. intros Hold.
apply Oo in Hold as [x Hx]. by rewrite (Cn _ _ E) in Hx.
* destruct (Oc _ _ _ Hrow) as (H1 & H2 & H3). split_and!; [lia|lia|done|]. rewrite H3. apply refunds_same. intros id r <-. rewrite Rt.
destruct (refunds source !! (from, id)) as [r'|] eqn:Er; [|done]. rewrite (Rn _ _ Er). split; [done|]. intros [= ->]. apply Bo in Er as [x Hx]. congruence.
+ rewrite Cw in Hrow by done. destruct (Oc _ _ _ Hrow) as (H1 & H2 & H3). split_and!; [lia|lia|done|]. rewrite H3. apply refunds_same. intros id r _. by rewrite Rw.
- intros w id r Hrow. destruct (decide (w = to)) as [->|Hw].
+ rewrite Rt in Hrow. rewrite Ct. destruct (refunds source !! (from, id)) as [r'|] eqn:Er.
* injection Hrow as ->. apply Bo in Er as [x ->]. by eexists.
* apply Oo in Hrow as [x Hx]. destruct (charges source !! _); eauto.
+ rewrite Rw in Hrow by done. rewrite Cw by done. by eapply Oo.
Qed.
Lemma integrity_copied source from to s s' : world_integrity source -> world_copied source from to s s' -> keeps world_integrity s s'.
Proof.
intros (H1 & H2 & H3) Hc (O1 & O2 & O3). split_and!.
- eapply books_copied; [exact H1|exact O1|apply Hc|apply Hc].
- intros k a. eapply (copied_values _ _ _ _ _ (fun a => acc_status a ∈ _)); [apply Hc|exact H2|exact O2].
- intros k i. eapply (copied_values _ _ _ _ _ (fun i => iss_status i ∈ _)); [apply Hc|exact H3|exact O3].
Qed.

(** ** Isolation *)

(** The rows of every key but [x]. *)
Definition kept {V} (x : string) (m m' : gmap string V) : Prop := forall k, k <> x -> m' !! k = m !! k.
Definition kept_of {K V} `{Countable K} (x : string) (m m' : gmap (string * K) V) : Prop := forall k i, k <> x -> m' !! (k, i) = m !! (k, i).
Lemma kept_insert {V} (x : string) (m : gmap string V) v : kept x m (<[x := v]> m).
Proof. intros k Hk. by rewrite lookup_insert_ne. Qed.
Lemma kept_of_insert {K V} `{Countable K} (x : string) (i : K) (m : gmap (string * K) V) v : kept_of x m (<[(x, i) := v]> m).
Proof. intros k j Hk. rewrite lookup_insert_ne; [done|congruence]. Qed.

(** Everything that does not belong to the world [w] or the run [r] is as it
was, and no checkpoint is lost. *)
Record undisturbed (w r : string) (s s' : DB) : Prop := {
un_worlds : kept w (worlds s) (worlds s');
un_billing : kept_of w (customers s) (customers s') /\ kept_of w (invoices s) (invoices s') /\ kept_of w (charges s) (charges s') /\
     kept_of w (refunds s) (refunds s') /\ kept_of w (subscriptions s) (subscriptions s');
un_crm : kept_of w (crm_accounts s) (crm_accounts s') /\ kept_of w (crm_contacts s) (crm_contacts s') /\ kept_of w (crm_notes s) (crm_notes s');
un_tickets : kept_of w (ticket_projects s) (ticket_projects s') /\ kept_of w (ticket_issues s) (ticket_issues s') /\ kept_of w (ticket_comments s) (ticket_comments s');
un_messages : kept_of w (message_workspaces s) (message_workspaces s') /\ kept_of w (message_channels s) (message_channels s') /\
      kept_of w (message_messages s) (message_messages s');
un_members : forall k c p, k <> w -> (k, c, p) ∈ message_members s' <-> (k, c, p) ∈ message_members s;
un_runs : kept r (runs s) (runs s') /\ kept_of r (events s) (events s') /\ kept_of r (tool_results s) (tool_results s');
un_chaos : ChaosPolicy.others_kept s s' r;
un_auth : kept r (run_auth s) (run_auth s') /\ kept r (auth_state s) (auth_state s');
un_forks : kept r (fork_lineage s) (fork_lineage s') /\ kept r (fork_observations s) (fork_observations s');
un_checkpoints : checkpoints s ⊆ checkpoints s';
un_rest : (wall s', run_leases s', work_queue s', workers s', run_ownership_log s') = (wall s, run_leases s, work_queue s, workers s, run_ownership_log s) }.

#[export] Instance kept_preorder {V} x : PreOrder (kept (V:=V) x).
Proof. split; [by intros m k|]. intros m1 m2 m3 H12 H23 k Hk. by rewrite H23, H12. Qed.
#[export] Instance kept_of_preorder {K V} `{Countable K} x : PreOrder (kept_of (K:=K) (V:=V) x).
Proof. split; [by intros m k|]. intros m1 m2 m3 H12 H23 k i Hk. by rewrite H23, H12. Qed.
#[export] Instance others_kept_preorder r : PreOrder (fun s s' => ChaosPolicy.others_kept s s' r).
Proof.
split; [by split|]. intros s1 s2 s3 [A1 A2 A3 A4] [B1 B2 B3 B4]. split; intros; [by rewrite B1, A1|by rewrite B2, A2|by rewrite B3, A3|by rewrite B4, A4].
Qed.
#[export] Instance undisturbed_preorder w r : PreOrder (undisturbed w r).
Proof.
split.
- intros s. split; split_and?; try reflexivity; done.
- intros s1 s2 s3 [A1 A2 A3 A4 A5 A6 A7 A8 A9 A10 A11 A12] [B1 B2 B3 B4 B5 B6 B7 B8 B9 B10 B11 B12].
split; destruct_and?; split_and?; try (etransitivity; eassumption).
+ intros k c p Hk. by rewrite B6, A6.
+ exact (transitivity (R := fun s s' => ChaosPolicy.others_kept s s' r) A8 B8).
Qed.

Section Undisturbed.
Context (w r : string).
Ltac one_table := split; split_and?; try reflexivity; try (by split); try (by apply kept_insert); try (by apply kept_of_insert).
Lemma insert_undisturbed {K V} `{Countable K} name (get : DB -> gmap K V) set k v :
(forall s, get s !! k = None -> undisturbed w r s (set (insert k v) s)) -> respects (undisturbed w r) (sql_insert name get set k v).
Proof. apply insert_respects. Qed.
Lemma undisturbed_event typ payload : respects (undisturbed w r) (AppendEventTx r typ payload).
Proof. intros s u s' (row & _ & ->)%AppendEventTx_ok. one_table. Qed.
Lemma undisturbed_member c p : respects (undisturbed w r) (member w c p).
Proof. intros s u s'. unfold member. case_bool_decide; [done|]. intros [= _ <-]. one_table. intros k c' p' Hk. db_simpl. set_solver. Qed.
Lemma undisturbed_checkpoint k v : respects (undisturbed w r) (sql_insert_or_ignore checkpoints set_checkpoints k v).
Proof.
intros s u s' ->%sql_insert_or_ignore_ok. destruct (checkpoints s !! k) eqn:Hk; [reflexivity|]. one_table. db_simpl. by apply insert_subseteq.
Qed.
Lemma undisturbed_override o : respects (undisturbed w r) (overrideToolResult r o).
Proof.
unfold overrideToolResult. respects_tac. intros s u s'. unfold sql_update, tmodify. intros [= _ <-]. one_table.
db_simpl. intros k i Hk. rewrite lookup_alter_ne; [done|congruence].
Qed.
Lemma copying_respects (R : DB -> DB -> Prop) name m : respects R m -> respects R (ChaosPolicy.copying name m).
Proof. intros Hm s u s'. unfold ChaosPolicy.copying. destruct (m s) as [[u1 s1]|e] eqn:E; [|done]. intros [= <- <-]. by eapply Hm. Qed.
#[local] Hint Resolve undisturbed_event undisturbed_member undisturbed_checkpoint undisturbed_override : tx.
#[local] Hint Extern 2 (respects (undisturbed w r) (sql_insert _ _ _ _ _)) =>
(apply insert_undisturbed; intros; one_table; split; cbn; intros; try done; db_simpl; rewrite lookup_insert_ne; congruence) : tx.
#[local] Hint Extern 2 (respects (undisturbed w r) (ChaosPolicy.copying _ _)) => (apply copying_respects; respects_tac) : tx.

Lemma undisturbed_copy source from : respects (undisturbed w r) (copy_world source from w).
Proof. unfold copy_world, copy_rows, copy_members. respects_tac. Qed.
Lemma undisturbed_results source from : respects (undisturbed w r) (copyToolResults source from r).
Proof. unfold copyToolResults. respects_tac. Qed.
Lemma undisturbed_chaos source from : respects (undisturbed w r) (ChaosPolicy.CopyRun source from r).
Proof. unfold ChaosPolicy.CopyRun. respects_tac. Qed.
Lemma undisturbed_auth source from : respects (undisturbed w r) (AuthzPolicy.CopyRun source from r).
Proof. unfold AuthzPolicy.CopyRun. respects_tac. Qed.
End Undisturbed.

(** ** What the transaction writes *)

Lemma insert_blind {K V X} `{Countable K} (f : DB -> X) name (get : DB -> gmap K V) set k v :
(forall g s, f (set g s) = f s) -> respects (same f) (sql_insert name get set k v).
Proof. intros Hf. apply insert_respects. intros s _. apply Hf. Qed.
Lemma ignore_blind {K V X} `{Countable K} (f : DB -> X) (get : DB -> gmap K V) set k v :
(forall g s, f (set g s) = f s) -> respects (same f) (sql_insert_or_ignore get set k v).
Proof. intros Hf s u s' ->%sql_insert_or_ignore_ok. destruct (get s !! k); [done|apply Hf]. Qed.
Lemma event_blind {X} (f : DB -> X) run typ payload : (forall g s, f (set_events g s) = f s) -> respects (same f) (AppendEventTx run typ payload).
Proof. intros Hf s u s' (row & _ & ->)%AppendEventTx_ok. apply Hf. Qed.
Lemma override_blind {X} (f : DB -> X) run o : (forall g s, f (set_tool_results g s) = f s) -> respects (same f) (overrideToolResult run o).
Proof. intros Hf. unfold overrideToolResult. respects_tac. intros s u s'. unfold sql_update, tmodify. intros [= _ <-]. apply Hf. Qed.
#[local] Hint Extern 2 (respects (same _) (sql_insert _ _ _ _ _)) => (apply insert_blind; reflexivity) : tx.
#[local] Hint Extern 2 (respects (same _) (sql_insert_or_ignore _ _ _ _)) => (apply ignore_blind; reflexivity) : tx.
#[local] Hint Extern 2 (respects (same _) (AppendEventTx _ _ _)) => (apply event_blind; reflexivity) : tx.
#[local] Hint Extern 2 (respects (same _) (overrideToolResult _ _)) => (apply override_blind; reflexivity) : tx.
#[local] Hint Extern 2 (respects (same _) (ChaosPolicy.copying _ _)) => (apply copying_respects; respects_tac) : tx.

(** The service tables. *)
Definition twin_tables (s : DB) :=
((customers s, invoices s, charges s, refunds s, subscriptions s), (crm_accounts s, crm_contacts s, crm_notes s), (ticket_projects s, ticket_issues s, ticket_comments s),
 (message_workspaces s, message_channels s, message_members s, message_messages s)).
Definition chaos_tables (s : DB) := (run_chaos s, chaos_rule_state s, chaos_snapshots s, chaos_hidden_outcomes s).
Definition auth_tables (s : DB) := (run_auth s, auth_state s).

Section Write.
Context `{binding : SqlBind, nodes : YamlNodes, spec_yaml : SpecYaml, world_yaml : WorldYaml, policy_yaml : AuthzPolicy.PolicyYaml, chaos_yaml : ChaosPolicy.ChaosYaml}.
Context (selected : Checkpoint) (manifest : Manifest) (options : Options) (p : Plan).
Notation rid := (pn_run_id p).
Notation wid := (pn_world_id p).

(** The parts of the transaction after its first statements. *)
Definition fork_end (child : RunRow) : DbTx Result :=
sql_insert_or_ignore checkpoints set_checkpoints (cp_id selected)
(MkCheckpointRow (cp_run_id selected) (cp_event_seq selected) (cp_format_version selected) (cp_manifest_digest selected) (cp_prefix_digest selected)) ;;;
sql_insert "fork_lineage" fork_lineage set_fork_lineage rid (lineage_row selected options p) ;;;
start_events rid selected manifest (pn_observation p) ;;;
tret (MkResult rid child (MkStoreWorld wid (wld_seed (pn_world p)) (wld_digest (pn_world p))) selected).
Definition fork_policies (policy : option Authz.Policy) (child : RunRow) : DbTx Result :=
child_chaos selected manifest options p ;;; child_auth selected p policy ;;; fork_end child.

Lemma end_same {X} (f : DB -> X) child : (forall g s, f (set_checkpoints g s) = f s) -> (forall g s, f (set_fork_lineage g s) = f s) ->
(forall g s, f (set_events g s) = f s) -> respects (same f) (fork_end child).
Proof.
intros H1 H2 H3. unfold fork_end, start_events. respects_tac; [by apply ignore_blind|by apply insert_blind|by apply event_blind|by apply event_blind].
Qed.
Lemma child_auth_same {X} (f : DB -> X) policy : (forall g s, f (set_run_auth g s) = f s) -> (forall g s, f (set_auth_state g s) = f s) ->
respects (same f) (child_auth selected p policy).
Proof. intros H1 H2. unfold child_auth, AuthzPolicy.CopyRun. respects_tac; by apply insert_blind. Qed.
Lemma child_chaos_same {X} (f : DB -> X) : (forall g s, f (set_run_chaos g s) = f s) -> (forall g s, f (set_chaos_rule_state g s) = f s) ->
(forall g s, f (set_chaos_snapshots g s) = f s) -> (forall g s, f (set_chaos_hidden_outcomes g s) = f s) -> respects (same f) (child_chaos selected manifest options p).
Proof.
intros H1 H2 H3 H4. unfold child_chaos, ChaosPolicy.CopyRun. respects_tac; first [by apply insert_blind | apply copying_respects; respects_tac; by apply insert_blind].
Qed.
Lemma policies_same {X} (f : DB -> X) policy child : (forall g s, f (set_run_auth g s) = f s) -> (forall g s, f (set_auth_state g s) = f s) ->
(forall g s, f (set_run_chaos g s) = f s) -> (forall g s, f (set_chaos_rule_state g s) = f s) ->
(forall g s, f (set_chaos_snapshots g s) = f s) -> (forall g s, f (set_chaos_hidden_outcomes g s) = f s) ->
(forall g s, f (set_checkpoints g s) = f s) -> (forall g s, f (set_fork_lineage g s) = f s) -> (forall g s, f (set_events g s) = f s) ->
respects (same f) (fork_policies policy child).
Proof.
intros. unfold fork_policies. apply respects_bind; [apply _|by apply child_chaos_same|intros _]. apply respects_bind; [apply _|by apply child_auth_same|intros _]. by apply end_same.
Qed.
End Write.

(** The source was still there when the transaction ran. *)
Record source_verified (selected : Checkpoint) (p : Plan) (s : DB) (run : RunRow) : Prop := {
sv_run : runs s !! cp_run_id selected = Some run;
sv_status : run_status run ∈ ["paused"; "completed"];
sv_world : run_world_id run = run_world_id (pn_parent p);
sv_tip : Z.of_nat (length (Events (cp_run_id selected) s)) = pn_tip p;
sv_prefix : let prefix := List.filter (fun e => e_seq e <=? cp_event_seq selected) (Events (cp_run_id selected) s) in
Z.of_nat (length prefix) = cp_event_seq selected /\ PrefixDigest (cp_run_id selected) (cp_manifest_digest selected) prefix = Ok (cp_prefix_digest selected) }.
Lemma verify_ok selected p s u s' : verifySourceInTransaction (pn_parent p) selected (pn_tip p) s = Ok (u, s') -> s' = s /\ exists run, source_verified selected p s run.
Proof.
unfold verifySourceInTransaction. intros H. apply rbind_ok in H as (run & Hr%rsome_ok & H). apply rbind_ok in H as (world & _ & H).
apply rassert_bind in H as [H1 H]. apply rassert_bind in H as [H2 H]. apply rassert_bind in H as [H3 [= _ <-]]. split; [done|]. exists run.
rewrite !andb_true_iff, !str_eqb_true in H1. destruct H1 as [[H1 H1'] _]. apply contains_spec in H1. rewrite andb_true_iff, !Z.eqb_eq in H2. destruct H2 as [H2 H2'].
split; [done|done|done|done|]. split; [done|]. destruct (PrefixDigest _ _ _); [|done]. by apply str_eqb_true in H3 as ->.
Qed.

(** What the events of a new fork say. *)
Definition says (e : Event) (typ : string) (payload : goval) : Prop := e_type e = typ /\ marshal payload = Some (e_payload e).
Definition origin_events (selected : Checkpoint) (manifest : Manifest) (observation : option (Observation * goval)) (events : list Event) : Prop :=
match observation, events with
| None, [forked] => says forked "execution.forked" (forked_payload selected manifest)
| Some (_, payload), [forked; changed] => says forked "execution.forked" (forked_payload selected manifest) /\ says changed "observation.overridden" payload
| _, _ => False
end.
Lemma start_events_ok runID selected manifest observation s u s' : start_events runID selected manifest observation s = Ok (u, s') ->
exists events, Events runID s' = Events runID s ++ events /\ origin_events selected manifest observation events.
Proof.
unfold start_events. rewrite tbind_ok. intros (? & s1 & (row & Hr & ->)%AppendEventTx_ok & Hk). apply event_row_fields in Hr as [H1 H2].
destruct observation as [[o payload]|].
- apply AppendEventTx_ok in Hk as (row' & Hr' & ->). apply event_row_fields in Hr' as [H3 H4]. rewrite !Events_append, <- app_assoc. eexists. split; [reflexivity|]. split; split; done.
- injection Hk as _ <-. rewrite Events_append. eexists. split; [reflexivity|]. split; done.
Qed.

Section Forked.
Context `{binding : SqlBind, nodes : YamlNodes, spec_yaml : SpecYaml, world_yaml : WorldYaml, policy_yaml : AuthzPolicy.PolicyYaml, chaos_yaml : ChaosPolicy.ChaosYaml}.
Context (selected : Checkpoint) (manifest : Manifest) (options : Options) (p : Plan).
Notation rid := (pn_run_id p).
Notation wid := (pn_world_id p).
Notation parent := (cp_run_id selected).

(** The child's saved results: those of the prefix, with the replaced one. *)
Definition child_results (s : DB) (results : gmap (string * string) ToolResultRow) : Prop := exists m,
copied parent rid (tool_results (pn_target p)) (tool_results s) m /\
results = match pn_observation p with Some (o, _) => alter (overridden o) (rid, ob_call_id o) m | None => m end.
(** Its chaos rules: the replacement's, without history, or the prefix's with
all of it. *)
Definition chaos_given (s s' : DB) : Prop :=
if given (op_ChaosPolicyRaw options) then
exists policy encoded, ChaosPolicy.Parse (op_ChaosPolicyRaw options) manifest = Ok policy /\ Chaos.CanonicalJSON policy = Some encoded /\
run_chaos s' !! rid = Some (MkPolicy encoded (Chaos.Digest policy))
else ChaosPolicy.fresh_run s rid -> ChaosPolicy.alike (pn_target p) parent s' rid.
(** Its authorization policy and the principal it acts as. *)
Definition auth_given (principal : string) (s s' : DB) : Prop :=
if given (op_AuthPolicyRaw options) then
exists policy encoded, AuthzPolicy.Parse (op_AuthPolicyRaw options) manifest = Ok policy /\ Authz.CanonicalJSON policy = Some encoded /\
run_auth s' !! rid = Some (MkPolicy encoded (Authz.Digest policy)) /\ auth_state s' = auth_state s /\ principal = po_principal_id policy
else principal = run_principal_id (pn_parent p) /\
match run_auth (pn_target p) !! parent with
| Some row => run_auth s' !! rid = Some row /\ match auth_state (pn_target p) !! parent with Some call => auth_state s' !! rid = Some call | None => auth_state s' = auth_state s end
| None => run_auth s' = run_auth s /\ auth_state s' = auth_state s
end.

(** All that a fork writes. *)
Record forked (r : Result) (s s' : DB) : Prop := {
fd_source : exists run, source_verified selected p s run;
fd_world : worlds s !! wid = None /\ worlds s' !! wid = Some (pn_world p);
fd_twins : world_copied (pn_target p) (run_world_id (pn_rebuilt p)) wid s s';
fd_run : runs s !! rid = None /\ runs s' !! rid = Some (rs_run r);
fd_child : rs_run_id r = rid /\ rs_checkpoint r = selected /\ w_id (rs_world r) = wid;
fd_fields : rs_run r = child_run p (run_principal_id (rs_run r));
fd_results : child_results s (tool_results s');
fd_chaos : chaos_given s s';
fd_auth : auth_given (run_principal_id (rs_run r)) s s';
fd_lineage : fork_lineage s' !! rid = Some (lineage_row selected options p);
fd_ledger : exists events, Events rid s' = Events rid s ++ events /\ origin_events selected manifest (pn_observation p) events }.

Lemma child_chaos_ok s0 s u s' : chaos_tables s = chaos_tables s0 -> child_chaos selected manifest options p s = Ok (u, s') -> chaos_given s0 s'.
Proof.
intros He. unfold child_chaos, chaos_given. destruct (given _).
- rewrite tbind_ok. intros (policy & s1 & [Hp <-]%tlift_ok & H). apply tbind_ok in H as (encoded & s2 & [He' <-]%tsome_ok & [_ ->]%sql_insert_ok).
exists policy, encoded. split; [done|]. split; [done|]. db_simpl. apply lookup_insert_eq.
- intros Hc [F1 F2 F3 F4]. unfold chaos_tables in He. injection He as E1 E2 E3 E4.
destruct (ChaosPolicy.copy_chaos (pn_target p) parent rid s) as (t & Ht & Ha & _); [by split; rewrite ?E1, ?E2, ?E3, ?E4|].
rewrite Ht in Hc. by injection Hc as _ <-.
Qed.
Lemma child_auth_ok s0 s u s' policy : auth_tables s = auth_tables s0 -> child_auth selected p policy s = Ok (u, s') ->
match policy with
| Some policy => exists encoded, Authz.CanonicalJSON policy = Some encoded /\ run_auth s' !! rid = Some (MkPolicy encoded (Authz.Digest policy)) /\ auth_state s' = auth_state s0
| None => match run_auth (pn_target p) !! parent with
  | Some row => run_auth s' !! rid = Some row /\ match auth_state (pn_target p) !! parent with Some call => auth_state s' !! rid = Some call | None => auth_state s' = auth_state s0 end
  | None => run_auth s' = run_auth s0 /\ auth_state s' = auth_state s0
  end
end.
Proof.
unfold auth_tables. intros He. injection He as E1 E2. unfold child_auth, AuthzPolicy.CopyRun. destruct policy as [policy|].
- rewrite tbind_ok. intros (encoded & s1 & [Hj <-]%tsome_ok & [_ ->]%sql_insert_ok). exists encoded. split; [done|]. db_simpl. split; [apply lookup_insert_eq|done].
- destruct (run_auth _ !! parent) as [row|]; [|intros [= _ <-]; done]. rewrite tbind_ok. intros (? & s1 & [_ ->]%sql_insert_ok & H).
destruct (auth_state _ !! parent) as [call|]; [apply sql_insert_ok in H as [_ ->]|injection H as _ <-]; db_simpl; split; try done; apply lookup_insert_eq.
Qed.
Lemma child_observation_ok s u s' : child_observation p s = Ok (u, s') ->
tool_results s' = match pn_observation p with Some (o, _) => alter (overridden o) (rid, ob_call_id o) (tool_results s) | None => tool_results s end.
Proof.
unfold child_observation. destruct (pn_observation p) as [[o payload]|]; [|by intros [= _ <-]]. rewrite tbind_ok. intros (? & s1 & H & [_ ->]%sql_insert_ok).
unfold overrideToolResult in H. apply tbind_ok in H as (found & s2 & Hf & H). injection Hf as _ <-.
apply tbind_ok in H as (? & s3 & [_ Hs]%tassert_ok & H). injection Hs as _ ->. by injection H as _ <-.
Qed.
End Forked.

Section WriteFork.
Context `{binding : SqlBind, nodes : YamlNodes, spec_yaml : SpecYaml, world_yaml : WorldYaml, policy_yaml : AuthzPolicy.PolicyYaml, chaos_yaml : ChaosPolicy.ChaosYaml}.
Context (selected : Checkpoint) (manifest : Manifest) (options : Options) (p : Plan).
Notation rid := (pn_run_id p).
Notation wid := (pn_world_id p).
Notation parent := (cp_run_id selected).

(** The transaction up to the child's row, and from there on. *)
Definition fork_head : DbTx (option Authz.Policy) :=
verifySourceInTransaction (pn_parent p) selected (pn_tip p) ;;;
sql_insert "worlds" worlds set_worlds wid (pn_world p) ;;;
copy_world (pn_target p) (run_world_id (pn_rebuilt p)) wid ;;;
if given (op_AuthPolicyRaw options) then let* policy := tlift (AuthzPolicy.Parse (op_AuthPolicyRaw options) manifest) in tret (Some policy) else tret None.
Definition principal_of (policy : option Authz.Policy) : string := match policy with Some policy => po_principal_id policy | None => run_principal_id (pn_parent p) end.
Definition fork_rest (policy : option Authz.Policy) (child : RunRow) : DbTx Result :=
copyToolResults (pn_target p) parent rid ;;; child_observation p ;;; fork_policies selected manifest options p policy child.

Lemma write_fork_split s r s' : write_fork selected manifest options p s = Ok (r, s') -> exists policy s1, fork_head s = Ok (policy, s1) /\
runs s1 !! rid = None /\ fork_rest policy (child_run p (principal_of policy)) (set_runs (insert rid (child_run p (principal_of policy))) s1) = Ok (r, s').
Proof.
unfold write_fork, fork_head. rewrite tbind_ok. intros ([] & sa & Ha & H). apply tbind_ok in H as ([] & sb & Hb & H). apply tbind_ok in H as ([] & sc & Hc & H).
apply tbind_ok in H as (policy & sd & Hd & H). cbv zeta in H. apply tbind_ok in H as ([] & se & [Hn ->]%sql_insert_ok & H). exists policy, sd.
split; [|split; [done|exact H]]. apply tbind_ok. exists tt, sa. split; [done|]. apply tbind_ok. exists tt, sb. split; [done|]. apply tbind_ok. by exists tt, sc.
Qed.
Lemma head_ok s policy s1 : fork_head s = Ok (policy, s1) -> (exists run, source_verified selected p s run) /\ worlds s !! wid = None /\
world_copied (pn_target p) (run_world_id (pn_rebuilt p)) wid s s1 /\ other_tables s1 = other_tables (set_worlds (insert wid (pn_world p)) s) /\
(if given (op_AuthPolicyRaw options) then exists doc, policy = Some doc /\ AuthzPolicy.Parse (op_AuthPolicyRaw options) manifest = Ok doc else policy = None).
Proof.
unfold fork_head. rewrite tbind_ok. intros (? & sa & [-> Hv]%verify_ok & H). apply tbind_ok in H as (? & sb & [Hn ->]%sql_insert_ok & H).
apply tbind_ok in H as (? & sc & [Hc Ho]%copy_world_ok & H). split; [done|]. split; [done|]. destruct (given _).
- apply tbind_ok in H as (doc & sd & [Hp ->]%tlift_ok & [= <- <-]). split_and!; [by destruct Hc|done|by exists doc].
- injection H as <- <-. split_and!; [by destruct Hc|done|done].
Qed.

(** *** The statements after the child's row, one at a time *)

Lemma results_same {X} (f : DB -> X) : (forall g s, f (set_tool_results g s) = f s) -> respects (same f) (copyToolResults (pn_target p) parent rid).
Proof. intros Hf. unfold copyToolResults. respects_tac. by apply insert_blind. Qed.
Lemma observation_same {X} (f : DB -> X) : (forall g s, f (set_tool_results g s) = f s) -> (forall g s, f (set_fork_observations g s) = f s) -> respects (same f) (child_observation p).
Proof. intros Ht Ho. unfold child_observation. respects_tac; [by apply override_blind|by apply insert_blind]. Qed.
Lemma rest_same {X} (f : DB -> X) policy child : (forall g s, f (set_tool_results g s) = f s) -> (forall g s, f (set_fork_observations g s) = f s) ->
(forall g s, f (set_run_auth g s) = f s) -> (forall g s, f (set_auth_state g s) = f s) ->
(forall g s, f (set_run_chaos g s) = f s) -> (forall g s, f (set_chaos_rule_state g s) = f s) ->
(forall g s, f (set_chaos_snapshots g s) = f s) -> (forall g s, f (set_chaos_hidden_outcomes g s) = f s) ->
(forall g s, f (set_checkpoints g s) = f s) -> (forall g s, f (set_fork_lineage g s) = f s) -> (forall g s, f (set_events g s) = f s) ->
respects (same f) (fork_rest policy child).
Proof.
intros. unfold fork_rest. apply respects_bind; [apply _|by apply results_same|intros _]. apply respects_bind; [apply _|by apply observation_same|intros _]. by apply policies_same.
Qed.
Lemma rest_split policy child s r s' : fork_rest policy child s = Ok (r, s') -> exists s1 s2 s3 s4,
copyToolResults (pn_target p) parent rid s = Ok (tt, s1) /\ child_observation p s1 = Ok (tt, s2) /\ child_chaos selected manifest options p s2 = Ok (tt, s3) /\
child_auth selected p policy s3 = Ok (tt, s4) /\ fork_end selected manifest options p child s4 = Ok (r, s').
Proof.
unfold fork_rest, fork_policies. rewrite tbind_ok. intros ([] & s1 & H1 & H). apply tbind_ok in H as ([] & s2 & H2 & H). apply tbind_ok in H as ([] & s3 & H3 & H).
apply tbind_ok in H as ([] & s4 & H4 & H). by exists s1, s2, s3, s4.
Qed.

Ltac frame lemma H := let F := fresh "F" in pose proof (lemma _ _ _ H) as F; unfold same in F.
Lemma rest_results policy child s r s' : fork_rest policy child s = Ok (r, s') -> child_results selected p s (tool_results s').
Proof.
intros (s1 & s2 & s3 & s4 & H1 & H2 & H3 & H4 & H5)%rest_split. apply copyToolResults_ok in H1 as (m & -> & Hm). apply child_observation_ok in H2.
frame (child_chaos_same selected manifest options p tool_results (fun _ _ => eq_refl) (fun _ _ => eq_refl) (fun _ _ => eq_refl) (fun _ _ => eq_refl)) H3.
frame (child_auth_same selected p tool_results policy (fun _ _ => eq_refl) (fun _ _ => eq_refl)) H4.
frame (end_same selected manifest options p tool_results child (fun _ _ => eq_refl) (fun _ _ => eq_refl) (fun _ _ => eq_refl)) H5.
exists m. split; [done|]. by rewrite F1, F0, F, H2.
Qed.
Lemma rest_chaos policy child s r s' : fork_rest policy child s = Ok (r, s') -> chaos_given selected manifest options p s s'.
Proof.
intros (s1 & s2 & s3 & s4 & H1 & H2 & H3 & H4 & H5)%rest_split. frame (results_same chaos_tables (fun _ _ => eq_refl)) H1.
frame (observation_same chaos_tables (fun _ _ => eq_refl) (fun _ _ => eq_refl)) H2. apply (child_chaos_ok selected manifest options p s) in H3; [|congruence].
frame (child_auth_same selected p chaos_tables policy (fun _ _ => eq_refl) (fun _ _ => eq_refl)) H4.
frame (end_same selected manifest options p chaos_tables child (fun _ _ => eq_refl) (fun _ _ => eq_refl) (fun _ _ => eq_refl)) H5.
assert (E : chaos_tables s' = chaos_tables s3) by congruence. unfold chaos_tables in E. injection E as E1 E2 E3 E4.
unfold chaos_given in *. destruct (given _); [by rewrite E1|]. intros Hf. destruct (H3 Hf). split; by rewrite ?E1, ?E2, ?E3, ?E4.
Qed.
Lemma rest_auth policy child s r s' : fork_rest policy child s = Ok (r, s') ->
(if given (op_AuthPolicyRaw options) then exists doc, policy = Some doc /\ AuthzPolicy.Parse (op_AuthPolicyRaw options) manifest = Ok doc else policy = None) ->
auth_given selected manifest options p (principal_of policy) s s'.
Proof.
intros (s1 & s2 & s3 & s4 & H1 & H2 & H3 & H4 & H5)%rest_split Hpol. frame (results_same auth_tables (fun _ _ => eq_refl)) H1.
frame (observation_same auth_tables (fun _ _ => eq_refl) (fun _ _ => eq_refl)) H2.
frame (child_chaos_same selected manifest options p auth_tables (fun _ _ => eq_refl) (fun _ _ => eq_refl) (fun _ _ => eq_refl) (fun _ _ => eq_refl)) H3.
apply (child_auth_ok selected p s) in H4; [|congruence].
frame (end_same selected manifest options p auth_tables child (fun _ _ => eq_refl) (fun _ _ => eq_refl) (fun _ _ => eq_refl)) H5. unfold auth_tables in F2. injection F2 as E1 E2.
unfold auth_given. destruct (given _).
- destruct Hpol as (doc & -> & Hp). destruct H4 as (encoded & Hj & Hr & Hs). exists doc, encoded. split_and!; [done|done|by rewrite E1|by rewrite E2|done].
- subst policy. split; [done|]. destruct (run_auth (pn_target p) !! parent); [|by rewrite E1, E2]. destruct H4 as [Hr Hs]. rewrite E1. split; [done|].
destruct (auth_state (pn_target p) !! parent); by rewrite E2.
Qed.
Lemma rest_ledger policy child s r s' : fork_rest policy child s = Ok (r, s') ->
fork_lineage s' !! rid = Some (lineage_row selected options p) /\ r = MkResult rid child (MkStoreWorld wid (wld_seed (pn_world p)) (wld_digest (pn_world p))) selected /\
exists events, Events rid s' = Events rid s ++ events /\ origin_events selected manifest (pn_observation p) events.
Proof.
intros (s1 & s2 & s3 & s4 & H1 & H2 & H3 & H4 & H5)%rest_split. frame (results_same events (fun _ _ => eq_refl)) H1.
frame (observation_same events (fun _ _ => eq_refl) (fun _ _ => eq_refl)) H2.
frame (child_chaos_same selected manifest options p events (fun _ _ => eq_refl) (fun _ _ => eq_refl) (fun _ _ => eq_refl) (fun _ _ => eq_refl)) H3.
frame (child_auth_same selected p events policy (fun _ _ => eq_refl) (fun _ _ => eq_refl)) H4.
unfold fork_end in H5. apply tbind_ok in H5 as ([] & s5 & H5 & H). frame (ignore_blind events checkpoints set_checkpoints (cp_id selected)
(MkCheckpointRow (cp_run_id selected) (cp_event_seq selected) (cp_format_version selected) (cp_manifest_digest selected) (cp_prefix_digest selected)) (fun _ _ => eq_refl)) H5.
apply tbind_ok in H as ([] & s6 & [_ ->]%sql_insert_ok & H). apply tbind_ok in H as ([] & s7 & H & [= <- <-]).
assert (Hl : fork_lineage s7 = <[rid := lineage_row selected options p]> (fork_lineage s5)).
{ revert H. unfold start_events. intros (? & s8 & (row & _ & ->)%AppendEventTx_ok & Hk)%tbind_ok. destruct (pn_observation p) as [[o payload]|].
- apply AppendEventTx_ok in Hk as (row' & _ & ->). done.
- by injection Hk as <-. }
split; [by rewrite Hl, lookup_insert_eq|]. split; [done|]. apply start_events_ok in H as (evs & He & Ho). exists evs. split; [|done]. rewrite He. f_equal. unfold Events. db_simpl. by rewrite F3, F2, F1, F0, F.
Qed.

Lemma world_copied_same source from to s s1 s' : twin_tables s' = twin_tables s1 -> world_copied source from to s s1 -> world_copied source from to s s'.
Proof. unfold twin_tables. intros E [? ? ? ? ? ? ? ? ? ? ? ? ? ? ?]. injection E; intros. split; congruence. Qed.
Lemma write_fork_ok s r s' : write_fork selected manifest options p s = Ok (r, s') -> forked selected manifest options p r s s'.
Proof.
intros Hw. apply write_fork_split in Hw as (policy & s1 & Hh & Hn & Hr). apply head_ok in Hh as (Hsrc & Hnw & Hcopy & Ho & Hpol).
unfold other_tables in Ho. injection Ho; clear Ho; intros. set (child := child_run p (principal_of policy)) in *. set (s2 := set_runs _ s1) in *.
assert (Hf : (twin_tables s', (worlds s', runs s')) = (twin_tables s2, (worlds s2, runs s2))).
{ refine (rest_same (fun s => (twin_tables s, (worlds s, runs s))) _ _ _ _ _ _ _ _ _ _ _ _ _ _ _ _ Hr); reflexivity. }
apply pair_equal_spec in Hf as [Htw Hf]. apply pair_equal_spec in Hf as [Hws Hrs]. destruct (rest_ledger _ _ _ _ _ Hr) as (Hlin & -> & events & He & Hor).
pose proof (rest_results _ _ _ _ _ Hr) as Hres. pose proof (rest_chaos _ _ _ _ _ Hr) as Hch. pose proof (rest_auth _ _ _ _ _ Hr Hpol) as Hau.
assert (Hws2 : worlds s2 = worlds s1) by done. assert (Hrs2 : runs s2 = <[rid := child]> (runs s1)) by done.
split; try done.
- split; [done|]. rewrite Hws, Hws2. rename select (worlds s1 = _) into E1. rewrite E1. db_simpl. apply lookup_insert_eq.
- by apply (world_copied_same _ _ _ _ s1).
- rename select (runs s1 = _) into E1. split; [by rewrite <- E1|]. rewrite Hrs, Hrs2. apply lookup_insert_eq.
- destruct Hres as (m & Hm & Hres). exists m. split; [|done]. rename select (tool_results s1 = _) into E1. change (tool_results s2) with (tool_results s1) in Hm. by rewrite E1 in Hm.
- revert Hch. unfold chaos_given. destruct (given (op_ChaosPolicyRaw options)); [exact id|]. intros Hch [F1 F2 F3 F4]. apply Hch. split; subst s2; db_simpl; congruence.
- revert Hau. unfold auth_given. rename select (run_auth s1 = _) into E1. rename select (auth_state s1 = _) into E2.
change (run_auth s2) with (run_auth s1). change (auth_state s2) with (auth_state s1). rewrite E1, E2. exact id.
- exists events. split; [|done]. rewrite He. f_equal. unfold Events. rename select (Db.events s1 = _) into E1. change (Db.events s2) with (Db.events s1). by rewrite E1.
Qed.
End WriteFork.

(** ** Forks as steps of the system *)

Section Steps.
Context `{binding : SqlBind, nodes : YamlNodes, spec_yaml : SpecYaml, world_yaml : WorldYaml, policy_yaml : AuthzPolicy.PolicyYaml, chaos_yaml : ChaosPolicy.ChaosYaml}.
#[local] Hint Resolve undisturbed_event undisturbed_member undisturbed_checkpoint undisturbed_override undisturbed_copy undisturbed_results undisturbed_chaos undisturbed_auth : tx.
#[local] Hint Extern 3 (respects (undisturbed _ _) (sql_insert _ _ _ _ _)) =>
(apply insert_undisturbed; intros; split; split_and?; try reflexivity; try (by split); try (by apply kept_insert); try (by apply kept_of_insert);
 split; cbn; intros; try done; db_simpl; rewrite lookup_insert_ne; congruence) : tx.

Lemma write_fork_undisturbed selected manifest options p : respects (undisturbed (pn_world_id p) (pn_run_id p)) (write_fork selected manifest options p).
Proof.
assert (Hv : respects (undisturbed (pn_world_id p) (pn_run_id p)) (verifySourceInTransaction (pn_parent p) selected (pn_tip p))) by (intros s u s' [-> _]%verify_ok; reflexivity).
unfold write_fork, insert_run, child_observation, child_chaos, child_auth, start_events. respects_tac.
Qed.
Lemma insert_logs {K V} `{Countable K} name (get : DB -> gmap K V) set k v : (forall g s, logs (set g s) = logs s) -> respects logs_grow (sql_insert name get set k v).
Proof. intros Hs. apply insert_respects. intros s _. apply same_logs_grow, Hs. Qed.
#[local] Hint Extern 2 (respects logs_grow (sql_insert _ _ _ _ _)) => (apply insert_logs; reflexivity) : tx.
#[local] Hint Extern 2 (respects logs_grow (ChaosPolicy.copying _ _)) => (apply copying_respects; respects_tac) : tx.
Lemma write_fork_logs selected manifest options p : respects logs_grow (write_fork selected manifest options p).
Proof.
assert (Hv : respects logs_grow (verifySourceInTransaction (pn_parent p) selected (pn_tip p))) by (intros s u s' [-> _]%verify_ok; reflexivity).
assert (Hm : forall w c m, respects logs_grow (member w c m)).
{ intros w c m s u s'. unfold member. case_bool_decide; [done|]. intros [= _ <-]. by apply same_logs_grow. }
assert (Hk : forall k v, respects logs_grow (sql_insert_or_ignore checkpoints set_checkpoints k v)).
{ intros k v s u s' ->%sql_insert_or_ignore_ok. by case_match; apply same_logs_grow. }
unfold write_fork, insert_run, copy_world, copy_rows, copy_members, copyToolResults, child_observation, overrideToolResult, child_chaos, child_auth, start_events,
ChaosPolicy.CopyRun, AuthzPolicy.CopyRun. respects_tac.
Qed.

(** A fork keeps the invariants, when the store its prefix was executed in has
them. *)
Lemma write_fork_inv selected manifest options p r s s' : pn_run_id p <> "" -> inv (pn_target p) -> write_fork selected manifest options p s = Ok (r, s') -> inv s -> inv s'.
Proof.
intros Hid (_ & Ht & _) Hw ((H1 & H2 & H3) & Hi & Hd). pose proof (write_fork_undisturbed _ _ _ _ _ _ _ Hw) as Hu. pose proof (write_fork_logs _ _ _ _ _ _ _ Hw) as Hl.
apply write_fork_ok in Hw as Hf. destruct (un_rest _ _ _ _ Hu). destruct (un_runs _ _ _ _ Hu) as (Hr & _). destruct (fd_run _ _ _ _ _ _ _ Hf) as [Hnew Hchild].
pose proof (un_rest _ _ _ _ Hu) as Hrest. injection Hrest as _ E1 E2 _ _. split_and!.
- split_and!.
+ unfold leases_ok. by rewrite E1.
+ intros q row. rewrite E2. intros (? & ? & ? & ? & Hs)%H2. split_and!; try done. destruct (decide (q = pn_run_id p)) as [->|Hq]; [by rewrite Hchild|]. by rewrite Hr.
+ unfold runs_named. by rewrite Hr.
- eapply integrity_copied; [exact Ht|exact (fd_twins _ _ _ _ _ _ _ Hf)|exact Hi].
- by eapply logs_grow_dense.
Qed.
End Steps.

Section Program.
Context `{binding : SqlBind, nodes : YamlNodes, spec_yaml : SpecYaml, world_yaml : WorldYaml, policy_yaml : AuthzPolicy.PolicyYaml, chaos_yaml : ChaosPolicy.ChaosYaml}.

(** What was decided before the transaction. *)
Record planned (selected : Checkpoint) (manifest : Manifest) (options : Options) (source : DB) (fuel : nat) (now : time) (p : Plan) : Prop := {
pd_rebuilt : Reconstruct source (cp_run_id selected) selected manifest fuel now = Some (Ok (pn_target p, pn_rebuilt p));
pd_parent : runs source !! cp_run_id selected = Some (pn_parent p);
pd_tip : pn_tip p = Z.of_nat (length (Events (cp_run_id selected) source));
pd_options : ValidateOptions (pn_parent p) manifest options = Ok tt;
pd_observation : match op_Observation options with
         | Some o => exists prepared, prepareObservation (Events (cp_run_id selected) source) selected o = Ok prepared /\ pn_observation p = Some prepared
         | None => pn_observation p = None
         end;
pd_transcript : with_transcript (run_transcript (pn_rebuilt p)) (pn_observation p) = Ok (pn_transcript p);
pd_world : worlds (pn_target p) !! run_world_id (pn_rebuilt p) = Some (pn_world p);
pd_models : pn_provider p = chosen (op_Provider options) (run_provider (pn_parent p)) /\ pn_model p = chosen (op_Model options) (run_model (pn_parent p));
pd_fault : pn_fault p = (if given (op_ChaosPolicyRaw options) then "" else default (run_fault_operation (pn_parent p)) (op_FaultOperation options));
pd_consumed : pn_consumed p = (if str_eqb (pn_fault p) (run_fault_operation (pn_parent p)) then run_fault_consumed (pn_rebuilt p) else 0);
pd_names : (exists raw, pn_world_id p = "W-F-" +:+ hex_encode raw) /\ (exists raw, pn_run_id p = "R-" +:+ hex_encode raw) }.
Lemma plan_ok selected manifest options source fuel now rw rr p : plan_of selected manifest options source fuel now rw rr = Some (Ok p) ->
planned selected manifest options source fuel now p.
Proof.
unfold plan_of. destruct (read_parent _ _ _ _) as [[[parent tip] observation]|e] eqn:Hp; [|done]. intros ([[target rebuilt]|e] & Hr & Hpl)%fmap_Some; [|done]. symmetry in Hpl.
unfold read_parent in Hp. apply rassert_bind in Hp as [_ Hp]. apply rbind_ok in Hp as (run & Hrun%rsome_ok & Hp). apply rbind_ok in Hp as ([] & Hopt & Hp).
apply rbind_ok in Hp as (obs & Hobs & [= <- <- <-]). cbn [rbind] in Hpl. unfold plan_fork in Hpl. apply rbind_ok in Hpl as (transcript & Ht & Hpl).
apply rassert_bind in Hpl as [_ Hpl]. apply rbind_ok in Hpl as (world & Hw%rsome_ok & Hpl). apply rbind_ok in Hpl as (wid & Hwid & Hpl). apply rbind_ok in Hpl as (rid & Hrid & [= <-]).
unfold randomID in Hwid, Hrid. apply rbind_ok in Hwid as (raw & _ & [= <-]), Hrid as (raw' & _ & [= <-]). split; try done; cbn.
- destruct (op_Observation options); [|by injection Hobs as <-]. apply rbind_ok in Hobs as (prepared & Hpr & [= <-]). by exists prepared.
- split; eauto.
Qed.

Lemma Create_ends selected manifest options source fuel now rw rr io s out s' :
Create selected manifest options source fuel now rw rr = Some io -> io s = (out, s') ->
match out with
| Err _ => s' = s
| Ok r => exists p, planned selected manifest options source fuel now p /\
undisturbed (w_id (rs_world r)) (rs_run_id r) s s' /\ forked selected manifest options p r s s'
end.
Proof.
unfold Create. intros ([p|e] & Hp & ->)%fmap_Some; [|by intros [= <- <-]]. destruct (atomically _ s) as [[r|e] s1] eqn:Ha; intros [= <- <-]; [|by apply atomically_err in Ha as [_ ->]].
apply atomically_ok in Ha. exists p. split; [by eapply plan_ok|]. pose proof (write_fork_ok _ _ _ _ _ _ _ Ha) as Hf. destruct (fd_child _ _ _ _ _ _ _ Hf) as (-> & _ & ->).
split; [by eapply write_fork_undisturbed|done].
Qed.

(** C22. A fork is isolated and exact.  It commits as a whole or changes nothing;
on success every row of another world or run is as it was, the parent's
ledger still starts with the checkpoint's prefix, and the child is what the
executed prefix left: its world has a copy of every row, its saved results
those of the prefix with the replaced observation, its chaos and
authorization state the prefix's or the replacement's, its ledger the origin
of the fork, and its lineage what a replay needs to make it again. *)
Theorem fork_isolated selected manifest options source fuel now rw rr io s :
Create selected manifest options source fuel now rw rr = Some io ->
match io s with
| (Err _, s') => s' = s
| (Ok r, s') => exists p, planned selected manifest options source fuel now p /\
undisturbed (w_id (rs_world r)) (rs_run_id r) s s' /\ forked selected manifest options p r s s'
end.
Proof. intros Hc. destruct (io s) as [out s'] eqn:E. pose proof (Create_ends _ _ _ _ _ _ _ _ _ _ _ _ Hc E) as H. by destruct out. Qed.

(** A step of the program: of the system, of the constructors of worlds and
runs, or a fork, whose source may be the database at any earlier moment. *)
Inductive program_step (s : DB) : DB -> Prop :=
| program_base s' : step s s' -> program_step s s'
| program_fork selected manifest options source fuel now rw rr io : cp_run_id selected <> "" -> valid_time now ->
Create selected manifest options source fuel now rw rr = Some io -> program_step s (snd (io s)).
Lemma program_step_inv s s' : program_step s s' -> inv s -> inv s'.
Proof.
intros [s1 Hs|selected manifest options source fuel now rw rr io Hid Hnow Hc]; [by apply step_inv|]. unfold Create in Hc.
apply fmap_Some in Hc as ([p|e] & Hp & ->); [|done]. destruct (atomically _ s) as [[r|e] s2] eqn:Ha; cbn [snd]; [|by apply atomically_err in Ha as [_ ->]].
apply atomically_ok in Ha. pose proof (plan_ok _ _ _ _ _ _ _ _ _ Hp) as Hpl. destruct (pd_names _ _ _ _ _ _ _ Hpl) as (_ & raw & Hn).
eapply write_fork_inv; [by rewrite Hn|exact (proj1 (proj2 (reconstruct_reaches _ _ _ _ _ _ _ _ Hnow Hid (pd_rebuilt _ _ _ _ _ _ _ Hpl))))|exact Ha].
Qed.

(** C23. The invariants of the system hold in every database the program can
make, forks included: from an empty one, in whatever order worlds are
seeded, runs are created, queued, leased, executed and forked, leases and
queue are well formed, every world's books balance and its accounts and
issues keep legal statuses, and each run's ledger and ownership history are
numbered 1, 2, 3, ... without a gap. *)
Theorem program_sound now s r : rtc program_step (empty_db now) s ->
coord_ok s /\ world_integrity s /\ e_seq <$> Events r s = seqZ 1 (Z.of_nat (length (Events r s))) /\
oe_seq <$> Ownership r s = seqZ 1 (Z.of_nat (length (Ownership r s))).
Proof.
intros Hs. assert (Hi : inv s).
{ apply (rtc_ind_r (R := program_step) (fun s => inv s) (empty_db now)); [apply empty_inv| |exact Hs]. intros s1 s2 _ H12. by apply program_step_inv. }
destruct Hi as (Hc & Hw & Hd). destruct (Hd r) as [H1 H2]. split_and!; [done|done| |].
- exact (dense_log_numbers r (events s) (event_of r) e_seq (fun _ => eq_refl) H1).
- exact (dense_log_numbers r (run_ownership_log s) (fun row => MkOwnershipEvent r row.1 row.2) oe_seq (fun _ => eq_refl) H2).
Qed.
End Program.

(** ** An example *)
Module ForkDemo.
Import CheckpointDemo ReconstructDemo.
#[export] Instance policy_yaml : AuthzPolicy.PolicyYaml := fun _ => (Err json_error, RestEOF).
#[export] Instance chaos_yaml : ChaosPolicy.ChaosYaml := fun _ => (Err json_error, RestEOF).
(** The refund of the parent is shown to the child as a conflict. *)
Definition conflict : Observation := MkObservation "call-1" 409 ("{ " +:+ quote "error" +:+ " : " +:+ quote "conflict" +:+ " }").
Definition options : Options := MkOptions "" "m-2" None "" "" (Some conflict).
Abbreviation fork := (Create (H := sqlite_bind) (H0 := CheckpointDemo.nodes) (H2 := CheckpointDemo.yaml) (H3 := policy_yaml) (H4 := chaos_yaml)
selected manifest options source 0 (now + day_ns) (Ok [7]) (Ok [8])).
Definition as_forked (o : option (res err Result * DB)) : bool :=
match o with
| Some (Ok r, s) =>
str_eqb (rs_run_id r) "R-08" && str_eqb (w_id (rs_world r)) "W-F-07" && str_eqb (run_model (rs_run r)) "m-2"
&& bool_decide (map e_type (Events "R-08" s) = ["execution.forked"; "observation.overridden"])
&& bool_decide (chg_refunded_cents <$> charges s !! ("W-F-07", "CH-1002") = Some 300)
&& bool_decide (tr_status <$> tool_results s !! ("R-08", "call-1") = Some 409)
&& bool_decide (tr_status <$> tool_results s !! ("R-0102ff", "call-1") = Some 201)
| _ => false
end.
Lemma forks : as_forked ((fun io : DbIO Result => io source) <$> fork) = true.
Proof. vm_compute. reflexivity. Qed.
Lemma fork_made (o : option (DbIO Result)) s : as_forked ((fun io : DbIO Result => io s) <$> o) = true -> exists io r s', o = Some io /\ io s = (Ok r, s') /\ rs_run_id r = "R-08".
Proof.
destruct o as [io|]; [cbn|done]. destruct (io s) as [[r|e] s'] eqn:E; [|done]. cbn [as_forked]. rewrite !andb_true_iff. intros ((((((Hr%str_eqb_true & _) & _) & _) & _) & _) & _). by exists io, r, s'.
Qed.
End ForkDemo.

Lemma fork_isolated_witness : exists io r s', ForkDemo.fork = Some io /\ io ReconstructDemo.source = (Ok r, s') /\
undisturbed (w_id (rs_world r)) "R-08" ReconstructDemo.source s'.
Proof.
destruct (ForkDemo.fork_made _ _ ForkDemo.forks) as (io & r & s' & E & Er & Hid). exists io, r, s'. split; [exact E|]. split; [exact Er|].
pose proof (fork_isolated (policy_yaml := ForkDemo.policy_yaml) (chaos_yaml := ForkDemo.chaos_yaml) _ _ _ _ _ _ _ _ _ ReconstructDemo.source E) as H.
rewrite Er in H. destruct H as (p & _ & Hu & _). rewrite Hid in Hu. exact Hu.
Defined.
Lemma reachable_program s s' : rtc step s s' -> rtc (program_step (binding := sqlite_bind) (nodes := CheckpointDemo.nodes) (world_yaml := CheckpointDemo.yaml)
(policy_yaml := ForkDemo.policy_yaml) (chaos_yaml := ForkDemo.chaos_yaml)) s s'.
Proof. induction 1; [apply rtc_refl|]. eapply rtc_l; [by apply program_base|done]. Qed.
Lemma program_sound_witness : coord_ok (RunsDemo.create RunsDemo.seeded).2 /\ world_integrity (RunsDemo.create RunsDemo.seeded).2.
Proof.
destruct (program_sound _ _ "R-0102ff" (reachable_program _ _ RunsDemo.reached)) as (Hc & Hw & _). split; [exact Hc|exact Hw].
Defined.
End ForkFacts.
