(* ===== verification/Enforced.v ===== *)
(** * What a run is configured with stays

    A run's row keeps what it was created with, and its policies, whatever the
    program does afterwards; so the policies a run was created with are those
    every later decision loads. *)

From S2P Require Export ForkFacts.
Open Scope Z_scope.
Open Scope tx_scope.

Module Enforced.
Import Checkpoint Runs Reconstruct Fork ForkFacts Authz Chaos.

(** Every run of [s] keeps its configuration, and the policies it has. *)
Definition configuration_kept (s s' : DB) : Prop := forall id row, runs s !! id = Some row ->
(exists row', runs s' !! id = Some row' /\ run_config row' = run_config row) /\
(is_Some (run_auth s !! id) -> run_auth s' !! id = run_auth s !! id) /\
(is_Some (run_chaos s !! id) -> run_chaos s' !! id = run_chaos s !! id).
#[export] Instance configuration_kept_preorder : PreOrder configuration_kept.
Proof.
split; [intros s id row Hr; eauto|]. intros s1 s2 s3 H12 H23 id row Hr. destruct (H12 id row Hr) as ((row2 & Hr2 & E2) & A2 & C2).
destruct (H23 id row2 Hr2) as ((row3 & Hr3 & E3) & A3 & C3). split_and!.
- exists row3. split; [done|congruence].
- intros Ha. pose proof (A2 Ha) as E. rewrite A3, E; [done|by rewrite E].
- intros Hc. pose proof (C2 Hc) as E. rewrite C3, E; [done|by rewrite E].
Qed.

Lemma same_configuration s s' : configuration s' = configuration s -> configuration_kept s s'.
Proof.
unfold configuration. intros [= Hr Ha Hc] id row Hrow. rewrite Ha, Hc. split_and!; [|done..].
apply (f_equal (fun m => m !! id)) in Hr. rewrite !lookup_fmap, Hrow in Hr. destruct (runs s' !! id) as [row'|]; [|done]. injection Hr; intros.
exists row'. split; [done|]. unfold run_config. congruence.
Qed.
Lemma same_config_tables s s' : runs s' = runs s -> run_auth s' = run_auth s -> run_chaos s' = run_chaos s -> configuration_kept s s'.
Proof. intros Hr Ha Hc. apply same_configuration. unfold configuration. congruence. Qed.
(** What is added belongs to a run that was not there. *)
Lemma added_configuration x s s' : runs s !! x = None -> (forall id, id <> x -> runs s' !! id = runs s !! id) ->
(forall id, id <> x -> run_auth s' !! id = run_auth s !! id) -> (forall id, id <> x -> run_chaos s' !! id = run_chaos s !! id) -> configuration_kept s s'.
Proof.
intros Hx Hr Ha Hc id row Hrow. assert (id <> x) as Hne by congruence. rewrite (Hr id Hne), (Ha id Hne), (Hc id Hne). eauto.
Qed.
(** A policy is only attached where there is none. *)
Lemma attached_configuration (auth : bool) run json digest s :
configuration_kept s (snd (atomically (if auth then sql_insert "run_auth" run_auth set_run_auth run (MkPolicy json digest)
                                     else sql_insert "run_chaos" run_chaos set_run_chaos run (MkPolicy json digest)) s)).
Proof.
destruct (atomically _ s) as [[u|e] s'] eqn:Ha; cbn [snd]; [|by apply atomically_err in Ha as [_ ->]]. apply atomically_ok in Ha.
destruct auth; apply sql_insert_ok in Ha as [Hn ->]; intros id row Hrow; db_simpl; split_and!; try (by eauto).
all: intros [x Hx]; rewrite lookup_insert_ne; [done|congruence].
Qed.

Section Program.
Context `{binding : SqlBind, nodes : YamlNodes, spec_yaml : SpecYaml, world_yaml : WorldYaml, policy_yaml : AuthzPolicy.PolicyYaml, chaos_yaml : ChaosPolicy.ChaosYaml}.

Lemma with_run_configuration id r opts row s : runs s !! id = None -> configuration_kept s (set_events (append_log id row) (with_run id r opts s)).
Proof.
intros Hn. apply (added_configuration id); [done|..]; intros id' Hid; unfold with_run, with_policy;
destruct (given (AuthJSON opts)), (given (ChaosJSON opts)); db_simpl; rewrite ?lookup_insert_ne; done.
Qed.
Lemma step_configuration s s' : step s s' -> configuration_kept s s'.
Proof.
intros [s1 Hs|fuel seed digest scenario io Hio|random w scenario provider model task opts|id original w Hne|run json digest|run json digest].
- by apply same_configuration, sys_step_configuration.
- unfold SeedScenario in Hio. destruct (negb _); [by injection Hio as <-|]. apply fmap_Some in Hio as (amount & Ha & ->).
apply seed_amount_bounds in Ha. destruct (atomically _ s) as [r s1] eqn:Hr. cbn [snd].
assert (seeds s s1) as [Hf _].
{ eapply atomically_respects; [apply _| |exact Hr]. apply respects_bind; [apply _|apply respects_reads; apply _|intros count].
  apply respects_bind; [apply _|apply seed_rows_seeds; lia|intros _]. apply respects_ret, _. }
unfold seed_frame in Hf. injection Hf; intros. by apply same_config_tables.
- destruct (CreateRunConfigured _ _ _ _ _ _ _ s) as [[[id r]|e] s2] eqn:Hc; cbn [snd].
+ apply create_ok in Hc as (principal & bytes & row & _ & _ & _ & _ & (Hn & _) & _ & ->). by apply with_run_configuration.
+ unfold CreateRunConfigured, iobind, iolift in Hc. repeat case_match; simplify_eq/=; try done.
  rename select (atomically _ _ = _) into Ha. by apply atomically_err in Ha as [_ ->].
- unfold CreateReplayRun. set (r := MkRun _ _ _ _ _ _ _ _ _ _ _). destruct (atomically _ s) as [[[id' r']|e] s3] eqn:Hc; cbn [snd]; [|by apply atomically_err in Hc as [_ ->]].
apply atomically_ok in Hc. apply tbind_ok in Hc as ([] & s1 & [Hn ->]%sql_insert_ok & Hc). apply tbind_ok in Hc as ([] & s2 & (row & _ & ->)%AppendEventTx_ok & Hc).
injection Hc as _ _ <-. apply (added_configuration id); [done|..]; intros id2 Hid2; db_simpl; by rewrite ?lookup_insert_ne.
- unfold AttachChaos, iobind, iolift. destruct (rassert _ _); [|done]. destruct (rassert _ _); [|done]. apply (attached_configuration false).
- unfold AttachAuth, iobind, iolift. destruct (checkDigest _ _ _); [|done]. apply (attached_configuration true).
Qed.
Lemma program_configuration s s' : program_step s s' -> configuration_kept s s'.
Proof.
intros [s1 Hs|selected manifest options source fuel now rw rr io Hid Hnow Hc]; [by apply step_configuration|].
destruct (io s) as [[r|e] s1] eqn:E; pose proof (Create_ends _ _ _ _ _ _ _ _ _ _ _ _ Hc E) as H; cbn in H |- *; [|by rewrite H].
destruct H as (p & _ & Hu & Hf). destruct (fd_run _ _ _ _ _ _ _ Hf) as [Hn _]. destruct (fd_child _ _ _ _ _ _ _ Hf) as (Hr & _ & _). rewrite Hr in Hu.
apply (added_configuration (pn_run_id p)); [done|..].
- by apply Hu.
- by apply Hu.
- by apply Hu.
Qed.
Lemma program_configurations s s' : rtc program_step s s' -> configuration_kept s s'.
Proof. induction 1 as [|s1 s2 s3 H12 _ IH]; [done|]. etransitivity; [by apply program_configuration|exact IH]. Qed.

(** C30. A run is created whole or not at all, and enforces the policies it was
created with for good: on success its row is new and running with an empty
transcript, and its ledger gains one [execution.started] event that names its
world, provider and model; and in every database the program goes on to, in
whatever order worlds are seeded, runs are created, forked, queued, leased
and executed and policies attached, the run is there with what it was created
with, and an accepted authorization or chaos policy that was given as
canonical JSON with its digest is the one a decision loads.  The run's
principal is the policy's, or the unrestricted one when there is none. *)
Theorem created_run_enforces random w scenario provider model task opts s :
match CreateRunConfigured random w scenario provider model task opts s with
| (Err _, s') => s' = s
| (Ok (id, r), s') =>
  runs s !! id = None /\ runs s' !! id = Some r /\ run_world_id r = w /\ run_status r = "running" /\ run_transcript r = "[]" /\
  (exists e, Events id s' = Events id s ++ [e] /\ e_type e = "execution.started" /\ marshal (started_payload r) = Some (e_payload e)) /\
  (AuthJSON opts = "" -> run_auth s' = run_auth s /\ run_principal_id r = UnrestrictedPrincipal) /\
  forall later, rtc program_step s' later ->
    (exists row, runs later !! id = Some row /\ run_config row = run_config r) /\
    (forall m input p, AuthzPolicy.check_policy m input = Ok p -> NoDup (map fst (AuthzPolicy.rp_roles input)) -> AuthzPolicy.decoded_input input ->
       Authz.CanonicalJSON p = Some (AuthJSON opts) -> Authz.load id later = Ok (Some p, later) /\ run_principal_id r = po_principal_id p) /\
    (forall p, Chaos.c_version p = 1 -> Forall ChaosPolicy.rule_plain (Chaos.c_rules p) -> Chaos.CanonicalJSON p = Some (ChaosJSON opts) ->
       Chaos.load id later = Ok (Some (Chaos.MkChaos 1 (map ChaosPolicy.floated (Chaos.c_rules p))), later) /\ run_fault_operation r = "")
end.
Proof.
pose proof (created_run random w scenario provider model task opts s) as Hc. destruct (CreateRunConfigured _ _ _ _ _ _ _ s) as [[[id r]|e] s']; [|exact Hc].
destruct Hc as (H1 & H2 & H3 & H4 & H5 & H6 & Ha & Hch & H7). split_and!; try done. intros later Hl. destruct (program_configurations _ _ Hl id r H2) as (Hrow & Hla & Hlc).
split_and!; [exact Hrow|..].
- intros m input p Hp Hnd Hd Hj. destruct (Ha m input p Hp Hnd Hd Hj) as (Hs & Hload & Hpr). split; [|exact Hpr]. eapply load_row; [by apply Hla|exact Hload].
- intros p Hv Hr Hj. destruct (Hch p Hv Hr Hj) as (Hs & Hload & Hf). split; [|exact Hf]. eapply chaos_load_row; [by apply Hlc|exact Hload].
Qed.
End Program.

(** The run is queued afterwards. *)
Definition queued (s : DB) : DB := snd (exec (OpEnqueue "R-0102ff" 4 0) s).
Lemma queued_step s : rtc (program_step (binding := sqlite_bind) (nodes := CheckpointDemo.nodes) (world_yaml := CheckpointDemo.yaml)
(policy_yaml := ForkDemo.policy_yaml) (chaos_yaml := ForkDemo.chaos_yaml)) s (queued s).
Proof. apply rtc_once, program_base, step_system, step_store. split; [discriminate|reflexivity]. Qed.

Lemma created_run_enforces_witness : exists r s', RunsDemo.create RunsDemo.seeded = (Ok ("R-0102ff", r), s') /\ Authz.load "R-0102ff" (queued s') = Ok (Some RunsDemo.policy, queued s').
Proof.
pose proof RunsDemo.created as Hc.
pose proof (created_run_enforces (binding := sqlite_bind) (nodes := CheckpointDemo.nodes) (world_yaml := CheckpointDemo.yaml) (policy_yaml := ForkDemo.policy_yaml) (chaos_yaml := ForkDemo.chaos_yaml)
(Ok [1; 2; 255]) RunsDemo.world "company-incident" "scripted" "m-1" "help" RunsDemo.options RunsDemo.seeded) as H.
fold (RunsDemo.create RunsDemo.seeded) in H. destruct (RunsDemo.create RunsDemo.seeded) as [[[id r]|e] s'] eqn:E; [|destruct Hc]. destruct Hc as [-> _]. exists r, s'. split; [reflexivity|].
destruct H as (_ & _ & _ & _ & _ & _ & _ & H). destruct (H _ (queued_step s')) as (_ & Ha & _).
exact (proj1 (Ha _ _ _ RunsDemo.policy_parsed PolicyDemo.roles_distinct PolicyDemo.decoded RunsDemo.policy_json)).
Defined.
End Enforced.
