(* ===== verification/ForkCompare.v ===== *)
(** * Comparing a fork with its parent (internal/fork/compare.go)

    The comparison shows what each side did after the fork and how their worlds
    differ.  Rows are compared as text, table by table, by merging two sorted
    lists. *)

From S2P Require Export ForkFacts.
Open Scope Z_scope.
Open Scope tx_scope.

Module ForkCompare.
Import Runs Fork.

(** [ToolStep], [RunOutcome], [StateDifference], [Comparison]; a raw value is
its text, which is empty when the event has none. *)
Record ToolStep := MkToolStep { st_call_id : string; st_operation_id : string; st_arguments : string }.
Record RunOutcome := MkOutcome {
oc_run_id : string; oc_status : string; oc_evaluation : option Eval.Report; oc_analysis : Eval.RunAnalysis; oc_tool_trajectory : list ToolStep; oc_mutations : list string }.
Record StateDifference := MkDifference { sd_table : string; sd_parent_only : list string; sd_child_only : list string }.
Record Comparison := MkComparison {
cm_parent_run_id : string; cm_child_run_id : string; cm_fork_event_seq : Z; cm_parent : RunOutcome; cm_child : RunOutcome;
cm_state_differences : list StateDifference; cm_simulated_latency_ms : list (string * Z) }.

(** ** Rows *)

(** [compareRows]: each row as a JSON array of its columns, in order of the text. *)
Definition row_text (r : row) : res err string := rsome (marshal (VSlice (map snd r))) json_error.
Definition compareRows (s : DB) (table w : string) : res err (list string) :=
try* rows := rsome (table_rows s w table) (ErrText ("no such table: " +:+ table)) in
try* texts := rmap row_text rows in
Ok (sort_strings texts).
(** [rowDifference] of two sorted lists. *)
Fixpoint rowDifference (parent child : list string) : list string * list string :=
match parent with
| [] => ([], child)
| x :: parent' =>
(fix go (child : list string) : list string * list string :=
 match child with
 | [] => (parent, [])
 | y :: child' =>
   if str_ltb x y then let '(a, b) := rowDifference parent' child in (x :: a, b)
   else if str_ltb y x then let '(a, b) := go child' in (a, y :: b)
   else rowDifference parent' child'
 end) child
end.
(** One turn of the loop over [worldTables]. *)
Definition compare_table (s : DB) (parentWorld childWorld : string) (report : list StateDifference) (table : string * list string) : res err (list StateDifference) :=
try* parentRows := compareRows s table.1 parentWorld in
try* childRows := compareRows s table.1 childWorld in
let '(leftOnly, rightOnly) := rowDifference parentRows childRows in
Ok (if bool_decide (leftOnly = []) && bool_decide (rightOnly = []) then report else report ++ [MkDifference table.1 leftOnly rightOnly]).

(** ** What each side did *)

(** The payload of a tool request as a step; its arguments keep their text. *)
Definition step_of (payload : string) : option ToolStep :=
match unmarshal_number payload with
| Some v =>
match field v "call_id" decode_text "", field v "operation_id" decode_text "", raw_map payload with
| Some c, Some o, Ok members => Some (MkToolStep c o (default "" (alookup members "arguments")))
| _, _, _ => None
end
| None => None
end.
Definition outcome_event (out : list ToolStep * list string) (e : Event) : res err (list ToolStep * list string) :=
if str_eqb (e_type e) "tool.request" then try* taken := rsome (step_of (e_payload e)) json_error in Ok (out.1 ++ [taken], out.2)
else if str_eqb (e_type e) "state.mutation" then Ok (out.1, out.2 ++ [e_payload e])
else Ok out.
(** [outcome] *)
Definition outcome (s : DB) (runID : string) (run : RunRow) (afterSeq : Z) : res err RunOutcome :=
try* analysis := Eval.AnalyzeRun runID s in
try* evaluation := (if str_eqb (run_status run) "completed" then try* report := Eval.Evaluate s (run_world_id run) (run_scenario run) in Ok (Some report) else Ok None) in
try* '(steps, mutations) := rfold outcome_event ([], []) (List.filter (fun e => afterSeq <? e_seq e) (Events runID s)) in
Ok (MkOutcome runID (run_status run) evaluation analysis steps mutations).

(** [Compare] *)
Definition Compare (s : DB) (parentRunID childRunID : string) : res err Comparison :=
try* lineage := Lineage childRunID s in
try* _ := rassert (str_eqb (fl_parent_run_id lineage) parentRunID) (ErrText ("run " +:+ childRunID +:+ " is not a fork of " +:+ parentRunID)) in
try* parent := rsome (runs s !! parentRunID) ErrNoRows in
try* child := rsome (runs s !! childRunID) ErrNoRows in
try* parentOutcome := outcome s parentRunID parent (fl_fork_event_seq lineage) in
try* childOutcome := outcome s childRunID child 1 in
try* differences := rfold (compare_table s (run_world_id parent) (run_world_id child)) [] worldTables in
Ok (MkComparison parentRunID childRunID (fl_fork_event_seq lineage) parentOutcome childOutcome differences
[("parent", Eval.an_simulated_latency_ms (oc_analysis parentOutcome)); ("child", Eval.an_simulated_latency_ms (oc_analysis childOutcome))]).

(** ** The merge is a difference of multisets *)

Definition text_sorted (l : list string) : Prop := StronglySorted String.le l.
Definition disjoint_texts (a b : list string) : Prop := forall x, x ∈ a -> x ∉ b.
(** What is left of two multisets after taking out what they share. *)
Definition exact_difference (p c a b : list string) : Prop :=
exists common, p ≡ₚ common ++ a /\ c ≡ₚ common ++ b /\ disjoint_texts a b /\ text_sorted a /\ text_sorted b.

Lemma rowDifference_cons x p y c : rowDifference (x :: p) (y :: c) =
if str_ltb x y then let '(a, b) := rowDifference p (y :: c) in (x :: a, b)
else if str_ltb y x then let '(a, b) := rowDifference (x :: p) c in (a, y :: b)
else rowDifference p c.
Proof. reflexivity. Qed.
Lemma rowDifference_nil p : rowDifference p [] = (p, []).
Proof. by destruct p. Qed.
Lemma below_sorted x y c : String.le x y -> x <> y -> text_sorted (y :: c) -> x ∉ y :: c.
Proof.
intros Hle Hne [_ Hc]%StronglySorted_inv [Hx|Hx]%elem_of_cons; [done|]. rewrite Forall_forall in Hc. apply Hne, (anti_symm String.le); [done|by apply Hc].
Qed.
Lemma sorted_cons x l l' : text_sorted (x :: l) -> l' ⊆ l -> text_sorted l' -> text_sorted (x :: l').
Proof. intros [_ H]%StronglySorted_inv Hs Hl. constructor; [done|]. rewrite Forall_forall in *. by intros z Hz%Hs%H. Qed.

(** What the merge of two sorted lists gives. *)
Lemma rowDifference_spec p c a b : rowDifference p c = (a, b) -> text_sorted p -> text_sorted c -> exact_difference p c a b /\ a ⊆ p /\ b ⊆ c.
Proof.
revert c a b. induction p as [|x p IH]; intros c a b.
- intros [= <- <-] Hp Hc. split; [|done]. exists []. split_and!; try done. by intros ? ?%not_elem_of_nil.
- revert a b. induction c as [|y c IHc]; intros a b.
{ rewrite rowDifference_nil. intros [= <- <-] Hp Hc. split; [|done]. exists []. split_and!; try done. by intros ? ? ?%not_elem_of_nil. }
rewrite rowDifference_cons. intros H Hp Hc. destruct (StronglySorted_inv Hp) as [Hp' _], (StronglySorted_inv Hc) as [Hc' _]. destruct (str_ltb x y) eqn:E1.
+ destruct (rowDifference p (y :: c)) as [a' b'] eqn:E. injection H as <- <-. apply IH in E as ((k & E1' & E2' & Hd & Ha & Hb) & Sa & Sb); [|done..].
apply ltb_le in E1 as [Hle Hne]. split; [|split; [set_solver|done]]. exists k. split_and!; [|done| | |done].
* rewrite E1'. apply Permutation_middle.
* intros z [->|Hz]%elem_of_cons; [|by apply Hd]. intros Hz%Sb. by apply (below_sorted x y c).
* by apply (sorted_cons x p).
+ destruct (str_ltb y x) eqn:E2.
* destruct (rowDifference (x :: p) c) as [a' b'] eqn:E. injection H as <- <-. destruct (IHc _ _ eq_refl Hp Hc') as ((k & E1' & E2' & Hd & Ha & Hb) & Sa & Sb).
apply ltb_le in E2 as [Hle Hne]. split; [|split; [done|set_solver]]. exists k. split_and!; [done| | |done|].
-- rewrite E2'. apply Permutation_middle.
-- intros z Hz [->|Hz']%elem_of_cons; [|by apply (Hd z)]. apply Sa in Hz. by apply (below_sorted y x p).
-- by apply (sorted_cons y c).
* pose proof (ltb_neither _ _ E1 E2) as ->. apply IH in H as ((k & E1' & E2' & Hd & Ha & Hb) & Sa & Sb); [|done..].
split; [|split; set_solver]. exists (y :: k). cbn. by rewrite E1', E2'.
Qed.
(** There is one exact difference only. *)
Lemma difference_counts p c a b x : exact_difference p c a b -> count_occ String.string_dec a x = (count_occ String.string_dec p x - count_occ String.string_dec c x)%nat
/\ count_occ String.string_dec b x = (count_occ String.string_dec c x - count_occ String.string_dec p x)%nat.
Proof.
intros (k & Hp & Hc & Hd & _). rewrite (Permutation_count_occ String.string_dec) in Hp, Hc. rewrite Hp, Hc, !count_occ_app.
destruct (decide (x ∈ a)) as [Ha|Ha].
- apply Hd in Ha. rewrite list_elem_of_In in Ha. apply (count_occ_not_In String.string_dec) in Ha. lia.
- rewrite list_elem_of_In in Ha. apply (count_occ_not_In String.string_dec) in Ha. lia.
Qed.
Lemma difference_unique p c a b a' b' : exact_difference p c a b -> exact_difference p c a' b' -> a = a' /\ b = b'.
Proof.
intros H H'. destruct (H) as (_ & _ & _ & _ & Ha & Hb), (H') as (_ & _ & _ & _ & Ha' & Hb').
split; apply (StronglySorted_unique String.le); try done; apply (Permutation_count_occ String.string_dec); intros x;
destruct (difference_counts _ _ _ _ x H), (difference_counts _ _ _ _ x H'); congruence.
Qed.
Lemma difference_perm p c p' c' a b : p ≡ₚ p' -> c ≡ₚ c' -> exact_difference p c a b -> exact_difference p' c' a b.
Proof. intros Hp Hc (k & H1 & H2 & H). exists k. by rewrite <- Hp, <- Hc. Qed.
Lemma same_multiset p c : exact_difference p c [] [] <-> p ≡ₚ c.
Proof.
split.
- intros (k & -> & -> & _). done.
- intros Hp. exists c. rewrite !app_nil_r. split_and!; [done|done| |constructor..]. by intros ? ?%not_elem_of_nil.
Qed.

(** ** What a comparison says *)

(** The rows of a world's table as texts. *)
Definition world_texts (s : DB) (w table : string) (texts : list string) : Prop :=
exists rows, table_rows s w table = Some rows /\ Forall2 (fun r text => row_text r = Ok text) rows texts.
Record differs (s : DB) (parentWorld childWorld table : string) (a b : list string) : Prop := {
df_table : exists columns, (table, columns) ∈ worldTables;
df_rows : exists p c, world_texts s parentWorld table p /\ world_texts s childWorld table c /\ exact_difference p c a b;
df_some : a <> [] \/ b <> [] }.

Lemma compareRows_ok s table w texts : compareRows s table w = Ok texts -> text_sorted texts /\ exists raw, world_texts s w table raw /\ texts ≡ₚ raw.
Proof.
unfold compareRows. rewrite rbind_ok. intros (rows & Hr%rsome_ok & H). apply rbind_ok in H as (raw & Hm%rmap_ok & [= <-]).
split; [apply sort_strings_sorted|]. exists raw. split; [by exists rows|apply merge_sort_Permutation].
Qed.
Lemma world_texts_unique s w table t t' : world_texts s w table t -> world_texts s w table t' -> t = t'.
Proof.
intros (rows & Hr & H) (rows' & Hr' & H'). assert (rows' = rows) as -> by congruence. clear Hr Hr'. revert t' H'.
induction H; intros t' H'; inversion H'; subst; [done|]. f_equal; [congruence|]. by apply IHForall2.
Qed.
Lemma compare_table_ok s pw cw report table columns report' : compare_table s pw cw report (table, columns) = Ok report' ->
exists a b, (exists p c, world_texts s pw table p /\ world_texts s cw table c /\ exact_difference p c a b) /\
report' = report ++ (if bool_decide (a = []) && bool_decide (b = []) then [] else [MkDifference table a b]).
Proof.
unfold compare_table. cbn [fst]. rewrite rbind_ok. intros (p & [Hp (p' & Hwp & Ep)]%compareRows_ok & H). apply rbind_ok in H as (c & [Hc (c' & Hwc & Ec)]%compareRows_ok & H).
destruct (rowDifference p c) as [a b] eqn:E. apply rowDifference_spec in E as [E _]; [|done..]. exists a, b. split.
- exists p', c'. split_and!; [done..|]. by apply (difference_perm p c).
- destruct (_ && _); injection H as <-; by rewrite ?app_nil_r.
Qed.
Lemma compare_tables_ok s pw cw l report report' : rfold (compare_table s pw cw) report l = Ok report' -> exists found, report' = report ++ found /\
forall table a b, MkDifference table a b ∈ found <-> (exists columns, (table, columns) ∈ l) /\
(exists p c, world_texts s pw table p /\ world_texts s cw table c /\ exact_difference p c a b) /\ (a <> [] \/ b <> []).
Proof.
revert report. induction l as [|[t columns] l IH]; intros report.
- intros [= <-]. exists []. rewrite app_nil_r. split; [done|]. intros table a b. split; [by intros ?%not_elem_of_nil|]. by intros ((? & ?%not_elem_of_nil) & _).
- cbn [rfold]. rewrite rbind_ok. intros (mid & (a0 & b0 & (p & c & Hp & Hc & Hd) & ->)%compare_table_ok & (found & -> & Hf)%IH).
eexists. split; [by rewrite <- app_assoc|]. intros table a b. rewrite elem_of_app, Hf. setoid_rewrite elem_of_cons. split.
+ intros [Hin|(? & ? & ?)]; [|naive_solver]. destruct (bool_decide (a0 = []) && bool_decide (b0 = [])) eqn:E; [by apply not_elem_of_nil in Hin|].
apply list_elem_of_singleton in Hin as [= -> -> ->]. split_and!; [eauto|by exists p, c|]. apply andb_false_iff in E as [E%bool_decide_eq_false|E%bool_decide_eq_false]; auto.
+ intros ((cols & [[= -> ->]|Hl]) & (p' & c' & Hp' & Hc' & Hd') & Hne).
* left. rewrite (world_texts_unique _ _ _ _ _ Hp' Hp), (world_texts_unique _ _ _ _ _ Hc' Hc) in Hd'. destruct (difference_unique _ _ _ _ _ _ Hd Hd') as [-> ->].
destruct (bool_decide (a = []) && bool_decide (b = [])) eqn:E; [|by apply list_elem_of_singleton]. apply andb_true_iff in E as [?%bool_decide_eq_true ?%bool_decide_eq_true]. by destruct Hne.
* right. split_and!; [eauto|eauto 6|done].
Qed.

(** What one side did after [afterSeq]. *)
Record did (s : DB) (runID : string) (run : RunRow) (afterSeq : Z) (o : RunOutcome) : Prop := {
dd_run : oc_run_id o = runID /\ oc_status o = run_status run;
dd_analysis : Eval.AnalyzeRun runID s = Ok (oc_analysis o);
dd_evaluation : match oc_evaluation o with
        | Some report => run_status run = "completed" /\ Eval.Evaluate s (run_world_id run) (run_scenario run) = Ok report
        | None => run_status run <> "completed"
        end;
dd_steps : Forall2 (fun e taken => step_of (e_payload e) = Some taken)
     (List.filter (fun e => (afterSeq <? e_seq e) && str_eqb (e_type e) "tool.request") (Events runID s)) (oc_tool_trajectory o);
dd_mutations : oc_mutations o = map e_payload (List.filter (fun e => (afterSeq <? e_seq e) && str_eqb (e_type e) "state.mutation") (Events runID s)) }.

Lemma outcome_events_ok l out out' : rfold outcome_event out l = Ok out' -> exists steps,
Forall2 (fun e taken => step_of (e_payload e) = Some taken) (List.filter (fun e => str_eqb (e_type e) "tool.request") l) steps /\
out' = (out.1 ++ steps, out.2 ++ map e_payload (List.filter (fun e => str_eqb (e_type e) "state.mutation") l)).
Proof.
revert out. induction l as [|e l IH]; intros out.
- intros [= <-]. exists []. split; [constructor|]. cbn. rewrite !app_nil_r. by destruct out.
- cbn [rfold]. rewrite rbind_ok. intros (mid & He & (steps & Hs & ->)%IH). unfold outcome_event in He. cbn [List.filter].
destruct (str_eqb (e_type e) "tool.request") eqn:E1.
+ apply rbind_ok in He as (taken & Ht%rsome_ok & [= <-]). exists (taken :: steps). split; [by constructor|]. apply str_eqb_true in E1. rewrite E1. cbn. by rewrite <- app_assoc.
+ destruct (str_eqb (e_type e) "state.mutation"); injection He as <-; exists steps; cbn; by rewrite <- ?app_assoc.
Qed.
Lemma filter_both {A} (f g : A -> bool) l : List.filter g (List.filter f l) = List.filter (fun x => f x && g x) l.
Proof. induction l as [|x l IH]; [done|]. cbn. destruct (f x); cbn; [destruct (g x)|]; by rewrite IH. Qed.
Lemma outcome_ok s runID run afterSeq o : outcome s runID run afterSeq = Ok o -> did s runID run afterSeq o.
Proof.
unfold outcome. rewrite rbind_ok. intros (analysis & Ha & H). apply rbind_ok in H as (evaluation & He & H). apply rbind_ok in H as ([steps mutations] & Hs & [= <-]).
apply outcome_events_ok in Hs as (st & Hst & [= -> ->]). rewrite !filter_both in *. split; try done; cbn.
destruct (str_eqb (run_status run) "completed") eqn:E; [|injection He as <-; by apply str_eqb_false in E].
apply rbind_ok in He as (report & Hr & [= <-]). by apply str_eqb_true in E.
Qed.

(** C34. A comparison of a fork with its parent is exact.  A table is listed
just when the two worlds differ in it, with the rows that each side has and
the other has not, counted as often as they occur; and each side's tool
calls and mutations are those its ledger holds after the fork. *)
Theorem compare_exact s parentID childID r : Compare s parentID childID = Ok r ->
exists lineage parent child, Lineage childID s = Ok lineage /\ fl_parent_run_id lineage = parentID /\ cm_fork_event_seq r = fl_fork_event_seq lineage /\
runs s !! parentID = Some parent /\ runs s !! childID = Some child /\
did s parentID parent (fl_fork_event_seq lineage) (cm_parent r) /\ did s childID child 1 (cm_child r) /\
forall table a b, MkDifference table a b ∈ cm_state_differences r <-> differs s (run_world_id parent) (run_world_id child) table a b.
Proof.
unfold Compare. rewrite rbind_ok. intros (lineage & Hl & H). apply rassert_bind in H as [Hp%str_eqb_true H]. apply rbind_ok in H as (parent & Hpr%rsome_ok & H).
apply rbind_ok in H as (child & Hc%rsome_ok & H). apply rbind_ok in H as (po & Hpo%outcome_ok & H). apply rbind_ok in H as (co & Hco%outcome_ok & H).
apply rbind_ok in H as (differences & (found & -> & Hf)%compare_tables_ok & [= <-]). exists lineage, parent, child. cbn. split_and!; try done.
intros table a b. rewrite Hf. split; [intros (? & ? & ?); by split|]. intros [? ? ?]. done.
Qed.

(** ** An example *)
Module CompareDemo.
Import Reconstruct ForkFacts.
Definition after (o : option (DbIO Result)) (s : DB) : DB := match o with Some io => snd (io s) | None => s end.
(** The child has one more customer than its parent. *)
Definition db : DB := set_customers (insert ("W-F-07", "CU-9") "Zed") (after ForkDemo.fork ReconstructDemo.source).
Definition zed : string := default "" (marshal (VSlice [VString "CU-9"; VString "Zed"])).
Definition as_compared (r : res err Comparison) : bool :=
match r with
| Ok c => match cm_state_differences c with
  | [d] => str_eqb (sd_table d) "customers" && bool_decide (sd_parent_only d = []) && bool_decide (sd_child_only d = [zed])
  | _ => false
  end && (length (oc_tool_trajectory (cm_parent c)) =? 0)%nat
| Err _ => false
end.
Lemma compares : as_compared (Compare db "R-0102ff" "R-08") = true.
Proof. vm_compute. reflexivity. Qed.
Lemma comparison_made r : as_compared r = true -> exists c, r = Ok c /\ MkDifference "customers" [] [zed] ∈ cm_state_differences c.
Proof.
destruct r as [c|e]; [|done]. cbn [as_compared]. destruct (cm_state_differences c) as [|[t a b] [|? ?]] eqn:E; [done| |done]. cbn [sd_table sd_parent_only sd_child_only].
rewrite !andb_true_iff. intros (((->%str_eqb_true & ->%bool_decide_eq_true) & ->%bool_decide_eq_true) & _). exists c. rewrite E. split; [done|]. by apply list_elem_of_singleton.
Qed.
End CompareDemo.

Lemma compare_exact_witness : exists c, Compare CompareDemo.db "R-0102ff" "R-08" = Ok c /\
exists parentWorld childWorld, differs CompareDemo.db parentWorld childWorld "customers" [] [CompareDemo.zed].
Proof.
destruct (CompareDemo.comparison_made _ CompareDemo.compares) as (c & E & Hd). exists c. split; [exact E|].
destruct (compare_exact _ _ _ _ E) as (lineage & parent & child & _ & _ & _ & _ & _ & _ & _ & H). exists (run_world_id parent), (run_world_id child). apply H, Hd.
Defined.
End ForkCompare.
