(* ===== verification/Replay.v ===== *)
(** * Verifying a recorded run (internal/replay/replay.go)

    A completed run is executed again in a store of its own, its model turns
    supplied by what the ledger recorded or by a provider, and what comes of it
    is compared with the recording: the events that carry meaning, the saved
    results, the state of its policies, the transcript and the tables of its
    world. *)

From S2P Require Export Fork Assertion.
Open Scope Z_scope.
Open Scope tx_scope.

Module Replay.
Import Runs Checkpoint Reconstruct Fork.

(** [Report] *)
Record Report := MkReport {
rp_run_id : string; rp_verified : bool; rp_model_turns : Z; rp_tool_calls : Z; rp_events_compared : Z; rp_divergence : string }.
(** What [VerifyWith] returns early: the report so far, and an error. *)
Definition Return : Type := Report * option err.
Definition failing {A} (report : Report) (m : res err A) : res Return A := match m with Ok a => Ok a | Err e => Err (report, Some e) end.
(** [diverged] *)
Definition diverged (report : Report) (reason : string) : Report :=
MkReport (rp_run_id report) (rp_verified report) (rp_model_turns report) (rp_tool_calls report) (rp_events_compared report) reason.
Definition agree (report : Report) (reason : string) (b : bool) : res Return unit := rassert b (diverged report reason, None).

(** [recordedProvider]: its [n]-th turn, and its cursor after so many calls. *)
Definition zero_message : Message := MkMessageOf "" "" [] "" "" 0 [] "" None "" "" "" 0 [].
Definition recordedProvider (messages : list Message) : Provider := fun n _ _ _ =>
match messages !! n with
| Some message => (message, None)
| None => (zero_message, Some (MkProviderError "recorded model responses exhausted" None))
end.
Definition recorded_next (messages : list Message) (calls : nat) : Z := Z.of_nat (calls `min` length messages).

(** ** Reading the recording *)

Section Recorded.
Context (value_text : goval -> string) (runID : string) (run : RunRow) (events : list Event) (forked : bool).

Definition at_sequence (text : string) (e : Event) : err := ErrText (text +:+ " at sequence " +:+ itoa (e_seq e)).
Definition tool_events : list string :=
["execution.paused"; "tool.request"; "tool.response"; "state.mutation"; "retry"; "chaos.injected"; "chaos.actor_mutation"; "authorization.allowed"; "authorization.denied"].
(** The [switch] on the event at position [i]; the turns and the requests so far. *)
Definition recorded_event (i : Z) (e : Event) (st : list Message * Z) : res err (list Message * Z) :=
let typ := e_type e in
let '(messages, requests) := st in
if str_eqb typ "execution.forked" then
try* _ := rassert (forked && (i =? 0)) (at_sequence "unexpected fork event" e) in Ok st
else if str_eqb typ "observation.overridden" then
try* _ := rassert (forked && (i =? 1)) (at_sequence "unexpected observation override" e) in Ok st
else if str_eqb typ "execution.started" then
try* _ := rassert (negb forked && (i =? 0)) (at_sequence "unexpected start event" e) in
try* _ := started_matches run e in Ok st
else if str_eqb typ "execution.completed" then
try* _ := rassert (i =? Z.of_nat (length events) - 1) (ErrText "completion event is not last") in Ok st
else if contains tool_events typ || str_eqb typ "provider.interrupted" then Ok st
else if str_eqb typ "model.request" then Ok (messages, requests + 1)
else if str_eqb typ "model.response" then
try* message := rwrap (ErrWrap ("model response at sequence " +:+ itoa (e_seq e) +:+ ": ")) (rsome (decodeMessage (e_payload e)) json_error) in
try* _ := rassert (str_eqb (ms_role message) "assistant") (ErrText ("model response at sequence " +:+ itoa (e_seq e) +:+ " is not a completed assistant turn")) in
Ok (messages ++ [message], requests)
else if str_eqb typ "error" then
try* detail := rsome (match unmarshal_number (e_payload e) with Some v => decode_any_map v | None => None end) json_error in
try* _ := rassert (match alookup detail "kind" with Some (VString kind) => str_eqb kind "injected_503" | _ => false end)
        (ErrText ("run contains unsupported " +:+ value_text (default VNil (alookup detail "kind")) +:+ " error at sequence " +:+ itoa (e_seq e))) in
Ok st
else Err (ErrText ("unknown event type " +:+ quote typ +:+ " at sequence " +:+ itoa (e_seq e))).
Fixpoint recorded_events (i : Z) (l : list Event) (st : list Message * Z) : res err (list Message * Z) :=
match l with
| [] => Ok st
| e :: rest =>
try* _ := rassert ((e_seq e =? i + 1) && str_eqb (e_id e) (runID +:+ "/" +:+ itoa (i + 1)) && str_eqb (e_run_id e) runID)
          (ErrText ("ledger sequence or ID differs at position " +:+ itoa (i + 1))) in
try* _ := rassert (json_valid (e_payload e)) (at_sequence "invalid event payload" e) in
try* st := recorded_event i e st in
recorded_events (i + 1) rest st
end.
(** [recordedMessages] *)
Definition type_at (e : option Event) : string := match e with Some e => e_type e | None => "" end.
Definition recordedMessages : res err (list Message) :=
try* _ := rassert (str_eqb (type_at (head events)) (if forked then "execution.forked" else "execution.started")
             && str_eqb (type_at (last events)) "execution.completed") (ErrText "run ledger is missing start or completion") in
try* '(messages, requests) := recorded_events 0 events ([], 0) in
try* _ := rassert ((requests =? Z.of_nat (length messages)) && (forked || bool_decide (messages <> []))) (ErrText "run has incomplete model history") in
Ok messages.
End Recorded.

(** ** Comparing *)

(** [semantic] *)
Definition semantic (typ : string) : bool :=
contains ["model.request"; "model.response"; "tool.request"; "tool.response"; "state.mutation"; "error"; "retry"; "chaos.injected"; "chaos.actor_mutation";
"authorization.allowed"; "authorization.denied"; "observation.overridden"; "provider.interrupted"] typ.
Definition semantic_events (l : list Event) : list Event := List.filter (fun e => semantic (e_type e)) l.
(** [countSemantic] *)
Definition countSemantic (events : list Event) : Z := Z.of_nat (length (semantic_events events)).
(** [sameJSON]: numbers are compared as they are written. *)
Definition sameJSON (a b : string) : bool :=
match unmarshal_number a, unmarshal_number b with Some x, Some y => deep_equal x y | _, _ => false end.
(** [compareEvents]; [None] is no difference. *)
Fixpoint compare_pairs (a b : list Event) : option string :=
match a, b with
| x :: a', y :: b' =>
if negb (str_eqb (e_type x) (e_type y)) || negb (sameJSON (e_payload x) (e_payload y))
then Some ("event " +:+ itoa (e_seq x) +:+ " (" +:+ e_type x +:+ ") differs") else compare_pairs a' b'
| _, _ => None
end.
Definition compareEvents (left right : list Event) : option string :=
let a := semantic_events left in
let b := semantic_events right in
if negb (bool_decide (length a = length b))
then Some ("semantic event count differs: recorded " +:+ itoa (Z.of_nat (length a)) +:+ ", replayed " +:+ itoa (Z.of_nat (length b)))
else compare_pairs a b.

(** [toolResults]: in the order of the call IDs. *)
Definition toolResults (s : DB) (runID : string) : list (string * ToolResultRow) := sort_on fst (ChaosPolicy.pair_rows (tool_results s) runID).
Definition same_saved (x y : string * ToolResultRow) : bool :=
str_eqb x.1 y.1 && str_eqb (tr_operation_id x.2) (tr_operation_id y.2) && (tr_status x.2 =? tr_status y.2)
&& sameJSON (tr_arguments x.2) (tr_arguments y.2) && sameJSON (tr_body x.2) (tr_body y.2).
(** [compareResults] *)
Fixpoint compare_saved (left right : list (string * ToolResultRow)) : option string :=
match left, right with
| x :: left', y :: right' => if same_saved x y then compare_saved left' right' else Some ("tool result for call " +:+ x.1 +:+ " differs")
| _, _ => None
end.
Definition compareResults (left right : list (string * ToolResultRow)) : option string :=
if negb (bool_decide (length left = length right))
then Some ("tool result count differs: recorded " +:+ itoa (Z.of_nat (length left)) +:+ ", replayed " +:+ itoa (Z.of_nat (length right)))
else compare_saved left right.

(** [stateRows] of the tables of a run: each row as the texts of its columns. *)
Definition policy_rows (row : option PolicyRow) : list (list string) := match row with Some p => [[pol_json p; pol_digest p]] | None => [] end.
Definition run_state (s : DB) (runID : string) : list (string * list (list string)) :=
[("run_chaos", policy_rows (run_chaos s !! runID));
 ("chaos_rule_state", map (fun r => [r.1; itoa (matching_calls r.2); itoa (injections r.2)]) (sort_on fst (ChaosPolicy.rule_rows s runID)));
 ("chaos_snapshots", map (fun r => [r.1.1; r.1.2; itoa (out_status r.2); out_body r.2]) (sort_on2 (fun r => r.1.1) (fun r => r.1.2) (ChaosPolicy.snapshot_rows s runID)));
 ("chaos_hidden_outcomes", map (fun r => [r.1; hid_rule_id r.2; itoa (hid_status r.2); hid_body r.2]) (sort_on fst (ChaosPolicy.hidden_rows s runID)));
 ("run_auth", policy_rows (run_auth s !! runID));
 ("auth_state", match auth_state s !! runID with Some calls => [[itoa calls]] | None => [] end)].
(** The first table that differs. *)
Fixpoint first_difference (left right : list (string * list (list string))) : option string :=
match left, right with
| x :: left', y :: right' => if bool_decide (x.2 = y.2) then first_difference left' right' else Some (x.1 +:+ " state differs")
| _, _ => None
end.
(** [compareChaosState] *)
Definition compareChaosState (source target : DB) (runID : string) : option string := first_difference (run_state source runID) (run_state target runID).

(** [stateRows] of a table of the world, ordered by id, or by channel and
principal. *)
Definition row_texts (r : row) : list string := map (fun kv => Assertion.sprint kv.2) r.
Definition column (n : nat) (texts : list string) : string := nth n texts "".
Definition stateRows (s : DB) (w table : string) : list (list string) :=
let texts := map row_texts (default [] (table_rows s w table)) in
if str_eqb table "message_members" then sort_on2 (column 0) (column 1) texts else sort_on (column 0) texts.
Definition replayed_tables (scenario : string) : list string :=
["customers"; "invoices"; "charges"; "refunds"] ++
(if contains ["duplicate-charge"; "ambiguous-commit"] scenario then []
 else ["subscriptions"; "crm_accounts"; "crm_contacts"; "crm_notes"; "ticket_projects"; "ticket_issues"; "ticket_comments"; "message_workspaces"; "message_channels";
 "message_members"; "message_messages"]).
Definition world_state (s : DB) (scenario w : string) : list (string * list (list string)) := map (fun table => (table, stateRows s w table)) (replayed_tables scenario).

(** ** [VerifyWith] *)

Section Verify.
Context `{!SqlBind, !YamlNodes, !SpecYaml, !WorldYaml, !AuthzPolicy.PolicyYaml, !ChaosPolicy.ChaosYaml}.
Context (err_text : err -> string) (value_text : goval -> string) (source : DB) (runID : string) (manifest : Manifest).

Definition first_report : Report := MkReport runID false 0 0 0 "".
(** The run and its world, up to the manifest. *)
Definition recorded_run : res Return (RunRow * WorldRow) :=
failing first_report
(try* _ := rwrap (ErrWrap "manifest: ") (ValidateManifest manifest) in
 try* original := rsome (runs source !! runID) ErrNoRows in
 try* _ := rassert (str_eqb (run_status original) "completed") (ErrText ("run " +:+ runID +:+ " is " +:+ run_status original +:+ "; replay requires a completed run")) in
 try* _ := rassert (contains ["duplicate-charge"; "ambiguous-commit"; "company-incident"; "company-routine"; "company-no-duplicate"; "prompt-injection-ticket"]
                (run_scenario original)) (ErrText ("unsupported scenario " +:+ quote (run_scenario original))) in
 try* world := rsome (worlds source !! run_world_id original) ErrNoRows in
 try* _ := rassert (str_eqb (wld_digest world) (mf_digest manifest)) (ErrText ("manifest mismatch for run " +:+ runID)) in
 Ok (original, world)).
(** The principal is the one of the run's policy; without a policy it is the
unrestricted one. *)
Definition recorded_principal (original : RunRow) : res Return unit :=
match AuthPolicy runID source with
| Ok (json, digest) =>
match AuthzPolicy.ValidateStored json digest manifest with
| Ok policy => agree first_report "run principal differs from its authorization policy" (str_eqb (po_principal_id policy) (run_principal_id original))
| Err e => Err (diverged first_report (err_text e), None)
end
| Err _ => agree first_report "run principal has no authorization policy" (str_eqb (run_principal_id original) UnrestrictedPrincipal)
end.
Definition lineage_of : option ForkLineage := match Lineage runID source with Ok lineage => Some lineage | Err _ => None end.
Definition is_fork : bool := match lineage_of with Some _ => true | None => false end.
(** The store the run is executed in, and the world in it. *)
Definition seed_replay (original : RunRow) (world : World) : DbIO string :=
io* _ := CreateReplayRun runID original (w_id world) in
io* _ := attach (ChaosPolicy runID source) (AttachChaos runID) in
io* _ := attach (AuthPolicy runID source) (AttachAuth runID) in
ioret (w_id world).
Definition prepared (original : RunRow) (world : WorldRow) (fuel : nat) (now : time) : option (res err (DB * string)) :=
match lineage_of with
| Some lineage => (fun out => try* target := out in Ok (target, run_world_id original)) <$> ReconstructForReplay runID original lineage manifest source fuel now
| None =>
(fun seed => let '(out, target) := iobind seed (seed_replay original) (empty_db now) in try* worldID := out in Ok (target, worldID))
<$> SeedScenario fuel (wld_seed world) (wld_digest world) (run_scenario original)
end.
(** The recorded turns, or the provider's, executed without a fence and without
waiting. *)
Definition replay_runner (provider : Provider) : Runner := MkRunner (dispatcher manifest) manifest (Some provider) None None None (fun _ => None).
Definition with_turns (n : Z) (report : Report) : Report :=
MkReport (rp_run_id report) (rp_verified report) n (rp_tool_calls report) (rp_events_compared report) (rp_divergence report).

(** The comparison of the two ends. *)
Definition differs_at (report : Report) (difference : option string) : res Return unit :=
match difference with Some reason => Err (diverged report reason, None) | None => Ok tt end.
Definition same_origin (recorded made : list Event) : bool :=
match recorded, made with
| e :: _, e' :: _ => str_eqb (e_type e) "execution.forked" && str_eqb (e_world_at e) (e_world_at e') && sameJSON (e_payload e) (e_payload e')
| _, _ => false
end.
Definition compared (report : Report) (original : RunRow) (worldID : string) (target : DB) (replayed : RunRow) (turns : Z) : res Return Report :=
let recorded := Events runID source in
let made := Events runID target in
try* _ := agree report ("replayed run ended " +:+ run_status replayed +:+ " after " +:+ itoa turns +:+ " of " +:+ itoa (rp_model_turns report) +:+ " model turns")
      (str_eqb (run_status replayed) "completed" && (turns =? rp_model_turns report)) in
try* _ := agree report "fork origin event differs from lineage" (negb is_fork || same_origin recorded made) in
try* _ := differs_at report (compareEvents recorded made) in
let report := MkReport (rp_run_id report) (rp_verified report) (rp_model_turns report) (rp_tool_calls report) (countSemantic recorded) (rp_divergence report) in
let results := toolResults source runID in
let report := MkReport (rp_run_id report) (rp_verified report) (rp_model_turns report) (Z.of_nat (length results)) (rp_events_compared report) (rp_divergence report) in
try* _ := differs_at report (compareResults results (toolResults target runID)) in
try* _ := differs_at report (compareChaosState source target runID) in
try* _ := agree report "final transcript differs" (sameJSON (run_transcript original) (run_transcript replayed)) in
try* _ := differs_at report (first_difference (world_state source (run_scenario original) (run_world_id original)) (world_state target (run_scenario original) worldID)) in
Ok (MkReport (rp_run_id report) true (rp_model_turns report) (rp_tool_calls report) (rp_events_compared report) (rp_divergence report)).

Definition returned (m : res Return Report) : Return := match m with Ok report => (report, None) | Err r => r end.
(** [VerifyWith]; [None] is fuel running out: [fuel] for the draw of the seed,
[rounds] for the execution. *)
Definition VerifyWith (provider : option Provider) (fuel rounds : nat) (now : time) : option Return :=
match (try* '(original, world) := recorded_run in
 try* _ := recorded_principal original in
 try* messages := failing first_report (recordedMessages value_text runID original (Events runID source) is_fork) in
 Ok (original, world, messages)) with
| Err r => Some r
| Ok (original, world, messages) =>
let report := with_turns (Z.of_nat (length messages)) first_report in
match prepared original world fuel now with
| None => None
| Some (Err e) => Some (report, Some e)
| Some (Ok (target, worldID)) =>
  let runner := replay_runner (default (recordedProvider messages) provider) in
  match Execute (fun _ s => s) err_text runner rounds runID (rp_model_turns report + 1) (MkExec target 0 0) with
  | None => None
  | Some (Err e, _) => Some (diverged report ("replayed execution: " +:+ err_text e), None)
  | Some (Ok replayed, x) =>
      let turns := match provider with None => recorded_next messages (ex_calls x) | Some _ => run_step replayed end in
      Some (returned (compared report original worldID (ex_db x) replayed turns))
  end
end
end.
(** [Verify] *)
Definition Verify : nat -> nat -> time -> option Return := VerifyWith None.
End Verify.
End Replay.
