(* ===== verification/ReplayFacts.v ===== *)
(** * What a verified replay establishes (internal/replay/replay.go)

    A replay's verdict is exact: it is verified just when the recorded run can be
    replayed and the replay agrees with it in everything that is compared, and
    what is compared is a state the system can reach, with all its invariants. *)

From S2P Require Export Replay ForkFacts.
Open Scope Z_scope.
Open Scope tx_scope.

Module ReplayFacts.
Import Runs Checkpoint Reconstruct Fork ForkFacts Replay.

(** *** Sorted lists of texts *)

Lemma lex_antisym {A} (k1 k2 : A -> string) x y : lex_le k1 k2 x y -> lex_le k1 k2 y x -> k1 x = k1 y /\ k2 x = k2 y.
Proof.
intros [[Hne H]|[He H]] [[Hne' H']|[He' H']]; try congruence.
- exfalso. by apply Hne, (anti_symm String.le).
- split; [done|]. by apply (anti_symm String.le).
Qed.
Lemma sort_on2_order {A} (k1 k2 : A -> string) l l' : (forall x y, x ∈ l -> y ∈ l -> k1 x = k1 y -> k2 x = k2 y -> x = y) -> l ≡ₚ l' -> sort_on2 k1 k2 l = sort_on2 k1 k2 l'.
Proof.
intros Hu Hp. unfold sort_on2. apply (StronglySorted_unique_strong (lex_le k1 k2)); [|apply StronglySorted_merge_sort; apply _..|].
- intros x y Hx Hy Hxy Hyx. rewrite merge_sort_Permutation in Hx, Hy. rewrite <- Hp in Hy. destruct (lex_antisym _ _ _ _ Hxy Hyx). by apply Hu.
- by rewrite !merge_sort_Permutation.
Qed.
Lemma sort_on_same {A} (key : A -> string) l l' : NoDup (map key l) -> sort_on key l = sort_on key l' <-> l ≡ₚ l'.
Proof.
intros Hnd. split; [|by apply sort_on_unique]. intros E. by rewrite <- (sort_on_permutation key l), <- (sort_on_permutation key l'), E.
Qed.
Lemma sort_on2_same {A} (k1 k2 : A -> string) l l' : (forall x y, x ∈ l -> y ∈ l -> k1 x = k1 y -> k2 x = k2 y -> x = y) -> sort_on2 k1 k2 l = sort_on2 k1 k2 l' <-> l ≡ₚ l'.
Proof.
intros Hu. split; [|by apply sort_on2_order]. intros E. rewrite <- (merge_sort_Permutation (lex_le k1 k2) l), <- (merge_sort_Permutation (lex_le k1 k2) l').
unfold sort_on2 in E. by rewrite E.
Qed.
Lemma map_same {A B} (f : A -> B) l l' : (forall x y, f x = f y -> x = y) -> map f l = map f l' <-> l = l'.
Proof. intros Hf. split; [|by intros ->]. revert l'. induction l as [|x l IH]; intros [|y l'] [=]; [done|]. f_equal; auto. Qed.
(** Texts are permuted only with the rows they stand for. *)
Lemma texts_permuted {A B} (f : A -> B) l l' : (forall x y, x ∈ l -> y ∈ l' -> f x = f y -> x = y) -> map f l ≡ₚ map f l' -> l ≡ₚ l'.
Proof.
intros Hf Hp. apply Permutation_map_inv in Hp as (m & E & Hm). rewrite Hm. assert (Hf' : forall x y, x ∈ l -> y ∈ m -> f x = f y -> x = y).
{ intros x y Hx Hy. apply Hf; [done|]. by rewrite Hm. }
clear -E Hf'. assert (l = m) as ->; [|done]. revert m E Hf'. induction l as [|x l IH]; intros [|y m] [=] Hf; [done|].
f_equal; [apply Hf; [left|left|done]|]. apply IH; [done|]. intros a b Ha Hb. apply Hf; by right.
Qed.

(** *** The tables of a run *)

Lemma pair_rows_keys {V} (m : gmap (string * string) V) run : NoDup (map fst (ChaosPolicy.pair_rows m run)).
Proof.
apply ChaosPolicy.omap_keys. intros [[r i] v] [[r' i'] v'] b b'. cbn. destruct (str_eqb r run) eqn:E, (str_eqb r' run) eqn:E'; intros [= <-] [= <-]; cbn.
apply str_eqb_true in E, E'. congruence.
Qed.
Lemma pair_rows_same {V} (m m' : gmap (string * string) V) run : ChaosPolicy.pair_rows m run ≡ₚ ChaosPolicy.pair_rows m' run <-> forall id, m' !! (run, id) = m !! (run, id).
Proof.
split.
- intros Hp id. apply option_eq. intros v. pose proof (ChaosPolicy.pair_rows_in m run (id, v)) as H. pose proof (ChaosPolicy.pair_rows_in m' run (id, v)) as H'.
rewrite Hp in H. cbn in *. tauto.
- intros Hl. apply NoDup_Permutation; [by eapply NoDup_fmap_1, pair_rows_keys..|]. intros [id v]. rewrite !ChaosPolicy.pair_rows_in. cbn. by rewrite Hl.
Qed.
Lemma pair_table {V} (f : string * V -> list string) (m m' : gmap (string * string) V) run : (forall x y, f x = f y -> x = y) ->
map f (sort_on fst (ChaosPolicy.pair_rows m run)) = map f (sort_on fst (ChaosPolicy.pair_rows m' run)) <-> forall id, m' !! (run, id) = m !! (run, id).
Proof. intros Hf. rewrite map_same by done. rewrite sort_on_same by apply pair_rows_keys. apply pair_rows_same. Qed.
Lemma snapshot_rows_nodup s run : NoDup (ChaosPolicy.snapshot_rows s run).
Proof.
apply (NoDup_fmap_1 (fun row : string * string * OutcomeRow => row.1)), ChaosPolicy.omap_keys. intros [[[r i] d] v] [[[r' i'] d'] v'] b b'. cbn.
destruct (str_eqb r run) eqn:E, (str_eqb r' run) eqn:E'; intros [= <-] [= <-]; cbn. apply str_eqb_true in E, E'. congruence.
Qed.
Lemma snapshot_table s s' run :
let f := fun r : string * string * OutcomeRow => [r.1.1; r.1.2; itoa (out_status r.2); out_body r.2] in
let sorted s := sort_on2 (fun r => r.1.1) (fun r => r.1.2) (ChaosPolicy.snapshot_rows s run) in
map f (sorted s) = map f (sorted s') <-> forall id d, chaos_snapshots s' !! (run, id, d) = chaos_snapshots s !! (run, id, d).
Proof.
cbv zeta. rewrite map_same. 2: { intros [[i d] [st b]] [[i' d'] [st' b']]. cbn. intros [= -> -> ->%itoa_inj ->]. done. }
rewrite sort_on2_same.
2: { intros [[i d] v] [[i' d'] v'] Hx Hy. cbn. intros <- <-. apply ChaosPolicy.snapshot_rows_in in Hx, Hy. cbn in *. congruence. }
split.
- intros Hp id d. apply option_eq. intros v. pose proof (ChaosPolicy.snapshot_rows_in s run (id, d, v)) as H. pose proof (ChaosPolicy.snapshot_rows_in s' run (id, d, v)) as H'.
rewrite Hp in H. cbn in *. tauto.
- intros Hl. apply NoDup_Permutation; [apply snapshot_rows_nodup..|]. intros [[id d] v]. rewrite !ChaosPolicy.snapshot_rows_in. cbn. by rewrite Hl.
Qed.
Lemma policy_table (x y : option PolicyRow) : policy_rows x = policy_rows y <-> y = x.
Proof. split; [|by intros ->]. destruct x as [[]|], y as [[]|]; cbn; intros; simplify_eq; done. Qed.
Lemma counter_table (x y : option Z) :
match x with Some n => [[itoa n]] | None => [] end = match y with Some n => [[itoa n]] | None => [] end <-> y = x.
Proof. split; [|by intros ->]. destruct x, y; intros [=]; [|done]. f_equal. symmetry. by apply itoa_inj. Qed.

Lemma first_difference_none left_ right_ : length left_ = length right_ -> first_difference left_ right_ = None <-> Forall2 (fun x y => x.2 = y.2) left_ right_.
Proof.
revert right_. induction left_ as [|x l IH]; intros [|y r] Hl; cbn in *; try done. rewrite Forall2_cons. case_bool_decide as E.
- rewrite IH by lia. naive_solver.
- naive_solver.
Qed.
Lemma run_state_same source target runID : compareChaosState source target runID = None <->
ChaosPolicy.alike source runID target runID /\ run_auth target !! runID = run_auth source !! runID /\ auth_state target !! runID = auth_state source !! runID.
Proof.
unfold compareChaosState. rewrite first_difference_none by done. unfold run_state, ChaosPolicy.rule_rows, ChaosPolicy.hidden_rows. rewrite !Forall2_cons. cbn [snd].
rewrite !policy_table, counter_table, snapshot_table, !pair_table.
- split.
+ intros (H1 & H2 & H3 & H4 & H5 & H6 & _). split; [by split|done].
+ intros ([H1 H2 H3 H4] & H5 & H6). by split_and!.
- intros [i [a b c]] [i' [a' b' c']]. cbn. by intros [= -> -> ->%itoa_inj ->].
- intros [i [a b]] [i' [a' b']]. cbn. by intros [= -> ->%itoa_inj ->%itoa_inj].
Qed.

(** *** The tables of a world *)

Definition typed_row (columns : list string) (r : row) : Prop := map fst r = columns /\ Forall (fun kv => has_kind kv.1 kv.2) r.
Lemma sprint_kind column v v' : has_kind column v -> has_kind column v' -> Assertion.sprint v = Assertion.sprint v' -> v = v'.
Proof. destruct v, v'; cbn; try done; intros; [f_equal; by apply itoa_inj|congruence..|by f_equal]. Qed.
Lemma row_texts_inj columns r r' : typed_row columns r -> typed_row columns r' -> row_texts r = row_texts r' -> r = r'.
Proof.
revert r r'. induction columns as [|c columns IH]; intros [|[k v] r] [|[k' v'] r'] [Hc Hk] [Hc' Hk'] E; cbn in *; try done.
injection Hc as -> Hc. injection Hc' as -> Hc'. injection E as E1 E2. apply Forall_cons in Hk as [Hv Hk], Hk' as [Hv' Hk']. f_equal.
- f_equal. by eapply sprint_kind.
- apply IH; by try split.
Qed.
Lemma table_typed s w table columns rows : alookup worldTables table = Some columns -> table_rows s w table = Some rows -> forall r, r ∈ rows -> typed_row columns r.
Proof.
intros Hc Hr r Hin. destruct (table_rows_columns s w table columns Hc) as (rows' & Hr' & Hf). rewrite Hr in Hr'. injection Hr' as <-. rewrite Forall_forall in Hf. by apply Hf.
Qed.
Lemma first_column columns r : typed_row ("id" :: columns) r -> arg r "id" = VString (column 0 (row_texts r)).
Proof.
intros [Hc Hk]. destruct r as [|[k v] r]; [done|]. cbn in Hc. injection Hc as -> _. apply Forall_cons in Hk as [Hv _]. cbn in Hv. by destruct v.
Qed.
(** Every replayed table has an id, or is the one with two columns. *)
Definition keyed (table : string) : Prop :=
if str_eqb table "message_members" then alookup worldTables table = Some ["channel_id"; "principal_id"]
else exists columns, alookup worldTables table = Some ("id" :: columns).
Lemma replayed_known scenario table : table ∈ replayed_tables scenario -> keyed table.
Proof.
assert (H : Forall keyed (replayed_tables "company-incident")) by (repeat (constructor; [first [reflexivity | by eexists]|]); constructor).
rewrite Forall_forall in H. intros Hin. apply H. revert Hin. unfold replayed_tables. rewrite !elem_of_app. intros [?|Hin]; [by left|right].
destruct (contains _ _); [by apply not_elem_of_nil in Hin|exact Hin].
Qed.
Definition same_rows (source target : DB) (w w' table : string) : Prop :=
exists rows rows', table_rows source w table = Some rows /\ table_rows target w' table = Some rows' /\ rows ≡ₚ rows'.
Lemma stateRows_same source target w w' table : keyed table -> stateRows source w table = stateRows target w' table <-> same_rows source target w w' table.
Proof.
intros Hk. assert (Hcols : exists columns, alookup worldTables table = Some columns).
{ unfold keyed in Hk. destruct (str_eqb table _); [by eexists|]. destruct Hk as [columns ->]. by eexists. }
destruct Hcols as [cols Hc]. destruct (table_rows_columns source w table cols Hc) as (rows & Hr & _), (table_rows_columns target w' table cols Hc) as (rows' & Hr' & _).
pose proof (table_typed _ _ _ _ _ Hc Hr) as Ht. pose proof (table_typed _ _ _ _ _ Hc Hr') as Ht'.
assert (Hp : same_rows source target w w' table <-> map row_texts rows ≡ₚ map row_texts rows').
{ unfold same_rows. rewrite Hr, Hr'. split; [intros (? & ? & [= <-] & [= <-] & ->); done|]. intros Hp. exists rows, rows'. split_and!; [done..|].
apply (texts_permuted row_texts); [|done]. intros x y Hx Hy. apply (row_texts_inj cols); auto. }
rewrite Hp. unfold stateRows. rewrite Hr, Hr'. cbn [default from_option id]. unfold keyed in Hk. destruct (str_eqb table "message_members").
- apply sort_on2_same. intros x y (r & -> & Hx%Ht)%list_elem_of_fmap (r' & -> & Hy%Ht)%list_elem_of_fmap.
assert (cols = ["channel_id"; "principal_id"]) as -> by congruence. destruct Hx as [Hx _], Hy as [Hy _].
destruct r as [|[? ?] [|[? ?] [|]]], r' as [|[? ?] [|[? ?] [|]]]; try done. cbn. by intros -> ->.
- destruct Hk as [columns Hk]. assert (cols = "id" :: columns) as -> by congruence. apply sort_on_same. rewrite map_map.
pose proof (table_ids source w table _ rows Hc ltac:(left) Hr) as Hnd. apply (NoDup_fmap_1 VString). change (NoDup (map VString (map (fun r => column 0 (row_texts r)) rows))). rewrite map_map.
erewrite map_ext_in; [exact Hnd|]. intros r Hin. cbn. symmetry. by eapply first_column, Ht, list_elem_of_In.
Qed.
Lemma world_state_same source target scenario w w' : first_difference (world_state source scenario w) (world_state target scenario w') = None <->
forall table, table ∈ replayed_tables scenario -> same_rows source target w w' table.
Proof.
unfold world_state. rewrite first_difference_none by by rewrite !length_map. pose proof (replayed_known scenario) as Hk. revert Hk.
induction (replayed_tables scenario) as [|t l IH]; intros Hk; cbn [map].
- split; [by intros _ ? ?%not_elem_of_nil|by constructor].
- rewrite Forall2_cons. cbn [snd]. rewrite stateRows_same by (apply Hk; left). rewrite IH by (intros; apply Hk; by right). setoid_rewrite elem_of_cons. naive_solver.
Qed.

(** *** Events and results *)

Definition same_meaning (recorded made : Event) : Prop := e_type recorded = e_type made /\ sameJSON (e_payload recorded) (e_payload made) = true.
Lemma compare_pairs_none a b : length a = length b -> compare_pairs a b = None <-> Forall2 same_meaning a b.
Proof.
revert b. induction a as [|x a IH]; intros [|y b] Hl; cbn in *; try done. rewrite Forall2_cons. unfold same_meaning at 1.
destruct (str_eqb (e_type x) (e_type y)) eqn:E1, (sameJSON (e_payload x) (e_payload y)); cbn; rewrite ?str_eqb_true, ?str_eqb_false in E1; [rewrite IH by lia|..]; naive_solver.
Qed.
Lemma compareEvents_none left_ right_ : compareEvents left_ right_ = None <-> Forall2 same_meaning (semantic_events left_) (semantic_events right_).
Proof.
unfold compareEvents. case_bool_decide as E; cbn [negb]; [by apply compare_pairs_none|]. split; [done|]. by intros ?%Forall2_length.
Qed.
Definition same_outcome (x y : ToolResultRow) : Prop :=
tr_operation_id x = tr_operation_id y /\ tr_status x = tr_status y /\ sameJSON (tr_arguments x) (tr_arguments y) = true /\ sameJSON (tr_body x) (tr_body y) = true.
Lemma same_saved_spec x y : same_saved x y = true <-> x.1 = y.1 /\ same_outcome x.2 y.2.
Proof. unfold same_saved, same_outcome. rewrite !andb_true_iff, !str_eqb_true, Z.eqb_eq. tauto. Qed.
Lemma compareResults_none left_ right_ : compareResults left_ right_ = None <-> Forall2 (fun x y => x.1 = y.1 /\ same_outcome x.2 y.2) left_ right_.
Proof.
assert (H : forall l r : list (string * ToolResultRow), length l = length r -> compare_saved l r = None <-> Forall2 (fun x y => x.1 = y.1 /\ same_outcome x.2 y.2) l r).
{ induction l as [|x l IH]; intros [|y r] Hl; cbn in *; try done. rewrite Forall2_cons. pose proof (same_saved_spec x y) as Hs. destruct (same_saved x y).
- rewrite IH by lia. split; [intros ?; split; [by apply Hs|done]|by intros [_ ?]].
- split; [done|]. intros [Hxy _]. by apply Hs in Hxy. }
unfold compareResults. case_bool_decide as E; cbn [negb]; [by apply H|]. split; [done|]. by intros ?%Forall2_length.
Qed.
(** Pairs in the order of their keys match when the tables do, key by key. *)
Definition both {V} (R : V -> V -> Prop) (x y : option V) : Prop := match x, y with Some a, Some b => R a b | None, None => True | _, _ => False end.
Lemma sorted_pairs {V} (R : V -> V -> Prop) (l l' : list (string * V)) : StronglySorted String.le (map fst l) -> StronglySorted String.le (map fst l') ->
NoDup (map fst l) -> NoDup (map fst l') ->
Forall2 (fun x y => x.1 = y.1 /\ R x.2 y.2) l l' <-> (forall id, both R (alookup l id) (alookup l' id)).
Proof.
intros Hs Hs' Hn Hn'. split.
- intros Hf id. clear -Hf. induction Hf as [|[i v] [i' v'] l l' [Hi Hr] _ IH]; [done|]. cbn in Hi, Hr |- *. subst i'. by destruct (str_eqb id i).
- intros Hb. assert (Hkeys : map fst l = map fst l').
{ apply (StronglySorted_unique String.le); [done..|]. apply NoDup_Permutation; [done..|]. intros id. specialize (Hb id).
split; intros Hin; apply list_elem_of_fmap in Hin as ([i v] & -> & Hin); cbn in *.
- apply (alookup_Some l _ _ Hn) in Hin. rewrite Hin in Hb. destruct (alookup l' i) as [v'|] eqn:E; [|done]. apply (alookup_Some l' _ _ Hn') in E. apply list_elem_of_fmap. by exists (i, v').
- apply (alookup_Some l' _ _ Hn') in Hin. rewrite Hin in Hb. destruct (alookup l i) as [v'|] eqn:E; [|done]. apply (alookup_Some l _ _ Hn) in E. apply list_elem_of_fmap. by exists (i, v'). }
apply Forall2_same_length_lookup. split; [by rewrite <- (length_map fst l), Hkeys, length_map|]. intros k [i v] [i' v'] Hk Hk'.
assert (i = i') as <-. { apply (f_equal (fun l => l !! k)) in Hkeys. rewrite !list_lookup_fmap, Hk, Hk' in Hkeys. by injection Hkeys. }
split; [done|]. apply list_elem_of_lookup_2 in Hk, Hk'. specialize (Hb i). rewrite (proj2 (alookup_Some l i v Hn) Hk), (proj2 (alookup_Some l' i v' Hn') Hk') in Hb. done.
Qed.
Definition same_results (source target : DB) (runID : string) : Prop := forall call, both same_outcome (tool_results source !! (runID, call)) (tool_results target !! (runID, call)).
Lemma sorted_lookup {V} (m : gmap (string * string) V) run id : alookup (sort_on fst (ChaosPolicy.pair_rows m run)) id = m !! (run, id).
Proof.
assert (Hn : NoDup (map fst (sort_on fst (ChaosPolicy.pair_rows m run)))).
{ apply (NoDup_Permutation_proper _ (map fst (ChaosPolicy.pair_rows m run))); [by apply Permutation_map, sort_on_permutation|apply pair_rows_keys]. }
apply option_eq. intros v. rewrite (alookup_Some _ _ _ Hn), sort_on_elem. apply (ChaosPolicy.pair_rows_in m run (id, v)).
Qed.
Lemma keys_sorted {A} (l : list (string * A)) : StronglySorted (key_le fst) l -> StronglySorted String.le (map fst l).
Proof. induction 1 as [|x l _ IH Hx]; cbn; constructor; [done|]. rewrite Forall_map. exact Hx. Qed.
Lemma results_same_meaning source target runID : compareResults (toolResults source runID) (toolResults target runID) = None <-> same_results source target runID.
Proof.
assert (Hn : forall s, NoDup (map fst (toolResults s runID))).
{ intros s. apply (NoDup_Permutation_proper _ (map fst (ChaosPolicy.pair_rows (tool_results s) runID))); [by apply Permutation_map, sort_on_permutation|apply pair_rows_keys]. }
rewrite compareResults_none, sorted_pairs by (try apply Hn; apply keys_sorted, sort_on_sorted).
unfold toolResults, same_results. by setoid_rewrite sorted_lookup.
Qed.

(** ** Verification is exact *)

Section Exact.
Context `{binding : SqlBind, nodes : YamlNodes, spec_yaml : SpecYaml, world_yaml : WorldYaml, policy_yaml : AuthzPolicy.PolicyYaml, chaos_yaml : ChaosPolicy.ChaosYaml}.
Context (source : DB) (runID : string) (manifest : Manifest).

(** The replayed run ended as the recorded one. *)
Record agrees (target : DB) (original replayed : RunRow) (worldID : string) : Prop := {
ag_origin : is_fork source runID = true -> same_origin (Events runID source) (Events runID target) = true;
ag_events : Forall2 same_meaning (semantic_events (Events runID source)) (semantic_events (Events runID target));
ag_results : same_results source target runID;
ag_chaos : ChaosPolicy.alike source runID target runID;
ag_auth : run_auth target !! runID = run_auth source !! runID /\ auth_state target !! runID = auth_state source !! runID;
ag_transcript : sameJSON (run_transcript original) (run_transcript replayed) = true;
ag_world : forall table, table ∈ replayed_tables (run_scenario original) -> same_rows source target (run_world_id original) worldID table }.

Lemma agree_ok report reason b : agree report reason b = Ok tt <-> b = true.
Proof. unfold agree. by rewrite rassert_ok. Qed.
Lemma differs_ok report difference : differs_at report difference = Ok tt <-> difference = None.
Proof. by destruct difference. Qed.
Lemma step_ok {A} (m : res Return unit) (k : res Return A) a : rbind m (fun _ => k) = Ok a <-> m = Ok tt /\ k = Ok a.
Proof. destruct m as [[]|e]; cbn; naive_solver. Qed.
Lemma compared_ok report original worldID target replayed turns report' : compared source runID report original worldID target replayed turns = Ok report' <->
run_status replayed = "completed" /\ turns = rp_model_turns report /\ agrees target original replayed worldID /\
report' = MkReport (rp_run_id report) true (rp_model_turns report) (Z.of_nat (length (toolResults source runID))) (countSemantic (Events runID source)) (rp_divergence report).
Proof.
unfold compared. rewrite !step_ok, !agree_ok, !differs_ok, andb_true_iff, str_eqb_true, Z.eqb_eq, orb_true_iff, negb_true_iff.
rewrite compareEvents_none, results_same_meaning, run_state_same, world_state_same. cbn [rp_run_id rp_model_turns rp_divergence]. split.
- intros ((H1 & H2) & H3 & H4 & H5 & (H6 & H7) & H8 & H9 & [= <-]). split; [done|]. split; [done|]. split; [|done]. split; [|done|done|done|done|done|done]. intros Hf. destruct H3 as [H3|H3]; [congruence|done].
- intros (H1 & H2 & [A1 A2 A3 A4 [A5 A5'] A6 A7] & ->). split_and!; try done. destruct (is_fork source runID); [right; by apply A1|by left].
Qed.
End Exact.

(** ** The replayed store *)

Section Store.
Context `{binding : SqlBind, nodes : YamlNodes, spec_yaml : SpecYaml, world_yaml : WorldYaml, policy_yaml : AuthzPolicy.PolicyYaml, chaos_yaml : ChaosPolicy.ChaosYaml}.
Context (child_id : string) (child : RunRow) (lineage : ForkLineage) (manifest : Manifest) (source : DB).

(** What the statements after the child's row leave alone. *)
Definition kept_tables (s : DB) := (twin_tables s, world_tables s, (run_leases s, work_queue s), (wall s, runs s)).
Definition replay_rest (selected : Checkpoint) (observation : option (Observation * goval)) : DbTx unit :=
(fun s => copyToolResults s (fl_parent_run_id lineage) child_id s) ;;;
match observation with Some (o, _) => overrideToolResult child_id o | None => tret tt end ;;;
replay_chaos child_id lineage manifest source ;;;
replay_auth child_id lineage manifest source ;;;
start_events child_id selected manifest observation.

Lemma here_respects {A} (R : DB -> DB -> Prop) (m : DB -> DbTx A) : (forall s0, respects R (m s0)) -> respects R (fun s => m s s).
Proof. intros Hm s u s' H. by eapply (Hm s). Qed.
Lemma lift_respects {A} (R : DB -> DB -> Prop) `{!PreOrder R} (x : res err A) : respects R (tlift x).
Proof. intros s u s' [_ ->]%tlift_ok. reflexivity. Qed.
Lemma replay_rest_respects (R : DB -> DB -> Prop) `{!PreOrder R} selected observation :
(forall s0 from, respects R (copyToolResults s0 from child_id)) -> (forall o, respects R (overrideToolResult child_id o)) ->
(forall s0 from, respects R (ChaosPolicy.CopyRun s0 from child_id)) -> (forall s0 from, respects R (AuthzPolicy.CopyRun s0 from child_id)) ->
(forall v, respects R (sql_insert "run_chaos" run_chaos set_run_chaos child_id v)) -> (forall v, respects R (sql_insert "run_auth" run_auth set_run_auth child_id v)) ->
(forall typ payload, respects R (AppendEventTx child_id typ payload)) -> respects R (replay_rest selected observation).
Proof.
intros H1 H2 H3 H4 H5 H6 H7. unfold replay_rest. apply respects_bind; [done|apply (here_respects R (fun s0 => copyToolResults s0 (fl_parent_run_id lineage) child_id)); intros; apply H1|intros _].
apply respects_bind; [done| |intros _]. { destruct observation as [[o payload]|]; [done|by apply respects_ret]. }
apply respects_bind; [done| |intros _].
{ unfold replay_chaos, ChaosPolicy.CopyRunInTx. destruct (fl_chaos_replaced lineage); [|apply (here_respects R (fun s0 => ChaosPolicy.CopyRun s0 (fl_parent_run_id lineage) child_id)); intros; apply H3].
apply respects_bind; [done|by apply lift_respects|intros [encoded digest]]. apply respects_bind; [done| |by intros _].
destruct (ChaosPolicy.ValidateStored _ _ _); [|intros s u s'; unfold tfail; discriminate].
intros s u s' [_ [= _ ->]]%tassert_ok. reflexivity. }
apply respects_bind; [done| |intros _].
{ unfold replay_auth. destruct (fl_auth_replaced lineage); [|apply (here_respects R (fun s0 => AuthzPolicy.CopyRun s0 (fl_parent_run_id lineage) child_id)); intros; apply H4].
apply respects_bind; [done|by apply lift_respects|intros [encoded digest]]. apply respects_bind; [done|by apply lift_respects|by intros _]. }
unfold start_events. apply respects_bind; [done|done|intros _]. destruct observation as [[o payload]|]; [done|by apply respects_ret].
Qed.
#[local] Hint Extern 2 (respects (same _) (sql_insert _ _ _ _ _)) => (apply insert_blind; reflexivity) : tx.
#[local] Hint Extern 2 (respects (same _) (ChaosPolicy.copying _ _)) => (apply copying_respects; respects_tac) : tx.
#[local] Hint Extern 2 (respects logs_grow (sql_insert _ _ _ _ _)) => (apply insert_logs; reflexivity) : tx.
#[local] Hint Extern 2 (respects logs_grow (ChaosPolicy.copying _ _)) => (apply copying_respects; respects_tac) : tx.
Lemma replay_rest_same selected observation : respects (same kept_tables) (replay_rest selected observation).
Proof.
apply replay_rest_respects; [apply _|intros..].
- unfold copyToolResults. respects_tac.
- by apply override_blind.
- unfold ChaosPolicy.CopyRun. respects_tac.
- unfold AuthzPolicy.CopyRun. respects_tac.
- by apply insert_blind.
- by apply insert_blind.
- by apply event_blind.
Qed.
Lemma replay_rest_logs selected observation : respects logs_grow (replay_rest selected observation).
Proof.
apply replay_rest_respects; [apply _|intros..].
- unfold copyToolResults. respects_tac.
- unfold overrideToolResult. respects_tac.
- unfold ChaosPolicy.CopyRun. respects_tac.
- unfold AuthzPolicy.CopyRun. respects_tac.
- by apply insert_logs.
- by apply insert_logs.
- apply append_logs.
Qed.

Lemma write_replay_split selected parent world rebuilt transcript observation s u s' : write_replay child_id child lineage manifest source selected parent world rebuilt transcript observation s = Ok (u, s') ->
exists s1 row, world_copied (set_worlds (insert (run_world_id child) world) s) (run_world_id rebuilt) (run_world_id child) (set_worlds (insert (run_world_id child) world) s) s1 /\
other_tables s1 = other_tables (set_worlds (insert (run_world_id child) world) s) /\ replay_rest selected observation (set_runs (insert child_id row) s1) = Ok (u, s').
Proof.
unfold write_replay. cbv zeta. rewrite tbind_ok. intros ([] & sa & [_ ->]%sql_insert_ok & H). apply tbind_ok in H as ([] & s1 & [Hc Ho]%copy_world_ok & H).
apply tbind_ok in H as ([] & sb & [_ ->]%sql_insert_ok & H). eexists s1, _. split; [exact Hc|]. split; [exact Ho|exact H].
Qed.
(** Preparing a replay keeps the invariants and the clock. *)
Lemma write_replay_inv selected parent world rebuilt transcript observation s u s' : child_id <> "" ->
write_replay child_id child lineage manifest source selected parent world rebuilt transcript observation s = Ok (u, s') -> inv s -> inv s' /\ wall s' = wall s.
Proof.
intros Hid (s1 & row & Hc & Ho & Hr)%write_replay_split ((H1 & H2 & H3) & Hi & Hd). set (s0 := set_worlds _ s) in *.
assert (Hi0 : world_integrity s0) by exact Hi. pose proof (integrity_copied _ _ _ _ _ Hi0 Hc Hi0) as Hi1. pose proof (replay_rest_same _ _ _ _ _ Hr) as Hf. pose proof (replay_rest_logs _ _ _ _ _ Hr) as Hl.
unfold other_tables in Ho. injection Ho; clear Ho; intros. unfold same, kept_tables in Hf.
apply pair_equal_spec in Hf as [Hf Hwr]. apply pair_equal_spec in Hwr as [Hwall Hruns]. apply pair_equal_spec in Hf as [Hf Hlq]. apply pair_equal_spec in Hlq as [Hle Hq].
apply pair_equal_spec in Hf as [_ Hwt]. split; [split_and!; [split_and!|..]|].
- unfold leases_ok. rewrite Hle. db_simpl. rename select (run_leases s1 = _) into E. by rewrite E.
- intros q r. rewrite Hq. db_simpl. rename select (work_queue s1 = _) into E. rewrite E. intros (? & ? & ? & ? & Hs)%H2. split_and!; try done. rewrite Hruns. db_simpl.
destruct (decide (q = child_id)) as [->|Hne]; [rewrite lookup_insert_eq; by eexists|]. rewrite lookup_insert_ne by congruence. rename select (runs s1 = _) into E'. by rewrite E'.
- unfold runs_named. rewrite Hruns. db_simpl. rewrite lookup_insert_ne by congruence. rename select (runs s1 = _) into E. by rewrite E.
- eapply (integrity_tables (set_runs (insert child_id row) s1)); [exact Hwt|]. exact Hi1.
- eapply logs_grow_dense; [exact Hl|]. unfold logs_dense. db_simpl. rename select (events s1 = _) into E. rename select (run_ownership_log s1 = _) into E'. rewrite E, E'. exact Hd.
- rewrite Hwall. db_simpl. by rename select (wall s1 = _) into E.
Qed.
End Store.

Section Program.
Context `{binding : SqlBind, nodes : YamlNodes, spec_yaml : SpecYaml, world_yaml : WorldYaml, policy_yaml : AuthzPolicy.PolicyYaml, chaos_yaml : ChaosPolicy.ChaosYaml}.
Context (err_text : err -> string) (source : DB) (runID : string) (manifest : Manifest).

Lemma replay_store child lineage fuel now target : valid_time now -> runs_named source -> runID <> "" ->
ReconstructForReplay runID child lineage manifest source fuel now = Some (Ok target) -> inv target /\ valid_time (wall target).
Proof.
intros Hnow Hnamed Hid. unfold ReconstructForReplay. destruct (read_lineage _ _ _ _ _) as [[[parent selected] world]|e] eqn:Hl; [|done].
assert (Hp : fl_parent_run_id lineage <> "").
{ unfold read_lineage in Hl. apply rassert_bind in Hl as [_ Hl]. apply rbind_ok in Hl as (row & Hrow%rsome_ok & _). intros E. rewrite E in Hrow. unfold runs_named in Hnamed. congruence. }
intros ([[built rebuilt]|e] & Hr & H)%fmap_Some; [|done]. symmetry in H. cbn [rbind] in H. destruct (reconstruct_reaches _ _ _ _ _ _ _ _ Hnow Hp Hr) as (_ & Hi & Hw).
apply rbind_ok in H as (pw & _ & H). apply rassert_bind in H as [_ H]. apply rbind_ok in H as (observation & _ & H). apply rbind_ok in H as (transcript & _ & H).
apply rbind_ok in H as ([u built'] & H & [= ->]). destruct (write_replay_inv _ _ _ _ _ _ _ _ _ _ _ _ _ _ Hid H Hi) as [Hi' Hw']. by rewrite Hw'.
Qed.
(** The store of a run that was not forked is a state of the system. *)
Lemma seeded_store original world fuel now target worldID : valid_time now -> runID <> "" -> is_fork source runID = false ->
prepared source runID manifest original world fuel now = Some (Ok (target, worldID)) -> rtc step (empty_db now) target /\ valid_time (wall target).
Proof.
intros Hnow Hid Hf. unfold is_fork in Hf. unfold prepared. destruct (lineage_of source runID); [done|]. intros (seed & Hs & H)%fmap_Some.
destruct (iobind seed _ _) as [out built] eqn:Hrun. symmetry in H. apply rbind_ok in H as (w & -> & [= -> ->]).
assert (Hsafe : safe (iobind seed (seed_replay source runID original))).
{ apply safe_bind; [by eapply safe_seed|intros w]. unfold seed_replay. apply safe_bind; [by apply safe_replay_run|intros _].
apply safe_bind; [apply safe_attach, safe_chaos|intros _]. apply safe_bind; [apply safe_attach, safe_auth|intros _]. apply safe_ret. }
destruct (Hsafe (empty_db now) Hnow) as [Hst Hw]. rewrite Hrun in Hst, Hw. done.
Qed.
Lemma replay_steps provider rounds n target out x : valid_time (wall target) ->
Execute (fun _ s => s) err_text (replay_runner manifest provider) rounds runID n (MkExec target 0 0) = Some (out, x) -> sys_steps target (ex_db x).
Proof.
intros Hw. unfold Execute. destruct (n <? 1); [intros [= _ <-]; reflexivity|]. cbn [rn_provider replay_runner]. intros He.
assert (Ha : advance (MkExec target 0 0) x); [|by apply Ha].
assert (Hd : sound_dispatcher (dispatcher manifest)) by by apply builtin_sound.
exact (execute_loop_advances (fun _ s => s) err_text (replay_runner manifest provider) (fun _ s _ => rtc_refl _ s) (fun s Hs => Hs) (fun s Hs => Hs) Hd _ _ _ _ _ _ _ _ He).
Qed.
Lemma sys_steps_inv s s' : sys_steps s s' -> inv s -> inv s'.
Proof. induction 1 as [|s1 s2 s3 H12 _ IH]; [done|]. intros Hi. apply IH. by eapply step_inv; [apply step_system|]. Qed.

(** C27. What a replay compares with the recording is a real execution: the
store it prepares, in a fresh database or next to a rebuilt parent, satisfies
the invariants of the system, and everything the replay does to it is steps
of the system, so they still hold of what is compared; a run that was not
forked is replayed from an empty database by the system's own steps. *)
Theorem replayed_store_sound original world fuel now target worldID provider rounds n out x : valid_time now -> runs_named source -> runs source !! runID = Some original ->
prepared source runID manifest original world fuel now = Some (Ok (target, worldID)) ->
Execute (fun _ s => s) err_text (replay_runner manifest provider) rounds runID n (MkExec target 0 0) = Some (out, x) ->
inv target /\ sys_steps target (ex_db x) /\ inv (ex_db x) /\ (is_fork source runID = false -> rtc step (empty_db now) (ex_db x)).
Proof.
intros Hnow Hnamed Hrun Hp He. assert (Hid : runID <> "") by (intros ->; unfold runs_named in Hnamed; congruence).
assert (Ht : inv target /\ valid_time (wall target)).
{ destruct (is_fork source runID) eqn:Hf.
- unfold is_fork in Hf. unfold prepared in Hp. destruct (lineage_of source runID) as [lineage|]; [|done]. apply fmap_Some in Hp as ([built|e] & Hb & H); [|done].
injection H as -> _. by eapply replay_store.
- destruct (seeded_store _ _ _ _ _ _ Hnow Hid Hf Hp) as [Hs Hw]. split; [by eapply reached_inv|done]. }
destruct Ht as [Hi Hw]. pose proof (replay_steps _ _ _ _ _ _ Hw He) as Hs. split; [done|]. split; [done|]. split; [by eapply sys_steps_inv|].
intros Hf. destruct (seeded_store _ _ _ _ _ _ Hnow Hid Hf Hp) as [H0 _]. etransitivity; [exact H0|]. clear -Hs. induction Hs; [done|]. eapply rtc_l; [by apply step_system|done].
Qed.

End Program.

Lemma failing_ok {A} report (m : res err A) a : failing report m = Ok a <-> m = Ok a.
Proof. destruct m; cbn; naive_solver. Qed.
Section Recording.
Context `{binding : SqlBind, nodes : YamlNodes, spec_yaml : SpecYaml, world_yaml : WorldYaml, policy_yaml : AuthzPolicy.PolicyYaml}.
Context (value_text : goval -> string) (source : DB) (runID : string) (manifest : Manifest).

(** A recording that can be replayed. *)
Record recording (original : RunRow) (world : WorldRow) (messages : list Message) : Prop := {
rc_manifest : ValidateManifest manifest = Ok tt;
rc_run : runs source !! runID = Some original /\ run_status original = "completed";
rc_scenario : run_scenario original ∈ scenarios;
rc_world : worlds source !! run_world_id original = Some world /\ wld_digest world = mf_digest manifest;
rc_principal : match run_auth source !! runID with
         | Some row => exists policy, AuthzPolicy.ValidateStored (pol_json row) (pol_digest row) manifest = Ok policy /\ po_principal_id policy = run_principal_id original
         | None => run_principal_id original = UnrestrictedPrincipal
         end;
rc_messages : recordedMessages value_text runID original (Events runID source) (is_fork source runID) = Ok messages }.

Lemma recorded_run_ok original world : recorded_run source runID manifest = Ok (original, world) <->
ValidateManifest manifest = Ok tt /\ (runs source !! runID = Some original /\ run_status original = "completed") /\ run_scenario original ∈ scenarios /\
worlds source !! run_world_id original = Some world /\ wld_digest world = mf_digest manifest.
Proof.
unfold recorded_run. rewrite failing_ok. split.
- intros H. apply rbind_ok in H as ([] & Hm%rwrap_ok & H). apply rbind_ok in H as (row & Hr%rsome_ok & H). apply rassert_bind in H as [H1%str_eqb_true H].
apply rassert_bind in H as [H2%contains_spec H]. apply rbind_ok in H as (w & Hw%rsome_ok & H). apply rassert_bind in H as [H3%str_eqb_true [= -> ->]].
by split_and!.
- intros (Hm & (Hr & Hs) & Hc & Hw & Hd). rewrite Hm, Hr. cbn [rwrap rbind rsome]. rewrite Hs. cbn [rassert str_eqb]. rewrite (proj2 (rassert_ok _ _ tt)) by by apply str_eqb_true.
cbn [rbind]. rewrite (proj2 (rassert_ok _ _ tt)) by (apply contains_spec; exact Hc).
cbn [rbind]. rewrite Hw. cbn [rsome rbind]. rewrite (proj2 (rassert_ok _ _ tt)) by (apply str_eqb_true; done). done.
Qed.
End Recording.

(** Whatever is returned early is not verified. *)
Definition unverified {A} (m : res Return A) : Prop := match m with Err r => rp_verified r.1 = false | Ok _ => True end.
Lemma unverified_bind {A B} (m : res Return A) (k : A -> res Return B) : unverified m -> (forall a, unverified (k a)) -> unverified (rbind m k).
Proof. destruct m; cbn; auto. Qed.
Lemma unverified_failing {A} report (m : res err A) : rp_verified report = false -> unverified (failing report m).
Proof. by destruct m. Qed.
Lemma unverified_agree report reason b : rp_verified report = false -> unverified (agree report reason b).
Proof. by destruct b. Qed.
Lemma unverified_differs report difference : rp_verified report = false -> unverified (differs_at report difference).
Proof. by destruct difference. Qed.
Lemma diverged_unverified source runID report original worldID target replayed turns r e : rp_verified report = false ->
compared source runID report original worldID target replayed turns = Err (r, e) -> rp_verified r = true -> False.
Proof.
intros Hf Hc. assert (H : unverified (compared source runID report original worldID target replayed turns)).
{ unfold compared. cbv zeta. repeat (apply unverified_bind; [by first [apply unverified_agree | apply unverified_differs]|intros _]). done. }
rewrite Hc in H. cbn in H. by rewrite H.
Qed.

Section Verdict.
Context `{binding : SqlBind, nodes : YamlNodes, spec_yaml : SpecYaml, world_yaml : WorldYaml, policy_yaml : AuthzPolicy.PolicyYaml, chaos_yaml : ChaosPolicy.ChaosYaml}.
Context (err_text : err -> string) (value_text : goval -> string) (source : DB) (runID : string) (manifest : Manifest).

Lemma recorded_principal_ok original : recorded_principal err_text source runID manifest original = Ok tt <->
match run_auth source !! runID with
| Some row => exists policy, AuthzPolicy.ValidateStored (pol_json row) (pol_digest row) manifest = Ok policy /\ po_principal_id policy = run_principal_id original
| None => run_principal_id original = UnrestrictedPrincipal
end.
Proof.
unfold recorded_principal, AuthPolicy. destruct (run_auth source !! runID) as [row|]; cbn [fmap option_fmap option_map rsome].
- destruct (AuthzPolicy.ValidateStored _ _ _) as [policy|e].
+ rewrite agree_ok, str_eqb_true. naive_solver.
+ split; [done|]. by intros (? & ? & _).
- by rewrite agree_ok, str_eqb_true.
Qed.
Lemma gathered_ok original world messages :
(try* '(original, world) := recorded_run source runID manifest in
 try* _ := recorded_principal err_text source runID manifest original in
 try* messages := failing (first_report runID) (recordedMessages value_text runID original (Events runID source) (is_fork source runID)) in
 Ok (original, world, messages)) = Ok (original, world, messages) <-> recording value_text source runID manifest original world messages.
Proof.
split.
- intros H. apply rbind_ok in H as ([o w] & (H1 & H2 & H3 & H4)%recorded_run_ok & H). apply rbind_ok in H as ([] & Hp%recorded_principal_ok & H).
apply rbind_ok in H as (ms & Hm%failing_ok & [= -> -> ->]). by split.
- intros [H1 H2 H3 H4 H5 H6]. apply rbind_ok. exists (original, world). split; [by apply recorded_run_ok|]. apply rbind_ok. exists tt. split; [by apply recorded_principal_ok|].
apply rbind_ok. exists messages. split; [by apply failing_ok|done].
Qed.

Lemma gathered_unverified r e :
(try* '(original, world) := recorded_run source runID manifest in
 try* _ := recorded_principal err_text source runID manifest original in
 try* messages := failing (first_report runID) (recordedMessages value_text runID original (Events runID source) (is_fork source runID)) in
 Ok (original, world, messages)) = Err (r, e) -> rp_verified r = true -> False.
Proof.
intros Hg. match type of Hg with ?m = _ => assert (H : unverified m) end.
{ apply unverified_bind; [by apply unverified_failing|intros [original world]]. apply unverified_bind.
{ unfold recorded_principal. destruct (AuthPolicy _ _) as [[json digest]|?]; [|by apply unverified_agree]. destruct (AuthzPolicy.ValidateStored _ _ _); [by apply unverified_agree|done]. }
intros _. apply unverified_bind; [by apply unverified_failing|done]. }
rewrite Hg in H. cbn in H. by rewrite H.
Qed.

(** C26. The verdict of a replay is exact.  It is verified just when the recording
is one that can be replayed (a completed run of a known scenario under this
manifest, by the principal of its policy, with a whole ledger) and the
execution that the recorded turns or the provider give, from the store
prepared for it, completes in as many turns and agrees with it: in the events
that carry meaning, every saved result, all of the chaos and authorization
state, the transcript, and every row of every table that is compared for the
run's scenario: customers, invoices, charges and refunds for the scenarios
[duplicate-charge] and [ambiguous-commit], and for the others the remaining
tables of the world too.  In these neither a difference is missed nor one
reported that is not there. *)
Theorem replay_verdict_exact provider fuel rounds now :
(exists report, VerifyWith err_text value_text source runID manifest provider fuel rounds now = Some (report, None) /\ rp_verified report = true) <->
exists original world messages target worldID replayed x,
recording value_text source runID manifest original world messages /\
prepared source runID manifest original world fuel now = Some (Ok (target, worldID)) /\
Execute (fun _ s => s) err_text (replay_runner manifest (default (recordedProvider messages) provider)) rounds runID (Z.of_nat (length messages) + 1) (MkExec target 0 0) = Some (Ok replayed, x) /\
run_status replayed = "completed" /\
match provider with None => recorded_next messages (ex_calls x) | Some _ => run_step replayed end = Z.of_nat (length messages) /\
agrees source runID (ex_db x) original replayed worldID.
Proof.
unfold VerifyWith. split.
- intros (report & H & Hv). destruct (rbind (recorded_run _ _ _) _) as [[[original world] messages]|r] eqn:Hg.
2: { injection H as ->. exfalso. revert Hv. by apply (gathered_unverified _ _ Hg). }
apply gathered_ok in Hg. cbn [rp_model_turns with_turns] in H. destruct (prepared _ _ _ _ _ _ _) as [[[target worldID]|e]|] eqn:Hp; [|by injection H as <-|done].
destruct (Execute _ _ _ _ _ _ _) as [[[replayed|e] x]|] eqn:He; [|by injection H as <-|done]. injection H as H.
destruct (compared _ _ _ _ _ _ _ _) as [report'|r] eqn:Hc.
+ apply compared_ok in Hc as (H1 & H2 & H3 & _). exists original, world, messages, target, worldID, replayed, x. split_and!; done.
+ exfalso. cbn [returned] in H. subst r. by eapply diverged_unverified; [|exact Hc|].
- intros (original & world & messages & target & worldID & replayed & x & Hr & Hp & He & Hs & Ht & Ha). apply gathered_ok in Hr. rewrite Hr. cbn [rp_model_turns with_turns].
rewrite Hp, He. erewrite (proj2 (compared_ok source runID _ original worldID (ex_db x) replayed _ _)). 2: { split; [exact Hs|]. split; [exact Ht|]. split; [exact Ha|reflexivity]. }
eexists. split; [reflexivity|done].
Qed.
End Verdict.

(** ** An example *)
Module ReplayDemo.
Import CheckpointDemo ReconstructDemo ForkDemo.
(** A run executed to its end, and the same with a charge changed later. *)
Definition completed : DB := executed 5 (create seeded).
Definition id : string := "R-0102ff".
Abbreviation verify := (fun (s : DB) (id : string) => VerifyWith (H := sqlite_bind) (H0 := CheckpointDemo.nodes) (H2 := CheckpointDemo.yaml) (H3 := policy_yaml) (H4 := chaos_yaml)
(fun _ => "") (fun _ => "") s id manifest None 0 6 (now + day_ns)).
Definition verified_with (divergence : string) (o : option Return) : bool :=
match o with Some (report, None) => str_eqb (rp_divergence report) divergence && Bool.eqb (rp_verified report) (str_eqb divergence "") | _ => false end.
Definition altered : DB := set_charges (fmap (fun c => MkCharge (chg_invoice_id c) (chg_amount_cents c) 0 (chg_created_at c))) completed.
Example recorded_run_verifies : verified_with "" (verify completed id) = true.
Proof. vm_compute. reflexivity. Qed.
Example altered_world_diverges : verified_with "charges state differs" (verify altered id) = true.
Proof. vm_compute. reflexivity. Qed.
Definition original_of (s : DB) : RunRow := default (MkRun "" "" "" "" "" "" 0 "" "" 0 "") (runs s !! id).
Definition world_of (s : DB) : WorldRow := default (MkWorld 0 "" "") (worlds s !! run_world_id (original_of s)).
Abbreviation run_again := (fun target : DB => Execute (H := sqlite_bind) (fun _ s => s) (fun _ => "") (replay_runner manifest provider) 6 id 3 (MkExec target 0 0)).
Definition runs_again (o : option (res err (DB * string))) : bool :=
match o with Some (Ok (target, _)) => match run_again target with Some (Ok run, _) => str_eqb (run_status run) "completed" | _ => false end | _ => false end.
Lemma runs_again_spec o : runs_again o = true -> exists target w run x, o = Some (Ok (target, w)) /\ run_again target = Some (Ok run, x).
Proof.
destruct o as [[[target w]|e]|]; [|done..]. unfold runs_again. destruct (run_again target) as [[[run|e] x]|] eqn:E; [|done..]. intros _. by exists target, w, run, x.
Qed.
Abbreviation prepared_store := (prepared (H := sqlite_bind) (H0 := CheckpointDemo.nodes) (H2 := CheckpointDemo.yaml) (H3 := policy_yaml) (H4 := chaos_yaml)
completed id manifest (original_of completed) (world_of completed) 0 (now + day_ns)).
Lemma again_completes : runs_again prepared_store = true.
Proof. vm_compute. reflexivity. Qed.
Definition named_ok (s : DB) : bool := bool_decide (runs s !! "" = None) && match runs s !! id with Some _ => true | None => false end.
Lemma source_named : named_ok completed = true.
Proof. vm_compute. reflexivity. Qed.
Lemma named_ok_spec s : named_ok s = true -> runs_named s /\ runs s !! id = Some (original_of s).
Proof. unfold named_ok, original_of. intros [Hn%bool_decide_eq_true Hr]%andb_true_iff. split; [exact Hn|]. by destruct (runs s !! id). Qed.
End ReplayDemo.

Lemma replayed_store_sound_witness : exists target run x, ReplayDemo.run_again target = Some (Ok run, x) /\ inv (ex_db x).
Proof.
destruct (ReplayDemo.runs_again_spec _ ReplayDemo.again_completes) as (target & w & run & x & Ep & Ee). exists target, run, x. split; [exact Ee|].
destruct (ReplayDemo.named_ok_spec _ ReplayDemo.source_named) as [Hn Hr].
refine (proj1 (proj2 (proj2 (replayed_store_sound (policy_yaml := ForkDemo.policy_yaml) (chaos_yaml := ForkDemo.chaos_yaml) (fun _ => "") _ _ _ _ _ _ _ _ _ _ _ _ _ _ _ Hn Hr Ep Ee)))).
vm_compute. split; [discriminate|reflexivity].
Defined.
End ReplayFacts.
