(* ===== verification/Isolation.v ===== *)
(** * What an execution leaves alone

    A run executes inside its own world: whatever the provider answers and
    whatever the operations do, an execution of a run changes no other run's row,
    ledger, saved results, policies or lease, and no other world's data. *)

From S2P Require Export RunnerFacts ForkFacts.
Open Scope Z_scope.
Open Scope tx_scope.

Module Isolation.
Import Fork ForkFacts.

(** The tables an execution never writes. *)
Definition fixed (s : DB) :=
((worlds s, customers s, invoices s, subscriptions s, crm_contacts s, ticket_projects s, message_workspaces s, message_channels s, message_members s),
 (run_chaos s, run_auth s, work_queue s, workers s, run_ownership_log s), (checkpoints s, fork_lineage s, fork_observations s)).
(** [isolated w r s s']: of the other tables only the rows of the world [w] and
the run [r] may differ, and the run stays in its world.  The run's lease may
record the fence it was written under. *)
Record isolated (w r : string) (s s' : DB) : Prop := {
is_undisturbed : undisturbed w r s (set_run_leases (fun _ => run_leases s) s');
is_leases : kept r (run_leases s) (run_leases s');
is_fixed : same fixed s s';
is_world : run_world_id <$> runs s' !! r = run_world_id <$> runs s !! r }.

Lemma undisturbed_leases w r m s s' : undisturbed w r s s' -> undisturbed w r (set_run_leases (fun _ => m) s) (set_run_leases (fun _ => m) s').
Proof.
intros [A1 A2 A3 A4 A5 A6 A7 A8 A9 A10 A11 A12]. split; try done; [by destruct A8|]. db_simpl. injection A12 as -> _ -> -> ->. done.
Qed.
#[export] Instance isolated_preorder w r : PreOrder (isolated w r).
Proof.
split.
- intros s. split; [|done..]. destruct s. reflexivity.
- intros s1 s2 s3 [A1 A2 A3 A4] [B1 B2 B3 B4]. split.
+ etransitivity; [exact A1|]. exact (undisturbed_leases _ _ (run_leases s1) _ _ B1).
+ by etransitivity.
+ by etransitivity.
+ by rewrite B4.
Qed.
Lemma isolated_same_leases w r s s' : undisturbed w r s s' -> same fixed s s' -> run_world_id <$> runs s' !! r = run_world_id <$> runs s !! r -> isolated w r s s'.
Proof.
intros Hu Hf Hw. assert (run_leases s' = run_leases s) as Hl by (pose proof (un_rest _ _ _ _ Hu) as He; by injection He). split; [|by intros k _; rewrite Hl|done|done].
replace (set_run_leases (fun _ => run_leases s) s') with s'; [done|]. rewrite <- Hl. by destruct s'.
Qed.

(** ** The statements of an execution *)

Section Statements.
Context (w r : string).
Lemma guard_isolated f now : fence_run_id f = r -> respects (isolated w r) (GuardFenceTx f now).
Proof.
intros Hf s u s'. unfold GuardFenceTx. intros H. sql_cases; try reflexivity. split; [|db_simpl; intros k Hk; rewrite lookup_alter_ne; congruence|done|done].
assert (forall g, set_run_leases (fun _ => run_leases s) (set_run_leases g s) = s) as E by (intros; by destruct s). rewrite E. reflexivity.
Qed.
Lemma append_isolated typ payload : respects (isolated w r) (AppendEventTx r typ payload).
Proof.
intros s u s' Ha. apply isolated_same_leases; [by eapply undisturbed_event|..]; by apply AppendEventTx_ok in Ha as (row & _ & ->).
Qed.
Lemma update_isolated f : (forall x, run_world_id (f x) = run_world_id x) -> respects (isolated w r) (update_run r f).
Proof.
intros Hf s u s' ->%sql_update_ok. apply isolated_same_leases.
- split; split_and?; try reflexivity; [|by split]. db_simpl. intros k Hk. by rewrite lookup_alter_ne.
- done.
- db_simpl. rewrite lookup_alter_eq. destruct (runs s !! r); cbn; [by rewrite Hf|done].
Qed.
Lemma call_isolated call s s' : call_frame r call w s s' -> isolated w r s s'.
Proof.
intros [F1 F2 F3 F4 F5 F6 F7 F8]. unfold same, untouched in F1. injection F1 as E1 E2 E3 E4 E5 E6 E7 E8 E9 E10 E11 E12 E13 E14 E15 E16 E17 E18 E19.
apply isolated_same_leases.
- split; rewrite ?E1, ?E2, ?E3, ?E4, ?E5, ?E6, ?E7, ?E8, ?E9, ?E10, ?E11, ?E12, ?E13, ?E14, ?E15, ?E16, ?E17, ?E18, ?E19; split_and?; try reflexivity.
all: try (intros k i Hk; by apply (F5 k Hk i)).
+ intros k Hk. by apply F3.
+ intros k i Hk. destruct (F3 k Hk) as (_ & Hl & _). apply option_eq. intros v. rewrite <- !elem_of_log_rows. by rewrite Hl.
+ intros k i Hk. apply (F6 (k, i)). congruence.
+ split; rewrite ?E11; intros; [done|by apply F7|by apply F8|apply (F6 (run, c)); congruence].
+ intros k Hk. by apply F3.
- unfold same, fixed. congruence.
- destruct (runs s !! r), (runs s' !! r); cbn in *; try done. unfold row_identity in F4. by injection F4 as ->.
Qed.
End Statements.
#[local] Hint Resolve append_isolated : tx.
#[local] Hint Extern 2 (respects (isolated _ _) (update_run _ _)) => (apply update_isolated; reflexivity) : tx.
#[local] Hint Extern 2 (respects (isolated _ _) (GuardFenceTx _ _)) => (by apply guard_isolated) : tx.

Lemma guarded_isolated w r f clock body s : (forall f', f = Some f' -> fence_run_id f' = r) -> respects (isolated w r) body -> isolated w r s (snd (guarded f clock body s)).
Proof.
intros Hf Hb. unfold guarded. destruct (atomically _ s) as [out s'] eqn:Ha. cbn. eapply atomically_respects; [apply _| |exact Ha].
destruct f as [f|]; [|done]. respects_tac. by apply guard_isolated, Hf.
Qed.

(** ** Calls and executions *)

Section Program.
Context `{binding : SqlBind}.
Lemma Invoke_isolated d r call operationID args s w : sound_dispatcher d -> (forall f, dp_fence d = Some f -> fence_run_id f = r) ->
run_world_id <$> runs s !! r = Some w -> isolated w r s (snd (Invoke d r call operationID args s)).
Proof.
intros Hd Hf Hw. destruct (Invoke d r call operationID args s) as [out s'] eqn:Hi. apply Invoke_ends in Hi. cbn.
destruct Hi as [e|res Hr|arguments op row sg res s' out Hg Hm Hn Hop Hrow Hds _]; [reflexivity..|].
rewrite Hrow in Hw. injection Hw as <-. transitivity sg.
- revert Hg. unfold guard_call. destruct (dp_fence d) as [f|] eqn:E; [|by intros [= <-]]. rewrite tbind_ok. intros (now & s1 & H1 & Hg). cbv in H1. injection H1 as _ <-.
eapply guard_isolated; [by apply Hf|exact Hg].
- apply (call_isolated _ _ call). eapply dispatch_respects; [done|apply _|apply frame_relation|apply frame_handlers|apply frame_rows|done|exact Hds].
Qed.

(** What an execution of [r] keeps, in whichever world the run is. *)
Definition stays (r : string) (s s' : DB) : Prop := forall w, run_world_id <$> runs s !! r = Some w -> isolated w r s s'.
#[export] Instance stays_preorder r : PreOrder (stays r).
Proof.
split; [intros s w _; reflexivity|]. intros s1 s2 s3 H12 H23 w Hw. specialize (H12 w Hw). etransitivity; [exact H12|]. apply H23. by rewrite (is_world _ _ _ _ H12).
Qed.
Context (err_text : err -> string) (r : Runner) (runID : string).
Context (Hd : sound_dispatcher (rn_dispatch r)) (Hdf : forall f, dp_fence (rn_dispatch r) = Some f -> fence_run_id f = runID) (Hf : forall f, rn_fence r = Some f -> fence_run_id f = runID).
Lemma execution_stays : runner_relation (fun _ s => s) r runID (stays runID).
Proof.
split; intros; intros w Hw.
- reflexivity.
- apply guarded_isolated; [done|auto with tx].
- apply guarded_isolated; [done|]. unfold saveTurnTx, appendInterruptionsTx. respects_tac.
- apply guarded_isolated; [done|]. unfold failModelTurnTx, appendInterruptionsTx. respects_tac.
- apply guarded_isolated; [done|]. unfold saveStatusTx. respects_tac.
- by apply Invoke_isolated.
Qed.
End Program.

(** C24. An execution stays in its run's world: whatever the provider answers and
however the execution ends, nothing of another run is touched (its row, its
ledger, its saved results, its chaos and authorization policies and state,
its lineage, its lease), nothing of another world, and no policy, checkpoint,
lineage, queue, worker or ownership row changes. *)
Theorem execution_isolated `{binding : SqlBind} err_text r rounds runID maxSteps s row out x :
sound_dispatcher (rn_dispatch r) -> (forall f, dp_fence (rn_dispatch r) = Some f -> fence_run_id f = runID) ->
(forall f, rn_fence r = Some f -> fence_run_id f = runID) -> runs s !! runID = Some row ->
Execute (fun _ s => s) err_text r rounds runID maxSteps (MkExec s 0 0) = Some (out, x) ->
isolated (run_world_id row) runID s (ex_db x).
Proof.
intros Hd Hdf Hf Hrow He. pose proof (execution_stays r runID Hd Hdf Hf) as HR.
apply (Execute_along (fun _ s => s) err_text r runID (stays runID) HR) in He. apply He. cbn. by rewrite Hrow.
Qed.

Module IsolationDemo.
Import Checkpoint Reconstruct CheckpointDemo ReconstructDemo.
Definition started : DB := create seeded.
(** A run that refunds a charge and completes. *)
Abbreviation execution := (Execute (H := sqlite_bind) (fun _ s => s) (fun _ => "") runner 4 "R-0102ff" 5 (MkExec started 0 0)).
Definition refunded (o : option (res err RunRow * Exec)) : bool :=
match o, runs started !! "R-0102ff" with
| Some (_, x), Some row => bool_decide (chg_refunded_cents <$> charges (ex_db x) !! (run_world_id row, "CH-1002") = Some 300)
| _, _ => false
end.
Lemma refunds_once : refunded execution = true.
Proof. vm_compute. reflexivity. Qed.
Lemma refunded_spec o : refunded o = true -> exists out x row, o = Some (out, x) /\ runs started !! "R-0102ff" = Some row.
Proof. unfold refunded. destruct o as [[out x]|]; [|done]. destruct (runs started !! "R-0102ff") as [row|]; [|done]. intros _. by exists out, x, row. Qed.
End IsolationDemo.

Lemma execution_isolated_witness : exists out x row, IsolationDemo.execution = Some (out, x) /\
isolated (run_world_id row) "R-0102ff" IsolationDemo.started (ex_db x).
Proof.
destruct (IsolationDemo.refunded_spec _ IsolationDemo.refunds_once) as (out & x & row & E & Hrow). exists out, x, row. split; [exact E|].
refine (execution_isolated (fun _ => "") _ _ _ _ _ _ _ _ _ _ _ Hrow E); [by apply builtin_sound|discriminate|discriminate].
Defined.
End Isolation.
