(* ===== verification/Counterfactual.v ===== *)
(** * Counterfactual analysis (internal/counterfactual/parse.go, analyze.go, judge.go)

    A completed run that failed is forked at candidate events, one controlled
    change per fork; each child is executed and judged on its own, and the
    candidates are ranked by how often the outcome changed. *)

From S2P Require Export Fork Assertion.
Open Scope Z_scope.
Open Scope tx_scope.

Module Counterfactual.
Import Runs Checkpoint Reconstruct Fork.

(** ** Interventions (parse.go) *)

Definition KindChaosPolicy : string := "chaos_policy".
Definition KindAuthPolicy : string := "auth_policy".
Definition KindFault : string := "fault".
Definition KindModel : string := "model".
Definition KindToolResponse : string := "tool_response".

(** [Intervention]; nil calls and an empty list are told apart. *)
Record Intervention := MkIntervention {
iv_ID : string; iv_Kind : string; iv_Calls : option (list string); iv_Policy : string; iv_Operation : option string; iv_Provider : string; iv_Model : string;
iv_Call : string; iv_Status : Z; iv_Body : string; iv_policyRaw : string }.
(** [Set] *)
Record ISet := MkISet { is_interventions : list Intervention; is_manifest : Manifest }.
(** [rawIntervention]: a field of kind zero is absent.  A body is decoded as a
node of its own, an alias with the node it stands for. *)
Inductive bnode := BNode (kind : NodeKind) (tag value : string) (content : list bnode) (alias : option bnode).
Record rawIntervention := MkRawIntervention {
ri_id : string; ri_kind : string; ri_calls : option (list string); ri_policy : option ynode; ri_operation : option string; ri_provider : string; ri_model : string;
ri_call : string; ri_status : option Z; ri_body : option bnode }.
Record rawInterventions := MkRawInterventions { ris_version : Z; ris_interventions : list rawIntervention }.
(** The YAML library: decoding a file, encoding a node again, and a boolean. *)
Class InterventionYaml := {
decode_interventions : Decoder rawInterventions; encode_node : ynode -> res err string; decode_bool_node : bnode -> res err bool }.

(** [fields] *)
Definition fields : list (string * list string) :=
[(KindChaosPolicy, ["calls"; "policy"]); (KindAuthPolicy, ["calls"; "policy"]); (KindFault, ["calls"; "operation"]); (KindModel, ["calls"; "provider"; "model"]);
 (KindToolResponse, ["call"; "status"; "body"])].

(** [rejectNulls]: the bodies of interventions may hold nulls. *)
Fixpoint rejectNulls (n : ynode) (path : string) : res err unit :=
match n with
| YNode ScalarNode tag value _ =>
rassert (negb (str_eqb tag "!!null" || str_eqb tag "!!str" && str_eqb value "")) (ErrText (path +:+ " must not contain empty or null values"))
| YNode MappingNode _ _ content =>
(fix pairs l := match l with
              | key :: value :: l' =>
                  try* _ := (if str_eqb path "interventions file.interventions[]" && str_eqb (node_value key) "body" then Ok tt
                             else rejectNulls value (path +:+ "." +:+ node_value key)) in pairs l'
              | _ => Ok tt
              end) content
| YNode SequenceNode _ _ content =>
(fix items l := match l with
              | item :: l' => try* _ := rejectNulls item (path +:+ "[]") in items l'
              | [] => Ok tt
              end) content
| _ => Ok tt
end.
(** The keys and values of a mapping; a key without a value is passed over. *)
Fixpoint node_pairs (l : list ynode) : list (string * ynode) := match l with key :: value :: rest => (node_value key, value) :: node_pairs rest | _ => [] end.
Definition status_is_integer (item : ynode) : res err unit :=
if is_mapping item then
rfor (node_pairs (node_content item)) (fun kv => rassert (negb (str_eqb kv.1 "status" && negb (str_eqb (node_tag kv.2) "!!int"))) (ErrText "intervention status must be an integer"))
else Ok tt.
Definition check_root (root : ynode) : res err unit :=
rfor (node_pairs (node_content root)) (fun kv =>
try* _ := rassert (negb (str_eqb kv.1 "version" && negb (str_eqb (node_tag kv.2) "!!int"))) (ErrText "interventions version must be an integer") in
if str_eqb kv.1 "interventions" && bool_decide (node_kind kv.2 = SequenceNode) then rfor (node_content kv.2) status_is_integer else Ok tt).

Section Normalize.
Context `{!SqlBind, !YamlNodes, !SpecYaml, !WorldYaml, !AuthzPolicy.PolicyYaml, !ChaosPolicy.ChaosYaml, !InterventionYaml}.

(** [bodyValue]: numbers keep their text. *)
Fixpoint bodyValue (n : bnode) : res err goval :=
match n with
| BNode AliasNode _ _ _ (Some target) => bodyValue target
| BNode MappingNode _ _ content _ =>
(fix pairs l (value : list (string * goval)) : res err goval :=
 match l with
 | BNode kind tag key _ _ :: item :: l' =>
     try* _ := rassert (bool_decide (kind = ScalarNode) && str_eqb tag "!!str") (ErrText "body keys must be strings") in
     try* v := bodyValue item in pairs l' (map_set value key v)
 | _ => Ok (VMap value)
 end) content []
| BNode SequenceNode _ _ content _ =>
(fix items l (value : list goval) : res err goval :=
 match l with
 | item :: l' => try* v := bodyValue item in items l' (value ++ [v])
 | [] => Ok (VSlice value)
 end) content []
| BNode ScalarNode tag value _ _ =>
if str_eqb tag "!!null" then Ok VNil
else if str_eqb tag "!!bool" then try* b := decode_bool_node n in Ok (VBool b)
else if contains ["!!int"; "!!float"] tag then
if json_valid value then Ok (VNumber value) else Err (ErrText ("body number " +:+ quote value +:+ " is not a JSON number"))
else if contains ["!!str"; "!!timestamp"] tag then Ok (VString value)
else Err (ErrText ("unsupported body value with tag " +:+ tag))
| BNode _ tag _ _ _ => Err (ErrText ("unsupported body value with tag " +:+ tag))
end.

(** The fields an intervention sets, in the order they are checked. *)
Definition present (e : rawIntervention) : list string :=
let set (name : string) (b : bool) := if b then [name] else [] in
set "calls" (negb (bool_decide (ri_calls e = None))) ++ set "policy" (match ri_policy e with Some _ => true | None => false end)
++ set "operation" (negb (bool_decide (ri_operation e = None))) ++ set "provider" (given (ri_provider e)) ++ set "model" (given (ri_model e)) ++ set "call" (given (ri_call e))
++ set "status" (negb (bool_decide (ri_status e = None))) ++ set "body" (match ri_body e with Some _ => true | None => false end).
(** The first text that is listed twice. *)
Fixpoint listed_twice (seen l : list string) : option string :=
match l with [] => None | x :: l' => if contains seen x then Some x else listed_twice (x :: seen) l' end.
Definition normal_calls (calls : option (list string)) : res err unit :=
match calls with
| None => Ok tt
| Some [] => Err (ErrText "calls must not be empty")
| Some l => match listed_twice [] l with Some call => Err (ErrText ("duplicate call " +:+ quote call)) | None => Ok tt end
end.
(** The cases of [normalize]'s [switch]. *)
Definition normal_policy (manifest : Manifest) (e : rawIntervention) : res err Intervention :=
try* policy := rsome (ri_policy e) (ErrText ("kind " +:+ ri_kind e +:+ " requires policy")) in
try* _ := rassert (is_mapping policy) (ErrText "policy must be a mapping") in
try* raw := encode_node policy in
try* canonical := (if str_eqb (ri_kind e) KindChaosPolicy then try* p := ChaosPolicy.Parse raw manifest in rsome (Chaos.CanonicalJSON p) json_error
             else try* p := AuthzPolicy.Parse raw manifest in rsome (Authz.CanonicalJSON p) json_error) in
Ok (MkIntervention (ri_id e) (ri_kind e) (ri_calls e) canonical None "" "" "" 0 "" raw).
Definition normal_fault (manifest : Manifest) (e : rawIntervention) : res err Intervention :=
try* _ := match ri_operation e with
    | Some operation => rassert (negb (bool_decide (find_operation manifest operation = None))) (ErrText ("unknown fault operation " +:+ quote operation))
    | None => Ok tt
    end in
Ok (MkIntervention (ri_id e) (ri_kind e) (ri_calls e) "" (ri_operation e) "" "" "" 0 "" "").
Definition normal_model (e : rawIntervention) : res err Intervention :=
try* _ := rassert (given (ri_model e)) (ErrText "kind model requires model") in
Ok (MkIntervention (ri_id e) (ri_kind e) (ri_calls e) "" None (ri_provider e) (ri_model e) "" 0 "" "").
Definition normal_response (e : rawIntervention) : res err Intervention :=
try* _ := rassert (given (ri_call e)) (ErrText "kind tool_response requires call") in
try* status := rsome (ri_status e) (ErrText "kind tool_response requires status") in
try* _ := rassert (negb (negb (status =? 0) && ((status <? 100) || (599 <? status)))) (ErrText ("status " +:+ itoa status +:+ " must be 0 or 100 to 599")) in
try* node := rsome (ri_body e) (ErrText "kind tool_response requires body") in
try* value := bodyValue node in
try* body := rwrap (ErrWrap "body: ") (rsome (marshal value) json_error) in
Ok (MkIntervention (ri_id e) (ri_kind e) (ri_calls e) "" None "" "" (ri_call e) status body "").
(** [normalize] *)
Definition normalize (manifest : Manifest) (e : rawIntervention) : res err Intervention :=
try* allowed := rsome (alookup fields (ri_kind e)) (ErrText ("unsupported kind " +:+ quote (ri_kind e))) in
try* _ := rfor (present e) (fun field => rassert (contains allowed field) (ErrText ("kind " +:+ ri_kind e +:+ " does not accept " +:+ field))) in
try* _ := normal_calls (ri_calls e) in
if contains [KindChaosPolicy; KindAuthPolicy] (ri_kind e) then normal_policy manifest e
else if str_eqb (ri_kind e) KindFault then normal_fault manifest e
else if str_eqb (ri_kind e) KindModel then normal_model e
else normal_response e.
(** [Parse] *)
Definition parse_intervention (manifest : Manifest) (seen : list Intervention) (e : rawIntervention) : res err (list Intervention) :=
try* _ := rassert (validWorldIdentifier (ri_id e) && negb (contains (map iv_ID seen) (ri_id e))) (ErrText ("invalid or duplicate intervention id " +:+ quote (ri_id e))) in
try* intervention := rwrap (ErrWrap ("intervention " +:+ ri_id e +:+ ": ")) (normalize manifest e) in
Ok (seen ++ [intervention]).
Definition check_interventions (manifest : Manifest) (input : rawInterventions) : res err ISet :=
try* _ := rassert (ris_version input =? 1) (ErrText ("unsupported interventions version " +:+ itoa (ris_version input))) in
try* _ := rassert (match ris_interventions input with [] => false | _ => true end) (ErrText "interventions file requires at least one intervention") in
try* interventions := rfold (parse_intervention manifest) [] (ris_interventions input) in
Ok (MkISet interventions manifest).
Definition Parse (raw : string) (manifest : Manifest) : res err ISet :=
try* _ := rwrap (ErrWrap "manifest: ") (ValidateManifest manifest) in
try* node := rwrap (ErrWrap "interventions YAML: ") (unmarshal_node raw) in
try* root := match node_content node with
       | [root] => if is_mapping root then Ok root else Err (ErrText "interventions file must be a mapping")
       | _ => Err (ErrText "interventions file must be a mapping")
       end in
try* _ := check_root root in
try* _ := rejectNulls root "interventions file" in
try* input := decode_only "interventions YAML: " "interventions file has multiple YAML documents" decode_interventions raw in
check_interventions manifest input.
End Normalize.

(** [Set.Digest] *)
Definition omit_raw (key text : string) : list (string * goval) := if str_eqb text "" then [] else [(key, VRaw text)].
Definition intervention_value (i : Intervention) : goval :=
VStruct ([("id", VString (iv_ID i)); ("kind", VString (iv_Kind i))]
++ match iv_Calls i with Some (_ :: _ as l) => [("calls", VSlice (map VString l))] | _ => [] end ++ omit_raw "policy" (iv_Policy i)
++ match iv_Operation i with Some o => [("operation", VString o)] | None => [] end
++ Assertion.omit_text "provider" (iv_Provider i) ++ Assertion.omit_text "model" (iv_Model i) ++ Assertion.omit_text "call" (iv_Call i)
++ (if iv_Status i =? 0 then [] else [("status", VInt (iv_Status i))]) ++ omit_raw "body" (iv_Body i)).
Definition Digest (t : ISet) : string :=
match marshal (VStruct [("manifest", VString (mf_digest (is_manifest t))); ("interventions", VSlice (map intervention_value (is_interventions t)))]) with
| Some encoded => digest_hex encoded
| None => ""
end.

(** ** Judges (judge.go) *)

Record Judge := MkJudge { jd_Name : string; jd_Digest : string; jd_check : option (DB -> string -> RunRow -> res err (bool * list string)) }.
Definition AssertionJudge (t : Assertion.Set_) : Judge :=
MkJudge "assertions" (Assertion.Digest t) (Some (fun s runID _ =>
try* report := Assertion.Check runID t s in
Ok (Assertion.re_passed report, map Assertion.rt_id (List.filter (fun r => negb (Assertion.rt_passed r)) (Assertion.re_results report))))).
Definition ScenarioJudge : Judge :=
MkJudge "scenario_evaluation" "" (Some (fun s _ run =>
try* report := Eval.Evaluate s (run_world_id run) (run_scenario run) in
Ok (Eval.rp_passed report, map Eval.ck_name (List.filter (fun c => negb (Eval.ck_passed c)) (Eval.rp_checks report))))).

(** ** Planning forks (analyze.go) *)

Definition method : string :=
"intervention analysis: each fork changes one controlled variable at one checkpoint and is executed and judged independently; counts are counterfactual sensitivity over the forks run, not formal causal inference".
(** [Failure], [Outcome], [Candidate], [Report] *)
Record Failure := MkFailure { fl_Judge : string; fl_Digest : string; fl_Failed : list string }.
Record Outcome := MkOutcome { oc_RunID : string; oc_Status : string; oc_Passed : option bool; oc_Failed : list string; oc_Error : string }.
Record Candidate := MkCandidate {
ca_EventSeq : Z; ca_EventType : string; ca_Label : string; ca_CallID : string; ca_OperationID : string; ca_Intervention : string; ca_Kind : string;
ca_CheckpointSeq : Z; ca_Forks : Z; ca_Changed : Z; ca_Errored : Z; ca_Incomplete : Z; ca_Summary : string; ca_Evidence : list Outcome }.
Record Report := MkReport {
cr_RunID : string; cr_Method : string; cr_Failure : Failure; cr_Interventions : string; cr_Trials : Z; cr_Candidates : list Candidate }.
(** [call]; a position that is missing is 0. *)
Record call := MkCall { cl_id : string; cl_operation : string; cl_request : Z; cl_response : Z; cl_decision : Z }.

(** [discoverCalls]: the calls so far, and the one whose decision is next; a
response without a call would index an empty list. *)
Definition no_call : err := ErrText "runtime error: index out of range [-1]".
Definition with_response (seq : Z) (c : call) : call := MkCall (cl_id c) (cl_operation c) (cl_request c) seq (cl_decision c).
Definition with_decision (seq : Z) (c : call) : call := MkCall (cl_id c) (cl_operation c) (cl_request c) (cl_response c) seq.
Definition discover (st : list call * option nat) (e : Event) : res err (list call * option nat) :=
let '(calls, decisionFor) := st in
if str_eqb (e_type e) "tool.request" then
try* '(id, operation) := rsome (call_named e) json_error in Ok (calls ++ [MkCall id operation (e_seq e) 0 0], None)
else if str_eqb (e_type e) "tool.response" then
match calls with
| [] => Err no_call
| _ => Ok (alter (with_response (e_seq e)) (length calls - 1)%nat calls, Some (length calls - 1)%nat)
end
else if str_eqb (e_type e) "model.response" then
Ok (match decisionFor with Some i => alter (with_decision (e_seq e)) i calls | None => calls end, None)
else Ok st.
Definition discoverCalls (events : list Event) : res err (list call) := try* '(calls, _) := rfold discover ([], None) events in Ok calls.
(** [byID]: a repeated id keeps its last call. *)
Definition call_by_id (calls : list call) (id : string) : option call := last (List.filter (fun c => str_eqb (cl_id c) id) calls).

Section Analysis.
Context `{!SqlBind, !YamlNodes, !SpecYaml, !WorldYaml, !AuthzPolicy.PolicyYaml, !ChaosPolicy.ChaosYaml}.
(** What selects a provider, what it answers, and [reflect.DeepEqual] of two.
A provider may keep a state: its answers are numbered through the whole
analysis. *)
Context {P : Type} (answers : P -> Provider) (same_provider : P -> P -> bool).
(** [Options], [plan], [Analysis] *)
Record Options := MkOptions { op_Trials : Z; op_Steps : Z; op_ProviderFor : option (string -> string -> string -> res err P) }.
Record plan := MkPlan { pl_candidate : Candidate; pl_checkpoint : Checkpoint; pl_options : Fork.Options; pl_provider : P }.
Record Analysis := MkAnalysis { an_header : Report; an_plans : list plan; an_manifest : Manifest; an_judge : Judge; an_options : Options }.

Section Plan.
Context (source : DB) (parentID : string) (parent : RunRow) (manifest : Manifest) (providerFor : string -> string -> string -> res err P).
Definition of_intervention (i : Intervention) (text : string) : err := ErrText ("intervention " +:+ iv_ID i +:+ text).
(** The calls an intervention is tried at. *)
Definition named_calls (i : Intervention) : option (list string) := if str_eqb (iv_Kind i) KindToolResponse then Some [iv_Call i] else iv_Calls i.
Definition targets (calls : list call) (i : Intervention) : res err (list call) :=
match named_calls i with
| None => Ok calls
| Some ids => rmap (fun id => rsome (call_by_id calls id) (of_intervention i (": run " +:+ parentID +:+ " has no call " +:+ id))) ids
end.
(** The one option an intervention sets. *)
Definition no_options : Fork.Options := Fork.MkOptions "" "" None "" "" None.
Definition fork_options (i : Intervention) : res err Fork.Options :=
let kind := iv_Kind i in
if str_eqb kind KindChaosPolicy then Ok (Fork.MkOptions "" "" None (iv_policyRaw i) "" None)
else if str_eqb kind KindAuthPolicy then Ok (Fork.MkOptions "" "" None "" (iv_policyRaw i) None)
else if str_eqb kind KindFault then
let operation := default "" (iv_Operation i) in
try* _ := rassert (negb (str_eqb operation (run_fault_operation parent))) (of_intervention i " does not change the run's legacy fault") in
Ok (Fork.MkOptions "" "" (Some operation) "" "" None)
else if str_eqb kind KindModel then Ok (Fork.MkOptions (iv_Provider i) (iv_Model i) None "" "" None)
else if str_eqb kind KindToolResponse then Ok (Fork.MkOptions "" "" None "" "" (Some (MkObservation (iv_Call i) (iv_Status i) (iv_Body i))))
else Ok no_options.
(** [unchangedProvider] *)
Definition unchangedProvider (provider model : string) (selected : P) : bool :=
(str_eqb provider (run_provider parent) && str_eqb model (run_model parent))
|| match providerFor (run_provider parent) (run_model parent) (run_scenario parent) with Ok original => same_provider original selected | Err _ => false end.
(** One candidate event of an intervention; [None] skips it. *)
Definition candidate_at (i : Intervention) (c : call) : res err (option Candidate) :=
let make (seq : Z) (typ label : string) (checkpointSeq : Z) :=
MkCandidate seq typ label (cl_id c) (cl_operation c) (iv_ID i) (iv_Kind i) checkpointSeq 0 0 0 0 "" [] in
if str_eqb (iv_Kind i) KindModel then
if cl_decision c =? 0 then
match named_calls i with
| Some _ => Err (of_intervention i (": no model decision follows call " +:+ cl_id c))
| None => Ok None
end
else Ok (Some (make (cl_decision c) "model.response" ("model decision after " +:+ cl_operation c) (cl_response c)))
else if str_eqb (iv_Kind i) KindToolResponse then Ok (Some (make (cl_response c) "tool.response" (cl_operation c +:+ " observation") (cl_response c)))
else Ok (Some (make (cl_request c) "tool.request" (cl_operation c +:+ " dispatch") (cl_request c - 1))).
Definition plan_target (points : list Checkpoint) (i : Intervention) (forkOptions : Fork.Options) (provider : P) (plans : list plan) (c : call) : res err (list plan) :=
try* candidate := candidate_at i c in
match candidate with
| None => Ok plans
| Some candidate =>
try* selected := rwrap (ErrWrap ("intervention " +:+ iv_ID i +:+ ": ")) (Select points (ca_CheckpointSeq candidate)) in
Ok (plans ++ [MkPlan candidate selected forkOptions provider])
end.
(** One intervention of [planForks]'s loop. *)
Definition plan_intervention (calls : list call) (points : list Checkpoint) (plans : list plan) (i : Intervention) : res err (list plan) :=
try* chosen_calls := targets calls i in
try* _ := rassert (negb (str_eqb (iv_Kind i) KindFault && is_ok (ChaosPolicy parentID source)))
      (of_intervention i ": a legacy fault cannot be combined with the run's chaos policy") in
try* _ := rassert (negb (str_eqb (iv_Kind i) KindChaosPolicy && given (run_fault_operation parent)))
      (of_intervention i ": a chaos policy would also clear the run's legacy fault; use one variable per intervention") in
try* forkOptions := fork_options i in
try* _ := rwrap (ErrWrap ("intervention " +:+ iv_ID i +:+ ": ")) (ValidateOptions parent manifest forkOptions) in
let providerName := chosen (Fork.op_Provider forkOptions) (run_provider parent) in
let model := chosen (Fork.op_Model forkOptions) (run_model parent) in
try* provider := rwrap (ErrWrap ("intervention " +:+ iv_ID i +:+ ": ")) (providerFor providerName model (run_scenario parent)) in
try* _ := rassert (negb (str_eqb (iv_Kind i) KindModel && unchangedProvider providerName model provider))
      (of_intervention i " does not change the run's provider behavior") in
rfold (plan_target points i forkOptions provider) plans chosen_calls.
(** [planForks] *)
Definition planForks (interventions : list Intervention) (calls : list call) (points : list Checkpoint) : res err (list plan) :=
try* plans := rfold (plan_intervention calls points) [] interventions in
try* _ := rassert (match plans with [] => false | _ => true end) (ErrText ("interventions produced no candidate events in run " +:+ parentID)) in
Ok plans.
End Plan.

(** [Prepare] *)
Definition Prepare (source : DB) (runID : string) (manifest : Manifest) (t : ISet) (judge : Judge) (options : Options) : res err Analysis :=
try* _ := rassert (match is_interventions t with [] => false | _ => true end && str_eqb (mf_digest (is_manifest t)) (mf_digest manifest))
      (ErrText "intervention set was not parsed for this manifest") in
try* check := rsome (jd_check judge) (ErrText "judge is required") in
try* providerFor := rsome (if (1 <=? op_Trials options) && (op_Trials options <=? 100) && (1 <=? op_Steps options) then op_ProviderFor options else None)
                (ErrText "counterfactual analysis requires 1 to 100 trials, positive steps, and a provider source") in
try* parent := rsome (runs source !! runID) ErrNoRows in
try* _ := rassert (str_eqb (run_status parent) "completed") (ErrText ("run " +:+ runID +:+ " is " +:+ run_status parent +:+ "; counterfactual analysis requires a completed run")) in
try* _ := rassert (negb (is_ok (Lineage runID source))) (ErrText ("run " +:+ runID +:+ " is a fork; counterfactual analysis requires a root run")) in
try* points := List source runID manifest in
let events := Events runID source in
try* '(passed, failed) := check source runID parent in
try* _ := rassert (negb passed) (ErrText ("run " +:+ runID +:+ " passes its " +:+ jd_Name judge +:+ "; counterfactual analysis explains failures")) in
try* calls := discoverCalls events in
try* plans := planForks source runID parent manifest providerFor (is_interventions t) calls points in
Ok (MkAnalysis (MkReport runID method (MkFailure (jd_Name judge) (jd_Digest judge) failed) (Digest t) (op_Trials options) []) plans manifest judge options).

(** ** Running them *)

Section Run.
(** What differs from fork to fork: the random names, the clock of the store
the prefix is executed in; and fuel for the draw of a seed and for an
execution. *)
Context (err_text : err -> string) (randomWorld randomRun : nat -> res err (list Z)) (clock : nat -> time) (fuel rounds : nat).
Context (manifest : Manifest) (judge : Judge) (steps : Z).

Definition fork_runner (provider : P) : Runner := MkRunner (dispatcher manifest) manifest (Some (answers provider)) None None None (fun _ => None).
(** What becomes of a child's execution. *)
Definition judged (childID : string) (executed : res err RunRow) (s : DB) : res err Outcome :=
match executed with
| Err e => Ok (MkOutcome childID "failed" None [] (err_text e))
| Ok child =>
if negb (str_eqb (run_status child) "completed") then Ok (MkOutcome childID (run_status child) None [] "")
else match jd_check judge with
   | Some check => try* '(passed, failed) := check s childID child in Ok (MkOutcome childID (run_status child) (Some passed) failed "")
   | None => Err (ErrText "runtime error: invalid memory address or nil pointer dereference")
   end
end.
(** [runFork], the [n]-th of the analysis; [None] is fuel running out. *)
Definition runFork (n : nat) (p : plan) (x : Exec) : option (res err Outcome * Exec) :=
match Fork.Create (pl_checkpoint p) manifest (pl_options p) (ex_db x) fuel (clock n) (randomWorld n) (randomRun n) with
| None => None
| Some create =>
match create (ex_db x) with
| (Err e, s) =>
  Some (Err (ErrWrap ("intervention " +:+ ca_Intervention (pl_candidate p) +:+ " at event " +:+ itoa (ca_EventSeq (pl_candidate p)) +:+ ": ") e),
        MkExec s (ex_accesses x) (ex_calls x))
| (Ok created, s) =>
  (fun out => (judged (rs_run_id created) out.1 (ex_db out.2), out.2))
    <$> Execute (fun _ s => s) err_text (fork_runner (pl_provider p)) rounds (rs_run_id created) steps (MkExec s (ex_accesses x) (ex_calls x))
end
end.
(** A candidate with one outcome more. *)
Definition tally (c : Candidate) (o : Outcome) : Candidate :=
let errored := negb (str_eqb (oc_Error o) "") in
let bump (b : bool) (n : Z) := if b then n + 1 else n in
MkCandidate (ca_EventSeq c) (ca_EventType c) (ca_Label c) (ca_CallID c) (ca_OperationID c) (ca_Intervention c) (ca_Kind c) (ca_CheckpointSeq c)
(ca_Forks c + 1) (bump (negb errored && bool_decide (oc_Passed o = Some true)) (ca_Changed c)) (bump errored (ca_Errored c))
(bump (negb errored && bool_decide (oc_Passed o = None)) (ca_Incomplete c)) (ca_Summary c) (ca_Evidence c ++ [o]).
(** [summarize] *)
Definition summarize (c : Candidate) : string :=
let head := "#" +:+ itoa (ca_EventSeq c) +:+ " " +:+ ca_Label c +:+ " [" +:+ ca_Intervention c +:+ "]" in
let text := if 0 <? ca_Changed c then head +:+ ": corrected the final outcome in " +:+ itoa (ca_Changed c) +:+ "/" +:+ itoa (ca_Forks c) +:+ " forks"
      else head +:+ ": no material effect (0/" +:+ itoa (ca_Forks c) +:+ " forks corrected the outcome)" in
if (0 <? ca_Errored c) || (0 <? ca_Incomplete c) then text +:+ "; " +:+ itoa (ca_Errored c) +:+ " errored, " +:+ itoa (ca_Incomplete c) +:+ " did not complete" else text.
Definition with_summary (c : Candidate) : Candidate :=
MkCandidate (ca_EventSeq c) (ca_EventType c) (ca_Label c) (ca_CallID c) (ca_OperationID c) (ca_Intervention c) (ca_Kind c) (ca_CheckpointSeq c)
(ca_Forks c) (ca_Changed c) (ca_Errored c) (ca_Incomplete c) (summarize c) (ca_Evidence c).
(** The loop over the trials of a plan, and over the plans; [n] counts the
forks. *)
Fixpoint run_trials (trials n : nat) (p : plan) (c : Candidate) (x : Exec) : option (res err Candidate * Exec) :=
match trials with
| O => Some (Ok c, x)
| S trials' =>
match runFork n p x with
| None => None
| Some (Err e, x') => Some (Err e, x')
| Some (Ok outcome, x') => run_trials trials' (S n) p (tally c outcome) x'
end
end.
Fixpoint run_plans (trials n : nat) (plans : list plan) (done_ : list Candidate) (x : Exec) : option (res err (list Candidate) * Exec) :=
match plans with
| [] => Some (Ok done_, x)
| p :: plans' =>
match run_trials trials n p (pl_candidate p) x with
| None => None
| Some (Err e, x') => Some (Err e, x')
| Some (Ok c, x') => run_plans trials (n + trials) plans' (done_ ++ [with_summary c]) x'
end
end.
End Run.

(** The order of the candidates, and the stable sort by it. *)
Definition ranks_before (x y : Candidate) : bool :=
if negb (ca_Changed x * ca_Forks y =? ca_Changed y * ca_Forks x) then ca_Changed y * ca_Forks x <? ca_Changed x * ca_Forks y
else if negb (ca_Changed x =? ca_Changed y) then ca_Changed y <? ca_Changed x
else if negb (ca_EventSeq x =? ca_EventSeq y) then ca_EventSeq x <? ca_EventSeq y
else str_ltb (ca_Intervention x) (ca_Intervention y).
Fixpoint insert_ranked (c : Candidate) (l : list Candidate) : list Candidate :=
match l with [] => [c] | d :: l' => if ranks_before d c then d :: insert_ranked c l' else c :: d :: l' end.
Definition ranked (l : list Candidate) : list Candidate := foldr insert_ranked [] l.
Definition with_candidates (r : Report) (l : list Candidate) : Report :=
MkReport (cr_RunID r) (cr_Method r) (cr_Failure r) (cr_Interventions r) (cr_Trials r) l.
(** [Analysis.Run] *)
Definition Run_ (err_text : err -> string) (randomWorld randomRun : nat -> res err (list Z)) (clock : nat -> time) (fuel rounds : nat) (a : Analysis) (x : Exec) : option (res err Report * Exec) :=
(fun out => (try* candidates := out.1 in Ok (with_candidates (an_header a) (ranked candidates)), out.2))
<$> run_plans err_text randomWorld randomRun clock fuel rounds (an_manifest a) (an_judge a) (op_Steps (an_options a)) (Z.to_nat (op_Trials (an_options a))) 0 (an_plans a) [] x.
(** [Analyze]; nothing else works on the database meanwhile. *)
Definition Analyze (err_text : err -> string) (randomWorld randomRun : nat -> res err (list Z)) (clock : nat -> time) (fuel rounds : nat)
(runID : string) (manifest : Manifest) (t : ISet) (judge : Judge) (options : Options) (s : DB) : option (res err Report * DB) :=
match Prepare s runID manifest t judge options with
| Err e => Some (Err e, s)
| Ok a => (fun out => (out.1, ex_db out.2)) <$> Run_ err_text randomWorld randomRun clock fuel rounds a (MkExec s 0 0)
end.
End Analysis.
End Counterfactual.
