(* ===== verification/CounterfactualFacts.v ===== *)
(** * What a counterfactual analysis establishes (internal/counterfactual/)

    The ranking is the sort by effect and the counts are those of the evidence;
    the evidence is made of forks of the run at the candidate's checkpoint, judged
    as they are in the end; and the analysis leaves every run and world that was
    there as it was. *)

From S2P Require Export Counterfactual Isolation.
Open Scope Z_scope.
Open Scope tx_scope.

Module CounterfactualFacts.
Import Runs Checkpoint Reconstruct Fork ForkFacts Counterfactual Isolation.

(** ** Ranking *)

(** With as many forks each, candidates rank by their effect, the position of
the event and the name of the intervention, in this order. *)
Definition rank_key (x : Candidate) : Z * Z * string := (- ca_Changed x, ca_EventSeq x, ca_Intervention x).
Definition key_before (a b : Z * Z * string) : bool :=
(a.1.1 <? b.1.1) || (a.1.1 =? b.1.1) && ((a.1.2 <? b.1.2) || (a.1.2 =? b.1.2) && str_ltb a.2 b.2).
Lemma ranks_before_key trials x y : 0 < trials -> ca_Forks x = trials -> ca_Forks y = trials -> ranks_before x y = key_before (rank_key x) (rank_key y).
Proof.
intros Ht Hx Hy. unfold ranks_before, key_before, rank_key. cbn [fst snd]. rewrite Hx, Hy.
destruct (Z.eqb_spec (ca_Changed x * trials) (ca_Changed y * trials)) as [E|E]; cbn [negb].
- assert (E' : ca_Changed x = ca_Changed y) by nia. rewrite E', Z.eqb_refl, Z.ltb_irrefl, Z.eqb_refl. cbn.
destruct (Z.eqb_spec (ca_EventSeq x) (ca_EventSeq y)) as [E2|E2]; cbn.
+ by rewrite E2, !Z.ltb_irrefl.
+ by rewrite Z.ltb_irrefl, orb_false_r.
- destruct (Z.ltb_spec (ca_Changed y * trials) (ca_Changed x * trials)), (Z.ltb_spec (- ca_Changed x) (- ca_Changed y)); try done; try nia.
Qed.
(** Not ranking after is a total preorder. *)
Definition key_le_rank (a b : Z * Z * string) : Prop := key_before b a = false.
#[export] Instance key_le_trans : Transitive key_le_rank.
Proof.
intros [[a1 a2] a3] [[b1 b2] b3] [[c1 c2] c3]. unfold key_le_rank, key_before. cbn.
destruct (str_ltb b3 a3) eqn:E1, (str_ltb c3 b3) eqn:E2, (str_ltb c3 a3) eqn:E3;
try (exfalso; destruct (str_ltb b3 c3) eqn:E4; [pose proof (str_ltb_trans _ _ _ E4 E3); congruence|pose proof (ltb_neither _ _ E2 E4); congruence]);
repeat match goal with |- context [?x <? ?y] => destruct (Z.ltb_spec x y) | |- context [?x =? ?y] => destruct (Z.eqb_spec x y) end; cbn; intros; try done; try lia.
Qed.
Lemma key_before_asym a b : key_before a b = true -> key_before b a = false.
Proof.
unfold key_before. destruct a as [[a1 a2] a3], b as [[b1 b2] b3]. cbn. destruct (str_ltb a3 b3) eqn:E1, (str_ltb b3 a3) eqn:E2;
try (pose proof (str_ltb_trans _ _ _ E1 E2) as E3; by rewrite str_ltb_irrefl in E3);
repeat match goal with |- context [?x <? ?y] => destruct (Z.ltb_spec x y) | |- context [?x =? ?y] => destruct (Z.eqb_spec x y) end; cbn; intros; try done; try lia.
Qed.
Definition not_after (x y : Candidate) : Prop := ranks_before y x = false.
Lemma insert_ranked_perm c l : insert_ranked c l ≡ₚ c :: l.
Proof. induction l as [|d l IH]; cbn; [done|]. destruct (ranks_before d c); [|done]. rewrite IH. constructor. Qed.
Lemma ranked_perm l : ranked l ≡ₚ l.
Proof. induction l as [|c l IH]; [done|]. unfold ranked in *. cbn. by rewrite insert_ranked_perm, IH. Qed.
Lemma insert_ranked_sorted trials c l : 0 < trials -> Forall (fun x => ca_Forks x = trials) (c :: l) -> StronglySorted not_after l ->
StronglySorted not_after (insert_ranked c l).
Proof.
intros Ht. induction l as [|d l IH]; intros Hf Hs; cbn; [constructor; constructor|].
apply Forall_cons_1 in Hf as [Hc Hf]. apply Forall_cons_1 in Hf as [Hd Hf]. apply StronglySorted_inv in Hs as [Hs Hall].
assert (Hkey : forall x y, ca_Forks x = trials -> ca_Forks y = trials -> not_after x y <-> key_le_rank (rank_key x) (rank_key y)).
{ intros x y Hx Hy. unfold not_after, key_le_rank. by rewrite (ranks_before_key trials). }
destruct (ranks_before d c) eqn:E.
- constructor; [by apply IH; [constructor|]|]. rewrite insert_ranked_perm. constructor; [|done].
apply Hkey; [done..|]. rewrite (ranks_before_key trials) in E by done. by apply key_before_asym.
- constructor; [by constructor|]. constructor; [exact E|]. rewrite Forall_forall in *. intros x Hx. apply Hkey; [done|by apply Hf|].
etransitivity; [apply Hkey; [done|done|exact E]|]. apply Hkey; [done|by apply Hf|by apply Hall].
Qed.
Lemma ranked_sorted trials l : 0 < trials -> Forall (fun x => ca_Forks x = trials) l -> StronglySorted not_after (ranked l).
Proof.
intros Ht. induction l as [|c l IH]; intros Hf; [constructor|]. unfold ranked in *. cbn. apply (insert_ranked_sorted trials); [done| |by apply IH; inversion Hf].
apply Forall_cons_1 in Hf as [Hc Hf]. constructor; [done|]. change (foldr insert_ranked [] l) with (ranked l). by rewrite ranked_perm.
Qed.

(** ** Counting *)

(** What an outcome counts as. *)
Definition is_errored (o : Outcome) : bool := negb (str_eqb (oc_Error o) "").
Definition is_corrected (o : Outcome) : bool := negb (is_errored o) && bool_decide (oc_Passed o = Some true).
Definition is_incomplete (o : Outcome) : bool := negb (is_errored o) && bool_decide (oc_Passed o = None).
Definition count (f : Outcome -> bool) (l : list Outcome) : Z := Z.of_nat (length (List.filter f l)).
Record tallied (c : Candidate) : Prop := {
ta_forks : ca_Forks c = Z.of_nat (length (ca_Evidence c));
ta_changed : ca_Changed c = count is_corrected (ca_Evidence c);
ta_errored : ca_Errored c = count is_errored (ca_Evidence c);
ta_incomplete : ca_Incomplete c = count is_incomplete (ca_Evidence c) }.
Lemma count_snoc f l o : count f (l ++ [o]) = (if f o then count f l + 1 else count f l).
Proof. unfold count. rewrite List.filter_app, length_app. cbn. destruct (f o); cbn; lia. Qed.
Lemma tally_tallied c o : tallied c -> tallied (tally c o).
Proof. intros [H1 H2 H3 H4]. split; unfold tally; cbn; rewrite ?length_app, ?count_snoc; cbn; [lia|by rewrite <- H2|by rewrite <- H3|by rewrite <- H4]. Qed.
(** The kinds exclude each other. *)
Lemma tallied_bound c : tallied c -> 0 <= ca_Changed c /\ 0 <= ca_Errored c /\ 0 <= ca_Incomplete c /\ ca_Changed c + ca_Errored c + ca_Incomplete c <= ca_Forks c.
Proof.
intros [-> -> -> ->]. unfold count. split_and!; [lia..|]. induction (ca_Evidence c) as [|o l IH]; [done|]. cbn [List.filter length].
unfold is_corrected, is_incomplete in *. destruct (is_errored o), (oc_Passed o) as [[]|]; cbn [negb andb bool_decide length] in *; repeat case_bool_decide; cbn [length] in *; try done; lia.
Qed.
(** What a candidate is about, besides its counts and evidence. *)
Definition candidate_event (c : Candidate) :=
(ca_EventSeq c, ca_EventType c, ca_Label c, ca_CallID c, ca_OperationID c, ca_Intervention c, ca_Kind c, ca_CheckpointSeq c).
Definition untried (c : Candidate) : Prop := ca_Forks c = 0 /\ ca_Changed c = 0 /\ ca_Errored c = 0 /\ ca_Incomplete c = 0 /\ ca_Evidence c = [].
Lemma untried_tallied c : untried c -> tallied c.
Proof. intros (H1 & H2 & H3 & H4 & H5). split; by rewrite H5. Qed.

(** ** What is left as it was *)

(** The rows under the keys of [W]. *)
Definition agree {V} (W : string -> Prop) (m m' : gmap string V) : Prop := forall k, W k -> m' !! k = m !! k.
Definition agree_of {K V} `{Countable K} (W : string -> Prop) (m m' : gmap (string * K) V) : Prop := forall k i, W k -> m' !! (k, i) = m !! (k, i).
(** Nothing of the worlds [W] and the runs [R] changed. *)
Record unchanged (W R : string -> Prop) (s s' : DB) : Prop := {
uc_worlds : agree W (worlds s) (worlds s');
uc_billing : agree_of W (customers s) (customers s') /\ agree_of W (invoices s) (invoices s') /\ agree_of W (charges s) (charges s') /\
agree_of W (refunds s) (refunds s') /\ agree_of W (subscriptions s) (subscriptions s');
uc_crm : agree_of W (crm_accounts s) (crm_accounts s') /\ agree_of W (crm_contacts s) (crm_contacts s') /\ agree_of W (crm_notes s) (crm_notes s');
uc_tickets : agree_of W (ticket_projects s) (ticket_projects s') /\ agree_of W (ticket_issues s) (ticket_issues s') /\
agree_of W (ticket_comments s) (ticket_comments s');
uc_messages : agree_of W (message_workspaces s) (message_workspaces s') /\ agree_of W (message_channels s) (message_channels s') /\
agree_of W (message_messages s) (message_messages s');
uc_members : forall k c p, W k -> (k, c, p) ∈ message_members s' <-> (k, c, p) ∈ message_members s;
uc_runs : agree R (runs s) (runs s') /\ agree_of R (events s) (events s') /\ agree_of R (tool_results s) (tool_results s') /\ agree R (run_leases s) (run_leases s');
uc_chaos : agree R (run_chaos s) (run_chaos s') /\ agree_of R (chaos_rule_state s) (chaos_rule_state s') /\
agree_of R (chaos_hidden_outcomes s) (chaos_hidden_outcomes s') /\
forall r id d, R r -> chaos_snapshots s' !! (r, id, d) = chaos_snapshots s !! (r, id, d);
uc_auth : agree R (run_auth s) (run_auth s') /\ agree R (auth_state s) (auth_state s');
uc_forks : agree R (fork_lineage s) (fork_lineage s') /\ agree R (fork_observations s) (fork_observations s');
uc_checkpoints : checkpoints s ⊆ checkpoints s';
uc_rest : (wall s', work_queue s', workers s', run_ownership_log s') = (wall s, work_queue s, workers s, run_ownership_log s) }.
Lemma agree_weaken {V} (W W' : string -> Prop) (m m' : gmap string V) : (forall k, W' k -> W k) -> agree W m m' -> agree W' m m'.
Proof. intros Hw Hm k Hk. by apply Hm, Hw. Qed.
Lemma agree_of_weaken {K V} `{Countable K} (W W' : string -> Prop) (m m' : gmap (string * K) V) : (forall k, W' k -> W k) -> agree_of W m m' -> agree_of W' m m'.
Proof. intros Hw Hm k i Hk. by apply Hm, Hw. Qed.
#[export] Instance agree_preorder {V} W : PreOrder (agree (V:=V) W).
Proof. split; [by intros m k|]. intros m1 m2 m3 H12 H23 k Hk. by rewrite H23, H12. Qed.
#[export] Instance agree_of_preorder {K V} `{Countable K} W : PreOrder (agree_of (K:=K) (V:=V) W).
Proof. split; [by intros m k|]. intros m1 m2 m3 H12 H23 k i Hk. by rewrite H23, H12. Qed.
#[export] Instance unchanged_preorder W R : PreOrder (unchanged W R).
Proof.
split.
- intros s. split; split_and?; try reflexivity; done.
- intros s1 s2 s3 [A1 A2 A3 A4 A5 A6 A7 A8 A9 A10 A11 A12] [B1 B2 B3 B4 B5 B6 B7 B8 B9 B10 B11 B12].
split; destruct_and?; split_and?; try (etransitivity; eassumption).
+ intros k c p Hk. by rewrite B6, A6.
+ intros r id d Hr. match goal with H1 : forall _ _ _, _ -> chaos_snapshots s3 !! _ = _, H2 : forall _ _ _, _ -> chaos_snapshots s2 !! _ = _ |- _ => by rewrite H1, H2 end.
Qed.
Lemma unchanged_weaken (W W' R R' : string -> Prop) s s' : (forall k, W' k -> W k) -> (forall k, R' k -> R k) -> unchanged W R s s' -> unchanged W' R' s s'.
Proof.
intros Hw Hr [A1 A2 A3 A4 A5 A6 A7 A8 A9 A10 A11 A12]. destruct_and?.
split; split_and?; first [by eapply agree_weaken; eassumption | by eapply agree_of_weaken; eassumption | by auto].
Qed.
Lemma undisturbed_unchanged w r s s' : undisturbed w r s (set_run_leases (fun _ => run_leases s) s') -> kept r (run_leases s) (run_leases s') ->
unchanged (fun k => k <> w) (fun k => k <> r) s s'.
Proof.
intros [A1 A2 A3 A4 A5 A6 A7 [C1 C2 C3 C4] A9 A10 A11 A12] Hl. destruct_and?. split; split_and?; try done.
- injection A12 as -> -> -> ->. done.
Qed.

(** Every run and world there was is as it was, and no checkpoint is lost. *)
Definition intact (s s' : DB) : Prop := unchanged (fun w => is_Some (worlds s !! w)) (fun r => is_Some (runs s !! r)) s s'.
#[export] Instance intact_preorder : PreOrder intact.
Proof.
split; [intros s; unfold intact; reflexivity|]. intros s1 s2 s3 H12 H23. unfold intact. etransitivity; [exact H12|]. eapply unchanged_weaken; [| |exact H23].
- intros k Hk. cbn. by rewrite (uc_worlds _ _ _ _ H12 k Hk).
- intros k Hk. cbn. destruct (uc_runs _ _ _ _ H12) as [Hr _]. by rewrite (Hr k Hk).
Qed.
(** A fork and its execution. *)
Lemma forked_intact w r s s1 s2 : worlds s !! w = None -> runs s !! r = None -> undisturbed w r s s1 -> isolated w r s1 s2 -> intact s s2.
Proof.
intros Hw Hr Hf Hx. assert (Hl : run_leases s1 = run_leases s) by (pose proof (un_rest _ _ _ _ Hf) as He; by injection He).
assert (E : set_run_leases (fun _ => run_leases s) s1 = s1) by (rewrite <- Hl; by destruct s1).
apply (unchanged_weaken (fun k => k <> w) _ (fun k => k <> r)); [by intros k [? Hk] ->; congruence..|]. transitivity s1.
- apply undisturbed_unchanged; [by rewrite E|]. intros k _. by rewrite Hl.
- apply undisturbed_unchanged; apply Hx.
Qed.

(** ** The forks of an analysis *)

(** An execution that returns a run returns its row. *)
Lemma Execute_row `{binding : SqlBind} err_text r fuel runID maxSteps x row x' :
Execute (fun _ s => s) err_text r fuel runID maxSteps x = Some (Ok row, x') -> runs (ex_db x') !! runID = Some row.
Proof.
assert (Hread : forall y z, access (fun _ s => s) (Run runID) y = (Ok row, z) -> runs (ex_db z) !! runID = Some row).
{ intros y z. unfold access, Run. destruct (runs (ex_db y) !! runID) eqn:E; [|done]. intros [= <- <-]. exact E. }
assert (Hstop : forall status typ run y z, stop (fun _ s => s) r runID status typ run y = (Ok (Stop row), z) -> runs (ex_db z) !! runID = Some row).
{ intros status typ run y z. unfold stop, iobind. destruct (access _ (SaveStatusGuarded _ _ _ _ _ _) y) as [[u|e] y1]; [|done].
destruct (access _ (Run runID) y1) as [[final|e] y2] eqn:E; [|done]. intros [= -> <-]. by eapply Hread. }
assert (Hround : forall provider used y z, round (fun _ s => s) err_text r provider runID maxSteps used y = (Ok (Stop row), z) -> runs (ex_db z) !! runID = Some row).
{ intros provider used y z. unfold round, iobind at 1. destruct (access _ (Run runID) y) as [[run|e] y1] eqn:E; [|done].
destruct (str_eqb (run_status run) "completed"); [intros [= -> <-]; by eapply Hread|]. unfold iobind at 1, iolift. destruct (decode_history _) as [h|]; [|done].
destruct (pending h); [unfold iobind; by destruct (dispatch_call _ _ _ _ _ y1) as [[?|?] ?]|]. destruct (finished h).
- unfold iobind. destruct (fire _ _ _ _ y1) as [[?|?] ?]; [|done]. apply Hstop.
- destruct (maxSteps <=? used); [apply Hstop|]. unfold iobind. by destruct (model_turn _ _ _ _ _ _ _ y1) as [[?|?] ?]. }
unfold Execute. destruct (maxSteps <? 1); [done|]. destruct (rn_provider r) as [p|]; [|done]. generalize 0 as used. revert x.
induction fuel as [|fuel IH]; intros x used; cbn [execute_loop]; [done|].
destruct (round _ _ _ _ _ _ _ x) as [[[used'|run]|e] x1] eqn:Hr; [apply IH|intros [= -> ->]; by eapply Hround|done].
Qed.

Section Program.
Context `{binding : SqlBind, nodes : YamlNodes, spec_yaml : SpecYaml, world_yaml : WorldYaml, policy_yaml : AuthzPolicy.PolicyYaml, chaos_yaml : ChaosPolicy.ChaosYaml}.
Context {P : Type} (answers : P -> Provider) (same_provider : P -> P -> bool).
Context (err_text : err -> string) (randomWorld randomRun : nat -> res err (list Z)) (clock : nat -> time) (fuel rounds : nat).
Context (manifest : Manifest) (judge : Judge) (steps : Z).
Notation fork_of := (runFork answers err_text randomWorld randomRun clock fuel rounds manifest judge steps).
Notation trials_of := (run_trials answers err_text randomWorld randomRun clock fuel rounds manifest judge steps).
Notation plans_of := (run_plans answers err_text randomWorld randomRun clock fuel rounds manifest judge steps).

(** An outcome is evidence for a plan: its run is new and forked from the
plan's checkpoint, and its verdict is the judge's, of a completed run, on a
database that holds the run and its world as they are in the end. *)
Record evidence_of (p : plan (P := P)) (s0 s : DB) (o : Outcome) : Prop := {
ev_new : runs s0 !! oc_RunID o = None;
ev_lineage : exists l, fork_lineage s !! oc_RunID o = Some l /\ lin_parent_run_id l = cp_run_id (pl_checkpoint p) /\
lin_fork_event_seq l = cp_event_seq (pl_checkpoint p) /\ lin_prefix_digest l = cp_prefix_digest (pl_checkpoint p);
ev_verdict : exists row, runs s !! oc_RunID o = Some row /\ match oc_Passed o with
| Some passed => oc_Error o = "" /\ oc_Status o = "completed" /\ run_status row = "completed" /\
  exists check s1, jd_check judge = Some check /\ check s1 (oc_RunID o) row = Ok (passed, oc_Failed o) /\ intact s1 s
| None => oc_Failed o = [] /\ (oc_Status o = "failed" \/ oc_Status o = run_status row /\ run_status row <> "completed" /\ oc_Error o = "")
end }.
Lemma evidence_later p s0 s s' o : evidence_of p s0 s o -> intact s s' -> evidence_of p s0 s' o.
Proof.
intros [H1 (l & H2 & Hl) (row & H3 & Hv)] Hi. destruct (uc_runs _ _ _ _ Hi) as [Hr _], (uc_forks _ _ _ _ Hi) as [Hf _].
split; [done| |].
- exists l. split; [|done]. by rewrite Hf by (by exists row).
- exists row. split; [by rewrite Hr by (by exists row)|]. destruct (oc_Passed o); [|done]. destruct Hv as (E1 & E2 & E3 & check & s1 & E4 & E5 & E6).
do 3 (split; [done|]). exists check, s1. do 2 (split; [done|]). by etransitivity.
Qed.

Lemma runFork_ends n p x out x' : fork_of n p x = Some (out, x') -> intact (ex_db x) (ex_db x') /\
forall o, out = Ok o -> evidence_of p (ex_db x) (ex_db x') o.
Proof.
unfold runFork. destruct (Create _ _ _ _ _ _ _ _) as [create|] eqn:Hc; [|done]. destruct (create (ex_db x)) as [[created|e] s1] eqn:Hs; [|].
2:{ intros [= <- <-]. pose proof (Create_ends _ _ _ _ _ _ _ _ _ _ _ _ Hc Hs) as ->. split; [by cbn|done]. }
pose proof (Create_ends _ _ _ _ _ _ _ _ _ _ _ _ Hc Hs) as (pn & Hpl & Hu & Hf). intros ([executed x1] & He & Heq)%fmap_Some. cbn in Heq. injection Heq as -> ->.
destruct (fd_child _ _ _ _ _ _ _ Hf) as (Hid & _ & Hw), (fd_world _ _ _ _ _ _ _ Hf) as [Hnw _], (fd_run _ _ _ _ _ _ _ Hf) as [Hnr Hrow].
assert (Hx : isolated (w_id (rs_world created)) (rs_run_id created) s1 (ex_db x1)).
{ pose proof (execution_stays (fork_runner answers manifest (pl_provider p)) (rs_run_id created) (builtin_sound (dispatcher manifest) eq_refl) ltac:(done) ltac:(done)) as HR.
apply (Execute_along (fun _ s => s) err_text _ _ (stays (rs_run_id created)) HR) in He. apply He. cbn. rewrite Hid, Hrow. cbn.
rewrite (fd_fields _ _ _ _ _ _ _ Hf). cbn. by rewrite Hw. }
assert (Hi : intact (ex_db x) (ex_db x1)) by (eapply forked_intact; [| |exact Hu|exact Hx]; [by rewrite Hw|by rewrite Hid]).
split; [done|]. intros o Ho. cbn in Ho.
assert (Hoid : oc_RunID o = rs_run_id created).
{ unfold judged in Ho. destruct executed as [child|e]; [|by injection Ho as <-]. destruct (negb _); [by injection Ho as <-|].
destruct (jd_check judge); [|done]. apply rbind_ok in Ho as ([passed failed] & _ & [= <-]). done. }
split; [by rewrite Hoid, Hid| |].
- rewrite Hoid. pose proof (is_fixed _ _ _ _ Hx) as Hfix. unfold same, fixed in Hfix. injection Hfix; intros. exists (lineage_row (pl_checkpoint p) (pl_options p) pn).
rename select (fork_lineage _ = _) into E. rewrite E, Hid. split; [apply (fd_lineage _ _ _ _ _ _ _ Hf)|done].
- rewrite Hoid. destruct (runs (ex_db x1) !! rs_run_id created) as [row|] eqn:Er.
2:{ pose proof (is_world _ _ _ _ Hx) as Hiw. by rewrite Er, Hid, Hrow in Hiw. }
exists row. split; [done|]. unfold judged in Ho. destruct executed as [child|e]; [|injection Ho as <-; cbn; split; [done|by left]].
pose proof (Execute_row _ _ _ _ _ _ _ _ He) as Er'. rewrite Er in Er'. injection Er' as <-.
destruct (str_eqb (run_status row) "completed") eqn:Ec; cbn [negb] in Ho.
+ apply str_eqb_true in Ec. destruct (jd_check judge) as [check|] eqn:Ej; [|done]. apply rbind_ok in Ho as ([passed failed] & Hck & [= <-]).
cbn. split; [done|]. split; [done|]. split; [done|]. exists check, (ex_db x1). split; [done|]. split; [done|]. reflexivity.
+ injection Ho as <-. cbn. split; [done|]. right. apply str_eqb_false in Ec. done.
Qed.

(** *** The loops *)

(** A plan that has been tried [k] times, with the outcomes that came of it. *)
Record tried (p : plan (P := P)) (s0 s : DB) (c : Candidate) (k : nat) : Prop := {
td_event : candidate_event c = candidate_event (pl_candidate p);
td_count : length (ca_Evidence c) = k;
td_tallied : tallied c;
td_evidence : Forall (evidence_of p s0 s) (ca_Evidence c);
td_once : NoDup (map oc_RunID (ca_Evidence c)) }.
Lemma tried_later p s0 s s' c k : tried p s0 s c k -> intact s s' -> tried p s0 s' c k.
Proof. intros [H1 H2 H3 H4 H5] Hi. split; try done. eapply Forall_impl; [exact H4|]. intros o Ho. by eapply evidence_later. Qed.
Lemma evidence_present p s0 s o : evidence_of p s0 s o -> is_Some (runs s !! oc_RunID o).
Proof. intros [_ _ (row & Hr & _)]. by exists row. Qed.
Lemma evidence_earlier p s0 s s' o : intact s0 s -> evidence_of p s s' o -> evidence_of p s0 s' o.
Proof.
intros Hi [H1 H2 H3]. split; [|done..]. destruct (runs s0 !! oc_RunID o) as [row|] eqn:E; [|done]. destruct (uc_runs _ _ _ _ Hi) as [Hr _].
rewrite Hr, E in H1 by (by exists row). done.
Qed.
Lemma tried_step p s0 s s' c k o : intact s0 s -> tried p s0 s c k -> intact s s' -> evidence_of p s s' o -> tried p s0 s' (tally c o) (S k).
Proof.
intros H0 Ht Hi Ho. pose proof (tried_later _ _ _ _ _ _ Ht Hi) as [H1 H2 H3 H4 H5]. split.
- exact H1.
- cbn. rewrite length_app, H2. cbn. lia.
- by apply tally_tallied.
- cbn. apply Forall_app. split; [done|]. constructor; [by eapply evidence_earlier|constructor].
- cbn. rewrite map_app. apply NoDup_app. split; [done|]. split; [|cbn; constructor; [apply not_elem_of_nil|constructor]].
intros id (o' & -> & Hin)%list_elem_of_fmap Hid. apply list_elem_of_singleton in Hid. pose proof (td_evidence _ _ _ _ _ Ht) as He. rewrite Forall_forall in He.
apply He, evidence_present in Hin as [row Hrow]. pose proof (ev_new _ _ _ _ Ho) as Hn. rewrite <- Hid, Hrow in Hn. done.
Qed.
Lemma trials_ok trials n p c x s0 k out x' : intact s0 (ex_db x) -> tried p s0 (ex_db x) c k -> trials_of trials n p c x = Some (out, x') ->
intact s0 (ex_db x') /\ forall c', out = Ok c' -> tried p s0 (ex_db x') c' (k + trials).
Proof.
revert n c x k. induction trials as [|trials IH]; intros n c x k H0 Ht; cbn [run_trials].
- intros [= <- <-]. split; [done|]. intros c' [= <-]. by rewrite Nat.add_0_r.
- destruct (fork_of n p x) as [[[o|e] x1]|] eqn:Hf; [| |done].
+ destruct (runFork_ends _ _ _ _ _ Hf) as [Hi Ho]. intros Hr. replace (k + S trials)%nat with (S k + trials)%nat by lia.
eapply IH; [by etransitivity| |exact Hr]. eapply tried_step; [done|done|done|by apply Ho].
+ intros [= <- <-]. destruct (runFork_ends _ _ _ _ _ Hf) as [Hi _]. split; [by etransitivity|done].
Qed.
Lemma with_summary_tried p s0 s c k : tried p s0 s c k -> tried p s0 s (with_summary c) k.
Proof. intros [H1 H2 [T1 T2 T3 T4] H4 H5]. by split. Qed.
(** A plan and what is reported of it. *)
Definition reported (trials : nat) (s0 s : DB) (p : plan (P := P)) (c : Candidate) : Prop := tried p s0 s c trials /\ ca_Summary c = summarize c.
Lemma plans_ok trials plans n done_ x s0 tried_ out x' : intact s0 (ex_db x) -> Forall (fun p => untried (pl_candidate p)) plans ->
Forall2 (reported trials s0 (ex_db x)) tried_ done_ -> plans_of trials n plans done_ x = Some (out, x') ->
intact s0 (ex_db x') /\ forall cs, out = Ok cs -> Forall2 (reported trials s0 (ex_db x')) (tried_ ++ plans) cs.
Proof.
revert n done_ x tried_. induction plans as [|p plans IH]; intros n done_ x tried_ H0 Hp Hd; cbn [run_plans].
- intros [= <- <-]. split; [done|]. intros cs [= <-]. by rewrite app_nil_r.
- apply Forall_cons_1 in Hp as [Hu Hp]. destruct (trials_of trials n p (pl_candidate p) x) as [[[c|e] x1]|] eqn:Ht; [| |done].
2:{ intros [= <- <-]. split; [|done]. eapply (trials_ok _ _ _ _ _ _ 0) in Ht as [Hi _]; [done|done|]. destruct Hu as (? & ? & ? & ? & He).
  split; [done|by rewrite He|by apply untried_tallied|by rewrite He|rewrite He; constructor]. }
assert (Hi : intact (ex_db x) (ex_db x1) /\ tried p s0 (ex_db x1) c trials).
{ pose proof Ht as Ht'. assert (Hz : forall s, tried p s (ex_db x) (pl_candidate p) 0).
{ intros s. destruct Hu as (? & ? & ? & ? & He). split; [done|by rewrite He|by apply untried_tallied|by rewrite He|rewrite He; constructor]. }
eapply (trials_ok _ _ _ _ _ (ex_db x) 0) in Ht as [Hi _]; [|unfold intact; reflexivity|apply Hz].
eapply (trials_ok _ _ _ _ _ s0 0) in Ht' as [_ Hok]; [|done|apply Hz]. split; [done|]. by apply Hok. }
destruct Hi as [Hi Hc]. intros Hr. eapply (IH _ _ _ (tried_ ++ [p])) in Hr as [Hi' Hcs]; [|by etransitivity|done|].
+ split; [done|]. intros cs Hcs'. apply Hcs in Hcs'. by rewrite <- app_assoc in Hcs'.
+ apply Forall2_app; [|constructor; [|constructor]].
* eapply Forall2_impl; [exact Hd|]. intros q d [Hq Hs]. split; [by eapply tried_later|done].
* split; [by apply with_summary_tried|done].
Qed.
End Program.

(** ** Discovering the calls of a ledger *)

(** The event with a sequence number. *)
Definition event_at (events : list Event) (seq : Z) : option Event := if 1 <=? seq then events !! Z.to_nat (seq - 1) else None.
(** A call's positions in a ledger: its request, its response, and the model's
decision after it, when one follows. *)
Record call_in (events : list Event) (c : call) : Prop := {
ci_request : exists e, event_at events (cl_request c) = Some e /\ e_type e = "tool.request" /\ call_named e = Some (cl_id c, cl_operation c);
ci_response : exists e, event_at events (cl_response c) = Some e /\ e_type e = "tool.response" /\ call_named e = Some (cl_id c, cl_operation c) /\ cl_request c < cl_response c;
ci_decision : cl_decision c = 0 \/ exists e, event_at events (cl_decision c) = Some e /\ e_type e = "model.response" /\ cl_response c < cl_decision c }.
(** One whose response is still to come. *)
Definition call_open (events : list Event) (c : call) : Prop :=
(exists e, event_at events (cl_request c) = Some e /\ e_type e = "tool.request" /\ call_named e = Some (cl_id c, cl_operation c)) /\ cl_response c = 0 /\ cl_decision c = 0.
Lemma event_at_app events l seq e : event_at events seq = Some e -> event_at (events ++ l) seq = Some e.
Proof. unfold event_at. destruct (1 <=? seq); [|done]. apply lookup_app_l_Some. Qed.
Lemma event_at_last events e : event_at (events ++ [e]) (Z.of_nat (length events) + 1) = Some e.
Proof. unfold event_at. destruct (Z.leb_spec 1 (Z.of_nat (length events) + 1)); [|lia]. rewrite Z.add_simpl_r, Nat2Z.id. by apply list_lookup_middle. Qed.
Lemma event_at_bound events seq e : event_at events seq = Some e -> 1 <= seq <= Z.of_nat (length events).
Proof. unfold event_at. destruct (Z.leb_spec 1 seq); [|done]. intros Hl%lookup_lt_Some. lia. Qed.
Lemma call_in_app events l c : call_in events c -> call_in (events ++ l) c.
Proof.
intros [(e1 & H1 & ?) (e2 & H2 & ?) H3]. split.
- exists e1. by split; [apply event_at_app|].
- exists e2. by split; [apply event_at_app|].
- destruct H3 as [?|(e3 & H3 & ?)]; [by left|right]. exists e3. by split; [apply event_at_app|].
Qed.

(** What the scan checks of the tool events. *)
Lemma scan_tool run last i e st st' b : scan_type run last i e st = Ok (st', b) ->
if str_eqb (e_type e) "tool.request" then sc_toolOpen st = false /\ sc_toolOpen st' = true /\ call_named e = Some (sc_toolCallID st', sc_toolOperation st')
else if str_eqb (e_type e) "tool.response" then sc_toolOpen st = true /\ sc_toolOpen st' = false /\ call_named e = Some (sc_toolCallID st, sc_toolOperation st)
else (sc_toolOpen st', sc_toolCallID st', sc_toolOperation st') = (sc_toolOpen st, sc_toolCallID st, sc_toolOperation st) /\
 (e_type e = "model.response" -> sc_toolOpen st = false).
Proof.
unfold scan_type. intros Hs. cbv zeta in Hs. repeat match type of Hs with
| (if str_eqb ?a ?b then _ else _) = _ => let E := fresh "E" in destruct (str_eqb a b) eqn:E; [apply str_eqb_true in E; rewrite E in *; cbn in Hs|]
end; rewrite ?rassert_bind in Hs; cbn.
- destruct Hs as [_ Hs]. apply rbind_ok in Hs as (? & _ & [= <- <-]). done.
- by destruct Hs as [_ [= <- <-]].
- destruct Hs as (Hb & _ & [= <- <-]). apply andb_true_iff in Hb as [_ Ht%negb_true_iff]. done.
- destruct Hs as [Hb Hs]. apply negb_true_iff, orb_false_iff in Hb as [_ Ht]. destruct (call_named e) as [[c o]|]; [|done].
rewrite rassert_bind in Hs. destruct Hs as [_ [= <- <-]]. done.
- by destruct Hs as [_ [= <- <-]].
- destruct (contains tool_only (e_type e)) eqn:Ec.
{ rewrite rassert_bind in Hs. destruct Hs as [_ [= <- <-]]. apply contains_spec in Ec. unfold tool_only in Ec.
repeat (apply elem_of_cons in Ec as [->|Ec]; [decided; by split|]). by apply elem_of_nil in Ec. }
destruct (str_eqb (e_type e) "error") eqn:Ee.
{ apply str_eqb_true in Ee. rewrite Ee. rewrite rassert_bind in Hs. by destruct Hs as [_ [= <- <-]]. }
destruct (str_eqb (e_type e) "tool.response") eqn:Et.
{ rewrite !rassert_bind in Hs. destruct Hs as (Ho & Hn & [= <- <-]). apply bool_decide_eq_true in Hn. done. }
destruct (contains ["execution.paused"; "execution.completed"] (e_type e)) eqn:Ec2; [|done]. rewrite !rassert_bind in Hs. destruct Hs as (_ & _ & [= <- <-]). split; [done|].
intros Hm. rewrite Hm in *. done.
Qed.

(** The calls discovered so far, next to the scan's state. *)
Record discovered (events : list Event) (open : bool) (id operation : string) (st : list call * option nat) : Prop := {
dc_calls : if open then exists closed c, st.1 = closed ++ [c] /\ Forall (call_in events) closed /\ call_open events c /\ (cl_id c, cl_operation c) = (id, operation) /\ st.2 = None
       else Forall (call_in events) st.1;
dc_decision : forall i, st.2 = Some i -> (i < length st.1)%nat;
dc_requests : map cl_request st.1 = map e_seq (List.filter (fun e => str_eqb (e_type e) "tool.request") events) }.
Lemma requests_snoc events e : map e_seq (List.filter (fun e => str_eqb (e_type e) "tool.request") (events ++ [e])) =
map e_seq (List.filter (fun e => str_eqb (e_type e) "tool.request") events) ++ (if str_eqb (e_type e) "tool.request" then [e_seq e] else []).
Proof. rewrite List.filter_app, map_app. cbn. by destruct (str_eqb _ _). Qed.
Lemma call_open_app events l c : call_open events c -> call_open (events ++ l) c.
Proof. intros [(e & H1 & ?) ?]. split; [|done]. exists e. by split; [apply event_at_app|]. Qed.
Lemma decided_in events e c : call_in events c -> e_type e = "model.response" -> e_seq e = Z.of_nat (length events) + 1 ->
call_in (events ++ [e]) (with_decision (e_seq e) c).
Proof.
intros Hc Ht Hs. pose proof (call_in_app _ [e] _ Hc) as [H1 H2 _]. split; [done..|]. right. exists e. cbn. rewrite Hs. split; [apply event_at_last|]. split; [done|].
destruct (ci_response _ _ Hc) as (e2 & He%event_at_bound & _). lia.
Qed.
Lemma alter_call_in events l e i (calls : list call) : Forall (call_in events) calls -> e_type e = "model.response" -> e_seq e = Z.of_nat (length events) + 1 -> l = [e] ->
Forall (call_in (events ++ l)) (alter (with_decision (e_seq e)) i calls).
Proof.
intros Hall Ht Hs ->. apply Forall_lookup. intros j c Hj. rewrite list_lookup_alter in Hj. rewrite Forall_lookup in Hall.
destruct (decide (i = j)) as [->|_].
- apply fmap_Some in Hj as (c' & Hc & ->). apply decided_in; [by eapply Hall|done|done].
- apply call_in_app. by eapply Hall.
Qed.
Lemma map_alter_same {A B} (f : A -> B) (g : A -> A) i (l : list A) : (forall x, f (g x) = f x) -> map f (alter g i l) = map f l.
Proof. intros Hg. revert i. induction l as [|x l IH]; intros [|i]; cbn; [done|done|by rewrite Hg|]. f_equal. apply IH. Qed.
Lemma discover_step run runID md last events st e st' dst : scan_event run runID md last (Z.of_nat (length events)) e st = Ok st' ->
discovered events (sc_toolOpen st) (sc_toolCallID st) (sc_toolOperation st) dst ->
exists dst', discover dst e = Ok dst' /\ discovered (events ++ [e]) (sc_toolOpen st') (sc_toolCallID st') (sc_toolOperation st') dst'.
Proof.
intros Hs [Hc Hd Hr]. apply scan_event_ok in Hs as (Hi & entry & st1 & b & _ & Hty & ->). apply in_place_seq in Hi.
apply scan_tool in Hty. cbn [add_hash sc_toolOpen sc_toolCallID sc_toolOperation] in Hty.
assert (E : forall s, (sc_toolOpen (if b then add_point runID md e s else s), sc_toolCallID (if b then add_point runID md e s else s), sc_toolOperation (if b then add_point runID md e s else s))
= (sc_toolOpen s, sc_toolCallID s, sc_toolOperation s)) by (intros; by destruct b).
specialize (E st1). injection E as -> -> ->. destruct dst as [calls dec]. cbn [fst snd] in *. unfold discover.
destruct (str_eqb (e_type e) "tool.request") eqn:E1.
{ destruct Hty as (Ho & Ho' & Hn). rewrite Ho in Hc. rewrite Ho', Hn. eexists. split; [reflexivity|]. split; cbn [fst snd].
- eexists calls, _. split; [reflexivity|]. split; [eapply Forall_impl; [exact Hc|intros; by apply call_in_app]|]. split; [|done].
split; [|done]. exists e. cbn. rewrite Hi. split; [apply event_at_last|]. apply str_eqb_true in E1. done.
- done.
- by rewrite map_app, requests_snoc, E1, Hr. }
destruct (str_eqb (e_type e) "tool.response") eqn:E2.
{ destruct Hty as (Ho & Ho' & Hn). rewrite Ho in Hc. rewrite Ho'. destruct Hc as (closed & c & -> & Hcl & Hop & Hid & ->). destruct (closed ++ [c]) as [|c0 l0] eqn:El; [by destruct closed|].
rewrite <- El in *. eexists. split; [reflexivity|]. split; cbn [fst snd].
- rewrite length_app. cbn [length]. replace (length closed + 1 - 1)%nat with (length closed + 0)%nat by lia. rewrite alter_app_r. apply Forall_app. split.
+ eapply Forall_impl; [exact Hcl|intros; by apply call_in_app].
+ constructor; [|constructor]. destruct Hop as [(e1 & H1 & Ht1 & Hn1) [Hz1 Hz2]]. split.
  * exists e1. cbn. by split; [apply event_at_app|].
  * exists e. cbn. rewrite Hi. split; [apply event_at_last|]. split; [by apply str_eqb_true in E2|]. split; [rewrite Hn; congruence|].
    apply event_at_bound in H1. lia.
  * by left.
- intros i [= <-]. rewrite length_alter, length_app. cbn. lia.
- rewrite map_alter_same by done. by rewrite requests_snoc, E1, app_nil_r. }
destruct Hty as [Hsame Hmodel]. injection Hsame as -> -> ->. destruct (str_eqb (e_type e) "model.response") eqn:E3.
- apply str_eqb_true in E3. rewrite (Hmodel E3) in *. eexists. split; [reflexivity|]. split; cbn [fst snd]; [|done|].
+ destruct dec as [i|]; [by apply alter_call_in|]. eapply Forall_impl; [exact Hc|intros; by apply call_in_app].
+ rewrite requests_snoc, E1, app_nil_r. destruct dec; [|done]. by rewrite map_alter_same.
- eexists. split; [reflexivity|]. split; cbn [fst snd]; [|done|by rewrite requests_snoc, E1, app_nil_r].
destruct (sc_toolOpen st); [|eapply Forall_impl; [exact Hc|intros; by apply call_in_app]].
destruct Hc as (closed & c & -> & Hcl & Hop & Hid & ->). exists closed, c. split; [done|]. split; [eapply Forall_impl; [exact Hcl|intros; by apply call_in_app]|].
split; [by apply call_open_app|done].
Qed.
Lemma discover_events run runID md last events todo st st' dst : scan_events run runID md last (Z.of_nat (length events)) todo st = Ok st' ->
discovered events (sc_toolOpen st) (sc_toolCallID st) (sc_toolOperation st) dst ->
exists dst', rfold discover dst todo = Ok dst' /\ discovered (events ++ todo) (sc_toolOpen st') (sc_toolCallID st') (sc_toolOperation st') dst'.
Proof.
revert events st dst. induction todo as [|e todo IH]; intros events st dst Hs Hd; cbn [scan_events rfold] in *.
- injection Hs as <-. exists dst. by rewrite app_nil_r.
- apply rbind_ok in Hs as (st1 & He & Hs). destruct (discover_step _ _ _ _ _ _ _ _ _ He Hd) as (dst1 & -> & Hd1). cbn [rbind].
rewrite (cons_middle e events todo), app_assoc. eapply IH; [|exact Hd1]. rewrite length_app, Nat2Z.inj_add. exact Hs.
Qed.
(** Every call of a ledger that [List] accepts is found, with its response; the
calls are in the order of their requests. *)
Lemma discover_listed `{binding : SqlBind, nodes : YamlNodes, world_yaml : WorldYaml} s runID manifest points : List s runID manifest = Ok points ->
exists calls, discoverCalls (Events runID s) = Ok calls /\ Forall (call_in (Events runID s)) calls /\
map cl_request calls = map e_seq (List.filter (fun e => str_eqb (e_type e) "tool.request") (Events runID s)).
Proof.
unfold List. intros Hl. apply rbind_ok in Hl as (_ & _ & Hl). apply rbind_ok in Hl as (run & Hrun & Hl). apply rassert_bind in Hl as [_ Hl].
apply rbind_ok in Hl as (world & _ & Hl). do 2 apply rassert_bind in Hl as [_ Hl]. cbv zeta in Hl.
apply rbind_ok in Hl as (st & Hs & Hl). apply rassert_bind in Hl as [Hopen _]. apply negb_true_iff, orb_false_iff in Hopen as [_ Ht].
destruct (discover_events _ _ _ _ [] _ _ _ ([], None) Hs) as ([calls dec] & Hd & [Hc _ Hr]); [split; [constructor|done|done]|]. rewrite Ht in Hc. exists calls.
unfold discoverCalls. rewrite Hd. done.
Qed.

(** ** Planning *)

Section Planning.
Context `{binding : SqlBind, nodes : YamlNodes, spec_yaml : SpecYaml, world_yaml : WorldYaml, policy_yaml : AuthzPolicy.PolicyYaml, chaos_yaml : ChaosPolicy.ChaosYaml}.
Context {P : Type} (answers : P -> Provider) (same_provider : P -> P -> bool).
Context (source : DB) (parentID : string) (parent : RunRow) (manifest : Manifest) (providerFor : string -> string -> string -> res err P).

(** The variables a fork changes. *)
Definition changes (o : Fork.Options) : list string :=
let when (b : bool) (kind : string) := if b then [kind] else [] in
when (given (Fork.op_ChaosPolicyRaw o)) KindChaosPolicy ++ when (given (Fork.op_AuthPolicyRaw o)) KindAuthPolicy
++ when (negb (bool_decide (Fork.op_FaultOperation o = None))) KindFault ++ when (given (Fork.op_Provider o) || given (Fork.op_Model o)) KindModel
++ when (match Fork.op_Observation o with Some _ => true | None => false end) KindToolResponse.
Lemma one_variable i o : fork_options parent i = Ok o -> changes o ⊆ [iv_Kind i].
Proof.
unfold fork_options. repeat match goal with |- context [str_eqb (iv_Kind i) ?k] =>
let E := fresh "E" in destruct (str_eqb (iv_Kind i) k) eqn:E; [apply str_eqb_true in E; rewrite E|clear E] end.
all: intros H; try (apply rassert_bind in H as [_ H]); injection H as <-; unfold changes, no_options; cbn [Fork.op_ChaosPolicyRaw Fork.op_AuthPolicyRaw Fork.op_FaultOperation
Fork.op_Provider Fork.op_Model Fork.op_Observation]; change (given "") with false; cbn [negb bool_decide orb].
1-2: destruct (given _); cbn [app]; set_solver.
- cbn [app]. case_bool_decide; cbn [app negb]; set_solver.
- destruct (given _ || given _); cbn [app]; set_solver.
- cbn [app]. set_solver.
- cbn [app]. set_solver.
Qed.

Lemma candidate_fields i c cand : candidate_at i c = Ok (Some cand) ->
untried cand /\ ca_CallID cand = cl_id c /\ ca_OperationID cand = cl_operation c /\ ca_Intervention cand = iv_ID i /\ ca_Kind cand = iv_Kind i.
Proof. unfold candidate_at. repeat case_match; try done; intros [= <-]; repeat split. Qed.
(** The event of a candidate, and the position it is forked at. *)
Lemma candidate_event_ok events i c cand : call_in events c -> candidate_at i c = Ok (Some cand) ->
ca_CheckpointSeq cand <= ca_EventSeq cand /\ exists e, event_at events (ca_EventSeq cand) = Some e /\ e_type e = ca_EventType cand.
Proof.
intros [(e1 & H1 & T1 & _) (e2 & H2 & T2 & _ & H12) Hd]. unfold candidate_at. destruct (str_eqb (iv_Kind i) KindModel).
- destruct (Z.eqb_spec (cl_decision c) 0) as [E|E]; [by case_match|]. intros [= <-]. cbn. destruct Hd as [Hd|(e3 & H3 & T3 & H23)]; [done|]. split; [lia|]. by exists e3.
- destruct (str_eqb (iv_Kind i) KindToolResponse); intros [= <-]; cbn; (split; [lia|]); [by exists e2|by exists e1].
Qed.

(** What a plan of an intervention at a call is. *)
Record plan_at (points : list Checkpoint) (i : Intervention) (c : call) (p : plan (P := P)) : Prop := {
pt_candidate : candidate_at i c = Ok (Some (pl_candidate p));
pt_checkpoint : Select points (ca_CheckpointSeq (pl_candidate p)) = Ok (pl_checkpoint p);
pt_options : fork_options parent i = Ok (pl_options p);
pt_valid : ValidateOptions parent manifest (pl_options p) = Ok tt;
pt_provider : providerFor (chosen (Fork.op_Provider (pl_options p)) (run_provider parent)) (chosen (Fork.op_Model (pl_options p)) (run_model parent)) (run_scenario parent)
= Ok (pl_provider p);
pt_differs : iv_Kind i = KindModel -> unchangedProvider same_provider parent providerFor
(chosen (Fork.op_Provider (pl_options p)) (run_provider parent)) (chosen (Fork.op_Model (pl_options p)) (run_model parent)) (pl_provider p) = false }.
(** The plans of an intervention: one per candidate of its targets. *)
Definition plans_at (calls : list call) (points : list Checkpoint) (i : Intervention) (new : list (plan (P := P))) : Prop :=
exists cs, targets parentID calls i = Ok cs /\ (forall p, p ∈ new -> exists c, c ∈ cs /\ plan_at points i c p) /\
(forall c cand, c ∈ cs -> candidate_at i c = Ok (Some cand) -> exists p : plan (P := P), p ∈ new /\ pl_candidate p = cand).
Lemma plan_targets_ok points i o provider plans cs plans' : rfold (plan_target points i o provider) plans cs = Ok plans' ->
exists new : list (plan (P := P)), plans' = plans ++ new /\
(forall p, p ∈ new -> pl_options p = o /\ pl_provider p = provider /\
 exists c, c ∈ cs /\ candidate_at i c = Ok (Some (pl_candidate p)) /\ Select points (ca_CheckpointSeq (pl_candidate p)) = Ok (pl_checkpoint p)) /\
(forall c cand, c ∈ cs -> candidate_at i c = Ok (Some cand) -> exists p : plan (P := P), p ∈ new /\ pl_candidate p = cand).
Proof.
revert plans. induction cs as [|c cs IH]; intros plans; cbn [rfold].
- intros [= <-]. exists []. rewrite app_nil_r. split_and!; [done|by intros p ?%elem_of_nil|by intros c cand ?%elem_of_nil].
- rewrite rbind_ok. intros (plans1 & H1 & (new & -> & Hs & Hc)%IH). unfold plan_target in H1. apply rbind_ok in H1 as ([cand|] & Hcand & H1).
+ apply rbind_ok in H1 as (selected & Hsel & [= <-]). exists (MkPlan cand selected o provider :: new). split; [by rewrite <- app_assoc|].
assert (Hsel' : Select points (ca_CheckpointSeq cand) = Ok selected) by (by destruct (Select _ _); [injection Hsel as ->|]). split.
* intros p [->|Hp]%elem_of_cons; [do 2 (split; [done|]); exists c; split; [left|done]|]. destruct (Hs p Hp) as (E1 & E2 & c' & Hc' & Hx). do 2 (split; [done|]).
  exists c'. split; [by right|done].
* intros c' cand' [->|Hin]%elem_of_cons Hx.
  -- rewrite Hcand in Hx. injection Hx as <-. eexists. split; [left|done].
  -- destruct (Hc _ _ Hin Hx) as (p & Hp & E). exists p. split; [by right|done].
+ injection H1 as <-. exists new. split; [done|]. split.
* intros p Hp. destruct (Hs p Hp) as (E1 & E2 & c' & Hc' & Hx). do 2 (split; [done|]). exists c'. split; [by right|done].
* intros c' cand' [->|Hin]%elem_of_cons Hx; [congruence|]. by eapply Hc.
Qed.
Lemma plan_intervention_ok calls points plans i plans' : plan_intervention same_provider source parentID parent manifest providerFor calls points plans i = Ok plans' ->
exists new, plans' = plans ++ new /\ plans_at calls points i new.
Proof.
unfold plan_intervention. intros H. apply rbind_ok in H as (cs & Hcs & H). do 2 apply rassert_bind in H as [_ H]. apply rbind_ok in H as (o & Ho & H).
apply rbind_ok in H as ([] & Hv & H). cbv zeta in H. apply rbind_ok in H as (provider & Hp & H). apply rassert_bind in H as [Hm H].
apply plan_targets_ok in H as (new & -> & Hs & Hc). exists new. split; [done|]. exists cs. split; [done|]. split; [|done].
intros p Hin. destruct (Hs p Hin) as (E1 & E2 & c & Hc' & Hcand & Hsel). exists c. split; [done|].
assert (Hv' : ValidateOptions parent manifest o = Ok tt) by (destruct (ValidateOptions parent manifest o) as [[]|]; done).
split; rewrite ?E1, ?E2; try done.
- by destruct (providerFor _ _ _); [injection Hp as ->|].
- intros Hk. apply negb_true_iff in Hm. rewrite Hk in Hm. by destruct (unchangedProvider _ _ _ _ _ _).
Qed.
Lemma planForks_ok calls points interventions plans : planForks same_provider source parentID parent manifest providerFor interventions calls points = Ok plans ->
plans <> [] /\ (forall p, p ∈ plans -> exists i new, i ∈ interventions /\ p ∈ new /\ plans_at calls points i new) /\
(forall i, i ∈ interventions -> exists new, (forall p, p ∈ new -> p ∈ plans) /\ plans_at calls points i new).
Proof.
unfold planForks. rewrite rbind_ok. intros (plans0 & Hf & H). apply rassert_bind in H as [Hne [= ->]]. split; [by intros ->|]. clear Hne.
assert (Hall : forall acc, rfold (plan_intervention same_provider source parentID parent manifest providerFor calls points) acc interventions = Ok plans ->
exists new, plans = acc ++ new /\ (forall p, p ∈ new -> exists i l, i ∈ interventions /\ p ∈ l /\ plans_at calls points i l) /\
(forall i, i ∈ interventions -> exists l, (forall p, p ∈ l -> p ∈ new) /\ plans_at calls points i l)).
{ clear Hf. induction interventions as [|i l IH]; intros acc; cbn [rfold].
- intros [= ->]. exists []. rewrite app_nil_r. split_and!; [done|by intros p ?%elem_of_nil|by intros i ?%elem_of_nil].
- rewrite rbind_ok. intros (acc1 & (new1 & -> & H1)%plan_intervention_ok & (new & -> & Hs & Hc)%IH). exists (new1 ++ new). split; [by rewrite app_assoc|]. split.
+ intros p [Hp|Hp]%elem_of_app; [exists i, new1; split; [left|done]|]. destruct (Hs p Hp) as (i' & l' & Hi & Hl). exists i', l'. split; [by right|done].
+ intros i' [->|Hi]%elem_of_cons; [exists new1; split; [set_solver|done]|]. destruct (Hc i' Hi) as (l' & Hl & Hpl). exists l'. split; [set_solver|done]. }
destruct (Hall [] Hf) as (new & -> & H1 & H2). done.
Qed.
End Planning.

(** ** Analyses *)

Section Analyses.
Context `{binding : SqlBind, nodes : YamlNodes, spec_yaml : SpecYaml, world_yaml : WorldYaml, policy_yaml : AuthzPolicy.PolicyYaml, chaos_yaml : ChaosPolicy.ChaosYaml}.
Context {P : Type} (answers : P -> Provider) (same_provider : P -> P -> bool).

(** What [Prepare] has checked. *)
Record prepared (source : DB) (runID : string) (manifest : Manifest) (t : ISet) (judge : Judge) (options : Counterfactual.Options (P := P)) (a : Analysis (P := P)) : Prop := {
pp_failing : exists parent check, runs source !! runID = Some parent /\ run_status parent = "completed" /\ fork_lineage source !! runID = None /\
jd_check judge = Some check /\ check source runID parent = Ok (false, fl_Failed (cr_Failure (an_header a)));
pp_header : an_header a = MkReport runID method (MkFailure (jd_Name judge) (jd_Digest judge) (fl_Failed (cr_Failure (an_header a)))) (Counterfactual.Digest t) (op_Trials options) [];
pp_same : an_manifest a = manifest /\ an_judge a = judge /\ an_options a = options;
pp_limits : 1 <= op_Trials options <= 100 /\ 1 <= op_Steps options;
pp_plans : exists parent points calls pf, runs source !! runID = Some parent /\ List source runID manifest = Ok points /\ discoverCalls (Events runID source) = Ok calls /\
planForks same_provider source runID parent manifest pf (is_interventions t) calls points = Ok (an_plans a) }.
Lemma Prepare_ok source runID manifest t judge options a : Prepare same_provider source runID manifest t judge options = Ok a -> prepared source runID manifest t judge options a.
Proof.
unfold Prepare. intros H. apply rassert_bind in H as [_ H]. apply rbind_ok in H as (check & Hck%rsome_ok & H). apply rbind_ok in H as (pf & Hpf & H).
apply rbind_ok in H as (parent & Hrun%rsome_ok & H). apply rassert_bind in H as [Hst%str_eqb_true H]. apply rassert_bind in H as [Hl H].
apply rbind_ok in H as (points & Hpts & H). cbv zeta in H. apply rbind_ok in H as ([passed failed] & Hj & H). apply rassert_bind in H as [Hp%negb_true_iff H]. subst passed.
apply rbind_ok in H as (calls & Hc & H). apply rbind_ok in H as (plans & Hpl & [= <-]).
destruct ((1 <=? op_Trials options) && (op_Trials options <=? 100) && (1 <=? op_Steps options)) eqn:El; [|done]. rewrite !andb_true_iff, !Z.leb_le in El.
split; cbn; [|done|done|lia|].
- exists parent, check. split_and!; try done. unfold Lineage in Hl. by destruct (fork_lineage source !! runID).
- by exists parent, points, calls, pf.
Qed.
Lemma select_listed s runID manifest points seq p : List s runID manifest = Ok points -> Select points seq = Ok p ->
cp_event_seq p = seq /\ cp_run_id p = runID /\ exists k, checkpoint_at runID (mf_digest manifest) (Events runID s) k = Some p.
Proof.
intros (st & Hs & <- & _)%list_scanned Hsel%rsome_ok. apply List.find_some in Hsel as [Hin He%Z.eqb_eq]. split; [done|].
rewrite (scanned_points _ _ _ _ Hs) in Hin. apply list_elem_of_In, list_elem_of_omap in Hin as (k & _ & Hk). split; [|by exists k].
unfold checkpoint_at in Hk. destruct (Events runID s !! k); [|done]. destruct (boundary _); [|done]. destruct (PrefixDigest _ _ _); [|done]. by injection Hk as <-.
Qed.
Lemma prepared_untried source runID manifest t judge options a : prepared source runID manifest t judge options a ->
Forall (fun p => untried (pl_candidate p) /\ cp_run_id (pl_checkpoint p) = runID) (an_plans a).
Proof.
intros [_ _ _ _ (parent & points & calls & pf & _ & Hl & _ & Hp)]. apply planForks_ok in Hp as (_ & Hp & _). apply Forall_forall. intros p Hin.
destruct (Hp p Hin) as (i & new & _ & Hn & cs & _ & Hpl & _). destruct (Hpl p Hn) as (c & _ & Hc). split; [by eapply candidate_fields, pt_candidate|].
eapply select_listed; [exact Hl|by eapply pt_checkpoint].
Qed.

(** C36. What is analysed and what is tried: an analysis is prepared only of a
completed root run that fails its judge; it has a plan; every plan is an
intervention's, at an event of the run's ledger of the reported type, forked
from the checkpoint with the reported number, at or before that event, with
options that are valid for the run and change at most the variable of the
intervention's kind; and every candidate of a targeted call has its plan. *)
Theorem analysis_prepared source runID manifest t judge options a :
Prepare same_provider source runID manifest t judge options = Ok a ->
(exists parent check, runs source !! runID = Some parent /\ run_status parent = "completed" /\ fork_lineage source !! runID = None /\
 jd_check judge = Some check /\ check source runID parent = Ok (false, fl_Failed (cr_Failure (an_header a)))) /\
an_plans a <> [] /\
(forall p, p ∈ an_plans a -> exists parent i e, runs source !! runID = Some parent /\ i ∈ is_interventions t /\
 ca_Intervention (pl_candidate p) = iv_ID i /\ ca_Kind (pl_candidate p) = iv_Kind i /\
 event_at (Events runID source) (ca_EventSeq (pl_candidate p)) = Some e /\ e_type e = ca_EventType (pl_candidate p) /\
 cp_event_seq (pl_checkpoint p) = ca_CheckpointSeq (pl_candidate p) /\ ca_CheckpointSeq (pl_candidate p) <= ca_EventSeq (pl_candidate p) /\
 (exists k, checkpoint_at runID (mf_digest manifest) (Events runID source) k = Some (pl_checkpoint p)) /\
 ValidateOptions parent manifest (pl_options p) = Ok tt /\ changes (pl_options p) ⊆ [iv_Kind i]) /\
exists calls, discoverCalls (Events runID source) = Ok calls /\
map cl_request calls = map e_seq (List.filter (fun e => str_eqb (e_type e) "tool.request") (Events runID source)) /\
forall i, i ∈ is_interventions t -> exists cs, targets runID calls i = Ok cs /\
forall c cand, c ∈ cs -> candidate_at i c = Ok (Some cand) -> exists p, p ∈ an_plans a /\ pl_candidate p = cand.
Proof.
intros [Hf _ _ _ (parent & points & calls & pf & Hrun & Hl & Hd & Hp)]%Prepare_ok. split; [done|]. apply planForks_ok in Hp as (Hne & Hs & Hc). split; [done|].
destruct (discover_listed _ _ _ _ Hl) as (calls' & Hd' & Hin & Hreq). rewrite Hd in Hd'. injection Hd' as <-. split.
- intros p Hp. destruct (Hs p Hp) as (i & new & Hi & Hn & cs & Ht & Hpl & _). destruct (Hpl p Hn) as (c & Hcs & [Q1 Q2 Q3 Q4 _ _]).
assert (Hcc : c ∈ calls).
{ unfold targets in Ht. destruct (named_calls i) as [ids|]; [|by injection Ht as ->]. apply rmap_ok in Ht. apply list_elem_of_lookup in Hcs as [n Hn'].
destruct (Forall2_lookup_r _ _ _ _ _ Ht Hn') as (id & _ & Hid%rsome_ok). unfold call_by_id in Hid. apply last_Some in Hid as [l' Hl'].
assert (Hx : c ∈ List.filter (fun c => str_eqb (cl_id c) id) calls) by (rewrite Hl'; set_solver). apply list_elem_of_In, List.filter_In in Hx as [Hx _]. by apply list_elem_of_In. }
rewrite Forall_forall in Hin. destruct (candidate_event_ok _ _ _ _ (Hin c Hcc) Q1) as (Hle & e & He & Hty). destruct (candidate_fields _ _ _ Q1) as (_ & _ & _ & E3 & E4).
destruct (select_listed _ _ _ _ _ _ Hl Q2) as (E5 & _ & k & Hk). exists parent, i, e. split_and!; try done; [by exists k|by eapply one_variable].
- exists calls. split; [done|]. split; [done|]. intros i Hi. destruct (Hc i Hi) as (new & Hsub & cs & Ht & _ & Hall). exists cs. split; [done|].
intros c cand Hcs Hx. destruct (Hall _ _ Hcs Hx) as (p & Hp & E). exists p. split; [by apply Hsub|done].
Qed.

Context (err_text : err -> string) (randomWorld randomRun : nat -> res err (list Z)) (clock : nat -> time) (fuel rounds : nat).
Notation analyze := (Analyze answers same_provider err_text randomWorld randomRun clock fuel rounds).

Lemma Analyze_ends runID manifest t judge options s out s' : analyze runID manifest t judge options s = Some (out, s') ->
intact s s' /\ forall report, out = Ok report -> exists a cs, Prepare same_provider s runID manifest t judge options = Ok a /\
report = with_candidates (an_header a) (ranked cs) /\ Forall2 (reported judge (Z.to_nat (op_Trials options)) s s') (an_plans a) cs.
Proof.
unfold Analyze. destruct (Prepare _ _ _ _ _ _ _) as [a|e] eqn:Hp; [|intros [= <- <-]; split; [unfold intact; reflexivity|done]].
intros ([out1 x1] & Hr & Heq)%fmap_Some. injection Heq as -> ->. unfold Run_ in Hr. apply fmap_Some in Hr as ([cs x2] & Hr & Heq). injection Heq as -> ->. cbn.
pose proof (Prepare_ok _ _ _ _ _ _ _ Hp) as Hpp. destruct (pp_same _ _ _ _ _ _ _ Hpp) as (E1 & E2 & E3). rewrite E1, E2, E3 in Hr.
eapply (plans_ok answers err_text randomWorld randomRun clock fuel rounds manifest judge (op_Steps options) _ _ _ _ _ s []) in Hr as [Hi Hcs];
[|unfold intact; reflexivity| |constructor].
2:{ eapply Forall_impl; [exact (prepared_untried _ _ _ _ _ _ _ Hpp)|]. by intros p [Hu _]. }
split; [done|]. intros report Hrep. destruct cs as [cs|e]; [|done]. injection Hrep as <-. exists a, cs. split; [done|]. split; [done|]. by apply Hcs.
Qed.

(** C35. The report says what happened.  Its candidates are those of the prepared
plans, ranked by how often the outcome changed, then by the event, then by
the intervention's name; each was forked once per trial, its counts are those
of its evidence and exclude each other, and every outcome is of a new run,
forked from the plan's checkpoint of the analysed run, whose verdict is the
judge's of that run when it completed, on the run and world as they still
are. *)
Theorem analysis_report runID manifest t judge options s report s' : analyze runID manifest t judge options s = Some (Ok report, s') ->
exists a cs, Prepare same_provider s runID manifest t judge options = Ok a /\ report = with_candidates (an_header a) (cr_Candidates report) /\
cr_Candidates report ≡ₚ cs /\ StronglySorted not_after (cr_Candidates report) /\
Forall2 (fun p c => candidate_event c = candidate_event (pl_candidate p) /\ ca_Forks c = op_Trials options /\ tallied c /\ ca_Summary c = summarize c /\
ca_Changed c + ca_Errored c + ca_Incomplete c <= ca_Forks c /\ NoDup (map oc_RunID (ca_Evidence c)) /\
Forall (evidence_of judge p s s') (ca_Evidence c) /\ cp_run_id (pl_checkpoint p) = runID) (an_plans a) cs.
Proof.
intros [_ Hr]%Analyze_ends. destruct (Hr _ eq_refl) as (a & cs & Hp & -> & Hall). exists a, cs. pose proof (Prepare_ok _ _ _ _ _ _ _ Hp) as Hpp.
destruct (pp_limits _ _ _ _ _ _ _ Hpp) as [Ht _]. cbn [cr_Candidates with_candidates].
assert (Hcs : Forall2 (fun p c => candidate_event c = candidate_event (pl_candidate p) /\ ca_Forks c = op_Trials options /\ tallied c /\ ca_Summary c = summarize c /\
ca_Changed c + ca_Errored c + ca_Incomplete c <= ca_Forks c /\ NoDup (map oc_RunID (ca_Evidence c)) /\
Forall (evidence_of judge p s s') (ca_Evidence c) /\ cp_run_id (pl_checkpoint p) = runID) (an_plans a) cs).
{ pose proof (prepared_untried _ _ _ _ _ _ _ Hpp) as Hu. clear -Hall Hu Ht. induction Hall as [|p c ps cs [[H1 H2 H3 H4 H5] Hs] _ IH]; constructor.
- apply Forall_cons_1 in Hu as [[_ Hu] _]. pose proof (ta_forks _ H3) as Hf. rewrite H2 in Hf.
split_and!; try done; [rewrite Hf; lia|]. pose proof (tallied_bound _ H3). lia.
- apply IH. by apply Forall_cons_1 in Hu as [_ Hu]. }
split; [done|]. split; [done|]. split; [apply ranked_perm|]. split; [|done]. apply (ranked_sorted (op_Trials options)); [lia|]. clear -Hcs. induction Hcs; constructor; [tauto|done].
Qed.

(** C37. An analysis changes nothing it finds: whatever it tries, and whether or
not it fails half way, every run there was keeps its row, ledger, saved
results, policies, lineage and lease, and every world all of its data. *)
Theorem analysis_intact runID manifest t judge options s out s' : analyze runID manifest t judge options s = Some (out, s') -> intact s s'.
Proof. by intros [Hi _]%Analyze_ends. Qed.
End Analyses.

(** ** An example: a refund that should not have been made *)
Module CounterfactualDemo.
Import CheckpointDemo ReconstructDemo ForkDemo.
(** The completed run that refunded a charge; judged to fail for it. *)
Definition failing_run : DB := executed 5 (create seeded).
Definition no_refund : Judge := MkJudge "no_refund" "" (Some (fun s _ run =>
Ok (match charges s !! (run_world_id run, "CH-1002") with Some c => chg_refunded_cents c =? 0 | None => false end, ["refund"]))).
(** Showing the model a conflict in place of the refund it made, and failing
the refund's dispatch. *)
Definition interventions : list Intervention :=
[MkIntervention "I-conflict" KindToolResponse None "" None "" "" "call-1" 409 "{}" ""; MkIntervention "I-fault" KindFault None "" (Some "createRefund") "" "" "" 0 "" ""].
Definition trial : Counterfactual.Options (P := unit) := Counterfactual.MkOptions 1 3 (Some (fun _ _ _ => Ok ())).
Abbreviation report_of := (Analyze (H := sqlite_bind) (H0 := CheckpointDemo.nodes) (H2 := CheckpointDemo.yaml) (H3 := policy_yaml) (H4 := chaos_yaml)
(fun _ : unit => provider) (fun _ _ => true) (fun _ => "") (fun n => Ok [Z.of_nat n]) (fun n => Ok [Z.of_nat n]) (fun _ => now + day_ns) 0 6
"R-0102ff" manifest (MkISet interventions manifest) no_refund trial failing_run).
Definition ranks (o : option (res err Report * DB)) : bool :=
match o with
| Some (Ok report, _) => bool_decide (map (fun c => (ca_Intervention c, ca_Changed c, ca_Forks c)) (cr_Candidates report) = [("I-fault", 1, 1); ("I-conflict", 0, 1)])
| _ => false
end.
Lemma fault_corrects : ranks report_of = true.
Proof. vm_compute. reflexivity. Qed.
Lemma ranks_spec o : ranks o = true -> exists report s', o = Some (Ok report, s').
Proof. destruct o as [[[report|e] s']|]; [by exists report, s'|done..]. Qed.
Abbreviation prepared_analysis := (Prepare (H := sqlite_bind) (H0 := CheckpointDemo.nodes) (H2 := CheckpointDemo.yaml) (H3 := policy_yaml) (H4 := chaos_yaml)
(fun _ _ : unit => true) failing_run "R-0102ff" manifest (MkISet interventions manifest) no_refund trial).
Definition is_prepared (o : res err (Analysis (P := unit))) : bool := match o with Ok a => Nat.eqb (length (an_plans a)) 2 | Err _ => false end.
Lemma two_plans : is_prepared prepared_analysis = true.
Proof. vm_compute. reflexivity. Qed.
Lemma is_prepared_spec o : is_prepared o = true -> exists a, o = Ok a.
Proof. destruct o as [a|e]; [by exists a|done]. Qed.
End CounterfactualDemo.

Lemma analysis_prepared_witness : exists a, CounterfactualDemo.prepared_analysis = Ok a /\ an_plans a <> [].
Proof.
destruct (CounterfactualDemo.is_prepared_spec _ CounterfactualDemo.two_plans) as [a Ha]. exists a. split; [exact Ha|].
exact (proj1 (proj2 (analysis_prepared (policy_yaml := ForkDemo.policy_yaml) (chaos_yaml := ForkDemo.chaos_yaml) _ _ _ _ _ _ _ _ Ha))).
Defined.
Lemma analysis_report_witness : exists report s', CounterfactualDemo.report_of = Some (Ok report, s') /\ StronglySorted not_after (cr_Candidates report).
Proof.
destruct (CounterfactualDemo.ranks_spec _ CounterfactualDemo.fault_corrects) as (report & s' & Hr). exists report, s'. split; [exact Hr|].
destruct (analysis_report (policy_yaml := ForkDemo.policy_yaml) (chaos_yaml := ForkDemo.chaos_yaml) _ _ _ _ _ _ _ _ _ _ _ _ _ _ _ _ Hr) as (a & cs & _ & _ & _ & Hs & _).
exact Hs.
Defined.
Lemma analysis_intact_witness : exists report s', CounterfactualDemo.report_of = Some (Ok report, s') /\ intact CounterfactualDemo.failing_run s'.
Proof.
destruct (CounterfactualDemo.ranks_spec _ CounterfactualDemo.fault_corrects) as (report & s' & Hr). exists report, s'. split; [exact Hr|].
exact (analysis_intact (policy_yaml := ForkDemo.policy_yaml) (chaos_yaml := ForkDemo.chaos_yaml) _ _ _ _ _ _ _ _ _ _ _ _ _ _ _ _ Hr).
Defined.
End CounterfactualFacts.
